(* ===== verification/_CoqProject ===== *)
-Q . S2P
Prelude.v
Prog.v
Stable.v
CanDbc.v
Os.v
Grpc.v
KuksaClient.v
SeatController.v
CanSim.v
CanSimLib.v
VirtualMachine.v
Printing.v
CtlMachine.v
ControllerSpec.v
ControlLoopSpec.v
ApiSpec.v
ThreadSpec.v
Invariants.v
Interleaving.v
SeatAdjuster.v
ClosedLoop.v
Session.v
SeatsService.v
EndToEnd.v
Scenario.v
Races.v
DataBrokerFeeder.v
FeederSpec.v
FeederLiveness.v
SeatService.v
BrokerCalls.v
Signals.v
FeederTypes.v
Process.v
ProcessSpec.v
ProcessRequests.v
ProcessObjects.v
ProcessThreads.v
LostShutdown.v
ProcessView.v
ProcessExit.v
Teardown.v
ProcessProgress.v
ProcessScenario.v
SeatServiceSpec.v
BrokerLoop.v
CanHelpers.v
SeatControllerMain.v
Client.v
ClientScenario.v
Examples.v
Witnesses.v
ProcessWitnesses.v
