(* ===== verification/Prelude.v ===== *)
(** * Verification of the KUKSA.VAL seat service

    The program is the C and C++ seat service of [src/seat_service/src]: a gRPC service that
    moves the driver's seat by sending commands to a seat ECU over CAN, and reports the seat's
    position to a data broker.  This file is the root of the development; it also holds what all
    the others share: machine-width integers, one lemma on bit fields, hints and tactics.

    ** The program

    A gRPC handler ([seats_grpc_service.cc]) checks a request and calls the seat adjuster
    ([seat_adjuster.cc]), a C++ class over a C library, the seat controller
    ([seat_controller.cc]).  The controller keeps one context record that is shared, without a
    lock, by the callers of its API and by the control-loop (CTL) thread.  [seatctrl_set_position]
    writes a command frame and publishes a goal; the CTL thread reads status frames, stores what
    they say in the context, and after each of them stops the motor once the goal is reached, the
    operation has timed out, or gives the motor another push when it stopped early.  Changes of
    the position go through a C callback to the adjuster's subscriber, the data feeder
    ([seat_data_feeder.cc]), whose thread ([data_broker_feeder.cc]) registers data points with the
    broker and feeds values to it.  A second thread ([seat_position_subscriber.cc]) receives
    actuator targets from the broker and calls the adjuster.  [main.cc] starts and stops all of
    it.  For tests the process runs against a simulated ECU ([seatadjuster_engine.c]) that hooks
    the libc functions of the CAN socket ([cansim_lib.c]).

    ** Files

    Foundations.
    - [Prog]: effectful programs as trees of operations ([prog]); [run] executes one on a machine,
      [Pool] interleaves several, and [keeps] is the invariant rule for the second reading;
      [Pool.learns] collects what the operations of a run take from outside.
    - [Stable]: rules for a thread that relies on facts the others leave alone and performs its
      operations only where they may be ([proves]), for interpreted programs, and for what happens
      between two operations of a thread ([bracketed]).
    - [Os]: the system and C library calls ([osE]), the interface [OS] of an operating system,
      what POSIX and SocketCAN document about the answers ([os_answer], [OSLaws]), and [atoi].
    - [VirtualMachine]: clocks ([Clock]) and a concrete operating system with a virtual clock.
    - [Grpc]: status codes and their printing ([kuksa_client.cc], [toString]).

    The seat controller, [lib/seat_adjuster/seat_controller].
    - [CanDbc]: [seat_ecu.dbc]: the layout of the two messages and the codec read off it.  The
      generated C codec is the class [Cantools]; theorems assume its laws [CantoolsLaws], which
      [dbc_codec] satisfies.
    - [SeatController]: [seat_controller.h] and [seat_controller.cc], every function that changes
      state.  One record field is one member of [seatctrl_context_t]; the static variables of the
      control loop are [ctl_statics]; a statement that reads or writes the context is one
      operation.
    - [Printing]: the dumping functions of [seat_controller.cc], as functions to strings.
    - [CtlMachine], [ControllerSpec], [ControlLoopSpec], [ApiSpec], [ThreadSpec]: the machine a
      controller program runs on, and its correctness for one thread at a time.
    - [Invariants]: the class [Invariant], the laws an invariant of contexts and events has to
      meet, given what clients ask for and what the bus reports, and that every program of the
      controller keeps such an invariant under every interleaving; [Interleaving]: its two
      instances, well-formedness and "somebody asked".
    - [CanSim]: the simulated ECU and the hooked functions; [CanSimLib]: loading the simulator.
      [ClosedLoop]: the control loop against a bus that answers.
    - [Session]: calls of the API and iterations of the loop, each as a whole, in any order.
    - [Races]: clients and the CTL thread under given schedules, step by step.
    - [SeatControllerMain]: [main.cc] of the controller.

    The service.
    - [SeatAdjuster]: [seat_adjuster.cc].  The class [Adjuster] is what clients see of it.
    - [SeatsService]: [seats_grpc_service.cc]: the handlers as programs over the two operations of
      the adjuster they use; [serve] runs one with the adjuster to itself, proved against [Adjuster].
    - [KuksaClient], [DataBrokerFeeder], [FeederSpec], [FeederLiveness]: [lib/broker_feeder].  The
      class [Broker] is the broker the feeder runs against, [RecoveringBroker] one whose failures
      come to an end.  [BrokerCalls]: the methods of [kuksa_client.cc] over the generated stubs,
      and its two users on top of them.
    - [SeatService], [SeatServiceSpec], [FeederTypes]: [bin/seat_service].  [Signals]: the signal
      handling of its [main.cc], over a model of the pipe.
    - [EndToEnd], [Scenario], [BrokerLoop]: the composition of all of it, on any live bus, on the
      simulator, and from the broker through the simulator back to the broker.
    - [Process]: the process of [main.cc]: the programs of all its threads (main, CTL, data feeder,
      subscriber, gRPC server and handlers, signal handlers), its objects and its shared state, and
      one step of any of them in any environment ([proc_step]).  [ProcessSpec]: the invariants of
      the components carried over to it ([process_keeps]), in runs in which the bus and the broker
      say certain things only; [ProcessRequests]: what the seat is moved for and what the broker is
      told; [ProcessObjects]: threads and the objects they work on; [ProcessThreads]: the CTL thread
      and the adjuster; [LostShutdown]: the shutdown that is forgotten; [ProcessExit]: what exit
      code 0 means; [ProcessView]: what the main thread knows of the others when it starts, stops
      and awaits them; [ProcessProgress]: that they end when told to; [Teardown]: an executable process on the simulator, and schedules of it;
      [ProcessScenario]: whole lives of it, with a client and a broker.
    - [CanHelpers]: [lib/can_helpers].
    - [Client]: the command-line client, a program over the stub and the output streams;
      [ClientScenario]: the client against the service on the simulator.  [Examples]: the other
      example programs.
    - [Witnesses], [ProcessWitnesses]: every theorem with hypotheses at a concrete input.

    ** What is proved

    - End to end.  [move_request_completes]: after an accepted [Move] on a live bus, with the
      position known and no other thread at work while the request is carried out, the CTL thread
      ends the operation with a stop, at the position or after the timeout.
      [simulated_move_arrives]: on the simulated ECU every percentage is reached, within an
      explicit number of frames.  [broker_target_comes_back]: an actuator target of the broker
      moves the seat and comes back as the value of the seat's position.
      [client_waits_for_the_seat]: the client sees every whole percentage arrive.
    - The controller.  [set_position_contract], [stop_movement_spec] and the lemmas [open_spec],
      [close_spec], [default_config_usable], [handle_secu_stat_spec] give the result, the context
      and the frames on every branch; [position_follows_frames] says that a status frame
      determines the position.  [control_loop_refines] is the refinement of the control loop to
      [supervise], a function on goals and observations, and [thread_refines] lifts it to the whole
      thread: a run of the thread is the run of the abstract supervisor on what the bus gave.
      [session_refines] adds the calls of the API, taken as a whole, as inputs of the supervisor;
      [motor_follows_goal] is what one then may rely on: the motor is commanded exactly while there
      is a goal.  Theorems on frames speak of those handed to the socket ([written]); where they
      speak of the bus they count the writes that were complete ([sent]), and a write that fails at
      the start of a movement leaves a goal without a command ([set_position_contract]).
      [close_ends_thread] and [failed_open_blocks_reopen] treat the life cycle.
    - Concurrency.  [bus_safety]: whatever the threads interleave and the system answers, every
      frame on the bus is a legal command and every reported position is one the ECU may report.
      [motion_needs_a_request]: every goal was asked for, and without a legal request nothing but
      stops is sent.  [concurrent_requests_mix]: what is not guaranteed, two requests at a time can
      cancel each other, and [request_at_the_end_is_lost]: a single client whose request meets the
      end of an operation is left with a running motor that nothing stops.
      [feeder_stop_is_final]: once the feeder has been stopped it stays stopped.
      [first_signal_ends_the_wait]: no signal is lost and the handler never blocks.
    - The process.  [process_safe]: the invariants of [bus_safety] and [fed_values_have_their_type]
      for all threads of the process together, the values with the ids they are sent under: the ids
      of names are what the answers of the broker in the run have said ([Pool.learns]).
      [process_moves_on_request]: every goal is what an
      admitted call of the service or a legal target of the broker asked for.
      [fed_values_come_from_the_bus]: every value for the broker is an initial value or a position
      that the bus has reported, under an id of its own name.  [threads_end_before_objects]: no
      thread works on an object that is gone, apart from two kinds of access, and
      [late_callback_and_late_cancel]: both of them happen.  [ctl_thread_ends_first]: the CTL thread
      has ended when the adjuster goes.  Both rest on [pthread_join] with the id that the thread was
      created with ([pr_ctl_id]), which the code does not use when it is 0.  [exit_0_is_orderly]:
      without [SA_EXIT], exit code 0 is reached only after all other threads and objects.
      [a_whole_life], [orderly_shutdown]: schedules in which all goes well;
      [exit_leaves_the_motor_running]: two in which the motor is left on.
      [process_gets_on]: from every state some continuation brings the main thread to the exit, or
      to one of its two waits for something outside of its power, a signal and the end of the
      subscriber.
      [forgotten_shutdown_hangs]: a shutdown at the wrong moment is never acted upon, and
      [forgotten_reachable] gives three such moments.  [calls_carry_app_id]: every call to the broker
      carries the metadata of the client.
    - Data.  [controller_and_ecu_agree]: the database, which the controller's codec is generated
      from, and the shifts and masks of the simulated ECU give the frames the same meaning.
      [fed_values_have_their_type]: the service never stores or sends a value outside the type it
      declares.  [print_can_raw_in_bounds]: the buffer of the frame dump suffices.
    - The simulator's library.  [initialised_once].
    - The service.  [MoveComponent_contract], [CurrentPosition_contract],
      [SetSeatPosition_results], [subscriber_sees_position], and [Move_is_MoveComponent_BASE],
      [construction], [broker_and_grpc_agree].
    - The feeder and the subscriber.  [feed_delivers_or_keeps]: a value is delivered or kept and
      a newer one is never overwritten.  [values_reach_the_broker]: when the broker's failures come
      to an end it is delivered, under the id its name has then, although the broker may have been
      restarted and give other ids.  [reconnect_feeds_not_available]: the first thing that the
      broker is told after a connection is that the position is not available, if no other is
      waiting, and [reconnect_forgets_the_position]: a run in which that is the last word.
      [registration_gives_ids], [inactive_feeder_rests],
      [response_commands], [subscriber_gives_up], [main_runs].
    - Behaviour that looks unintended is stated as it is: [stale_metadata_survives],
      [shutdown_before_run_is_lost], [dapr_port_drops_host], [timer_of_seconds_invalid],
      [overrides_are_zero], [wait_misses_rounded_targets].

    ** Bounds and fuel

    The theorems on the process hold for every fuel of its threads; the only end that fuel brings
    to a thread is that of the subscriber's reading, and with an open stream [Finish] then waits.
    The schedules of [Teardown] and [ProcessScenario] are evaluated; a plan says how many
    operations each thread performs in turn.  Their fuel is enough for the lives that end: a
    subscriber that has run out of it does not end.
    Loops of the code that wait for the outside world take a number of iterations:
    [seatctrl_thread_loop], [wait_for_values], [feed_loop], [read_loop], [subscriber_loop],
    [wait_for_position].  A [feed_loop] that has used up its own goes on to the cleanup, as after a
    lost connection: the model has these runs more.  Three things make the bound harmless.  [thread_refines], [bus_safety]
    and [feeder_stop_is_final] hold for every bound, so they speak of every finite run.
    Where an end is promised the bound that suffices is part of the theorem: the timeout of the
    configuration plus two iterations of a millisecond in [move_request_completes], [frames_for]
    in [simulated_move_arrives], four subscriptions in [subscriber_gives_up], the distance over
    the step in [feed_steps_terminates], one iteration more than the broker has failures in
    [values_reach_the_broker], the number of interrupted writes in [first_signal_ends_the_wait].
    The polling loop of the client ends after 151 polls ([wait_terminates]), which is its fuel in
    [client_main]; on the simulator nine iterations of the CTL thread pass in each of its sleeps.
    Statements about the simulated ECU are evaluated for each of the 101 positions, the race for
    each of the 58 times 42 pairs of requests and each of the 100 second targets.  The wait of [seatctrl_set_position] is bounded in the
    code ([wait_motor1_pos], thirty attempts).  Integers are [Z] with the conversions of this file
    wherever the code stores into a narrower type.

    ** Not modelled

    Logging: the programs of the controller perform no output, except the messages of the control
    loop that have state, and the dumping functions are modelled as functions only ([Printing]);
    the client's output is modelled.  The conversion of floats (data points carry bit patterns);
    the order in which an unordered map is walked (maps are [gmap]); a C expression that reads
    several members of the context is one read.  The generated gRPC and CAN code enters through
    classes and operations, and so do the C library's [getopt_long], [dlsym] and [fopen] and
    protobuf's functions for [SeatComponent].  The calls of [kuksa_client.cc] that hand a request to
    a stub unchanged are operations of the environment of the feeder; [BrokerCalls] makes them
    through the client.  [main.c] of the simulator is a driver for
    trying the hooks out.  The Python services (HVAC, mock), scripts and container files.
    Undefined behaviour appears as [None] in [CanHelpers] and [Printing], where the code can run
    past a buffer, and as a recorded fault in [Process], where an object is used after its end;
    data races are interleavings of whole reads and writes.  The process is taken up when the
    context of the controller has been initialised ([construction] treats what comes before); what
    the gRPC library does with the status a handler returns is not part of it, and each thread of
    the service's clients makes one call.  That an id of a thread is not 0 is what the code relies
    on and POSIX does not promise; theorems that need it say so of the id of the CTL thread.  When
    [SA_EXIT] is set and [abort_service] is called, [sa_handle] records it and goes on; in
    the process the call ends everything ([Process.sa_step]).

    ** Open

    That the subscriber ends when its call is cancelled (shown for given schedules only; its reading
    is bounded by fuel); which calls of [session_refines] may be split without losing
    [motor_follows_goal]. *)
From Stdlib Require Import ZArith Lia String Ascii List.
From stdpp Require Import base numbers list strings option.

Open Scope Z_scope.

(** ** Machine-width integers of the C and C++ code *)

Definition u8 (z : Z) : Z := z mod 2 ^ 8.

Definition u32 (z : Z) : Z := z mod 2 ^ 32.

Definition u64 (z : Z) : Z := z mod 2 ^ 64.

Definition i32 (z : Z) : Z := (z + 2 ^ 31) mod 2 ^ 32 - 2 ^ 31.

Definition is_u8 (z : Z) : Prop := 0 <= z < 2 ^ 8.

Definition is_i32 (z : Z) : Prop := - 2 ^ 31 <= z < 2 ^ 31.

Lemma u8_range z : is_u8 (u8 z).
Proof. unfold is_u8, u8. apply Z.mod_pos_bound. lia. Qed.

Lemma u8_small z : is_u8 z -> u8 z = z.
Proof. unfold is_u8, u8. intros. by apply Z.mod_small. Qed.

Lemma i32_range z : is_i32 (i32 z).
Proof.
  unfold is_i32, i32. pose proof (Z.mod_pos_bound (z + 2 ^ 31) (2 ^ 32)). lia.
Qed.

Lemma i32_small z : is_i32 z -> i32 z = z.
Proof. unfold is_i32, i32. intros. rewrite Z.mod_small; lia. Qed.

(** Bit fields side by side are a sum. *)
Lemma lor_shiftl_add a b n :
  0 <= n -> 0 <= a < 2 ^ n -> Z.lor a (Z.shiftl b n) = a + b * 2 ^ n.
Proof.
  intros Hn Ha. rewrite <- Z.shiftl_mul_pow2, <- Z.add_lor_land by done.
  enough (Z.land a (Z.shiftl b n) = 0) as -> by lia.
  apply Z.bits_inj'. intros i Hi. rewrite Z.land_spec, Z.testbit_0_l, Z.shiftl_spec by done.
  destruct (Z.ltb_spec i n).
  - by rewrite (Z.testbit_neg_r b), andb_false_r by lia.
  - rewrite <- (Z.mod_small a (2 ^ n)) by done. by rewrite Z.mod_pow2_bits_high by lia.
Qed.

(** ** Hints and tactics *)

Create HintDb width.

#[export] Hint Resolve u8_range i32_range : width.

(** [split_ifs] does the case analysis of every boolean test of the goal. *)
Ltac split_ifs :=
  repeat match goal with
         | |- context [if ?b then _ else _] =>
             lazymatch b with
             | context [if _ then _ else _] => fail
             | _ => let E := fresh "E" in destruct b eqn:E
             end
         end.
