(* ===== verification/Prog.v ===== *)
(** * Effectful programs

    The C and C++ functions are translated to [prog E A]: programs that perform the operations of
    a signature [E] and return an [A].  The same text is read in two ways: [run] executes it
    against a deterministic machine, and [Module Pool] interleaves it with the other threads of
    the process, one operation at a time.  [keeps] is the proof rule for the second reading: a
    program all of whose operations preserve an invariant, whatever the others do in between. *)
From Stdlib Require Import ZArith Lia.
From stdpp Require Import base relations list.
From S2P Require Import Prelude.

Inductive prog (E : Type -> Type) (A : Type) : Type :=
| Ret (a : A)
| Vis {X : Type} (e : E X) (k : X -> prog E A).

Arguments Ret {E A} a.
Arguments Vis {E A X} e k.

Fixpoint prog_bind {E A B} (f : A -> prog E B) (p : prog E A) : prog E B :=
  match p with
  | Ret a => f a
  | Vis e k => Vis e (fun x => prog_bind f (k x))
  end.

#[export] Instance prog_ret {E} : MRet (prog E) := fun A => @Ret E A.

#[export] Instance prog_mbind {E} : MBind (prog E) := fun A B => @prog_bind E A B.

Definition trigger {E X} (e : E X) : prog E X := Vis e Ret.

(** A machine answers every operation and moves to its next state. *)
Definition handler (E : Type -> Type) (S : Type) : Type := forall X, E X -> S -> X * S.

Fixpoint run {E S A} (h : handler E S) (p : prog E A) (s : S) : A * S :=
  match p with
  | Ret a => (a, s)
  | Vis e k => let '(x, s') := h _ e s in run h (k x) s'
  end.

(** Replaces every operation of [E] by a program over [F]. *)
Fixpoint interp {E F A} (g : forall X, E X -> prog F X) (p : prog E A) : prog F A :=
  match p with
  | Ret a => Ret a
  | Vis e k => prog_bind (fun x => interp g (k x)) (g _ e)
  end.

(** Two programs are equal when no machine tells them apart. *)
#[export] Instance prog_equiv {E A} : Equiv (prog E A) :=
  fun p q => forall S (h : handler E S) (s : S), run h p s = run h q s.

#[export] Instance prog_equivalence {E A} : Equivalence (≡@{prog E A}).
Proof.
  split.
  - intros p S h s. reflexivity.
  - intros p q H S h s. symmetry. apply H.
  - intros p q r H1 H2 S h s. etrans; [apply H1 | apply H2].
Qed.

#[export] Instance run_proper {E S A} (h : handler E S) :
  Proper ((≡@{prog E A}) ==> (=) ==> (=)) (run h).
Proof. intros p q H s _ <-. apply H. Qed.

Lemma run_bind {E S A B} (h : handler E S) (f : A -> prog E B) (p : prog E A) (s : S) :
  run h (p ≫= f) s = let '(a, s') := run h p s in run h (f a) s'.
Proof.
  unfold mbind, prog_mbind. revert s.
  induction p as [a|X e k IH]; intros s; simpl; [done|].
  destruct (h X e s) as [x s']. apply IH.
Qed.

Lemma run_interp {E F S A} (h : handler F S) (g : forall X, E X -> prog F X)
    (p : prog E A) (s : S) :
  run h (interp g p) s = run (fun X e s => run h (g X e) s) p s.
Proof.
  revert s. induction p as [a|X e k IH]; intros s; simpl; [done|].
  change (prog_bind ?f ?q) with (q ≫= f). rewrite run_bind.
  destruct (run h (g X e) s) as [x s']. apply IH.
Qed.

#[export] Instance bind_proper {E A B} :
  Proper (pointwise_relation A (≡) ==> (≡) ==> (≡)) (mbind (M := prog E) (A := A) (B := B)).
Proof.
  intros f g Hf p q Hp S h s. rewrite !run_bind, (Hp S h s).
  destruct (run h q s) as [a s']. apply Hf.
Qed.

Lemma bind_ret_l {E A B} (f : A -> prog E B) (a : A) : (mret a ≫= f) ≡ f a.
Proof. intros S h s. by rewrite run_bind. Qed.

Lemma bind_ret_r {E A} (p : prog E A) : (p ≫= mret) ≡ p.
Proof. intros S h s. rewrite run_bind. by destruct (run h p s). Qed.

Lemma bind_assoc {E A B C} (p : prog E A) (f : A -> prog E B) (g : B -> prog E C) :
  ((p ≫= f) ≫= g) ≡ (p ≫= fun a => f a ≫= g).
Proof.
  intros S h s. rewrite !run_bind. destruct (run h p s) as [a s']. by rewrite run_bind.
Qed.

(** ** The invariant rule

    [R X e s x s']: in a state [s] the operation [e] may answer [x] and leave [s'].  The relation
    is non-deterministic: it stands for every environment the program can meet. *)
Section Keeps.
Context {E : Type -> Type} {S : Type}.
Variable R : forall X, E X -> S -> X -> S -> Prop.
Variable I : S -> Prop.

Fixpoint keeps {A} (p : prog E A) (Q : A -> Prop) : Prop :=
  match p with
  | Ret a => Q a
  | Vis e k => forall s x s', I s -> R _ e s x s' -> I s' /\ keeps (k x) Q
  end.

Lemma keeps_bind {A B} (p : prog E A) (f : A -> prog E B) (Q : B -> Prop) :
  keeps p (fun a => keeps (f a) Q) -> keeps (p ≫= f) Q.
Proof.
  unfold mbind, prog_mbind. induction p as [a|X e k IH]; simpl; [done|].
  intros H s x s' Hs Hr. destruct (H s x s' Hs Hr). auto.
Qed.

Lemma keeps_mono {A} (p : prog E A) (Q Q' : A -> Prop) :
  (forall a, Q a -> Q' a) -> keeps p Q -> keeps p Q'.
Proof.
  intros HQ. induction p as [a|X e k IH]; simpl; [auto|].
  intros H s x s' Hs Hr. destruct (H s x s' Hs Hr). auto.
Qed.

(** A machine that stays within [R] preserves the invariant along a run. *)
Lemma run_keeps {A} (h : handler E S) (p : prog E A) (Q : A -> Prop) (s : S) :
  (forall X (e : E X) s, I s -> R X e s (fst (h X e s)) (snd (h X e s))) ->
  keeps p Q -> I s -> Q (fst (run h p s)) /\ I (snd (run h p s)).
Proof.
  intros Hh. revert s. induction p as [a|X e k IH]; intros s; simpl; [done|].
  intros H Hs. specialize (Hh X e s Hs).
  destruct (h X e s) as [x s'] eqn:Eh. simpl in Hh.
  destruct (H s x s' Hs Hh). by apply IH.
Qed.

End Keeps.

(** ** Which operations a program performs *)
Section Uses.
Context {E : Type -> Type}.
Variable P : forall X, E X -> Prop.

(** Every operation the program may perform, whatever the answers, satisfies [P]. *)
Fixpoint uses {A} (p : prog E A) : Prop :=
  match p with
  | Ret _ => True
  | Vis e k => P _ e /\ forall x, uses (k x)
  end.

Lemma uses_bind {A B} (p : prog E A) (f : A -> prog E B) :
  uses p -> (forall a, uses (f a)) -> uses (p ≫= f).
Proof.
  unfold mbind, prog_mbind. intros Hp Hf. induction p as [a|X e k IH]; simpl in *; [done|].
  destruct Hp as [He Hk]. auto.
Qed.

Lemma uses_if {A} (b : bool) (p q : prog E A) :
  uses p -> uses q -> uses (if b then p else q).
Proof. by destruct b. Qed.

(** An invariant of the operations a program uses is an invariant of the program. *)
Lemma run_uses {S A} (h : handler E S) (I : S -> Prop) (p : prog E A) (s : S) :
  (forall X (e : E X) s, P X e -> I s -> I (snd (h X e s))) ->
  uses p -> I s -> I (snd (run h p s)).
Proof.
  intros Hh. revert s. induction p as [a|X e k IH]; intros s; simpl; [done|].
  intros [He Hk] Hs. specialize (Hh X e s He Hs). destruct (h X e s) as [x s']. auto.
Qed.

End Uses.

Lemma uses_mono {E} (P Q : forall X, E X -> Prop) {A} (p : prog E A) :
  (forall X (e : E X), P X e -> Q X e) -> uses P p -> uses Q p.
Proof. intros H. induction p as [a|X e k IH]; simpl; [done|]. intros [He Hk]. auto. Qed.

(** ** Interleaving *)
Module Pool.

Section Pool.
Context {E : Type -> Type} {S : Type}.
Variable R : forall X, E X -> S -> X -> S -> Prop.

(** A thread runs [cur]; when [cur] returns [true] it starts [body] again, so [body] is the body
    of a [while] loop and [cur] what is left of the current iteration. *)
Record thread := Thread { cur : prog E bool; body : prog E bool }.

Inductive thread_step : S -> thread -> S -> thread -> Prop :=
| step_op X (e : E X) k b s x s' :
    R X e s x s' -> thread_step s (Thread (Vis e k) b) s' (Thread (k x) b)
| step_loop b s : thread_step s (Thread (Ret true) b) s (Thread b b).

(** Any thread of the pool may take the next step. *)
Inductive step : S * list thread -> S * list thread -> Prop :=
| step_pool s ts1 t ts2 s' t' :
    thread_step s t s' t' -> step (s, ts1 ++ t :: ts2) (s', ts1 ++ t' :: ts2).

Definition thread_keeps (I : S -> Prop) (t : thread) : Prop :=
  keeps R I (cur t) (fun _ => True) /\ keeps R I (body t) (fun _ => True).

Lemma thread_step_keeps I s t s' t' :
  thread_step s t s' t' -> I s -> thread_keeps I t -> I s' /\ thread_keeps I t'.
Proof.
  intros Hst HI [Hc Hb]. destruct Hst as [X e k b s x s' Hr | b s]; simpl in *.
  - destruct (Hc s x s' HI Hr). repeat split; auto.
  - repeat split; auto.
Qed.

(** Adequacy: when every thread keeps [I], every reachable state satisfies it. *)
Lemma pool_keeps I c c' :
  rtc step c c' -> I (fst c) -> Forall (thread_keeps I) (snd c) ->
  I (fst c') /\ Forall (thread_keeps I) (snd c').
Proof.
  induction 1 as [c | c c1 c' Hst _ IH]; [done|]. intros HI Ht. apply IH; clear IH;
    destruct Hst as [s ts1 t ts2 s' t' Hst]; simpl in *;
    apply Forall_app in Ht as [Ht1 Ht2]; apply Forall_cons in Ht2 as [Ht Ht2];
    destruct (thread_step_keeps _ _ _ _ _ Hst HI Ht); [done|].
  apply Forall_app; split; [done|]. by apply Forall_cons.
Qed.

(** ** Schedules

    A schedule names the thread that takes each step; a deterministic machine answers. *)
Variable h : handler E S.

Definition thread_run (t : thread) (s : S) : option (S * thread) :=
  match cur t with
  | Ret true => Some (s, Thread (body t) (body t))
  | Ret false => None
  | Vis e k => let '(x, s') := h _ e s in Some (s', Thread (k x) (body t))
  end.

Fixpoint sched (l : list nat) (c : S * list thread) : option (S * list thread) :=
  match l with
  | [] => Some c
  | i :: l =>
      match snd c !! i with
      | Some t =>
          match thread_run t (fst c) with
          | Some (s', t') => sched l (s', <[i := t']> (snd c))
          | None => None
          end
      | None => None
      end
  end.

(** A thread that has nothing left to do. *)
Definition finished (t : thread) : bool := match cur t with Ret false => true | _ => false end.

(** What a schedule computes is reachable. *)
Lemma sched_steps l c c' :
  (forall X (e : E X) s, R X e s (fst (h X e s)) (snd (h X e s))) ->
  sched l c = Some c' -> rtc step c c'.
Proof.
  intros Hh. revert c. induction l as [|i l IH]; intros [s ts]; simpl; [by intros [= ->]|].
  destruct (ts !! i) as [t|] eqn:Et; [|done].
  destruct (thread_run t s) as [[s' t']|] eqn:Er; [|done]. intros H.
  eapply rtc_l; [|by apply IH]. rewrite <- (take_drop_middle _ _ _ Et) at 1.
  rewrite insert_take_drop by (by eapply lookup_lt_Some). apply step_pool.
  destruct t as [p b]. unfold thread_run in Er. cbn [cur body] in Er.
  destruct p as [[]|X e k]; [injection Er as <- <-; apply step_loop | done |].
  specialize (Hh X e s). destruct (h X e s) as [x s1]. injection Er as <- <-. by apply step_op.
Qed.

(** A step, by the number of the thread that takes it. *)
Lemma step_lookup c c' :
  step c c' ->
  exists i t s' t', snd c !! i = Some t /\ thread_step (fst c) t s' t' /\ c' = (s', <[i := t']> (snd c)).
Proof.
  intros [s ts1 t ts2 s' t' Hst]. exists (length ts1), t, s', t'. simpl. split_and!; [|done|].
  - by rewrite list_lookup_middle.
  - by rewrite insert_app_r_alt, Nat.sub_diag by done.
Qed.

Lemma lookup_step s ts i t s' t' :
  ts !! i = Some t -> thread_step s t s' t' -> step (s, ts) (s', <[i := t']> ts).
Proof.
  intros Ht Hst. rewrite <- (take_drop_middle _ _ _ Ht) at 1.
  rewrite (insert_take_drop _ _ _ (lookup_lt_Some _ _ _ Ht)). by apply step_pool.
Qed.

(** *** Machines on which an operation may have to wait

    A plan gives turns: a thread and a number of steps. *)
Variable try : forall X, E X -> S -> option (X * S).
Variable I : S -> Prop.

Definition thread_try (t : thread) (s : S) : option (S * thread) :=
  match cur t with
  | Ret true => Some (s, Thread (body t) (body t))
  | Ret false => None
  | Vis e k => '(x, s') ← try _ e s; Some (s', Thread (k x) (body t))
  end.

Fixpoint turn (i n : nat) (c : S * list thread) : option (S * list thread) :=
  match n with
  | O => Some c
  | Datatypes.S n =>
      t ← snd c !! i;
      '(s', t') ← thread_try t (fst c);
      turn i n (s', <[i := t']> (snd c))
  end.

Fixpoint plan (l : list (nat * nat)) (c : S * list thread) : option (S * list thread) :=
  match l with
  | [] => Some c
  | (i, n) :: l => c ← turn i n c; plan l c
  end.

Hypothesis try_sound :
  forall X (e : E X) s x s', I s -> try X e s = Some (x, s') -> R X e s x s' /\ I s'.

Lemma turn_steps i n c c' : I (fst c) -> turn i n c = Some c' -> rtc step c c' /\ I (fst c').
Proof.
  revert c. induction n as [|n IH]; intros [s ts] Hs; simpl; [by intros [= <-]|].
  destruct (ts !! i) as [t|] eqn:Et; [|done]. simpl.
  destruct (thread_try t s) as [[s1 t1]|] eqn:Er; [|done]. simpl. intros H.
  assert (thread_step s t s1 t1 /\ I s1) as [Hst H1].
  { destruct t as [p b]. unfold thread_try in Er. cbn [cur body] in Er.
    destruct p as [[]|X e k]; [injection Er as <- <-; by split; [apply step_loop|] | done |].
    destruct (try X e s) as [[x s2]|] eqn:Ex; [|done]. injection Er as <- <-.
    destruct (try_sound _ _ _ _ _ Hs Ex). by split; [apply step_op|]. }
  destruct (IH (s1, _) H1 H) as [Hr Hi]. split; [|done].
  eapply rtc_l; [by eapply lookup_step | done].
Qed.

(** What a plan computes is reachable. *)
Lemma plan_steps l c c' : I (fst c) -> plan l c = Some c' -> rtc step c c' /\ I (fst c').
Proof.
  revert c. induction l as [|[i n] l IH]; intros c Hs; simpl; [by intros [= <-]|].
  destruct (turn i n c) as [c1|] eqn:E1; [|done]. simpl. intros H.
  destruct (turn_steps _ _ _ _ Hs E1) as [Hr1 Hs1]. destruct (IH c1 Hs1 H) as [Hr Hs'].
  split; [by etrans | done].
Qed.

End Pool.

(** A step of some operations is one of any operations that may do the same there. *)
Lemma step_mono {E : Type -> Type} {S} (R R' : forall X, E X -> S -> X -> S -> Prop) c c' :
  (forall X (e : E X) x, R X e (fst c) x (fst c') -> R' X e (fst c) x (fst c')) ->
  step R c c' -> step R' c c'.
Proof.
  intros HR Hst. destruct Hst as [s ts1 t ts2 s' t' Hst]. apply step_pool.
  destruct Hst; [by apply step_op, HR | apply step_loop].
Qed.

Lemma steps_mono {E : Type -> Type} {S} (R R' : forall X, E X -> S -> X -> S -> Prop) c c' :
  (forall X (e : E X) s x s', R X e s x s' -> R' X e s x s') -> rtc (step R) c c' -> rtc (step R') c c'.
Proof. intros HR. apply rtc_subrel. intros c1 c2. apply step_mono. intros X e x. apply HR. Qed.

(** *** Runs with what is learned from the answers of their operations *)
Section Learning.
Context {E : Type -> Type} {S L : Type}.
Variable R : forall X, E X -> S -> X -> S -> Prop.
Variable learn : forall X, E X -> X -> list L.

Inductive learns : S * list thread -> list L -> S * list thread -> Prop :=
| learns_nil c : learns c [] c
| learns_op s ts1 X (e : E X) k b ts2 x s' l c' :
    R X e s x s' -> learns (s', ts1 ++ Thread (k x) b :: ts2) l c' ->
    learns (s, ts1 ++ Thread (Vis e k) b :: ts2) (learn X e x ++ l) c'
| learns_loop s ts1 b ts2 l c' :
    learns (s, ts1 ++ Thread b b :: ts2) l c' -> learns (s, ts1 ++ Thread (Ret true) b :: ts2) l c'.

(** Every run learns something. *)
Lemma steps_learn c c' : rtc (step R) c c' -> exists l, learns c l c'.
Proof.
  induction 1 as [c|c c1 c' Hst _ [l Hl]]; [by exists []; constructor|].
  destruct Hst as [s ts1 t ts2 s' t' Hst]. destruct Hst as [X e k b s x s' Hr | b s].
  - exists (learn X e x ++ l). by eapply learns_op.
  - exists l. by apply learns_loop.
Qed.

(** The answers in a run say nothing but what is learned in it. *)
Lemma learns_steps c l c' :
  learns c l c' ->
  rtc (step (fun X e s x s' => R X e s x s' /\ Forall (fun a => In a l) (learn X e x))) c c'.
Proof.
  induction 1 as [c|s ts1 X e k b ts2 x s' l c' Hr _ IH|s ts1 b ts2 l c' _ IH]; [done| |].
  - eapply rtc_l.
    + apply step_pool, step_op. split; [exact Hr|]. apply Forall_forall. intros a Ha.
      apply in_or_app. left. by apply list_elem_of_In.
    + eapply steps_mono; [|exact IH]. intros Y f r y r' [Hy Hl]. split; [done|].
      eapply Forall_impl; [exact Hl|]. intros a Ha. apply in_or_app. by right.
  - eapply rtc_l; [apply step_pool, step_loop | exact IH].
Qed.

End Learning.

End Pool.
