(* ===== verification/Stable.v ===== *)
(** * Facts a thread may rely on

    [keeps] proves an invariant thread by thread; it forgets what a thread has learned.  Here one
    thread, the main one, carries a fact along that the others cannot break, and shows that each
    of its operations is performed where it may be: [proves] is the rule for it, [main_keeps] its
    adequacy.  The others keep the invariant as before and perform only
    operations they are allowed. *)
From Stdlib Require Import ZArith Lia.
From stdpp Require Import base relations list.
From S2P Require Import Prelude Prog.

(** ** Interpreted programs keep what they are made to keep *)
Section Interp.
Context {E F : Type -> Type} {S T : Type}.
Variable R : forall X, E X -> S -> X -> S -> Prop.
Variable R' : forall X, F X -> T -> X -> T -> Prop.
Variable I : S -> Prop.
Variable I' : T -> Prop.
Variable g : forall X, E X -> prog F X.

(** The operation preserves the invariant, whatever it answers. *)
Definition op_keeps {X} (e : E X) : Prop := forall s x s', I s -> R X e s x s' -> I s'.

(** The answer is one the operation could have given. *)
Definition answered {X} (e : E X) (x : X) : Prop := exists s s', I s /\ R X e s x s'.

Lemma keeps_interp {A} (p : prog E A) Q :
  (forall X (e : E X), op_keeps e -> keeps R' I' (g X e) (answered e)) ->
  keeps R I p Q -> keeps R' I' (interp g p) Q.
Proof.
  intros Hg. induction p as [a|X e k IH]; simpl; [done|]. intros H.
  change (prog_bind ?f ?q) with (q ≫= f). apply keeps_bind.
  eapply keeps_mono; [|apply Hg].
  - intros x (s & s' & Hs & Hr). apply IH. by destruct (H s x s' Hs Hr).
  - intros s x s' Hs Hr. by destruct (H s x s' Hs Hr).
Qed.

End Interp.

(** Operations that preserve the invariant whoever asks. *)
Lemma keeps_uses {E S} (R : forall X, E X -> S -> X -> S -> Prop) (I : S -> Prop)
    (P : forall X, E X -> Prop) {A} (p : prog E A) :
  (forall X (e : E X), P X e -> op_keeps R I e) -> uses P p -> keeps R I p (fun _ => True).
Proof.
  intros HP. induction p as [a|X e k IH]; simpl; [done|]. intros [He Hk] s x s' Hs Hr.
  split; [exact (HP _ _ He _ _ _ Hs Hr) | auto].
Qed.

Lemma uses_interp {E F} (P : forall X, E X -> Prop) (P' : forall X, F X -> Prop)
    (g : forall X, E X -> prog F X) {A} (p : prog E A) :
  (forall X (e : E X), P X e -> uses P' (g X e)) -> uses P p -> uses P' (interp g p).
Proof.
  intros Hg. induction p as [a|X e k IH]; simpl; [done|]. intros [He Hk].
  change (prog_bind ?f ?q) with (q ≫= f). apply uses_bind; [by apply Hg | auto].
Qed.

Lemma uses_all {E} (P : forall X, E X -> Prop) {A} (p : prog E A) :
  (forall X (e : E X), P X e) -> uses P p.
Proof. intros H. induction p as [a|X e k IH]; simpl; auto. Qed.

(** ** Facts that a relation between states preserves *)
Section Preserved.
Context {S : Type}.
Variable rel : S -> S -> Prop.

Definition preserved (P : S -> Prop) : Prop := forall s s', rel s s' -> P s -> P s'.

Lemma preserved_pure (P : Prop) : preserved (fun _ => P).
Proof. by intros s s'. Qed.

Lemma preserved_and P Q : preserved P -> preserved Q -> preserved (fun s => P s /\ Q s).
Proof. intros HP HQ s s' Hs [H1 H2]. eauto. Qed.

Lemma preserved_or P Q : preserved P -> preserved Q -> preserved (fun s => P s \/ Q s).
Proof. intros HP HQ s s' Hs [H1|H2]; eauto. Qed.

Lemma preserved_imp (A : Prop) P : preserved P -> preserved (fun s => A -> P s).
Proof. intros HP s s' Hs H Ha. eauto. Qed.

End Preserved.

Create HintDb preserved.

#[export] Hint Resolve preserved_pure preserved_and preserved_or preserved_imp : preserved.

(** ** The rule *)
Section Stable.
Context {E : Type -> Type} {S : Type}.
Variable R : forall X, E X -> S -> X -> S -> Prop.
Variable I : S -> Prop.
(** What the other threads may do. *)
Variable others : forall X, E X -> Prop.

Definition stable (P : S -> Prop) : Prop :=
  forall X (e : E X) s x s', others X e -> I s -> P s -> R X e s x s' -> P s'.

Lemma stable_and P Q : stable P -> stable Q -> stable (fun s => P s /\ Q s).
Proof. intros HP HQ X e s x s' Ho Hs [H1 H2] Hr. split; [exact (HP _ _ _ _ _ Ho Hs H1 Hr) | exact (HQ _ _ _ _ _ Ho Hs H2 Hr)]. Qed.

Lemma stable_all {A} (P : A -> S -> Prop) : (forall a, stable (P a)) -> stable (fun s => forall a, P a s).
Proof. intros HP X e s x s' Ho Hs H Hr a. exact (HP a _ _ _ _ _ Ho Hs (H a) Hr). Qed.

(** What has to hold where an operation is performed. *)
Variable need : forall X, E X -> S -> Prop.

(** With [P] to rely on, [p] keeps the invariant, meets the needs of its operations and ends with
    [Q]. *)
Fixpoint proves (P : S -> Prop) {A} (p : prog E A) (Q : A -> S -> Prop) : Prop :=
  match p with
  | Ret a => forall s, I s -> P s -> Q a s
  | Vis e k => (forall s, I s -> P s -> need _ e s) /\ forall s x s', I s -> P s -> R _ e s x s' ->
      I s' /\ exists P', stable P' /\ P' s' /\ proves P' (k x) Q
  end.

Lemma proves_weaken (P P' : S -> Prop) {A} (p : prog E A) (Q Q' : A -> S -> Prop) :
  (forall s, I s -> P' s -> P s) -> (forall a s, I s -> Q a s -> Q' a s) ->
  proves P p Q -> proves P' p Q'.
Proof.
  intros HP HQ. revert P P' HP. induction p as [a|X e k IH]; simpl; intros P P' HP; [by eauto|].
  intros [Hn H]. split; [by auto|]. intros s x s' Hs Hp Hr.
  destruct (H s x s' Hs (HP s Hs Hp) Hr) as (Hs' & P1 & H1 & H2 & H3).
  split; [done|]. exists P1. split_and!; [done..|]. eapply IH; [|exact H3]. auto.
Qed.

Lemma proves_bind P {A B} (p : prog E A) (f : A -> prog E B) (Q : A -> S -> Prop) Q' :
  proves P p Q -> (forall a, proves (Q a) (f a) Q') -> proves P (p ≫= f) Q'.
Proof.
  unfold mbind, prog_mbind. intros Hp Hf. revert P Hp.
  induction p as [a|X e k IH]; simpl; intros P Hp.
  - eapply (proves_weaken (Q a)); [exact Hp | done | apply Hf].
  - destruct Hp as [Hn Hp]. split; [done|].
    intros s x s' Hs HP Hr. destruct (Hp s x s' Hs HP Hr) as (Hs' & P1 & H1 & H2 & H3).
    split; [done|]. exists P1. split_and!; auto.
Qed.

(** What comes after a program may be replaced. *)
Lemma proves_then P {A B C} (p : prog E A) (f : A -> prog E B) (g : A -> prog E C) Q Q' :
  (forall a P, proves P (f a) Q -> proves P (g a) Q') ->
  proves P (p ≫= f) Q -> proves P (p ≫= g) Q'.
Proof.
  unfold mbind, prog_mbind. intros Hfg. revert P. induction p as [a|X e k IH]; simpl; intros P Hp; [auto|].
  destruct Hp as [Hn Hp]. split; [done|].
  intros s x s' Hs HP Hr. destruct (Hp s x s' Hs HP Hr) as (Hs' & P1 & H1 & H2 & H3).
  split; [done|]. exists P1. auto.
Qed.

Lemma proves_interp_bind {F} (h : forall X, F X -> prog E X) P {A B} (p : prog F A) (f : A -> prog F B) Q Q' :
  proves P (interp h p) Q -> (forall a, proves (Q a) (interp h (f a)) Q') ->
  proves P (interp h (p ≫= f)) Q'.
Proof.
  unfold mbind at 1, prog_mbind at 1. intros Hp Hf. revert P Hp. induction p as [a|X e k IH]; simpl; intros P.
  - intros Hp. eapply (proves_weaken (Q a)); [exact Hp | done | apply Hf].
  - change (prog_bind ?f ?q) with (q ≫= f). apply proves_then. intros x P1. apply IH.
Qed.

(** All of its operations keep the invariant and the fact. *)
Lemma proves_uses (mild : forall X, E X -> Prop) P {A} (p : prog E A) :
  stable P ->
  (forall X (e : E X) s x s', mild X e -> I s -> P s -> R X e s x s' -> I s' /\ P s') ->
  (forall X (e : E X) s, mild X e -> I s -> P s -> need X e s) ->
  uses mild p -> proves P p (fun _ s => P s).
Proof.
  intros HP Hm Hn. induction p as [a|X e k IH]; simpl; [done|].
  intros [He Hk]. split; [by auto|]. intros s x s' Hs Hp Hr. destruct (Hm _ _ _ _ _ He Hs Hp Hr) as [Hs' Hp'].
  split; [done|]. exists P. split_and!; [done | done | apply IH; auto].
Qed.

Lemma proves_op P {X} (e : E X) (Q : X -> S -> Prop) :
  (forall x, stable (Q x)) ->
  (forall s x s', I s -> P s -> R X e s x s' -> I s' /\ Q x s') ->
  (forall s, I s -> P s -> need X e s) -> proves P (trigger e) Q.
Proof.
  intros HQ H Hn. split; [done|]. intros s x s' Hs Hp Hr. destruct (H s x s' Hs Hp Hr) as [Hs' Hq]. split; [done|].
  exists (Q x). split; [apply HQ|]. split; [done|]. by simpl.
Qed.

(** ** Adequacy *)

Definition other_ok (t : Pool.thread (E := E)) : Prop :=
  Pool.thread_keeps R I t /\ uses others (Pool.cur t) /\ uses others (Pool.body t).

(** The main thread is not a loop. *)
Definition main_ok (s : S) (t : Pool.thread (E := E)) : Prop :=
  exists P, stable P /\ P s /\ proves P (Pool.cur t) (fun again _ => again = false).

Lemma other_step s t s' t' :
  Pool.thread_step R s t s' t' -> I s -> other_ok t ->
  I s' /\ other_ok t' /\ (forall P, stable P -> P s -> P s').
Proof.
  intros Hst Hs (Hk & Hc & Hb). destruct (Pool.thread_step_keeps _ _ _ _ _ _ Hst Hs Hk) as [Hs' Hk'].
  split; [done|]. split.
  - destruct Hst as [X e k b s x s' Hr | b s]; simpl in *; (split; [done|]); simpl; [|by split].
    split; [apply Hc | done].
  - intros P HP Hp. destruct Hst as [X e k b s x s' Hr | b s]; [|done].
    exact (HP _ _ _ _ _ (proj1 Hc) Hs Hp Hr).
Qed.

Lemma main_keeps c c' :
  rtc (Pool.step R) c c' ->
  I (fst c) -> (exists m ts, snd c = m :: ts /\ main_ok (fst c) m /\ Forall other_ok ts) ->
  I (fst c') /\ (exists m ts, snd c' = m :: ts /\ main_ok (fst c') m /\ Forall other_ok ts).
Proof.
  induction 1 as [c | c c1 c' Hst _ IH]; [done|]. intros Hs (m & ts & Hc & Hm & Ho).
  apply IH; clear IH; destruct Hst as [s ts1 t ts2 s' t' Hst]; simpl in *.
  all: destruct ts1 as [|m' ts1]; simpl in Hc; injection Hc as -> <-.
  - destruct Hm as (P & HP & Hp & Hm). destruct Hst as [X e k b s x s' Hr | b s]; [|done].
    by destruct (proj2 Hm s x s' Hs Hp Hr).
  - apply Forall_app in Ho as [_ Ho]. apply Forall_cons in Ho as [Ho _].
    by destruct (other_step _ _ _ _ Hst Hs Ho).
  - exists t', ts2. split_and!; [done | | done].
    destruct Hm as (P & HP & Hp & Hm). destruct Hst as [X e k b s x s' Hr | b s].
    + by destruct (proj2 Hm s x s' Hs Hp Hr) as [_ HP'].
    + specialize (Hm s Hs Hp). done.
  - apply Forall_app in Ho as [Ho1 Ho]. apply Forall_cons in Ho as [Ho Ho2].
    destruct (other_step _ _ _ _ Hst Hs Ho) as (_ & Ho' & HP).
    exists m, (ts1 ++ t' :: ts2). split_and!; [done | |].
    + destruct Hm as (P & H1 & H2 & H3). exists P. split_and!; [done | by apply HP | done].
    + apply Forall_app; split; [done|]. by apply Forall_cons.
Qed.

End Stable.

(** Operations that may be performed anywhere. *)
Definition anywhere {E S} : forall X : Type, E X -> S -> Prop := fun _ _ _ => True.

(** ** Brackets

    Some operations open a bracket, some close it; [inside] a bracket a program performs only mild
    operations until it closes it, and it does close it before it returns.  In a [bracketed]
    program this holds after every operation that opens one. *)
Section Bracket.
Context {E : Type -> Type}.
Variables mild opening closing : forall X, E X -> Prop.

Fixpoint inside {A} (p : prog E A) : Prop :=
  match p with
  | Ret _ => False
  | Vis e k => closing _ e \/ (mild _ e /\ forall x, inside (k x))
  end.

Fixpoint bracketed {A} (p : prog E A) : Prop :=
  match p with
  | Ret _ => True
  | Vis e k => (opening _ e -> forall x, inside (k x)) /\ forall x, bracketed (k x)
  end.

Lemma inside_bind_l {A B} (p : prog E A) (f : A -> prog E B) : inside p -> inside (p ≫= f).
Proof.
  unfold mbind, prog_mbind. induction p as [a|X e k IH]; simpl; [done|].
  intros [H|[H Hk]]; [by left | right; split; auto].
Qed.

Lemma inside_bind_r {A B} (p : prog E A) (f : A -> prog E B) :
  uses mild p -> (forall a, inside (f a)) -> inside (p ≫= f).
Proof.
  unfold mbind, prog_mbind. intros Hp Hf. induction p as [a|X e k IH]; simpl in *; [done|].
  destruct Hp as [He Hk]. right. auto.
Qed.

Lemma bracketed_bind {A B} (p : prog E A) (f : A -> prog E B) :
  bracketed p -> (forall a, bracketed (f a)) -> bracketed (p ≫= f).
Proof.
  unfold mbind, prog_mbind. intros Hp Hf. induction p as [a|X e k IH]; simpl in *; [done|].
  destruct Hp as [He Hk]. split; [|auto]. intros Ho x. by apply inside_bind_l, He.
Qed.

Lemma bracketed_uses {A} (p : prog E A) : uses (fun X e => ~ opening X e) p -> bracketed p.
Proof. induction p as [a|X e k IH]; simpl; [done|]. intros [He Hk]. split; [done | auto]. Qed.

End Bracket.

Section BracketInterp.
Context {E F : Type -> Type}.
Variables mild opening closing : forall X, E X -> Prop.
Variables mild' opening' closing' : forall X, F X -> Prop.
Variable g : forall X, E X -> prog F X.

Hypothesis g_mild : forall X (e : E X), mild X e -> uses mild' (g X e).
Hypothesis g_closing : forall X (e : E X), closing X e -> inside mild' closing' (g X e).

Lemma inside_interp {A} (p : prog E A) : inside mild closing p -> inside mild' closing' (interp g p).
Proof.
  induction p as [a|X e k IH]; simpl; [done|]. change (prog_bind ?f ?q) with (q ≫= f).
  intros [H|[H Hk]]; [by apply inside_bind_l, g_closing | by apply inside_bind_r; auto].
Qed.

(** An operation becomes one operation, or a program that opens nothing. *)
Hypothesis g_opening : forall X (e : E X),
  (exists e', g X e = trigger e' /\ opening X e) \/ uses (fun X e => ~ opening' X e) (g X e).

Lemma bracketed_interp {A} (p : prog E A) :
  bracketed mild opening closing p -> bracketed mild' opening' closing' (interp g p).
Proof.
  induction p as [a|X e k IH]; simpl; [done|]. change (prog_bind ?f ?q) with (q ≫= f). intros [He Hk].
  destruct (g_opening X e) as [(e' & -> & Ho)|Hu].
  - cbn. split; [|auto]. intros _ x. apply inside_interp. auto.
  - apply bracketed_bind; [by apply bracketed_uses | auto].
Qed.

End BracketInterp.
