(* ===== verification/CanDbc.v ===== *)
(** * The CAN database of the seat ECU

    [seat_ecu.dbc] fixes the layout of the two messages the service exchanges with the ECU.  The
    message layouts are data ([signal]); packing and unpacking are defined once for every signal.

    The C code that packs and unpacks frames (CAN.c, CAN.h) is generated from this file by
    cantools at build time, so it is a parameter of the model: the class [Cantools] holds the
    functions the controller calls and [CantoolsLaws] what the generator documents about them,
    stated with the layouts.  [dbc_codec] is the direct reading of the database and satisfies the
    laws. *)
From Stdlib Require Import ZArith Lia.
From stdpp Require Import base numbers list.
From S2P Require Import Prelude.

Record signal := Signal { sg_start : Z; sg_len : Z; sg_min : Z; sg_max : Z }.

(** Little-endian reading of the data bytes as one number; every signal of the file is [@1+]. *)
Fixpoint le_combine (bs : list Z) : Z :=
  match bs with
  | [] => 0
  | b :: bs => b + 256 * le_combine bs
  end.

Fixpoint le_split (n : nat) (z : Z) : list Z :=
  match n with
  | O => []
  | S n => z mod 256 :: le_split n (z / 256)
  end.

Definition extract (sg : signal) (payload : Z) : Z :=
  Z.land (Z.shiftr payload (sg_start sg)) (Z.ones (sg_len sg)).

Definition deposit (sg : signal) (v payload : Z) : Z :=
  Z.lor payload (Z.shiftl (Z.land v (Z.ones (sg_len sg))) (sg_start sg)).

Definition deposit_all (svs : list (signal * Z)) (payload : Z) : Z :=
  foldr (fun sv acc => deposit (fst sv) (snd sv) acc) payload svs.

(** ** SECU1_STAT (0x712) and SECU1_CMD_1 (0x705) *)

Definition CAN_SECU1_STAT_FRAME_ID : Z := 1810.
Definition CAN_SECU1_CMD_1_FRAME_ID : Z := 1797.
Definition SECU1_STAT_LENGTH : Z := 8.
Definition SECU1_CMD_1_LENGTH : Z := 5.

Record CAN_secu1_stat_t := SecuStat {
  motor4_pos : Z; motor4_mov_state : Z; motor4_learning_state : Z;
  motor3_pos : Z; motor3_mov_state : Z; motor3_learning_state : Z;
  motor2_pos : Z; motor2_mov_state : Z; motor2_learning_state : Z;
  motor1_pos : Z; motor1_mov_state : Z; motor1_learning_state : Z }.

Record CAN_secu1_cmd_1_t := SecuCmd {
  motor4_set_rpm : Z; motor4_manual_cmd : Z;
  motor3_set_rpm : Z; motor3_manual_cmd : Z;
  motor2_set_rpm : Z; motor2_manual_cmd : Z;
  motor1_set_rpm : Z; motor1_manual_cmd : Z }.

Definition sg_MOTOR1_POS : signal := Signal 16 8 0 255.
Definition sg_MOTOR1_MOV_STATE : signal := Signal 0 2 0 3.
Definition sg_MOTOR1_LEARNING_STATE : signal := Signal 2 2 0 3.

Definition secu1_stat_signals (s : CAN_secu1_stat_t) : list (signal * Z) :=
  [ (Signal 40 8 0 255, motor4_pos s); (Signal 12 2 0 3, motor4_mov_state s);
    (Signal 14 2 0 3, motor4_learning_state s);
    (Signal 32 8 0 255, motor3_pos s); (Signal 8 2 0 3, motor3_mov_state s);
    (Signal 10 2 0 3, motor3_learning_state s);
    (Signal 24 8 0 255, motor2_pos s); (Signal 4 2 0 3, motor2_mov_state s);
    (Signal 6 2 0 3, motor2_learning_state s);
    (sg_MOTOR1_POS, motor1_pos s); (sg_MOTOR1_MOV_STATE, motor1_mov_state s);
    (sg_MOTOR1_LEARNING_STATE, motor1_learning_state s) ].

Definition secu1_cmd_1_signals (c : CAN_secu1_cmd_1_t) : list (signal * Z) :=
  [ (Signal 32 8 0 255, motor4_set_rpm c); (Signal 6 2 0 3, motor4_manual_cmd c);
    (Signal 24 8 0 255, motor3_set_rpm c); (Signal 4 2 0 3, motor3_manual_cmd c);
    (Signal 16 8 0 255, motor2_set_rpm c); (Signal 2 2 0 3, motor2_manual_cmd c);
    (Signal 8 8 0 255, motor1_set_rpm c); (Signal 0 2 0 3, motor1_manual_cmd c) ].

Definition stat_zero : CAN_secu1_stat_t := SecuStat 0 0 0 0 0 0 0 0 0 0 0 0.

Definition stat_of_payload (p : Z) : CAN_secu1_stat_t :=
  match map (fun sv => extract (fst sv) p) (secu1_stat_signals stat_zero) with
  | [a; b; c; d; e; f; g; h; i; j; k; l] => SecuStat a b c d e f g h i j k l
  | _ => stat_zero
  end.

Definition payload_of_cmd (c : CAN_secu1_cmd_1_t) : Z := deposit_all (secu1_cmd_1_signals c) 0.

Definition in_range (sg : signal) (v : Z) : bool := (sg_min sg <=? v) && (v <=? sg_max sg).

(** ** The generated code *)

Class Cantools := {
  CAN_secu1_stat_unpack : CAN_secu1_stat_t -> list Z -> Z -> Z * CAN_secu1_stat_t;
  CAN_secu1_cmd_1_pack : list Z -> CAN_secu1_cmd_1_t -> Z -> Z * list Z;
  CAN_secu1_stat_motor1_pos_is_in_range : Z -> bool;
  CAN_secu1_stat_motor1_mov_state_is_in_range : Z -> bool;
  CAN_secu1_stat_motor1_learning_state_is_in_range : Z -> bool;
  sizeof_CAN_secu1_cmd_1_t : Z }.

Class CantoolsLaws (C : Cantools) : Prop := {
  unpack_short dst data size :
    size < SECU1_STAT_LENGTH -> fst (CAN_secu1_stat_unpack dst data size) < 0;
  unpack_full dst data size :
    SECU1_STAT_LENGTH <= size -> length data = 8%nat -> Forall is_u8 data ->
    CAN_secu1_stat_unpack dst data size = (0, stat_of_payload (le_combine data));
  pack_full dst cmd :
    length dst = 8%nat ->
    CAN_secu1_cmd_1_pack dst cmd sizeof_CAN_secu1_cmd_1_t
    = (SECU1_CMD_1_LENGTH, le_split 5 (payload_of_cmd cmd) ++ drop 5 dst);
  pos_in_range v :
    is_u8 v -> CAN_secu1_stat_motor1_pos_is_in_range v = in_range sg_MOTOR1_POS v;
  mov_state_in_range v :
    is_u8 v -> CAN_secu1_stat_motor1_mov_state_is_in_range v = in_range sg_MOTOR1_MOV_STATE v;
  learning_state_in_range v :
    is_u8 v ->
    CAN_secu1_stat_motor1_learning_state_is_in_range v = in_range sg_MOTOR1_LEARNING_STATE v }.

Definition dbc_codec : Cantools := {|
  CAN_secu1_stat_unpack dst data size :=
    if size <? SECU1_STAT_LENGTH then (-22, dst) else (0, stat_of_payload (le_combine data));
  CAN_secu1_cmd_1_pack dst cmd size :=
    if size <? SECU1_CMD_1_LENGTH then (-22, dst)
    else (SECU1_CMD_1_LENGTH, le_split 5 (payload_of_cmd cmd) ++ drop 5 dst);
  CAN_secu1_stat_motor1_pos_is_in_range := in_range sg_MOTOR1_POS;
  CAN_secu1_stat_motor1_mov_state_is_in_range := in_range sg_MOTOR1_MOV_STATE;
  CAN_secu1_stat_motor1_learning_state_is_in_range := in_range sg_MOTOR1_LEARNING_STATE;
  sizeof_CAN_secu1_cmd_1_t := 8 |}.

#[export] Instance dbc_codec_laws : CantoolsLaws dbc_codec.
Proof.
  split; simpl.
  - intros dst data size H. rewrite (proj2 (Z.ltb_lt _ _) H). simpl. lia.
  - intros dst data size H _ _. by rewrite (proj2 (Z.ltb_ge _ _) H).
  - done.
  - done.
  - done.
  - done.
Qed.

(** ** Layout lemmas *)

Lemma extract_range sg p :
  0 <= sg_len sg -> 0 <= extract sg p < 2 ^ sg_len sg.
Proof.
  intros H. unfold extract. rewrite Z.land_ones by done. apply Z.mod_pos_bound. lia.
Qed.

(** ** Bytes *)

Lemma le_combine_app xs ys :
  le_combine (xs ++ ys) = le_combine xs + 256 ^ Z.of_nat (length xs) * le_combine ys.
Proof.
  induction xs as [|x xs IH]; simpl app; simpl le_combine.
  { change (256 ^ Z.of_nat (length [])) with 1. lia. }
  simpl length. rewrite Nat2Z.inj_succ, Z.pow_succ_r by lia. rewrite IH. ring.
Qed.

Lemma le_combine_bound xs : Forall is_u8 xs -> 0 <= le_combine xs < 256 ^ Z.of_nat (length xs).
Proof.
  unfold is_u8. induction 1 as [|x xs Hx _ IH]; [done|]. cbn [le_combine length].
  rewrite Nat2Z.inj_succ, Z.pow_succ_r by lia. lia.
Qed.

(** A signal that lies within a byte is read from that byte. *)
Lemma extract_byte sg bytes (k : nat) o b :
  bytes !! k = Some b -> Forall is_u8 bytes ->
  sg_start sg = 8 * Z.of_nat k + o -> 0 <= o -> 0 <= sg_len sg -> o + sg_len sg <= 8 ->
  extract sg (le_combine bytes) = (b / 2 ^ o) mod 2 ^ sg_len sg.
Proof.
  intros Hk Hb Hs Ho Hl Hw. unfold extract. rewrite Z.land_ones, Z.shiftr_div_pow2, Hs by lia.
  rewrite <- (take_drop_middle _ _ _ Hk), le_combine_app, length_take_le
    by (apply lookup_lt_Some in Hk; lia).
  assert (0 <= le_combine (take k bytes) < 256 ^ Z.of_nat k) as Hlow.
  { pose proof (le_combine_bound (take k bytes) ltac:(by apply Forall_take)) as H.
    rewrite length_take_le in H; [done | apply lookup_lt_Some in Hk; lia]. }
  rewrite Z.pow_add_r, Z.pow_mul_r, <- Z.div_div by (try apply Z.pow_nonzero; try apply Z.pow_pos_nonneg; lia).
  change (2 ^ 8) with 256. cbn [le_combine]. rewrite (Z.mul_comm (256 ^ _)), Z.div_add by lia.
  rewrite (Z.div_small (le_combine (take k bytes))), Z.add_0_l by done.
  replace 256 with (2 ^ (8 - o - sg_len sg) * 2 ^ sg_len sg * 2 ^ o)
    by (rewrite <- !Z.pow_add_r by lia; by replace (_ + _ + _) with 8 by lia).
  rewrite (Z.mul_comm (_ * _ * _)), (Z.mul_assoc _ _ (2 ^ o)), Z.div_add by (apply Z.pow_nonzero; lia).
  by rewrite Z.mul_assoc, Z.mod_add by (apply Z.pow_nonzero; lia).
Qed.
