(* ===== verification/Os.v ===== *)
(** * The operating system as seen by the service

    The system and C library calls the code makes are the signature [osE]; every call answers its
    return value together with [errno] and its output buffer.  [OS] is the interface a machine
    implements: the controller is written against it, and the CAN simulator (which hooks exactly
    these libc functions) provides one of its instances.  [os_answer] states what POSIX and
    SocketCAN document about the answers, for theorems about every operating system. *)
From Stdlib Require Import ZArith Lia Ascii String.
From stdpp Require Import base numbers list strings.
From S2P Require Import Prelude Prog.

(** ** Constants of the Linux headers *)

Definition EINTR : Z := 4.
Definition EAGAIN : Z := 11.
Definition ENODEV : Z := 19.
Definition EINVAL : Z := 22.
Definition ENOTSOCK : Z := 88.
Definition ENETDOWN : Z := 100.
Definition ENOBUFS : Z := 105.
Definition PF_CAN : Z := 29.
Definition AF_CAN : Z := 29.
Definition SOCK_DGRAM : Z := 2.
Definition SOCK_RAW : Z := 3.
Definition CAN_RAW : Z := 1.
Definition CAN_BCM : Z := 2.
Definition SIOCGIFINDEX : Z := 35123.
Definition SOL_SOCKET : Z := 1.
Definition SO_RCVTIMEO : Z := 20.
Definition IFNAMSIZ : nat := 16.
Definition sizeof_can_frame : Z := 16.
Definition sizeof_sockaddr_can : Z := 24.
Definition sizeof_timeval : Z := 16.

(** ** Kernel structures *)

(** [struct can_frame]: the id (32 bits), the data length code and eight data bytes. *)
Record can_frame := CanFrame { can_id : Z; can_dlc : Z; data : list Z }.

#[export] Instance can_frame_eq_dec : EqDecision can_frame.
Proof. solve_decision. Defined.

Definition zero_frame : can_frame := CanFrame 0 0 (replicate 8 0).

Definition wf_frame (f : can_frame) : Prop :=
  0 <= can_id f < 2 ^ 32 /\ is_u8 (can_dlc f) /\ length (data f) = 8%nat /\ Forall is_u8 (data f).

Record ifreq := Ifreq { ifr_name : string; ifr_ifindex : Z }.

Record sockaddr_can := SockaddrCan { can_family : Z; can_ifindex : Z }.

(** ** Calls *)

Inductive osE : Type -> Type :=
| O_socket (domain type protocol : Z) : osE (Z * Z)
| O_ioctl (fd request : Z) (ifr : ifreq) : osE (Z * Z * ifreq)
| O_if_nametoindex (name : option string) : osE (Z * Z)
| O_bind (fd : Z) (addr : sockaddr_can) (addrlen : Z) : osE (Z * Z)
| O_setsockopt (fd level optname : Z) (tv : Z * Z) (optlen : Z) : osE (Z * Z)
| O_read (fd : Z) (buf : can_frame) (len : Z) : osE (Z * Z * can_frame)
| O_write (fd : Z) (buf : can_frame) (len : Z) : osE (Z * Z)
| O_close (fd : Z) : osE (Z * Z)
| O_clock_gettime : osE (Z * Z)
| O_usleep (us : Z) : osE unit
| O_pthread_create : osE (Z * Z)
| O_pthread_self : osE Z
| O_pthread_join (tid : Z) : osE Z
| O_getenv (name : string) : osE (option string).

Class OS (S : Type) := os_handle : handler osE S.

(** What the calls document about their answers: a clock value is a non-negative count of seconds
    and a fraction of a second; [read] fills the buffer with a frame of bytes; a successful
    [socket] or [read] and a failed one are told apart by the sign. *)
Definition os_answer {X} (e : osE X) : X -> Prop :=
  match e in osE X return X -> Prop with
  | O_socket _ _ _ => fun r => -1 <= fst r
  | O_read _ buf _ => fun r => -1 <= fst (fst r) /\ (wf_frame buf -> wf_frame (snd r))
  | O_clock_gettime => fun r => 0 <= fst r /\ 0 <= snd r < 1000000000
  | _ => fun _ => True
  end.

Class OSLaws (S : Type) {O : OS S} : Prop :=
  os_answers X (e : osE X) (s : S) : os_answer e (fst (os_handle X e s)).

(** ** atoi

    The integer at the start of a string: white space, an optional sign, digits.  glibc computes
    it as a [long], saturating, and converts the result to [int]. *)
Definition is_space (c : ascii) : bool :=
  let n := Z.of_nat (nat_of_ascii c) in (n =? 32) || ((9 <=? n) && (n <=? 13)).

Definition digit_value (c : ascii) : option Z :=
  let n := Z.of_nat (nat_of_ascii c) in
  if (48 <=? n) && (n <=? 57) then Some (n - 48) else None.

Fixpoint digits (acc : Z) (s : string) : Z :=
  match s with
  | EmptyString => acc
  | String c s => match digit_value c with
                  | Some d => digits (10 * acc + d) s
                  | None => acc
                  end
  end.

Fixpoint skip_spaces (s : string) : string :=
  match s with
  | EmptyString => EmptyString
  | String c rest => if is_space c then skip_spaces rest else s
  end.

Definition clamp64 (z : Z) : Z := Z.max (- 2 ^ 63) (Z.min (2 ^ 63 - 1) z).

Definition atoi (s : string) : Z :=
  match skip_spaces s with
  | String "-"%char rest => i32 (clamp64 (- digits 0 rest))
  | String "+"%char rest => i32 (clamp64 (digits 0 rest))
  | rest => i32 (clamp64 (digits 0 rest))
  end.

Lemma atoi_i32 s : is_i32 (atoi s).
Proof. unfold atoi. repeat case_match; apply i32_range. Qed.

Lemma wf_zero_frame : wf_frame zero_frame.
Proof.
  repeat split; simpl; try (unfold is_u8; lia). repeat constructor; unfold is_u8; lia.
Qed.

#[export] Hint Resolve atoi_i32 wf_zero_frame : width.
