(* ===== verification/Grpc.v ===== *)
(** * gRPC statuses and connectivity

    The values of [grpc::StatusCode] and [grpc_connectivity_state] the code switches on, and the
    printing functions of [kuksa_client.cc]. *)
From Stdlib Require Import ZArith Lia String.
From stdpp Require Import base numbers list strings pretty.
From S2P Require Import Prelude.

Inductive StatusCode :=
| Code_OK | CANCELLED | UNKNOWN | INVALID_ARGUMENT | DEADLINE_EXCEEDED | NOT_FOUND
| ALREADY_EXISTS | PERMISSION_DENIED | RESOURCE_EXHAUSTED | FAILED_PRECONDITION | ABORTED
| OUT_OF_RANGE | UNIMPLEMENTED | INTERNAL | UNAVAILABLE | DATA_LOSS | UNAUTHENTICATED
| OTHER_CODE (n : Z).

#[export] Instance StatusCode_eq_dec : EqDecision StatusCode.
Proof. solve_decision. Defined.

(** The number of a code; [OTHER_CODE] is a number the enumeration does not name. *)
Definition code_value (c : StatusCode) : Z :=
  match c with
  | Code_OK => 0 | CANCELLED => 1 | UNKNOWN => 2 | INVALID_ARGUMENT => 3
  | DEADLINE_EXCEEDED => 4 | NOT_FOUND => 5 | ALREADY_EXISTS => 6 | PERMISSION_DENIED => 7
  | RESOURCE_EXHAUSTED => 8 | FAILED_PRECONDITION => 9 | ABORTED => 10 | OUT_OF_RANGE => 11
  | UNIMPLEMENTED => 12 | INTERNAL => 13 | UNAVAILABLE => 14 | DATA_LOSS => 15
  | UNAUTHENTICATED => 16 | OTHER_CODE n => n
  end.

Record Status := MkStatus { error_code : StatusCode; error_message : string; error_details : string }.

Definition Status_OK : Status := MkStatus Code_OK "" "".

Definition ok (s : Status) : bool := bool_decide (error_code s = Code_OK).

Definition code_toString (c : StatusCode) : string :=
  match c with
  | Code_OK => "OK"
  | CANCELLED => "CANCELLED"
  | UNKNOWN => "UNKNOWN"
  | INVALID_ARGUMENT => "INVALID_ARGUMENT"
  | DEADLINE_EXCEEDED => "DEADLINE_EXCEEDED"
  | NOT_FOUND => "NOT_FOUND"
  | ALREADY_EXISTS => "ALREADY_EXISTS"
  | PERMISSION_DENIED => "PERMISSION_DENIED"
  | UNAUTHENTICATED => "UNAUTHENTICATED"
  | RESOURCE_EXHAUSTED => "RESOURCE_EXHAUSTED"
  | FAILED_PRECONDITION => "FAILED_PRECONDITION"
  | ABORTED => "ABORTED"
  | OUT_OF_RANGE => "OUT_OF_RANGE"
  | UNIMPLEMENTED => "UNIMPLEMENTED"
  | INTERNAL => "INTERNAL"
  | UNAVAILABLE => "UNAVAILABLE"
  | DATA_LOSS => "DATA_LOSS"
  | OTHER_CODE n => "<Invalid:" +:+ pretty n +:+ ">"
  end.

Inductive connectivity_state := IDLE | CONNECTING | READY | TRANSIENT_FAILURE | SHUTDOWN.

Definition state_toString (s : connectivity_state) : string :=
  match s with
  | IDLE => "IDLE"
  | CONNECTING => "CONNECTING"
  | READY => "READY"
  | TRANSIENT_FAILURE => "TRANSIENT_FAILURE"
  | SHUTDOWN => "SHUTDOWN"
  end.

Definition empty (s : string) : bool := bool_decide (s = "").

Definition status_toString (s : Status) : string :=
  "grpcStatus{" +:+ code_toString (error_code s)
  +:+ (if bool_decide (error_code s = Code_OK) then ""
       else ", code:" +:+ pretty (code_value (error_code s)))
  +:+ (if empty (error_message s) then "" else ", '" +:+ error_message s +:+ "'")
  +:+ (if empty (error_details s) then "" else ", details:'" +:+ error_details s +:+ "'")
  +:+ "}".

(** A code can be read back from its name. *)
Lemma code_toString_inj c d :
  (forall n, c <> OTHER_CODE n) -> (forall n, d <> OTHER_CODE n) ->
  code_toString c = code_toString d -> c = d.
Proof.
  intros Hc Hd. destruct c; try (exfalso; by eapply Hc); destruct d;
    try (exfalso; by eapply Hd); cbn; intros H; first [reflexivity | discriminate H].
Qed.
