(* ===== verification/KuksaClient.v ===== *)
(** * The broker client and its data points

    [kuksa_client.cc]: the connection flag, the address rewriting for Dapr and the metadata of the
    calls (the RPCs themselves are forwarded to generated stubs and are operations of the
    environment); [create_datapoint.h] and the messages of the broker's protos. *)
From Stdlib Require Import ZArith Lia Ascii String.
From stdpp Require Import base numbers list strings gmap.
From S2P Require Import Prelude Prog Grpc.

(** ** std::string *)

Definition npos : Z := 2 ^ 64 - 1.

(** [s.find_last_of(c)], [i] being the index of the first character of [s]. *)
Fixpoint find_last_from (c : ascii) (i : Z) (s : string) : Z :=
  match s with
  | EmptyString => npos
  | String a s =>
      let r := find_last_from c (i + 1) s in
      if (r =? npos) && bool_decide (a = c) then i else r
  end.

Definition find_last_of (c : ascii) (s : string) : Z := find_last_from c 0 s.

(** [s.substr(0, n)] for a [size_type] n. *)
Fixpoint prefix_of_length (n : nat) (s : string) : string :=
  match n, s with
  | S n, String a s => String a (prefix_of_length n s)
  | _, _ => EmptyString
  end.

(** ** The client *)

Definition getEnvVar (value : option string) (defaultValue : string) : string :=
  default defaultValue value.

(** The environment variable [DAPR_GRPC_PORT] is [dapr_port]. *)
Definition changeToDaprPortIfSet (dapr_port : option string) (broker_addr : string) : string :=
  let dapr_port := getEnvVar dapr_port "" in
  if negb (empty dapr_port) then
    let colon_pos := find_last_of ":" broker_addr in
    prefix_of_length (Z.to_nat (u64 (colon_pos + 1))) broker_addr +:+ dapr_port
  else broker_addr.

Definition GrpcMetadata := gmap string string.

(** The environment variable [VEHICLEDATABROKER_DAPR_APP_ID] is [app_id]. *)
Definition getGrpcMetadata (app_id : option string) : GrpcMetadata :=
  let dapr_app_id := getEnvVar app_id "" in
  if negb (empty dapr_app_id) then {[ "dapr-app-id" := dapr_app_id ]} else ∅.

(** The address the channel is made for, the one that is kept, the call metadata and
    [connected_]. *)
Record KuksaClient := Client {
  channel_addr : string;
  broker_addr_ : string;
  metadata_ : GrpcMetadata;
  connected_ : bool }.

Definition new_KuksaClient (dapr_port app_id : option string) (broker_addr : string) : KuksaClient :=
  Client (changeToDaprPortIfSet dapr_port broker_addr) broker_addr (getGrpcMetadata app_id) false.

(** [ready] is the answer of the channel. *)
Definition WaitForConnected (ready : bool) (c : KuksaClient) : bool * KuksaClient :=
  (ready, Client (channel_addr c) (broker_addr_ c) (metadata_ c) ready).

Definition Connected (c : KuksaClient) : bool := connected_ c.

Definition SetDisconnected (c : KuksaClient) : KuksaClient :=
  Client (channel_addr c) (broker_addr_ c) (metadata_ c) false.

(** What [createClientContext] adds to a call. *)
Definition createClientContext (c : KuksaClient) : list (string * string) :=
  map_to_list (metadata_ c).

(** ** Address rewriting *)

Lemma prefix_of_length_app s t : prefix_of_length (String.length s) (s +:+ t) = s.
Proof. induction s as [|a s IH]; simpl; [by destruct t | by rewrite IH]. Qed.

Fixpoint no_colon (s : string) : bool :=
  match s with
  | EmptyString => true
  | String a s => negb (bool_decide (a = ":"%char)) && no_colon s
  end.

Lemma find_last_from_none c i s :
  c = ":"%char -> no_colon s = true -> find_last_from c i s = npos.
Proof.
  intros ->. revert i. induction s as [|a s IH]; intros i; [done|]. simpl.
  rewrite andb_true_iff, negb_true_iff. intros [-> H]. rewrite IH by done.
  by rewrite andb_false_r.
Qed.

Lemma find_last_from_some i host port :
  0 <= i -> i + Z.of_nat (String.length host) < npos -> no_colon port = true ->
  find_last_from ":" i (host +:+ ":" +:+ port) = i + Z.of_nat (String.length host).
Proof.
  revert i. induction host as [|a host IH]; intros i Hi Hl Hp.
  - simpl. rewrite find_last_from_none by done. simpl. lia.
  - change ((String a host +:+ ":" +:+ port)) with (String a (host +:+ ":" +:+ port)).
    cbn [find_last_from]. cbn [String.length] in *.
    rewrite IH by (done || lia). rewrite (proj2 (Z.eqb_neq _ npos)) by lia. simpl. lia.
Qed.

(** With a port of its own, an address "host:port" keeps its host and gets the port of Dapr; the
    last colon counts, so the host may contain colons. *)
Theorem dapr_port_replaces host port dapr :
  no_colon port = true -> dapr <> "" -> Z.of_nat (String.length host) < 2 ^ 63 ->
  changeToDaprPortIfSet (Some dapr) (host +:+ ":" +:+ port) = host +:+ ":" +:+ dapr.
Proof.
  intros Hp Hd Hl. unfold changeToDaprPortIfSet, getEnvVar, find_last_of. cbn [default from_option].
  unfold empty. rewrite bool_decide_false by done. cbn [negb].
  rewrite find_last_from_some by (unfold npos; done || lia).
  assert (Z.to_nat (u64 (0 + Z.of_nat (String.length host) + 1)) = String.length (host +:+ ":")) as ->.
  { unfold u64. rewrite Z.mod_small by lia.
    assert (String.length (host +:+ ":") = S (String.length host)) as ->; [|lia].
    clear. induction host as [|a host IH]; [done|]. simpl in *. by rewrite IH. }
  assert (forall t, host +:+ ":" +:+ t = (host +:+ ":") +:+ t) as Happ.
  { intros t. clear. induction host as [|a host IH]; [done|].
    change (String a (host +:+ ":" +:+ t) = String a ((host +:+ ":") +:+ t)). by rewrite IH. }
  rewrite !Happ. by rewrite prefix_of_length_app.
Qed.

(** An address without a port loses its host: [npos + 1] is 0. *)
Theorem dapr_port_drops_host host dapr :
  no_colon host = true -> dapr <> "" -> changeToDaprPortIfSet (Some dapr) host = dapr.
Proof.
  intros Hh Hd. unfold changeToDaprPortIfSet, getEnvVar, find_last_of. cbn [default from_option].
  unfold empty. rewrite bool_decide_false by done. cbn [negb].
  rewrite find_last_from_none by done. change (Z.to_nat (u64 (npos + 1))) with 0%nat.
  by destruct host.
Qed.

(** ** Messages of the broker *)

Inductive DataType :=
| STRING | BOOL | INT8 | INT16 | INT32 | INT64 | UINT8 | UINT16 | UINT32 | UINT64 | FLOAT | DOUBLE
| STRING_ARRAY | BOOL_ARRAY | INT8_ARRAY | INT16_ARRAY | INT32_ARRAY | INT64_ARRAY | UINT8_ARRAY
| UINT16_ARRAY | UINT32_ARRAY | UINT64_ARRAY | FLOAT_ARRAY | DOUBLE_ARRAY.

#[export] Instance DataType_eq_dec : EqDecision DataType.
Proof. solve_decision. Defined.

Inductive ChangeType := STATIC | ON_CHANGE | CONTINUOUS.

Inductive Datapoint_Failure :=
  INVALID_VALUE | NOT_AVAILABLE | UNKNOWN_DATAPOINT | ACCESS_DENIED | INTERNAL_ERROR.

(** The [oneof] of a data point; floating-point values by their bits. *)
Inductive Datapoint :=
| value_not_set
| failure_value (f : Datapoint_Failure)
| string_value (s : string)
| bool_value (b : bool)
| int32_value (z : Z)
| int64_value (z : Z)
| uint32_value (z : Z)
| uint64_value (z : Z)
| float_value (bits : Z)
| double_value (bits : Z)
| string_array (ss : list string)
| bool_array (bs : list bool)
| int32_array (zs : list Z)
| int64_array (zs : list Z)
| uint32_array (zs : list Z)
| uint64_array (zs : list Z)
| float_array (bits : list Z)
| double_array (bits : list Z).

#[export] Instance Datapoint_Failure_eq_dec : EqDecision Datapoint_Failure.
Proof. solve_decision. Defined.

#[export] Instance Datapoint_eq_dec : EqDecision Datapoint.
Proof. solve_decision. Defined.

Definition createInvalidValue : Datapoint := failure_value INVALID_VALUE.
Definition createNotAvailableValue : Datapoint := failure_value NOT_AVAILABLE.
Definition createDatapoint_bool (value : bool) : Datapoint := bool_value value.
Definition createDatapoint_int32 (value : Z) : Datapoint := int32_value value.
Definition createDatapoint_uint32 (value : Z) : Datapoint := uint32_value value.
Definition createDatapoint_int64 (value : Z) : Datapoint := int64_value value.
Definition createDatapoint_uint64 (value : Z) : Datapoint := uint64_value value.
Definition createDatapoint_float (bits : Z) : Datapoint := float_value bits.
Definition createDatapoint_double (bits : Z) : Datapoint := double_value bits.
Definition createDatapoint_string (value : string) : Datapoint := string_value value.
Definition createDatapoint_int32s (values_array : list Z) : Datapoint := int32_array values_array.
Definition createDatapoint_uint32s (values_array : list Z) : Datapoint := uint32_array values_array.
