(* ===== verification/SeatController.v ===== *)
(** * The seat controller

    [seat_controller.h] and [seat_controller.cc]: the configuration, the context shared by the
    API threads and the control-loop (CTL) thread, every operation of the public API, the handler
    of SECU1_STAT frames, the control loop and one iteration of the CTL thread.

    Reads and writes of the shared context are operations of their own ([GetCtx], [ModCtx]), one
    per C statement, so another thread may run between any two of them.  Pure output is left out,
    except for the messages of the control loop, which are the [Log] operations. *)
From Stdlib Require Import ZArith Lia String.
From stdpp Require Import base numbers list strings.
From S2P Require Import Prelude Prog CanDbc Os.

(** ** Constants and data (seat_controller.h) *)

Definition SEAT_CTRL_OK : Z := 0.
Definition SEAT_CTRL_ERR : Z := -1.
Definition SEAT_CTRL_ERR_NO_CAN : Z := -2.
Definition SEAT_CTRL_ERR_IFR : Z := -3.
Definition SEAT_CTRL_ERR_CAN_BIND : Z := -4.
Definition SEAT_CTRL_ERR_CAN_IO : Z := -5.
Definition SEAT_CTRL_ERR_INVALID : Z := - EINVAL.
Definition SEAT_CTRL_ERR_NO_FRAMES : Z := -42.
Definition SOCKET_INVALID : Z := -1.
Definition MOTOR_POS_INVALID : Z := 255.
Definition DEFAULT_RPM : Z := 80.
Definition DEFAULT_OPERATION_TIMEOUT : Z := 15000.
Definition SEAT_CTRL_CONTEXT_MAGIC : Z := 3737181696.

Inductive SeatCtrlEvent := CanError | Motor1Pos.

Inductive MotorDirection := OFF | DEC | INC | INV.

Definition dir_value (d : MotorDirection) : Z :=
  match d with OFF => 0 | DEC => 1 | INC => 2 | INV => 3 end.

#[export] Instance MotorDirection_eq_dec : EqDecision MotorDirection.
Proof. solve_decision. Defined.

Inductive LearningState := NotLearned | Learned | Invalid.

Definition learning_value (l : LearningState) : Z :=
  match l with NotLearned => 0 | Learned => 1 | Invalid => 2 end.

Record seatctrl_config_t := Config {
  can_device : option string;
  debug_raw : bool;
  debug_ctl : bool;
  debug_stats : bool;
  debug_verbose : bool;
  command_timeout : Z;
  motor_rpm : Z }.

(** [event_cb] and [event_cb_user_data] are addresses, 0 being NULL; so is [thread_id]. *)
Record seatctrl_context_t := Context {
  magic : Z;
  config : seatctrl_config_t;
  socket : Z;
  running : bool;
  thread_id : Z;
  command_ts : Z;
  desired_position : Z;
  desired_direction : MotorDirection;
  motor1_pos : Z;
  motor1_mov_state : Z;
  motor1_learning_state : Z;
  event_cb : Z;
  event_cb_user_data : Z }.

(** The file-level static variables of the control loop. *)
Record ctl_statics := Statics {
  last_ctl_pos : Z;
  last_ctl_dir : Z;
  learned_mode : bool;
  learned_mode_changed : Z }.

Definition statics_init : ctl_statics := Statics MOTOR_POS_INVALID 0 true 0.

Definition LEARNED_MODE_RATE : Z := 10 * 1000.

(** A [seatctrl_context_t *] argument: NULL, or the context of the program. *)
Inductive pointer := NULL | CTX.

Definition is_null (p : pointer) : bool := match p with NULL => true | CTX => false end.

(** ** Assignments to the context *)

Definition set_magic v c := Context v (config c) (socket c) (running c) (thread_id c)
  (command_ts c) (desired_position c) (desired_direction c) (motor1_pos c) (motor1_mov_state c)
  (motor1_learning_state c) (event_cb c) (event_cb_user_data c).
Definition set_config v c := Context (magic c) v (socket c) (running c) (thread_id c)
  (command_ts c) (desired_position c) (desired_direction c) (motor1_pos c) (motor1_mov_state c)
  (motor1_learning_state c) (event_cb c) (event_cb_user_data c).
Definition set_socket v c := Context (magic c) (config c) v (running c) (thread_id c)
  (command_ts c) (desired_position c) (desired_direction c) (motor1_pos c) (motor1_mov_state c)
  (motor1_learning_state c) (event_cb c) (event_cb_user_data c).
Definition set_running v c := Context (magic c) (config c) (socket c) v (thread_id c)
  (command_ts c) (desired_position c) (desired_direction c) (motor1_pos c) (motor1_mov_state c)
  (motor1_learning_state c) (event_cb c) (event_cb_user_data c).
Definition set_thread_id v c := Context (magic c) (config c) (socket c) (running c) v
  (command_ts c) (desired_position c) (desired_direction c) (motor1_pos c) (motor1_mov_state c)
  (motor1_learning_state c) (event_cb c) (event_cb_user_data c).
Definition set_command_ts v c := Context (magic c) (config c) (socket c) (running c)
  (thread_id c) v (desired_position c) (desired_direction c) (motor1_pos c) (motor1_mov_state c)
  (motor1_learning_state c) (event_cb c) (event_cb_user_data c).
Definition set_desired_position v c := Context (magic c) (config c) (socket c) (running c)
  (thread_id c) (command_ts c) (u8 v) (desired_direction c) (motor1_pos c) (motor1_mov_state c)
  (motor1_learning_state c) (event_cb c) (event_cb_user_data c).
Definition set_desired_direction v c := Context (magic c) (config c) (socket c) (running c)
  (thread_id c) (command_ts c) (desired_position c) v (motor1_pos c) (motor1_mov_state c)
  (motor1_learning_state c) (event_cb c) (event_cb_user_data c).
Definition set_motor1_pos v c := Context (magic c) (config c) (socket c) (running c)
  (thread_id c) (command_ts c) (desired_position c) (desired_direction c) (u8 v)
  (motor1_mov_state c) (motor1_learning_state c) (event_cb c) (event_cb_user_data c).
Definition set_motor1_mov_state v c := Context (magic c) (config c) (socket c) (running c)
  (thread_id c) (command_ts c) (desired_position c) (desired_direction c) (motor1_pos c)
  (u8 v) (motor1_learning_state c) (event_cb c) (event_cb_user_data c).
Definition set_motor1_learning_state v c := Context (magic c) (config c) (socket c) (running c)
  (thread_id c) (command_ts c) (desired_position c) (desired_direction c) (motor1_pos c)
  (motor1_mov_state c) (u8 v) (event_cb c) (event_cb_user_data c).
Definition set_event_cb v c := Context (magic c) (config c) (socket c) (running c)
  (thread_id c) (command_ts c) (desired_position c) (desired_direction c) (motor1_pos c)
  (motor1_mov_state c) (motor1_learning_state c) v (event_cb_user_data c).
Definition set_event_cb_user_data v c := Context (magic c) (config c) (socket c) (running c)
  (thread_id c) (command_ts c) (desired_position c) (desired_direction c) (motor1_pos c)
  (motor1_mov_state c) (motor1_learning_state c) (event_cb c) v.

Definition zero_config : seatctrl_config_t := Config None false false false false 0 0.

Definition zero_ctx : seatctrl_context_t :=
  Context 0 zero_config 0 false 0 0 0 OFF 0 0 0 0 0.

(** ** Operations of the controller's programs *)

Inductive log_msg :=
| LogNotLearned
| LogLearned
| LogWaiting (target : Z) (dir : MotorDirection) (elapsed : Z)
| LogMismatch (target : Z) (dir : MotorDirection) (mov_state : Z)
| LogMotorOff
| LogResend (pos target : Z) (dir : MotorDirection)
| LogPosInvalid (target : Z) (dir : MotorDirection)
| LogFinished (target : Z) (dir : MotorDirection) (pos elapsed : Z)
| LogTimedOut (target : Z) (dir : MotorDirection) (elapsed : Z).

Inductive ctlE : Type -> Type :=
| GetCtx : ctlE seatctrl_context_t
| ModCtx (f : seatctrl_context_t -> seatctrl_context_t) : ctlE unit
| GetSt : ctlE ctl_statics
| PutSt (st : ctl_statics) : ctlE unit
| Os {X} (e : osE X) : ctlE X
| EventCb (cb : Z) (event : SeatCtrlEvent) (value : Z) (user_data : Z) : ctlE unit
| Log (m : log_msg) : ctlE unit.

Abbreviation ctl := (prog ctlE).

Definition get_ctx : ctl seatctrl_context_t := trigger GetCtx.
Definition mod_ctx (f : seatctrl_context_t -> seatctrl_context_t) : ctl unit :=
  trigger (ModCtx f).
Definition get_st : ctl ctl_statics := trigger GetSt.
Definition put_st (st : ctl_statics) : ctl unit := trigger (PutSt st).
Definition os {X} (e : osE X) : ctl X := trigger (Os e).
Definition call_event_cb (cb : Z) (ev : SeatCtrlEvent) (v ud : Z) : ctl unit :=
  trigger (EventCb cb ev v ud).
Definition log (m : log_msg) : ctl unit := trigger (Log m).
Definition usleep (us : Z) : ctl unit := os (O_usleep us).
Definition when (b : bool) (p : ctl unit) : ctl unit := if b then p else mret tt.

(** ** Helpers *)

Definition mov_state_string (dir : Z) : string :=
  if dir =? dir_value OFF then "OFF"
  else if dir =? dir_value INC then "INC"
  else if dir =? dir_value DEC then "DEC"
  else if dir =? dir_value INV then "INV"
  else "Undefined!".

Definition learning_state_string (state : Z) : string :=
  if state =? learning_value NotLearned then "NOK"
  else if state =? learning_value Learned then "OK"
  else if state =? learning_value Invalid then "INV"
  else "Undefined!".

(** Milliseconds of the monotonic clock. *)
Definition get_ts : ctl Z :=
  '(tv_sec, tv_nsec) ← os O_clock_gettime;
  mret (tv_sec * 1000 + Z.quot tv_nsec 1000000).

(** The four fields of the test are read in one go. *)
Definition is_ctl_running (ctx : seatctrl_context_t) : bool :=
  negb (socket ctx =? SOCKET_INVALID)
  && (0 <? command_ts ctx)
  && negb (dir_value (desired_direction ctx) =? dir_value OFF)
  && negb (desired_position ctx =? MOTOR_POS_INVALID).

Section Controller.
Context {CAN : Cantools}.

(** ** SECU1_STAT frames *)

Definition stat_acceptable (stat : CAN_secu1_stat_t) : bool :=
  CAN_secu1_stat_motor1_pos_is_in_range (CanDbc.motor1_pos stat)
  && ((CanDbc.motor1_pos stat <=? 100) || (CanDbc.motor1_pos stat =? MOTOR_POS_INVALID))
  && CAN_secu1_stat_motor1_mov_state_is_in_range (CanDbc.motor1_mov_state stat)
  && CAN_secu1_stat_motor1_learning_state_is_in_range (CanDbc.motor1_learning_state stat).

Definition handle_secu_stat (frame : can_frame) : ctl Z :=
  if negb (can_id frame =? CAN_SECU1_STAT_FRAME_ID) then mret SEAT_CTRL_ERR_INVALID else
  let '(rc, stat) := CAN_secu1_stat_unpack stat_zero (data frame) (can_dlc frame) in
  if negb (rc =? 0) then mret SEAT_CTRL_ERR else
  if stat_acceptable stat then
    ctx ← get_ctx;
    when (running ctx && negb (event_cb ctx =? 0)
          && negb (motor1_pos ctx =? CanDbc.motor1_pos stat))
      (ctx ← get_ctx;
       call_event_cb (event_cb ctx) Motor1Pos (CanDbc.motor1_pos stat)
         (event_cb_user_data ctx));;
    mod_ctx (set_motor1_mov_state (CanDbc.motor1_mov_state stat));;
    mod_ctx (set_motor1_learning_state (CanDbc.motor1_learning_state stat));;
    mod_ctx (set_motor1_pos (CanDbc.motor1_pos stat));;
    mret SEAT_CTRL_OK
  else mret SEAT_CTRL_ERR_INVALID.

Definition seatctrl_get_position (p : pointer) : ctl Z :=
  ctx ← get_ctx;
  if is_null p || negb (magic ctx =? SEAT_CTRL_CONTEXT_MAGIC) then mret SEAT_CTRL_ERR_INVALID else
  ctx ← get_ctx;
  if negb (running ctx) then mret SEAT_CTRL_ERR else
  ctx ← get_ctx;
  mret (motor1_pos ctx).

(** ** Motor commands *)

Definition secu1_cmd_1_of (motor1_dir motor1_rpm : Z) : CAN_secu1_cmd_1_t :=
  SecuCmd 0 0 0 0 0 0 motor1_rpm motor1_dir.

(** The arguments are [uint8_t]: the callers' values are converted. *)
Definition seatctrl_send_cmd1 (motor1_dir motor1_rpm : Z) : ctl Z :=
  let motor1_dir := u8 motor1_dir in
  let motor1_rpm := u8 motor1_rpm in
  ctx ← get_ctx;
  if socket ctx =? SOCKET_INVALID then mret SEAT_CTRL_ERR else
  let cmd1 := secu1_cmd_1_of motor1_dir motor1_rpm in
  let '(rc, dat) := CAN_secu1_cmd_1_pack (data zero_frame) cmd1 sizeof_CAN_secu1_cmd_1_t in
  if rc <? 0 then mret SEAT_CTRL_ERR else
  let frame := CanFrame CAN_SECU1_CMD_1_FRAME_ID 8 dat in
  ctx ← get_ctx;
  '(cnt, err) ← os (O_write (socket ctx) frame sizeof_can_frame);
  if negb (cnt =? sizeof_can_frame) then
    ctx ← get_ctx;
    when (negb (event_cb ctx =? 0))
      (ctx ← get_ctx;
       call_event_cb (event_cb ctx) CanError err (event_cb_user_data ctx));;
    mret SEAT_CTRL_ERR_CAN_IO
  else mret SEAT_CTRL_OK.

Definition seatctrl_stop_movement : ctl Z :=
  rc ← seatctrl_send_cmd1 (dir_value OFF) 0;
  mod_ctx (set_desired_position MOTOR_POS_INVALID);;
  mod_ctx (set_desired_direction OFF);;
  mod_ctx (set_command_ts 0);;
  mret rc.

(** ** The control loop *)

(** Lines 338-346 and 349-356: the learned mode changed to [mode]; the message is rate limited
    and [ts] is an [int]. *)
Definition note_learned_mode (mode : bool) (msg : log_msg) : ctl unit :=
  st ← get_st;
  put_st (Statics (last_ctl_pos st) (last_ctl_dir st) mode (learned_mode_changed st));;
  now ← get_ts;
  let ts := i32 now in
  st ← get_st;
  when (LEARNED_MODE_RATE <? ts - learned_mode_changed st)
    (log msg;;
     st ← get_st;
     put_st (Statics (last_ctl_pos st) (last_ctl_dir st) (learned_mode st) ts)).

Definition update_learned_mode : ctl unit :=
  st ← get_st;
  ctx ← get_ctx;
  if learned_mode st && (motor1_learning_state ctx =? learning_value NotLearned) then
    note_learned_mode false LogNotLearned
  else if negb (learned_mode st) && (motor1_learning_state ctx =? learning_value Learned) then
    note_learned_mode true LogLearned
  else mret tt.

(** Lines 384-397: the ECU stopped on its own; the command is sent again. *)
Definition resend_command : ctl unit :=
  log LogMotorOff;;
  seatctrl_send_cmd1 (dir_value OFF) 0;;
  usleep (100 * 1000);;
  ctx ← get_ctx;
  log (LogResend (motor1_pos ctx) (desired_position ctx) (desired_direction ctx));;
  ctx ← get_ctx;
  seatctrl_send_cmd1 (dir_value (desired_direction ctx)) (motor_rpm (config ctx));;
  mret tt.

(** Lines 400-408: an unknown position is reported and the states are remembered. *)
Definition remember_states : ctl unit :=
  ctx ← get_ctx;
  when (motor1_pos ctx =? MOTOR_POS_INVALID)
    (log (LogPosInvalid (desired_position ctx) (desired_direction ctx)));;
  ctx ← get_ctx;
  st ← get_st;
  put_st (Statics (last_ctl_pos st) (motor1_mov_state ctx)
            (learned_mode st) (learned_mode_changed st));;
  ctx ← get_ctx;
  st ← get_st;
  put_st (Statics (motor1_pos ctx) (last_ctl_dir st)
            (learned_mode st) (learned_mode_changed st)).

(** Lines 374-409: a change of position or movement state since the last pass. *)
Definition report_change : ctl unit :=
  ctx ← get_ctx;
  when (negb (motor1_mov_state ctx =? dir_value (desired_direction ctx))
        && negb (motor1_pos ctx =? desired_position ctx))
    (log (LogMismatch (desired_position ctx) (desired_direction ctx) (motor1_mov_state ctx));;
     ctx ← get_ctx;
     when (motor1_mov_state ctx =? dir_value OFF) resend_command);;
  remember_states.

Definition invalidate_last_states : ctl unit :=
  st ← get_st;
  put_st (Statics (last_ctl_pos st) 0 (learned_mode st) (learned_mode_changed st));;
  st ← get_st;
  put_st (Statics MOTOR_POS_INVALID (last_ctl_dir st)
            (learned_mode st) (learned_mode_changed st)).

(** The terminal test, lines 411-413. *)
Definition target_reached (ctx : seatctrl_context_t) : bool :=
  negb (motor1_pos ctx =? MOTOR_POS_INVALID)
  && (((dir_value (desired_direction ctx) =? dir_value INC)
       && (desired_position ctx <=? motor1_pos ctx))
      || ((dir_value (desired_direction ctx) =? dir_value DEC)
          && (motor1_pos ctx <=? desired_position ctx))).

(** Line 363: the operation was just scheduled and the motor does not move yet. *)
Definition waiting_for_motor (elapsed : Z) (ctx : seatctrl_context_t) : bool :=
  (elapsed <? 500) && (motor1_mov_state ctx =? dir_value OFF)
  && negb (motor1_pos ctx =? desired_position ctx).

(** Lines 410-436: the operation ends at the target or after the timeout. *)
Definition finish_operation (elapsed : Z) : ctl Z :=
  ctx ← get_ctx;
  if target_reached ctx then
    log (LogFinished (desired_position ctx) (desired_direction ctx) (motor1_pos ctx) elapsed);;
    seatctrl_stop_movement;;
    invalidate_last_states;;
    mret SEAT_CTRL_OK
  else
  ctx ← get_ctx;
  if command_timeout (config ctx) <? elapsed then
    log (LogTimedOut (desired_position ctx) (desired_direction ctx) elapsed);;
    seatctrl_stop_movement;;
    invalidate_last_states;;
    mret SEAT_CTRL_OK
  else mret SEAT_CTRL_OK.

Definition seatctrl_control_loop : ctl Z :=
  update_learned_mode;;
  ctx ← get_ctx;
  if negb (is_ctl_running ctx) then mret SEAT_CTRL_OK else
  now ← get_ts;
  ctx ← get_ctx;
  let elapsed := now - command_ts ctx in
  ctx ← get_ctx;
  if waiting_for_motor elapsed ctx then
    log (LogWaiting (desired_position ctx) (desired_direction ctx) elapsed);;
    usleep 1000;;
    mret SEAT_CTRL_OK
  else
  st ← get_st;
  ctx ← get_ctx;
  when (negb (last_ctl_pos st =? motor1_pos ctx) || negb (last_ctl_dir st =? motor1_mov_state ctx))
    report_change;;
  finish_operation elapsed.

(** ** The CTL thread *)

(** One iteration of the [while] loop of [seatctrl_threadFunc]; [false] when the loop ends. *)
Definition seatctrl_thread_iteration : ctl bool :=
  ctx ← get_ctx;
  if negb (running ctx && negb (socket ctx =? SOCKET_INVALID)) then mret false else
  ctx ← get_ctx;
  '(cnt, err, frame) ← os (O_read (socket ctx) zero_frame sizeof_can_frame);
  if (cnt <? 0) && (err =? EAGAIN) then
    ctx ← get_ctx;
    if negb (running ctx) then mret false else
    usleep (1000 * 1000);;
    mret true
  else if (cnt <? 0) && (err =? EINTR) then
    usleep (1 * 1000);;
    mret true
  else if cnt <? 0 then
    usleep (1000 * 1000);;
    ctx ← get_ctx;
    when (negb (event_cb ctx =? 0))
      (ctx ← get_ctx;
       call_event_cb (event_cb ctx) CanError err (event_cb_user_data ctx));;
    if cnt =? ENETDOWN then mret true else mret false
  else
    (if can_id frame =? CAN_SECU1_STAT_FRAME_ID then
       rc ← handle_secu_stat frame;
       if rc =? SEAT_CTRL_OK then seatctrl_control_loop;; mret tt else mret tt
     else mret tt);;
    usleep 1000;;
    mret true.

Fixpoint seatctrl_thread_loop (fuel : nat) : ctl bool :=
  match fuel with
  | O => mret true
  | S fuel =>
      again ← seatctrl_thread_iteration;
      if again : bool then seatctrl_thread_loop fuel else mret false
  end.

(** The thread function, for at most [fuel] iterations; [true] means the loop is still on. *)
Definition seatctrl_threadFunc (fuel : nat) : ctl bool :=
  mod_ctx (set_running true);;
  seatctrl_thread_loop fuel.

(** ** The public API *)

(** Lines 612-617: wait while the position is unknown, at most [retries] times 100 ms. *)
Fixpoint wait_motor1_pos (retries : nat) : ctl unit :=
  match retries with
  | O => mret tt
  | S retries =>
      ctx ← get_ctx;
      if negb (motor1_pos ctx =? MOTOR_POS_INVALID) then mret tt
      else usleep (100 * 1000);; wait_motor1_pos retries
  end.

(** Lines 609-623: [false] when no position is known after the wait. *)
Definition motor1_pos_known : ctl bool :=
  ctx ← get_ctx;
  if motor1_pos ctx =? MOTOR_POS_INVALID then
    wait_motor1_pos 30;;
    ctx ← get_ctx;
    mret (negb (motor1_pos ctx =? MOTOR_POS_INVALID))
  else mret true.

Definition direction_to (current_pos desired_position : Z) : MotorDirection :=
  if current_pos <? desired_position then INC else DEC.

(** Lines 653-672: the new goal is published and the motor commanded. *)
Definition start_movement (current_pos desired_position : Z) : ctl Z :=
  let direction := direction_to current_pos desired_position in
  now ← get_ts;
  mod_ctx (set_command_ts now);;
  mod_ctx (set_desired_direction direction);;
  mod_ctx (set_desired_position desired_position);;
  ctx ← get_ctx;
  seatctrl_send_cmd1 (dir_value direction) (motor_rpm (config ctx)).

(** Lines 639-649: nothing to do but to make sure that the motor is off. *)
Definition stay_there : ctl Z :=
  ctx ← get_ctx;
  (if negb (motor1_mov_state ctx =? dir_value OFF) then
     seatctrl_stop_movement;; mret tt
   else
     mod_ctx (set_desired_direction OFF);;
     mod_ctx (set_desired_position MOTOR_POS_INVALID);;
     mod_ctx (set_command_ts 0));;
  mret SEAT_CTRL_OK.

Definition seatctrl_set_position (p : pointer) (desired_position : Z) : ctl Z :=
  ctx ← get_ctx;
  if is_null p || negb (magic ctx =? SEAT_CTRL_CONTEXT_MAGIC) then mret SEAT_CTRL_ERR_INVALID else
  if (desired_position <? 0) || (100 <? desired_position) then mret SEAT_CTRL_ERR_INVALID else
  known ← motor1_pos_known;
  if negb known then mret SEAT_CTRL_ERR_NO_FRAMES else
  seatctrl_stop_movement;;
  usleep (100 * 1000);;
  ctx ← get_ctx;
  let current_pos := motor1_pos ctx in
  if current_pos =? desired_position then stay_there
  else start_movement current_pos desired_position.

Definition env_atoi (name : string) : ctl (option Z) :=
  v ← os (O_getenv name);
  mret (option_map atoi v).

Definition int_to_bool (z : Z) : bool := negb (z =? 0).

(** [None] stands for a NULL [config]; the second result is [*config] on return. *)
Definition seatctrl_default_config (cfg : option seatctrl_config_t)
    : ctl (Z * option seatctrl_config_t) :=
  match cfg with
  | None => mret (SEAT_CTRL_ERR_INVALID, None)
  | Some _ =>
      can ← os (O_getenv "SC_CAN");
      raw ← env_atoi "SC_RAW";
      ctlv ← env_atoi "SC_CTL";
      stat ← env_atoi "SC_STAT";
      verbose ← env_atoi "SC_VERBOSE";
      rpm ← env_atoi "SC_RPM";
      timeout ← env_atoi "SC_TIMEOUT";
      let cfg := Config
        (Some (default "can0" can))
        (default false (option_map int_to_bool raw))
        (default true (option_map int_to_bool ctlv))
        (default true (option_map int_to_bool stat))
        (default false (option_map int_to_bool verbose))
        (default DEFAULT_OPERATION_TIMEOUT timeout)
        (default DEFAULT_RPM rpm) in
      if (motor_rpm cfg <? 1) || (254 <? motor_rpm cfg) then
        mret (SEAT_CTRL_ERR_INVALID,
              Some (Config (can_device cfg) (debug_raw cfg) (debug_ctl cfg) (debug_stats cfg)
                      (debug_verbose cfg) (command_timeout cfg) DEFAULT_RPM))
      else mret (SEAT_CTRL_OK, Some cfg)
  end.

Definition seatctrl_init_ctx (p : pointer) (cfg : option seatctrl_config_t) : ctl Z :=
  match cfg with
  | None => mret SEAT_CTRL_ERR_INVALID
  | Some cfg =>
      if is_null p then mret SEAT_CTRL_ERR_INVALID else
      match can_device cfg with
      | None => mret SEAT_CTRL_ERR_INVALID
      | Some _ =>
          mod_ctx (fun _ => zero_ctx);;
          mod_ctx (set_magic SEAT_CTRL_CONTEXT_MAGIC);;
          mod_ctx (set_config cfg);;
          mod_ctx (set_desired_position MOTOR_POS_INVALID);;
          mod_ctx (set_desired_direction OFF);;
          mod_ctx (set_motor1_mov_state (dir_value INV));;
          mod_ctx (set_motor1_learning_state (learning_value Invalid));;
          mod_ctx (set_motor1_pos MOTOR_POS_INVALID);;
          mod_ctx (set_socket SOCKET_INVALID);;
          mod_ctx (set_thread_id 0);;
          mod_ctx (set_event_cb 0);;
          mod_ctx (set_event_cb_user_data 0);;
          mret SEAT_CTRL_OK
      end
  end.

Definition seatctrl_open (p : pointer) : ctl Z :=
  ctx ← get_ctx;
  match (if is_null p || negb (magic ctx =? SEAT_CTRL_CONTEXT_MAGIC) then None
         else can_device (config ctx)) with
  | None => mret SEAT_CTRL_ERR_INVALID
  | Some dev =>
  ctx ← get_ctx;
  if negb (socket ctx =? SOCKET_INVALID) then mret SEAT_CTRL_ERR else
  ctx ← get_ctx;
  if running ctx || negb (thread_id ctx =? 0) then mret SEAT_CTRL_ERR else
  '(fd, _) ← os (O_socket PF_CAN SOCK_RAW CAN_RAW);
  mod_ctx (set_socket fd);;
  if fd <? 0 then
    mod_ctx (set_socket SOCKET_INVALID);;
    mret SEAT_CTRL_ERR_NO_CAN
  else
  ctx ← get_ctx;
  '(rc, _, ifr) ← os (O_ioctl (socket ctx) SIOCGIFINDEX
                        (Ifreq (String.substring 0 (IFNAMSIZ - 1) dev) 0));
  let ifindex := if rc =? -1 then -1 else ifr_ifindex ifr in
  ctx ← get_ctx;
  '(rc, _) ← os (O_bind (socket ctx) (SockaddrCan AF_CAN ifindex) sizeof_sockaddr_can);
  if rc <? 0 then mret SEAT_CTRL_ERR_CAN_BIND else
  ctx ← get_ctx;
  os (O_setsockopt (socket ctx) SOL_SOCKET SO_RCVTIMEO (1, 0) sizeof_timeval);;
  '(rc, tid) ← os O_pthread_create;
  mod_ctx (set_thread_id tid);;
  if negb (rc =? 0) then
    mod_ctx (set_thread_id 0);;
    mret SEAT_CTRL_ERR
  else mret SEAT_CTRL_OK
  end.

Definition seatctrl_set_event_callback (p : pointer) (cb user_data : Z) : ctl Z :=
  ctx ← get_ctx;
  if is_null p || negb (magic ctx =? SEAT_CTRL_CONTEXT_MAGIC) then mret SEAT_CTRL_ERR_INVALID else
  mod_ctx (set_event_cb cb);;
  mod_ctx (set_event_cb_user_data user_data);;
  mret SEAT_CTRL_OK.

(** Lines 882-890: [rc] after closing the socket. *)
Definition close_socket : ctl Z :=
  ctx ← get_ctx;
  if negb (socket ctx =? SOCKET_INVALID) then
    ctx ← get_ctx;
    '(res, _) ← os (O_close (socket ctx));
    mod_ctx (set_socket SOCKET_INVALID);;
    mret (if res <? 0 then SEAT_CTRL_ERR else SEAT_CTRL_OK)
  else mret SEAT_CTRL_OK.

(** Lines 892-908: wait for the CTL thread; [rc] is replaced when the join fails. *)
Definition join_thread (rc : Z) : ctl Z :=
  ctx ← get_ctx;
  if thread_id ctx =? 0 then mret rc else
  self ← os O_pthread_self;
  ctx ← get_ctx;
  rc ← (if self =? thread_id ctx then mret rc
        else
          ctx ← get_ctx;
          res ← os (O_pthread_join (thread_id ctx));
          mret (if negb (res =? 0) then SEAT_CTRL_ERR else rc));
  mod_ctx (set_thread_id 0);;
  mret rc.

Definition seatctrl_close (p : pointer) : ctl Z :=
  ctx ← get_ctx;
  if is_null p || negb (magic ctx =? SEAT_CTRL_CONTEXT_MAGIC) then mret SEAT_CTRL_ERR_INVALID else
  mod_ctx (set_running false);;
  usleep 5000;;
  rc ← close_socket;
  join_thread rc.

End Controller.
