(* ===== verification/CanSim.v ===== *)
(** * The CAN simulator

    [seatadjuster_engine.c] simulates the seat ECU and [cansim_lib.c] hooks the libc functions of
    the process so that its CAN socket talks to the simulation.  A hooked function falls back to
    the function of the C library underneath: the simulator is an [OS] over another [OS].  Debug
    output is left out, and so are the flags that only control it. *)
From Stdlib Require Import ZArith Lia Ascii String.
From stdpp Require Import base numbers list strings.
From S2P Require Import Prelude Prog CanDbc Os.

(** ** The engine *)

Definition SAE_POS_INVALID : Z := -1.
Definition POS_SHIFT : Z := 10.
Definition MotorDirection_OFF : Z := 0.
Definition MotorDirection_DEC : Z := 1.
Definition MotorDirection_INC : Z := 2.
Definition MotorLRN_OK : Z := 1.

(** A motor the engine reports but does not move. *)
Record idle_motor := IdleMotor { im_pos : Z; im_rpm : Z; im_lrn : Z; im_status : Z }.

Record sae_context_t := Sae {
  _sim_fd : Z;
  _sim_active : bool;
  _sim_delay : Z;
  _sim_motor1_pos : Z;
  _sim_motor1_rpm : Z;
  _sim_motor1_lrn : Z;
  _sim_motor1_status : Z;
  _sim_motor2 : idle_motor;
  _sim_motor3 : idle_motor;
  _sim_motor4 : idle_motor;
  _sim_threshold_enabled : bool;
  _sim_motor1_threshold_hi_stop : bool;
  _sim_motor1_threshold_lo_stop : bool;
  _sim_motor1_oldpos : Z;
  _sim_motor1_ts : Z;
  _sim_motor1_inc : Z }.

Definition sae_pos_raw (percent : Z) : Z := Z.shiftl percent POS_SHIFT.

Definition sae_pos_percent (raw : Z) : Z := Z.shiftr raw POS_SHIFT.

Definition motor_off : idle_motor := IdleMotor SAE_POS_INVALID 0 MotorLRN_OK MotorDirection_OFF.

(** The fields of motor 1 that reading and writing change. *)
Definition set_motor1 (pos rpm status : Z) (hi lo : bool) (ts inc : Z) (s : sae_context_t)
    : sae_context_t :=
  Sae (_sim_fd s) (_sim_active s) (_sim_delay s) pos rpm (_sim_motor1_lrn s) status
    (_sim_motor2 s) (_sim_motor3 s) (_sim_motor4 s) (_sim_threshold_enabled s) hi lo
    (_sim_motor1_oldpos s) ts inc.

Definition set_oldpos (p : Z) (s : sae_context_t) : sae_context_t :=
  Sae (_sim_fd s) (_sim_active s) (_sim_delay s) (_sim_motor1_pos s) (_sim_motor1_rpm s)
    (_sim_motor1_lrn s) (_sim_motor1_status s) (_sim_motor2 s) (_sim_motor3 s) (_sim_motor4 s)
    (_sim_threshold_enabled s) (_sim_motor1_threshold_hi_stop s) (_sim_motor1_threshold_lo_stop s)
    p (_sim_motor1_ts s) (_sim_motor1_inc s).

Definition set_session (fd : Z) (active : bool) (s : sae_context_t) : sae_context_t :=
  Sae fd active (_sim_delay s) (_sim_motor1_pos s) (_sim_motor1_rpm s)
    (_sim_motor1_lrn s) (_sim_motor1_status s) (_sim_motor2 s) (_sim_motor3 s) (_sim_motor4 s)
    (_sim_threshold_enabled s) (_sim_motor1_threshold_hi_stop s) (_sim_motor1_threshold_lo_stop s)
    (_sim_motor1_oldpos s) (_sim_motor1_ts s) (_sim_motor1_inc s).

(** [sae_init]: the engine for given values of SAE_DELAY, SAE_POS, SAE_LRN and SAE_STOP. *)
Definition sae_init (delay pos lrn stop : option string) : sae_context_t :=
  let pos := match option_map atoi pos with
             | None => SAE_POS_INVALID
             | Some p => if (p =? -1) || (p =? 255) then SAE_POS_INVALID else sae_pos_raw p
             end in
  Sae (-1) false (default 10 (option_map atoi delay)) pos 0
    (default MotorLRN_OK (option_map atoi lrn)) MotorDirection_OFF motor_off motor_off motor_off
    (default true (option_map (fun s => negb (atoi s =? 0)) stop)) false false (-2) (-1) 0.

Definition sae_start (s : sae_context_t) (fd : Z) : sae_context_t := set_session fd true s.

Definition sae_close (s : sae_context_t) : sae_context_t := set_session (-1) false s.

Definition sae_estimate_move_time (rpm : Z) : Z :=
  if rpm <? 30 then 0 else if 130 <? rpm then 1000 else 8000 + 200 * (100 - rpm).

(** The raw distance per read. *)
Definition sae_pos_increment (s : sae_context_t) : Z :=
  if _sim_fd s =? -1 then 0 else
  if negb (_sim_active s) then 0 else
  let move_time := sae_estimate_move_time (_sim_motor1_rpm s) in
  if move_time =? 0 then 0
  else Z.quot (Z.shiftl 1 POS_SHIFT * 100 * (_sim_delay s + 10)) move_time.

(** Lines 256-260: an unknown position is replaced. *)
Definition leave_invalid_pos (s : sae_context_t) : sae_context_t :=
  if _sim_motor1_pos s =? SAE_POS_INVALID then
    set_motor1 (sae_pos_raw 42) (_sim_motor1_rpm s) (_sim_motor1_status s)
      (_sim_motor1_threshold_hi_stop s) (_sim_motor1_threshold_lo_stop s) (_sim_motor1_ts s)
      (_sim_motor1_inc s) s
  else s.

(** Lines 262-272: past a threshold, the motor may be stopped there again. *)
Definition reset_thresholds (s : sae_context_t) : sae_context_t :=
  if _sim_threshold_enabled s then
    let p := sae_pos_percent (_sim_motor1_pos s) in
    set_motor1 (_sim_motor1_pos s) (_sim_motor1_rpm s) (_sim_motor1_status s)
      (_sim_motor1_threshold_hi_stop s && negb (p <? 85))
      (_sim_motor1_threshold_lo_stop s && negb (14 <? p))
      (_sim_motor1_ts s) (_sim_motor1_inc s) s
  else s.

(** Lines 274-305: one tick of the motor. *)
Definition move_motor1 (s : sae_context_t) : sae_context_t :=
  let next_pos := _sim_motor1_pos s + _sim_motor1_inc s in
  if _sim_motor1_status s =? MotorDirection_INC then
    let inside := sae_pos_percent next_pos <=? 100 in
    let pos := if inside then next_pos else _sim_motor1_pos s in
    let status := if inside then _sim_motor1_status s else MotorDirection_OFF in
    let stop := _sim_threshold_enabled s && (85 <=? sae_pos_percent pos)
                && negb (_sim_motor1_threshold_hi_stop s) in
    set_motor1 pos (_sim_motor1_rpm s) (if stop then MotorDirection_OFF else status)
      (if stop then true else _sim_motor1_threshold_hi_stop s) (_sim_motor1_threshold_lo_stop s)
      (_sim_motor1_ts s) (_sim_motor1_inc s) s
  else if _sim_motor1_status s =? MotorDirection_DEC then
    let inside := 0 <=? sae_pos_percent next_pos in
    let pos := if inside then next_pos else _sim_motor1_pos s in
    let status := if inside then _sim_motor1_status s else MotorDirection_OFF in
    let stop := _sim_threshold_enabled s && (sae_pos_percent pos <=? 14)
                && negb (_sim_motor1_threshold_lo_stop s) in
    set_motor1 pos (_sim_motor1_rpm s) (if stop then MotorDirection_OFF else status)
      (_sim_motor1_threshold_hi_stop s) (if stop then true else _sim_motor1_threshold_lo_stop s)
      (_sim_motor1_ts s) (_sim_motor1_inc s) s
  else s.

Definition state_bits (status lrn : Z) : Z :=
  Z.lor (Z.land status 3) (Z.shiftl (Z.land lrn 3) 2).

(** The SECU1_STAT frame; [all] is [_sae_all_motors]. *)
Definition stat_frame (all : bool) (s : sae_context_t) : can_frame :=
  let p1 := sae_pos_percent (_sim_motor1_pos s) in
  let percent m := u8 (if all then p1 else sae_pos_percent (im_pos m)) in
  CanFrame 1810 8
    [ Z.lor (state_bits (_sim_motor1_status s) (_sim_motor1_lrn s))
        (Z.shiftl (state_bits (im_status (_sim_motor2 s)) (im_lrn (_sim_motor2 s))) 4);
      Z.lor (state_bits (im_status (_sim_motor3 s)) (im_lrn (_sim_motor3 s)))
        (Z.shiftl (state_bits (im_status (_sim_motor4 s)) (im_lrn (_sim_motor4 s))) 4);
      u8 p1; percent (_sim_motor2 s); percent (_sim_motor3 s); percent (_sim_motor4 s); 0; 0 ].

(** One read, with the milliseconds it sleeps: the engine after it and the frame. *)
Definition sae_tick (s : sae_context_t) : sae_context_t :=
  move_motor1 (reset_thresholds (leave_invalid_pos s)).

Definition nth_byte (n : nat) (f : can_frame) : Z := nth n (data f) 0.

Definition set_rpm234 (f : can_frame) (s : sae_context_t) : sae_context_t :=
  let rpm m n := IdleMotor (im_pos m) (nth_byte n f) (im_lrn m) (im_status m) in
  Sae (_sim_fd s) (_sim_active s) (_sim_delay s) (_sim_motor1_pos s) (_sim_motor1_rpm s)
    (_sim_motor1_lrn s) (_sim_motor1_status s) (rpm (_sim_motor2 s) 2%nat)
    (rpm (_sim_motor3 s) 3%nat) (rpm (_sim_motor4 s) 4%nat)
    (_sim_threshold_enabled s) (_sim_motor1_threshold_hi_stop s) (_sim_motor1_threshold_lo_stop s)
    (_sim_motor1_oldpos s) (_sim_motor1_ts s) (_sim_motor1_inc s).

(** A command that arrives at time [now]. *)
Definition sae_command (f : can_frame) (now : Z) (s : sae_context_t) : sae_context_t :=
  let motor1_dir := Z.land (nth_byte 0 f) 3 in
  let motor1_rpm := nth_byte 1 f in
  let with_rpm rpm status ts inc s :=
    set_motor1 (_sim_motor1_pos s) rpm status (_sim_motor1_threshold_hi_stop s)
      (_sim_motor1_threshold_lo_stop s) ts inc s in
  let s := set_rpm234 f (with_rpm motor1_rpm (_sim_motor1_status s) (_sim_motor1_ts s)
                           (_sim_motor1_inc s) s) in
  let motor_inc := sae_pos_increment s in
  if motor1_dir =? MotorDirection_OFF then with_rpm 0 MotorDirection_OFF (-1) 0 s
  else if (motor1_dir =? MotorDirection_INC) && (0 <? motor1_rpm) then
    with_rpm motor1_rpm MotorDirection_INC now motor_inc s
  else if (motor1_dir =? MotorDirection_DEC) && (0 <? motor1_rpm) then
    with_rpm motor1_rpm MotorDirection_DEC now (- motor_inc) s
  else s.

(** ** The hooks *)

Definition MOCKFD : Z := 1023.

Record sim_context_t := Sim {
  mock_socket : Z; mock_active : bool; sae : sae_context_t; sae_all_motors : bool }.

Definition sim_init_context : sim_context_t :=
  Sim (-1) false (sae_init None None None None) false.

Definition sim_is_mocked_fd (c : sim_context_t) (fd : Z) : bool :=
  (fd =? mock_socket c) && mock_active c.

Definition set_sae (s : sae_context_t) (c : sim_context_t) : sim_context_t :=
  Sim (mock_socket c) (mock_active c) s (sae_all_motors c).

(** [strlen(s) > n && strstr(s, p) == s] *)
Definition can_name (n : nat) (p s : string) : bool :=
  (n <? String.length s)%nat && String.prefix p s.

Section Hooks.
Context {S : Type} {libc : OS S}.

Definition sim_world : Type := sim_context_t * S.

Definition call {X} (e : osE X) (w : sim_world) : X * sim_world :=
  let '(x, s) := os_handle X e (snd w) in (x, (fst w, s)).

Definition get_env (name : string) (w : sim_world) : option string * sim_world :=
  call (O_getenv name) w.

Definition sim_get_ts (w : sim_world) : Z * sim_world :=
  let '((sec, nsec), w) := call O_clock_gettime w in
  (sec * 1000 + Z.quot nsec 1000000, w).

Definition sim_alloc_fd (w : sim_world) : (Z * Z) * sim_world :=
  if mock_socket (fst w) =? -1 then
    let '(delay, w) := get_env "SAE_DELAY" w in
    let '(pos, w) := get_env "SAE_POS" w in
    let '(lrn, w) := get_env "SAE_LRN" w in
    let '(stop, w) := get_env "SAE_STOP" w in
    let '(all, w) := get_env "SAE_ALL" w in
    let all := default (sae_all_motors (fst w)) (option_map (fun s => negb (atoi s =? 0)) all) in
    ((MOCKFD, 0),
     (Sim MOCKFD true (sae_start (sae_init delay pos lrn stop) MOCKFD) all, snd w))
  else ((-1, ENODEV), w).

Definition sim_close_fd (fd : Z) (w : sim_world) : sim_world :=
  let c := fst w in
  if mock_socket c =? fd
  then (Sim (-1) (mock_active c) (sae_close (sae c)) (sae_all_motors c), snd w)
  else w.

Definition sae_read_cb (buf : can_frame) (len : Z) (w : sim_world)
    : (Z * Z * can_frame) * sim_world :=
  let s := sae (fst w) in
  if _sim_fd s =? -1 then ((-1, EINVAL, buf), w) else
  if negb (len =? sizeof_can_frame) then ((-1, EINVAL, buf), w) else
  if negb (_sim_active s) then
    let '(_, w) := call (O_usleep (_sim_delay s * 1000)) w in
    ((-1, EAGAIN, buf), w)
  else
  let '(_, w) := if _sim_motor1_pos s =? SAE_POS_INVALID
                 then call (O_usleep (_sim_delay s * 1000)) w else (tt, w) in
  let s := sae_tick s in
  let f := stat_frame (sae_all_motors (fst w)) s in
  let '(_, w) := call (O_usleep (_sim_delay s * 1000)) w in
  ((sizeof_can_frame, 0, f),
   (set_sae (set_oldpos (sae_pos_percent (_sim_motor1_pos s)) s) (fst w), snd w)).

Definition sae_write_cb (f : can_frame) (len : Z) (w : sim_world) : (Z * Z) * sim_world :=
  let s := sae (fst w) in
  if _sim_fd s =? -1 then ((-1, EINVAL), w) else
  if negb (len =? sizeof_can_frame) then ((-1, EINVAL), w) else
  if can_id f =? 1797 then
    let dir := Z.land (nth_byte 0 f) 3 in
    let moving := ((dir =? MotorDirection_INC) || (dir =? MotorDirection_DEC))
                  && (0 <? nth_byte 1 f) in
    let '(now, w) := if moving then sim_get_ts w else (0, w) in
    ((len, 0), (set_sae (sae_command f now s) (fst w), snd w))
  else ((len, 0), w).

(** ** The hooked functions *)

Definition hook_socket (domain type protocol : Z) (w : sim_world) : (Z * Z) * sim_world :=
  if (domain =? PF_CAN) && (type =? SOCK_RAW) && (protocol =? CAN_RAW) then sim_alloc_fd w
  else call (O_socket domain type protocol) w.

Definition hook_bind (fd : Z) (addr : sockaddr_can) (addrlen : Z) (w : sim_world)
    : (Z * Z) * sim_world :=
  if sim_is_mocked_fd (fst w) fd then
    if negb (addrlen =? sizeof_sockaddr_can) then ((-1, EINVAL), w) else ((0, 0), w)
  else call (O_bind fd addr addrlen) w.

(** SIOCGIFINDEX is answered on every descriptor. *)
Definition hook_ioctl (fd request : Z) (ifr : ifreq) (w : sim_world) : (Z * Z * ifreq) * sim_world :=
  if (request =? SIOCGIFINDEX) || sim_is_mocked_fd (fst w) fd then
    if request =? SIOCGIFINDEX then ((0, 0, Ifreq (ifr_name ifr) 0), w)
    else ((0, 0, ifr), w)
  else call (O_ioctl fd request ifr) w.

Definition hook_write (fd : Z) (buf : can_frame) (len : Z) (w : sim_world) : (Z * Z) * sim_world :=
  if sim_is_mocked_fd (fst w) fd then
    if len =? sizeof_can_frame then
      if negb (_sim_fd (sae (fst w)) =? fd) then ((-1, ENODEV), w) else sae_write_cb buf len w
    else ((-1, ENOBUFS), w)
  else call (O_write fd buf len) w.

Definition hook_read (fd : Z) (buf : can_frame) (len : Z) (w : sim_world)
    : (Z * Z * can_frame) * sim_world :=
  if sim_is_mocked_fd (fst w) fd then
    if len =? sizeof_can_frame then
      if negb (_sim_fd (sae (fst w)) =? fd) then ((-1, ENODEV, buf), w)
      else sae_read_cb buf len w
    else ((-1, ENOBUFS, buf), w)
  else call (O_read fd buf len) w.

Definition hook_if_nametoindex (name : option string) (w : sim_world) : (Z * Z) * sim_world :=
  match name with
  | None => ((2 ^ 32 - 1, EINVAL), w)
  | Some n =>
      if can_name 3 "can" n then ((42, 0), w)
      else if can_name 4 "vcan" n then ((43, 0), w)
      else call (O_if_nametoindex name) w
  end.

Definition hook_setsockopt (fd level optname : Z) (tv : Z * Z) (optlen : Z) (w : sim_world)
    : (Z * Z) * sim_world :=
  if sim_is_mocked_fd (fst w) fd then ((0, 0), w)
  else call (O_setsockopt fd level optname tv optlen) w.

Definition hook_close (fd : Z) (w : sim_world) : (Z * Z) * sim_world :=
  if sim_is_mocked_fd (fst w) fd then ((0, 0), sim_close_fd fd w) else call (O_close fd) w.

#[export] Instance sim_os : OS sim_world := fun X e =>
  match e in osE X return sim_world -> X * sim_world with
  | O_socket domain type protocol => hook_socket domain type protocol
  | O_bind fd addr addrlen => hook_bind fd addr addrlen
  | O_ioctl fd request ifr => hook_ioctl fd request ifr
  | O_write fd buf len => hook_write fd buf len
  | O_read fd buf len => hook_read fd buf len
  | O_if_nametoindex name => hook_if_nametoindex name
  | O_setsockopt fd level optname tv optlen => hook_setsockopt fd level optname tv optlen
  | O_close fd => hook_close fd
  | e => fun w => call e w
  end.

End Hooks.

(** Reduces a call of the simulated system to the function that answers it. *)
Ltac hooks :=
  cbn [os_handle sim_os];
  unfold hook_socket, hook_bind, hook_ioctl, hook_write, hook_read, hook_if_nametoindex,
    hook_setsockopt, hook_close.
