(* ===== verification/CanSimLib.v ===== *)
(** * Loading the CAN simulator

    [cansim_lib.c] is preloaded into a process.  Its constructor reads the environment, initialises
    the simulation and looks up the functions of the C library that the hooks fall back to; a
    hook is called through the table only when its look-up succeeded. *)
From Stdlib Require Import ZArith Lia String.
From stdpp Require Import base numbers list strings.
From S2P Require Import Prelude Os CanSim.

(** [sim_log]. *)
Inductive log_target := LogNull | LogStderr | LogFile (name : string).

Record sim_library := SimLibrary {
  sim_initialized : bool;
  lib_debug : bool;
  lib_verbose : bool;
  sim_log : log_target;
  hook_table : list string;
  sim : sim_context_t }.

Definition zero_sim : sim_context_t :=
  Sim 0 false (Sae 0 false 0 0 0 0 0 (IdleMotor 0 0 0 0) (IdleMotor 0 0 0 0) (IdleMotor 0 0 0 0)
                 false false false 0 0 0) false.

(** Before the constructor runs: statics as they are initialised in the file. *)
Definition unloaded : sim_library := SimLibrary false true false LogNull [] zero_sim.

(** The functions that are looked up, in order. *)
Definition hooked : list string :=
  ["socket"; "bind"; "ioctl"; "write"; "read"; "if_nametoindex"; "setsockopt"; "close"]%string.

Section Library.
Variable getenv : string -> option string.
Variable fopen : string -> bool.
(** The results of [pthread_mutex_init], of [dlopen] and of [dlsym]. *)
Variable mutex_init : Z.
Variable dlopen : bool.
Variable dlsym : string -> bool.

Definition is_one (name : string) : bool :=
  match getenv name with Some v => bool_decide (v = "1"%string) | None => false end.

(** [sim_init_context]: the result and the context; [all] is the flag for all motors. *)
Definition init_context (all : bool) : Z * sim_context_t :=
  if negb (mutex_init =? 0) then (-1, Sim (-1) false (sae zero_sim) all)
  else
    (0, Sim (-1) false
          (sae_init (getenv "SAE_DELAY") (getenv "SAE_POS") (getenv "SAE_LRN") (getenv "SAE_STOP"))
          (default all (option_map (fun s => negb (atoi s =? 0)) (getenv "SAE_ALL")))).

(** The look-ups, up to the first one that fails. *)
Fixpoint lookup_hooks (names : list string) (table : list string) : list string * bool :=
  match names with
  | [] => (table, true)
  | n :: names => if dlsym n then lookup_hooks names (table ++ [n]) else (table, false)
  end.

Definition open_log (log : log_target) : log_target :=
  let log := match getenv "CANSIM_LOG" with
             | Some name => if fopen name then LogFile name else LogNull
             | None => log
             end in
  match log with LogNull => LogStderr | _ => log end.

(** The library, and the code if the process exits. *)
Definition _initialize (l : sim_library) : sim_library * option Z :=
  let l := SimLibrary (sim_initialized l) (is_one "CANSIM_DEBUG") (is_one "CANSIM_VERBOSE")
             (open_log (sim_log l)) (hook_table l) (sim l) in
  if sim_initialized l then (l, None) else
  let '(res, ctx) := init_context (sae_all_motors (sim l)) in
  let l := SimLibrary false (lib_debug l) (lib_verbose l) (sim_log l) (hook_table l) ctx in
  if negb (res =? 0) then (l, Some 1) else
  if negb dlopen then (l, Some 1) else
  let '(table, found) := lookup_hooks hooked [] in
  let l := SimLibrary false (lib_debug l) (lib_verbose l) (sim_log l) table ctx in
  if negb found then (l, Some 1)
  else (SimLibrary true (lib_debug l) (lib_verbose l) (sim_log l) table ctx, None).

Definition sim_init (l : sim_library) : sim_library * option Z := _initialize l.

(** [sim_context]: the address of the simulation, which is initialised on the first call. *)
Definition sim_context (l : sim_library) : sim_library * option Z :=
  if sim_initialized l then (l, None) else _initialize l.

Definition sim_fini (l : sim_library) : sim_library :=
  let s := sim l in
  SimLibrary (sim_initialized l) (lib_debug l) (lib_verbose l)
    (match sim_log l with LogFile _ => LogStderr | log => log end) (hook_table l)
    (Sim (mock_socket s) false (sae s) (sae_all_motors s)).

(** ** Initialisation *)

Lemma lookup_hooks_spec names table :
  lookup_hooks names table = (table ++ names, true) /\ forallb dlsym names = true
  \/ snd (lookup_hooks names table) = false /\ forallb dlsym names = false.
Proof.
  revert table. induction names as [|n names IH]; intros table; simpl.
  - left. by rewrite app_nil_r.
  - destruct (dlsym n); [|by right]. simpl. destruct (IH (table ++ [n])) as [[-> H]|H].
    + left. by rewrite <- app_assoc.
    + by right.
Qed.

(** Loading the library either ends the process with code 1, exactly when the mutex, the library
    or one of the functions is missing, or leaves every hook in the table and an idle simulation.
    Initialising it again re-reads the flags and changes neither hooks nor simulation, even if
    the look-ups would fail now. *)
Theorem initialised_once (l : sim_library) :
  sim_initialized l = false ->
  let '(l1, exited) := _initialize l in
  exited = (if (mutex_init =? 0) && dlopen && forallb dlsym hooked then None else Some 1)
  /\ (exited = None ->
      sim_initialized l1 = true /\ hook_table l1 = hooked
      /\ (forall fd, sim_is_mocked_fd (sim l1) fd = false)
      /\ sim_log l1 <> LogNull
      /\ let '(l2, exited2) := _initialize l1 in
         exited2 = None /\ hook_table l2 = hooked /\ sim l2 = sim l1).
Proof.
  intros Hi. unfold _initialize at 1. cbn [sim_initialized]. rewrite Hi. unfold init_context.
  destruct (mutex_init =? 0); cbn [negb andb]; [|by split]. change (negb (0 =? 0)) with false.
  cbv iota. destruct dlopen; cbn [negb andb]; [|by split].
  destruct (lookup_hooks_spec hooked []) as [[-> Hd]|[Hf Hd]]; rewrite Hd.
  - cbn [app negb]. split; [done|]. intros _. split_and!; try done.
    + intros fd. unfold sim_is_mocked_fd. cbn. apply andb_false_r.
    + cbn [sim_log]. unfold open_log. by repeat case_match.
  - destruct (lookup_hooks hooked []) as [table found]. cbn in Hf. subst found. by split.
Qed.

End Library.
