(* ===== verification/VirtualMachine.v ===== *)
(** * Clocks, and a virtual machine

    [Clock] is what the code relies on about time: the clock does not go back and sleeping takes
    at least as long as asked.  [vm] is a small operating system with a virtual clock and an
    environment; with the CAN simulator on top it is the concrete system in which the theorems
    about every operating system are instantiated. *)
From Stdlib Require Import ZArith Lia Ascii String.
From stdpp Require Import base numbers list strings.
From S2P Require Import Prelude Prog CanDbc Os CanSim.

Class Clock (S : Type) {O : OS S} := {
  now_us : S -> Z;
  now_nonneg s : 0 <= now_us s;
  clock_reads s :
    fst (os_handle _ O_clock_gettime s) = (now_us s / 1000000, (now_us s mod 1000000) * 1000);
  clock_sleeps us s : now_us s + us <= now_us (snd (os_handle _ (O_usleep us) s));
  clock_mono X (e : osE X) s : now_us s <= now_us (snd (os_handle X e s)) }.

(** The clock in milliseconds. *)
Definition now_ms {S} {O : OS S} {C : Clock S} (s : S) : Z := now_us s / 1000.

Lemma clock_ms us : 0 <= us -> us / 1000000 * 1000 + Z.quot ((us mod 1000000) * 1000) 1000000 = us / 1000.
Proof.
  intros H. rewrite Z.quot_div_nonneg by (pose proof (Z.mod_pos_bound us 1000000); lia).
  change 1000000 with (1000 * 1000) at 3. rewrite Z.div_mul_cancel_r by lia.
  rewrite (Z.div_mod us 1000000) at 3 by lia.
  replace (1000000 * (us / 1000000) + us mod 1000000)
    with (us / 1000000 * 1000 * 1000 + us mod 1000000) by lia.
  by rewrite Z.div_add_l by lia.
Qed.

(** ** The virtual machine *)

Record vm := Vm { vm_us : Z; vm_env : list (string * string) }.

Definition vm_getenv (n : string) (v : vm) : option string :=
  snd <$> find (fun kv => bool_decide (fst kv = n)) (vm_env v).

#[export] Instance vm_os : OS vm := fun X e =>
  match e in osE X return vm -> X * vm with
  | O_socket _ _ _ => fun v => ((-1, ENODEV), v)
  | O_ioctl _ _ ifr => fun v => ((-1, ENODEV, ifr), v)
  | O_if_nametoindex _ => fun v => ((0, ENODEV), v)
  | O_bind _ _ _ => fun v => ((-1, ENODEV), v)
  | O_setsockopt _ _ _ _ _ => fun v => ((-1, ENODEV), v)
  | O_read _ buf _ => fun v => ((-1, ENODEV, buf), v)
  | O_write _ _ _ => fun v => ((-1, ENODEV), v)
  | O_close _ => fun v => ((-1, ENODEV), v)
  | O_clock_gettime => fun v =>
      let us := Z.max 0 (vm_us v) in ((us / 1000000, (us mod 1000000) * 1000), v)
  | O_usleep us => fun v => (tt, Vm (Z.max 0 (vm_us v) + Z.max 0 us) (vm_env v))
  | O_pthread_create => fun v => ((0, 7), v)
  | O_pthread_self => fun v => (1, v)
  | O_pthread_join _ => fun v => (0, v)
  | O_getenv n => fun v => (vm_getenv n v, v)
  end.

#[export] Instance vm_clock : Clock vm.
Proof.
  refine {| now_us v := Z.max 0 (vm_us v) |}.
  - intros v. lia.
  - done.
  - intros us v. simpl. lia.
  - intros X e v. destruct e; simpl; lia.
Defined.

#[export] Instance vm_laws : OSLaws vm.
Proof.
  intros X e v. destruct e; simpl; try done; try lia.
  pose proof (Z.mod_pos_bound (Z.max 0 (vm_us v)) 1000000).
  split; [apply Z.div_pos; lia | lia].
Qed.

(** ** The simulator keeps time, and answers as an operating system should *)

Section Sim.
Context {S : Type} {libc : OS S}.

Lemma land_3 a : Z.land a 3 = a mod 4.
Proof. change 3 with (Z.ones 2). by rewrite Z.land_ones by lia. Qed.

Lemma state_bits_sum status lrn : state_bits status lrn = status mod 4 + (lrn mod 4) * 4.
Proof.
  unfold state_bits. rewrite !land_3. pose proof (Z.mod_pos_bound status 4).
  rewrite lor_shiftl_add by lia. lia.
Qed.

Lemma state_bits_range status lrn : 0 <= state_bits status lrn < 16.
Proof.
  rewrite state_bits_sum. pose proof (Z.mod_pos_bound status 4). pose proof (Z.mod_pos_bound lrn 4).
  lia.
Qed.

(** Two states in one byte. *)
Lemma state_byte s1 l1 s2 l2 :
  Z.lor (state_bits s1 l1) (Z.shiftl (state_bits s2 l2) 4)
  = state_bits s1 l1 + state_bits s2 l2 * 16.
Proof.
  pose proof (state_bits_range s1 l1). by rewrite lor_shiftl_add by lia.
Qed.

Lemma wf_stat_frame all s : wf_frame (stat_frame all s).
Proof.
  unfold wf_frame, stat_frame. cbn [can_id can_dlc data length]. unfold is_u8.
  split_and!; try lia; try done. rewrite !state_byte.
  pose proof (state_bits_range (_sim_motor1_status s) (_sim_motor1_lrn s)).
  pose proof (state_bits_range (im_status (_sim_motor2 s)) (im_lrn (_sim_motor2 s))).
  pose proof (state_bits_range (im_status (_sim_motor3 s)) (im_lrn (_sim_motor3 s))).
  pose proof (state_bits_range (im_status (_sim_motor4 s)) (im_lrn (_sim_motor4 s))).
  repeat constructor; try lia; apply u8_range.
Qed.

Lemma call_snd {X} (e : osE X) (w : sim_world) :
  call e w = (fst (os_handle X e (snd w)), (fst w, snd (os_handle X e (snd w)))).
Proof. unfold call. by destruct (os_handle X e (snd w)). Qed.

#[export] Instance sim_laws {L : OSLaws S} : OSLaws (@sim_world S).
Proof.
  intros X e w. pose proof (os_answers X e (snd w)) as H.
  destruct e; hooks; rewrite ?call_snd; try exact H; try done.
  - destruct (_ && _); [|exact H]. unfold sim_alloc_fd. destruct (_ =? -1); [|simpl; lia].
    unfold get_env. rewrite !call_snd. simpl. unfold MOCKFD. lia.
  - repeat case_match; rewrite ?call_snd; try done.
    + unfold sae_read_cb. repeat (case_match; rewrite ?call_snd in *; simplify_eq);
        simpl; (split; [unfold sizeof_can_frame; lia|]); try done; intros _; apply wf_stat_frame.
Qed.
 
Context {C : Clock S}.

Lemma call_mono {X} (e : osE X) (w : sim_world) :
  now_us (snd w) <= now_us (snd (snd (call e w))).
Proof. rewrite call_snd. cbn [snd]. apply clock_mono. Qed.

Lemma sim_get_ts_mono w : now_us (snd w) <= now_us (snd (snd (sim_get_ts w))).
Proof.
  unfold sim_get_ts. pose proof (call_mono O_clock_gettime w) as H.
  by destruct (call O_clock_gettime w) as [[a b] w'].
Qed.

(** Monotone steps of the simulated world. *)
Definition later (w w' : @sim_world S) : Prop := now_us (snd w) <= now_us (snd w').

Lemma later_alloc w : later w (snd (sim_alloc_fd w)).
Proof.
  unfold later, sim_alloc_fd, get_env. destruct (_ =? -1); [|simpl; lia]. rewrite !call_snd.
  cbn [fst snd]. repeat (etrans; [|apply clock_mono]). lia.
Qed.

Lemma later_read buf len w : later w (snd (sae_read_cb buf len w)).
Proof.
  unfold later, sae_read_cb. repeat (case_match; rewrite ?call_snd in *; simplify_eq); cbn [fst snd];
    repeat (etrans; [|apply clock_mono]); lia.
Qed.

Lemma later_write f len w : later w (snd (sae_write_cb f len w)).
Proof.
  unfold later, sae_write_cb. repeat (case_match; rewrite ?call_snd in *; simplify_eq); cbn [fst snd];
    try lia.
  match goal with H : sim_get_ts w = _ |- _ =>
    pose proof (sim_get_ts_mono w) as Hm; rewrite H in Hm; exact Hm end.
Qed.

Lemma later_close fd w : later w (snd ((0, 0), sim_close_fd fd w)).
Proof. unfold later, sim_close_fd. cbn [snd]. case_match; simpl; lia. Qed.

#[export] Instance sim_clock : Clock (@sim_world S).
Proof.
  refine {| now_us w := now_us (snd w) |}.
  - intros w. apply now_nonneg.
  - intros w. hooks. rewrite call_snd. apply clock_reads.
  - intros us w. hooks. rewrite call_snd. apply clock_sleeps.
  - intros X e w.
    destruct e; hooks; try apply call_mono;
      repeat case_match; try apply call_mono; try (cbn [snd]; lia).
    + apply later_alloc.
    + apply later_read.
    + apply later_write.
    + apply later_close.
Defined.

End Sim.
