(* ===== verification/Printing.v ===== *)
(** * The dumps of the controller

    The printing functions of [seat_controller.cc] as functions to strings.  [print_can_raw]
    builds its line in a buffer of 256 bytes with [snprintf]; writing past it, and reading past
    the eight bytes of a frame, is undefined and shows as [None]. *)
From Stdlib Require Import ZArith Lia Ascii String.
From stdpp Require Import base numbers list strings pretty.
From S2P Require Import Prelude Prog CanDbc Os SeatController.

(** ** printf conversions *)

Definition hex_digit (z : Z) : ascii := ascii_of_N (Z.to_N (if z <? 10 then 48 + z else 55 + z)).

(** [%X] of at most [fuel] digits. *)
Fixpoint hex_go (fuel : nat) (z : Z) (acc : string) : string :=
  match fuel with
  | O => acc
  | S fuel =>
      let acc := String (hex_digit (z mod 16)) acc in
      if z / 16 =? 0 then acc else hex_go fuel (z / 16) acc
  end.

(** Eight digits hold 32 bits. *)
Definition hex (z : Z) : string := hex_go 8 z EmptyString.

Fixpoint fill (n : nat) (c : ascii) : string :=
  match n with O => EmptyString | S n => String c (fill n c) end.

Definition pad_left (width : nat) (c : ascii) (s : string) : string :=
  fill (width - String.length s) c +:+ s.
Definition pad_right (width : nat) (s : string) : string :=
  s +:+ fill (width - String.length s) " "%char.

(** [%02X], [%03X], [%3d], [%-3s], [%3s]. *)
Definition x2 (z : Z) : string := pad_left 2 "0"%char (hex z).
Definition x3 (z : Z) : string := pad_left 3 "0"%char (hex z).
Definition d3 (z : Z) : string := pad_left 3 " "%char (pretty z).
Definition s3 (s : string) : string := pad_left 3 " "%char s.

Definition newline : string := String "010"%char EmptyString.

Definition PREFIX_CAN : string := "        [CAN]: ".

(** ** print_can_raw *)

(** [snprintf(buf + strlen(buf), size, ...)] in a buffer of 256 bytes. *)
Definition snprintf_at (buf text : string) (size : nat) : option string :=
  let text := String.substring 0 (size - 1) text in
  if (String.length buf + String.length text + 1 <=? 256)%nat then Some (buf +:+ text) else None.

Fixpoint print_bytes (n i : nat) (bytes : list Z) (buf : string) : option string :=
  match n with
  | O => Some buf
  | S n =>
      match bytes !! i with
      | Some b =>
          match snprintf_at buf (x2 b +:+ " ") 256 with
          | Some buf => print_bytes n (S i) bytes buf
          | None => None
          end
      | None => None
      end
  end.

Definition can_raw_header (frame : can_frame) (is_received : bool) : string :=
  PREFIX_CAN +:+ (if is_received then "RX" else "TX") +:+ ": 0x" +:+ x3 (can_id frame)
  +:+ " [" +:+ pretty (can_dlc frame) +:+ "] ".

Definition print_can_raw (frame : can_frame) (is_received : bool) : option string :=
  match snprintf_at EmptyString (can_raw_header frame is_received) 256 with
  | Some buf =>
      match print_bytes (Z.to_nat (can_dlc frame)) 0 (data frame) buf with
      | Some buf => Some (buf +:+ newline)
      | None => None
      end
  | None => None
  end.

(** ** The other dumps *)

Fixpoint hex_bytes (bytes : list Z) : string :=
  match bytes with [] => EmptyString | b :: bytes => x2 b +:+ " " +:+ hex_bytes bytes end.

(** [buf] are the [len] bytes. *)
Definition dumphex (prefix : string) (buf : list Z) (len : Z) : string :=
  prefix +:+ " <" +:+ pretty len +:+ "> [" +:+ hex_bytes (take (Z.to_nat len) buf) +:+ "]" +:+ newline.

Definition print_ctl_stats (prefix : string) : ctl string :=
  ctx ← get_ctx;
  elapsed ← (if negb (command_ts ctx =? 0) then
               now ← get_ts;
               ctx ← get_ctx;
               mret (now - command_ts ctx)
             else mret (-1));
  ctx ← get_ctx;
  mret (prefix +:+ "motor1:{ pos:" +:+ d3 (motor1_pos ctx) +:+ "%, "
        +:+ pad_right 3 (mov_state_string (motor1_mov_state ctx)) +:+ " } --> target:{ pos:"
        +:+ d3 (desired_position ctx) +:+ "%, "
        +:+ s3 (mov_state_string (dir_value (desired_direction ctx))) +:+ " }, elapsed: "
        +:+ pretty elapsed +:+ " ms." +:+ newline).

Definition print_secu1_cmd_1 (prefix : string) (cmd : CAN_secu1_cmd_1_t) : string :=
  prefix +:+ "[SECU1]{ motor1_cmd: " +:+ mov_state_string (motor1_manual_cmd cmd)
  +:+ ", motor1_rpm: " +:+ pretty (motor1_set_rpm cmd * 100) +:+ " }" +:+ newline.

Definition print_secu1_stat (prefix : string) (stat : CAN_secu1_stat_t) : string :=
  prefix +:+ "{ motor1_pos:" +:+ d3 (CanDbc.motor1_pos stat) +:+ "%, motor1_mov_state: "
  +:+ pad_right 3 (mov_state_string (CanDbc.motor1_mov_state stat)) +:+ ", motor1_learning_state: "
  +:+ learning_state_string (CanDbc.motor1_learning_state stat) +:+ " }" +:+ newline.

(** ** The buffer is large enough *)

Lemma length_append s t : String.length (s +:+ t) = (String.length s + String.length t)%nat.
Proof. induction s as [|c s IH]; [done|]. unfold String.app in *. simpl. by rewrite IH. Qed.

Lemma append_assoc s t u : s +:+ (t +:+ u) = (s +:+ t) +:+ u.
Proof. induction s as [|c s IH]; [done|]. unfold String.app in *. simpl. by rewrite IH. Qed.

Lemma append_nil_r s : s +:+ EmptyString = s.
Proof. induction s as [|c s IH]; [done|]. unfold String.app in *. simpl. by rewrite IH. Qed.

Lemma substring_whole n s : (String.length s <= n)%nat -> String.substring 0 n s = s.
Proof.
  revert n. induction s as [|c s IH]; intros [|n] H; simpl in *; try done; [lia|].
  rewrite IH by lia. done.
Qed.

Lemma hex_go_length fuel z acc :
  (String.length (hex_go fuel z acc) <= fuel + String.length acc)%nat.
Proof.
  revert z acc. induction fuel as [|fuel IH]; intros z acc; simpl; [lia|].
  destruct (_ =? _); simpl; [lia|]. etrans; [apply IH|]. simpl. lia.
Qed.

Lemma fill_length n c : String.length (fill n c) = n.
Proof. induction n; simpl; congruence. Qed.

Lemma pad_left_length width c s :
  String.length (pad_left width c s) = Nat.max width (String.length s).
Proof. unfold pad_left. rewrite length_append, fill_length. lia. Qed.

Lemma hex_length z : (String.length (hex z) <= 8)%nat.
Proof. unfold hex. etrans; [apply hex_go_length|]. simpl. lia. Qed.

(** A byte takes two digits. *)
Lemma x2_byte b : is_u8 b -> String.length (x2 b) = 2%nat.
Proof.
  intros Hb. assert (forallb (fun b => (String.length (x2 b) =? 2)%nat) (seqZ 0 256) = true) as H
    by (vm_compute; reflexivity).
  rewrite forallb_forall in H. apply Nat.eqb_eq, H, list_elem_of_In, elem_of_seqZ.
  unfold is_u8 in Hb. lia.
Qed.

Lemma snprintf_fits buf text :
  (String.length buf + String.length text < 256)%nat -> snprintf_at buf text 256 = Some (buf +:+ text).
Proof.
  intros H. unfold snprintf_at. rewrite substring_whole by (simpl; lia).
  by rewrite (proj2 (Nat.leb_le _ _)) by lia.
Qed.

Lemma print_bytes_past n i bytes buf :
  (i <= length bytes < i + n)%nat -> print_bytes n i bytes buf = None.
Proof.
  revert i buf. induction n as [|n IH]; intros i buf H; simpl.
  - lia.
  - destruct (bytes !! i) as [b|] eqn:E; [|done]. destruct (snprintf_at _ _ _); [|done].
    apply lookup_lt_Some in E. apply IH. lia.
Qed.

Lemma print_bytes_all n i bytes buf :
  Forall is_u8 bytes -> (i + n <= length bytes)%nat -> (String.length buf + 3 * n < 256)%nat ->
  print_bytes n i bytes buf = Some (buf +:+ hex_bytes (take n (drop i bytes))).
Proof.
  intros Hb. revert i buf. induction n as [|n IH]; intros i buf Hi Hl; simpl.
  - rewrite append_nil_r. done.
  - destruct (lookup_lt_is_Some_2 bytes i ltac:(lia)) as [b Eb]. rewrite Eb.
    assert (String.length (x2 b) = 2%nat) as H2
      by (apply x2_byte; rewrite Forall_forall in Hb; apply Hb; by eapply list_elem_of_lookup_2).
    rewrite snprintf_fits by (rewrite length_append; simpl; lia).
    rewrite IH by (rewrite ?length_append; simpl; lia).
    rewrite (drop_S bytes b i Eb). simpl. by rewrite !append_assoc.
Qed.

(** C37: A frame of up to eight bytes is printed completely, header and bytes, and the line fits into the
    buffer although every [snprintf] is told that all of it is free; a longer one would be read
    and written out of bounds. *)
Theorem print_can_raw_in_bounds frame is_received :
  wf_frame frame ->
  print_can_raw frame is_received
  = if can_dlc frame <=? 8
    then Some (can_raw_header frame is_received
               +:+ hex_bytes (take (Z.to_nat (can_dlc frame)) (data frame)) +:+ newline)
    else None.
Proof.
  intros (_ & Hd & Hlen & Hb). unfold is_u8 in Hd. unfold print_can_raw.
  destruct (Z.leb_spec (can_dlc frame) 8) as [H8|H8].
  - assert (String.length (can_raw_header frame is_received) <= 60)%nat as Hh.
    { unfold can_raw_header. rewrite !length_append. unfold x3. rewrite pad_left_length.
      pose proof (hex_length (can_id frame)).
      assert (String.length (pretty (can_dlc frame)) <= 2)%nat.
      { assert (forallb (fun d => (String.length (pretty d) <=? 2)%nat) (seqZ 0 9) = true) as H'
          by (vm_compute; reflexivity).
        rewrite forallb_forall in H'. apply Nat.leb_le, H', list_elem_of_In, elem_of_seqZ. lia. }
      destruct is_received; simpl in *; lia. }
    rewrite snprintf_fits by (cbn [String.length]; lia).
    change (EmptyString +:+ can_raw_header frame is_received) with (can_raw_header frame is_received).
    rewrite print_bytes_all by (try done; lia). rewrite drop_0.
    by rewrite append_assoc.
  - destruct (snprintf_at _ _ _); [|done]. by rewrite print_bytes_past by lia.
Qed.
