(* ===== verification/CtlMachine.v ===== *)
(** * Executing the controller

    The machine a controller program runs on when no other thread interferes: the context, the
    static variables, the state of an operating system ([OS]) and the trace of what the outside
    world can observe.  The rewrite rules of the [run] database execute programs symbolically. *)
From Stdlib Require Import ZArith Lia String.
From stdpp Require Import base numbers list strings.
From S2P Require Import Prelude Prog CanDbc Os SeatController.

Inductive event :=
| EvWrite (fd : Z) (frame : can_frame) (cnt : Z)
| EvSleep (us : Z)
| EvEventCb (cb : Z) (ev : SeatCtrlEvent) (value user_data : Z)
| EvLog (m : log_msg).

Definition os_events {X} (e : osE X) : X -> list event :=
  match e in osE X return X -> list event with
  | O_write fd f _ => fun r => [EvWrite fd f (fst r)]
  | O_usleep us => fun _ => [EvSleep us]
  | _ => fun _ => []
  end.

Record machine (S : Type) := Machine {
  m_ctx : seatctrl_context_t;
  m_st : ctl_statics;
  m_os : S;
  m_trace : list event }.

Arguments Machine {S} _ _ _ _.
Arguments m_ctx {S} _.
Arguments m_st {S} _.
Arguments m_os {S} _.
Arguments m_trace {S} _.

Section Machine.
Context {S : Type} {O : OS S}.

Definition with_ctx (f : seatctrl_context_t -> seatctrl_context_t) (m : machine S) : machine S :=
  Machine (f (m_ctx m)) (m_st m) (m_os m) (m_trace m).
Definition with_st (st : ctl_statics) (m : machine S) : machine S :=
  Machine (m_ctx m) st (m_os m) (m_trace m).
Definition with_os (o : S) (m : machine S) : machine S :=
  Machine (m_ctx m) (m_st m) o (m_trace m).
Definition emit (evs : list event) (m : machine S) : machine S :=
  Machine (m_ctx m) (m_st m) (m_os m) (m_trace m ++ evs).

Definition ctl_handle : handler ctlE (machine S) := fun X e =>
  match e in ctlE X return machine S -> X * machine S with
  | GetCtx => fun m => (m_ctx m, m)
  | ModCtx f => fun m => (tt, with_ctx f m)
  | GetSt => fun m => (m_st m, m)
  | PutSt st => fun m => (tt, with_st st m)
  | Os e => fun m =>
      let '(x, o) := os_handle _ e (m_os m) in (x, emit (os_events e x) (with_os o m))
  | EventCb cb ev v ud => fun m => (tt, emit [EvEventCb cb ev v ud] m)
  | Log l => fun m => (tt, emit [EvLog l] m)
  end.

Definition exec {A} (p : ctl A) (m : machine S) : A * machine S := run ctl_handle p m.

(** The answer of the operating system, and the machine after the call. *)
Definition sys {X} (e : osE X) (m : machine S) : X * machine S := ctl_handle _ (Os e) m.

(** ** Symbolic execution *)

Lemma exec_bind {A B} (p : ctl A) (f : A -> ctl B) m :
  exec (p ≫= f) m = let '(a, m') := exec p m in exec (f a) m'.
Proof. apply run_bind. Qed.

Lemma exec_ret {A} (a : A) m : exec (mret a) m = (a, m).
Proof. done. Qed.

Lemma exec_ret_bind {A B} (a : A) (k : A -> ctl B) m : exec (mret a ≫= k) m = exec (k a) m.
Proof. done. Qed.

Lemma exec_assoc {A B C} (p : ctl A) (f : A -> ctl B) (k : B -> ctl C) m :
  exec ((p ≫= f) ≫= k) m = exec (p ≫= fun a => f a ≫= k) m.
Proof. rewrite !exec_bind. destruct (exec p m). by rewrite exec_bind. Qed.

Lemma exec_get_ctx {B} (k : _ -> ctl B) m : exec (get_ctx ≫= k) m = exec (k (m_ctx m)) m.
Proof. done. Qed.

Lemma exec_mod_ctx {B} f (k : unit -> ctl B) m :
  exec (mod_ctx f ≫= k) m = exec (k tt) (with_ctx f m).
Proof. done. Qed.

Lemma exec_get_st {B} (k : _ -> ctl B) m : exec (get_st ≫= k) m = exec (k (m_st m)) m.
Proof. done. Qed.

Lemma exec_put_st {B} st (k : unit -> ctl B) m :
  exec (put_st st ≫= k) m = exec (k tt) (with_st st m).
Proof. done. Qed.

Lemma exec_log {B} l (k : unit -> ctl B) m :
  exec (log l ≫= k) m = exec (k tt) (emit [EvLog l] m).
Proof. done. Qed.

Lemma exec_event_cb {B} cb ev v ud (k : unit -> ctl B) m :
  exec (call_event_cb cb ev v ud ≫= k) m = exec (k tt) (emit [EvEventCb cb ev v ud] m).
Proof. done. Qed.

Lemma exec_os {X B} (e : osE X) (k : X -> ctl B) m :
  exec (os e ≫= k) m = let '(x, m') := sys e m in exec (k x) m'.
Proof. unfold exec, os, sys. simpl. by destruct (os_handle X e (m_os m)). Qed.

Lemma exec_if {A} (b : bool) (p q : ctl A) m :
  exec (if b then p else q) m = if b then exec p m else exec q m.
Proof. by destruct b. Qed.

Lemma exec_if_bind {A B} (b : bool) (p q : ctl A) (k : A -> ctl B) m :
  exec ((if b then p else q) ≫= k) m = if b then exec (p ≫= k) m else exec (q ≫= k) m.
Proof. by destruct b. Qed.

Lemma exec_when {B} (b : bool) p (k : unit -> ctl B) m :
  exec (when b p ≫= k) m = if b then exec (p ≫= k) m else exec (k tt) m.
Proof. by destruct b. Qed.

(** Trailing operations. *)
Lemma exec_put_st_end st m : exec (put_st st) m = (tt, with_st st m).
Proof. done. Qed.

Lemma exec_mod_ctx_end f m : exec (mod_ctx f) m = (tt, with_ctx f m).
Proof. done. Qed.

Lemma exec_log_end l m : exec (log l) m = (tt, emit [EvLog l] m).
Proof. done. Qed.

Lemma exec_event_cb_end cb ev v ud m :
  exec (call_event_cb cb ev v ud) m = (tt, emit [EvEventCb cb ev v ud] m).
Proof. done. Qed.

Lemma exec_when_end (b : bool) p m : exec (when b p) m = if b then exec p m else (tt, m).
Proof. by destruct b. Qed.

(** A system call leaves the context and the statics alone and extends the trace. *)
Lemma sys_ctx {X} (e : osE X) m : m_ctx (snd (sys e m)) = m_ctx m.
Proof. unfold sys; simpl. by destruct (os_handle X e (m_os m)). Qed.

Lemma sys_st {X} (e : osE X) m : m_st (snd (sys e m)) = m_st m.
Proof. unfold sys; simpl. by destruct (os_handle X e (m_os m)). Qed.

Lemma sys_trace {X} (e : osE X) m :
  m_trace (snd (sys e m)) = m_trace m ++ os_events e (fst (sys e m)).
Proof. unfold sys; simpl. by destruct (os_handle X e (m_os m)). Qed.

End Machine.

Create Rewrite HintDb run.
Create Rewrite HintDb sys.

#[export] Hint Rewrite @exec_ret @exec_ret_bind @exec_assoc @exec_get_ctx @exec_mod_ctx
  @exec_get_st @exec_put_st @exec_log @exec_event_cb @exec_os @exec_if @exec_if_bind @exec_when
  @exec_put_st_end @exec_mod_ctx_end @exec_log_end @exec_event_cb_end @exec_when_end : run.

#[export] Hint Rewrite @sys_ctx @sys_st @sys_trace : sys.

(** Reduces projections of machines without unfolding programs. *)
Ltac msimpl :=
  cbn [fst snd m_ctx m_st m_os m_trace with_ctx with_st with_os emit] in *.

(** Executes the next system call of the goal. *)
Ltac next_sys :=
  match goal with
  | |- context [sys ?e ?x] =>
      let H := fresh "C" in let T := fresh "T" in
      pose proof (sys_ctx e x) as H; pose proof (sys_trace e x) as T;
      destruct (sys e x) as [? ?]; cbn [fst snd] in H, T
  end.
