(* ===== verification/ControllerSpec.v ===== *)
(** * Functional correctness of the controller's operations *)
From Stdlib Require Import ZArith Lia String.
From stdpp Require Import base numbers list strings.
From S2P Require Import Prelude Prog CanDbc Os SeatController CtlMachine.

(** The frame that orders motor 1 to move in direction [dir] at [rpm] and the others to stay off. *)
Definition cmd_frame (dir rpm : Z) : can_frame :=
  CanFrame CAN_SECU1_CMD_1_FRAME_ID 8 [dir mod 4; rpm; 0; 0; 0; 0; 0; 0].

Definition stop_frame : can_frame := cmd_frame (dir_value OFF) 0.

Lemma payload_secu1_cmd_1_of dir rpm :
  is_u8 rpm -> payload_of_cmd (secu1_cmd_1_of dir rpm) = dir mod 4 + 256 * rpm.
Proof.
  unfold is_u8, payload_of_cmd, secu1_cmd_1_of, deposit_all, deposit. intros Hr.
  cbn [foldr fst snd sg_len sg_start secu1_cmd_1_signals CanDbc.motor4_set_rpm motor4_manual_cmd
       motor3_set_rpm motor3_manual_cmd motor2_set_rpm motor2_manual_cmd motor1_set_rpm
       motor1_manual_cmd].
  rewrite !Z.land_0_l, !Z.shiftl_0_l, !Z.lor_0_l, !Z.lor_0_r, !Z.shiftl_0_r, !Z.land_ones by lia.
  rewrite (Z.mod_small rpm) by lia.
  rewrite lor_shiftl_add by (pose proof (Z.mod_pos_bound dir (2 ^ 2)); lia).
  change (2 ^ 2) with 4. lia.
Qed.

(** *** What an operation does to the machine

    [written] are the frames that are handed to the socket, whatever becomes of them.
    [effect m m' f fs]: from [m] to [m'] the context went through [f], the frames [fs] were
    handed to the socket (successfully or not), and the loop's memory of the last position and
    movement state is [last]. *)
Definition written (tr : list event) : list can_frame :=
  omap (fun e => match e with EvWrite _ f _ => Some f | _ => None end) tr.

(** The frames the socket has taken as a whole: those are on the bus. *)
Definition sent (tr : list event) : list can_frame :=
  omap (fun e => match e with
                 | EvWrite _ f cnt => if cnt =? sizeof_can_frame then Some f else None
                 | _ => None
                 end) tr.

Definition last_of (st : ctl_statics) : Z * Z := (last_ctl_pos st, last_ctl_dir st).

Record effect {S} (m m' : machine S) (f : seatctrl_context_t -> seatctrl_context_t)
    (last : Z * Z) (fs : list can_frame) : Prop := Effect {
  eff_ctx : m_ctx m' = f (m_ctx m);
  eff_last : last_of (m_st m') = last;
  eff_written : written (m_trace m') = written (m_trace m) ++ fs }.

Definition idle_ctx (c : seatctrl_context_t) : seatctrl_context_t :=
  set_command_ts 0 (set_desired_direction OFF (set_desired_position MOTOR_POS_INVALID c)).

Lemma written_app a b : written (a ++ b) = written a ++ written b.
Proof. apply omap_app. Qed.

Lemma effect_trans {S} (m1 m2 m3 : machine S) f g l1 l2 fs gs :
  effect m1 m2 f l1 fs -> effect m2 m3 g l2 gs ->
  effect m1 m3 (fun c => g (f c)) l2 (fs ++ gs).
Proof.
  intros [H1 H2 H3] [K1 K2 K3]. split; [by rewrite K1, H1 | done | by rewrite K3, H3, app_assoc].
Qed.

Section Spec.
Context {CAN : Cantools} {CANL : CantoolsLaws CAN} {S : Type} {O : OS S}.

Lemma pack_cmd_frame dir rpm :
  is_u8 rpm ->
  CAN_secu1_cmd_1_pack (data zero_frame) (secu1_cmd_1_of dir rpm) sizeof_CAN_secu1_cmd_1_t
  = (SECU1_CMD_1_LENGTH, data (cmd_frame dir rpm)).
Proof.
  intros Hr. rewrite pack_full, payload_secu1_cmd_1_of by done. f_equal.
  unfold is_u8 in Hr. pose proof (Z.mod_pos_bound dir 4).
  cbn [le_split zero_frame data replicate drop app cmd_frame].
  assert ((dir mod 4 + 256 * rpm) mod 256 = dir mod 4) as ->.
  { rewrite Z.mul_comm, Z_mod_plus_full, (Z.mod_small (dir mod 4) 256); lia. }
  assert ((dir mod 4 + 256 * rpm) / 256 = rpm) as ->.
  { rewrite Z.mul_comm, Z_div_plus_full, (Z.div_small (dir mod 4)); lia. }
  rewrite (Z.mod_small rpm 256), (Z.div_small rpm 256) by lia. reflexivity.
Qed.

(** *** Sending a command *)

Definition io_error_events (c : seatctrl_context_t) (err : Z) : list event :=
  if event_cb c =? 0 then [] else [EvEventCb (event_cb c) CanError err (event_cb_user_data c)].

Lemma exec_send_cmd1 dir rpm m :
  exec (seatctrl_send_cmd1 dir rpm) m =
  if socket (m_ctx m) =? SOCKET_INVALID then (SEAT_CTRL_ERR, m) else
  let '((cnt, err), m') :=
    sys (O_write (socket (m_ctx m)) (cmd_frame (u8 dir) (u8 rpm)) sizeof_can_frame) m in
  if cnt =? sizeof_can_frame then (SEAT_CTRL_OK, m')
  else (SEAT_CTRL_ERR_CAN_IO, emit (io_error_events (m_ctx m) err) m').
Proof.
  unfold seatctrl_send_cmd1. rewrite pack_cmd_frame by auto with width.
  cbv beta iota zeta. autorewrite with run.
  destruct (socket (m_ctx m) =? SOCKET_INVALID); [done|].
  change (CanFrame CAN_SECU1_CMD_1_FRAME_ID 8 (data (cmd_frame (u8 dir) (u8 rpm))))
    with (cmd_frame (u8 dir) (u8 rpm)).
  change (SECU1_CMD_1_LENGTH <? 0) with false. cbv iota. autorewrite with run.
  pose proof (sys_ctx (O_write (socket (m_ctx m)) (cmd_frame (u8 dir) (u8 rpm)) sizeof_can_frame) m).
  destruct (sys _ m) as [[cnt err] m']. simpl in H.
  autorewrite with run. destruct (cnt =? sizeof_can_frame); [done|]. cbn [negb].
  autorewrite with run. rewrite H. unfold io_error_events.
  destruct (event_cb (m_ctx m) =? 0); simpl; [|done].
  unfold emit. rewrite app_nil_r. by destruct m'.
Qed.

Lemma effect_sys {X} (e : osE X) m :
  effect m (snd (sys e m)) (fun c => c) (last_of (m_st m)) (written (os_events e (fst (sys e m)))).
Proof. split; autorewrite with sys; [done | done | by rewrite written_app]. Qed.

Lemma effect_with_ctx f (m : machine S) : effect m (with_ctx f m) f (last_of (m_st m)) [].
Proof. split; simpl; [done | done | by rewrite app_nil_r]. Qed.

Lemma effect_with_st st (m : machine S) : effect m (with_st st m) (fun c => c) (last_of st) [].
Proof. split; simpl; [done | done | by rewrite app_nil_r]. Qed.

Lemma effect_emit evs (m : machine S) :
  written evs = [] -> effect m (emit evs m) (fun c => c) (last_of (m_st m)) [].
Proof. intros H. split; simpl; [done | done | by rewrite written_app, H]. Qed.

Lemma effect_refl (m : machine S) : effect m m (fun c => c) (last_of (m_st m)) [].
Proof. split; [done | done | by rewrite app_nil_r]. Qed.

(** Sending leaves the context alone and hands exactly one frame to an open socket. *)
Lemma effect_send_cmd1 dir rpm m :
  socket (m_ctx m) <> SOCKET_INVALID ->
  effect m (snd (exec (seatctrl_send_cmd1 dir rpm) m)) (fun c => c) (last_of (m_st m))
    [cmd_frame (u8 dir) (u8 rpm)].
Proof.
  intros Hs. rewrite exec_send_cmd1. rewrite (proj2 (Z.eqb_neq _ _) Hs).
  pose proof (effect_sys (O_write (socket (m_ctx m)) (cmd_frame (u8 dir) (u8 rpm))
                sizeof_can_frame) m) as [H1 H2 H3].
  destruct (sys _ m) as [[cnt err] m']. simpl in *.
  destruct (cnt =? sizeof_can_frame); [done|]. split; simpl; [done | done |].
  rewrite written_app, H3. unfold io_error_events.
  by destruct (event_cb (m_ctx m) =? 0); rewrite ?app_nil_r.
Qed.

Lemma effect_stop_movement m :
  socket (m_ctx m) <> SOCKET_INVALID ->
  effect m (snd (exec seatctrl_stop_movement m)) idle_ctx (last_of (m_st m)) [stop_frame].
Proof.
  intros Hs. unfold seatctrl_stop_movement. rewrite exec_bind.
  pose proof (effect_send_cmd1 (dir_value OFF) 0 m Hs) as H.
  destruct (exec (seatctrl_send_cmd1 (dir_value OFF) 0) m) as [rc m'].
  autorewrite with run. simpl snd in *. destruct H as [H1 H2 H3].
  split; simpl; [by rewrite H1 | done | done].
Qed.

(** Sequencing: what a program does is what its parts do. *)
Definition does {A} (p : ctl A) (m : machine S) f last fs : Prop :=
  effect m (snd (exec p m)) f last fs.

Lemma does_bind {A B} (p : ctl A) (k : A -> ctl B) m f l1 fs g l2 gs :
  does p m f l1 fs ->
  does (k (fst (exec p m))) (snd (exec p m)) g l2 gs ->
  does (p ≫= k) m (fun c => g (f c)) l2 (fs ++ gs).
Proof.
  unfold does. intros H1 H2. rewrite exec_bind. destruct (exec p m) as [a m1].
  by eapply effect_trans.
Qed.

Lemma get_ts_exec m :
  exec get_ts m =
  let '((sec, nsec), m') := sys O_clock_gettime m in (sec * 1000 + Z.quot nsec 1000000, m').
Proof. unfold get_ts. autorewrite with run. by destruct (sys _ m) as [[sec nsec] m']. Qed.

Lemma does_get_ts m : does get_ts m (fun c => c) (last_of (m_st m)) [].
Proof.
  unfold does. rewrite get_ts_exec. pose proof (effect_sys O_clock_gettime m) as H.
  by destruct (sys O_clock_gettime m) as [[sec nsec] m'].
Qed.

Lemma does_usleep us m : does (usleep us) m (fun c => c) (last_of (m_st m)) [].
Proof.
  unfold does. pose proof (effect_sys (O_usleep us) m) as H.
  unfold usleep, os, exec, sys in *. simpl in *. by destruct (os_handle _ _ _).
Qed.

Lemma does_note_learned_mode b msg m : does (note_learned_mode b msg) m (fun c => c) (last_of (m_st m)) [].
Proof.
  unfold does, note_learned_mode. autorewrite with run. rewrite exec_bind.
  set (m1 := with_st _ m). destruct (does_get_ts m1) as [H1 H2 H3].
  destruct (exec get_ts m1) as [now m']. simpl in H1, H2, H3. autorewrite with run.
  destruct (_ <? _); split; simpl; rewrite ?written_app, ?H1, ?H3, ?app_nil_r; done.
Qed.

Lemma does_update_learned_mode m : does update_learned_mode m (fun c => c) (last_of (m_st m)) [].
Proof.
  unfold does, update_learned_mode. autorewrite with run.
  destruct (_ && _); [apply does_note_learned_mode|].
  destruct (_ && _); [apply does_note_learned_mode|]. apply effect_refl.
Qed.

(** The answers of the two commands do not matter: what counts is what was sent. *)
Lemma does_resend_command m :
  socket (m_ctx m) <> SOCKET_INVALID ->
  does resend_command m (fun c => c) (last_of (m_st m))
    [stop_frame;
     cmd_frame (dir_value (desired_direction (m_ctx m))) (u8 (motor_rpm (config (m_ctx m))))].
Proof.
  intros Hs. unfold does, resend_command. autorewrite with run. rewrite exec_bind.
  pose proof (effect_send_cmd1 (dir_value OFF) 0 (emit [EvLog LogMotorOff] m) Hs) as [A1 A2 A3].
  destruct (exec (seatctrl_send_cmd1 (dir_value OFF) 0) _) as [rc m1]. rewrite exec_bind.
  destruct (does_usleep (100 * 1000) m1) as [B1 B2 B3].
  destruct (exec (usleep (100 * 1000)) m1) as [[] m2]. msimpl. autorewrite with run.
  rewrite exec_bind. set (m3 := emit _ m2).
  assert (m_ctx m3 = m_ctx m) as C by (subst m3; msimpl; congruence).
  pose proof (effect_send_cmd1 (dir_value (desired_direction (m_ctx m2)))
                (motor_rpm (config (m_ctx m2))) m3) as D.
  rewrite C in D. destruct (D Hs) as [D1 D2 D3]. subst m3. msimpl.
  destruct (exec (seatctrl_send_cmd1 _ _) _) as [rc' m4]. autorewrite with run. msimpl.
  split; simpl; [by rewrite D1, B1, A1 | by rewrite D2, B2, A2 |].
  rewrite D3, written_app, B3, A3, written_app, B1, A1. cbn [written omap list_omap]. rewrite !app_nil_r, <- app_assoc.
  by destruct (desired_direction (m_ctx m)).
Qed.

(** The stop the ECU made on its own: the movement state is OFF short of the target. *)
Definition stopped_short (c : seatctrl_context_t) : bool :=
  negb (motor1_mov_state c =? dir_value (desired_direction c))
  && negb (motor1_pos c =? desired_position c)
  && (motor1_mov_state c =? dir_value OFF).

Definition resend_frames (c : seatctrl_context_t) : list can_frame :=
  [stop_frame; cmd_frame (dir_value (desired_direction c)) (u8 (motor_rpm (config c)))].

Lemma does_invalidate_last_states m :
  does invalidate_last_states m (fun c => c) (MOTOR_POS_INVALID, 0) [].
Proof.
  unfold does, invalidate_last_states. autorewrite with run.
  split; simpl; [done | done | by rewrite app_nil_r].
Qed.

Lemma does_remember_states m :
  does remember_states m (fun c => c) (motor1_pos (m_ctx m), motor1_mov_state (m_ctx m)) [].
Proof.
  unfold does, remember_states. autorewrite with run.
  destruct (_ =? _); split; simpl; rewrite ?written_app, ?app_nil_r; done.
Qed.

Lemma does_report_change m :
  socket (m_ctx m) <> SOCKET_INVALID ->
  does report_change m (fun c => c) (motor1_pos (m_ctx m), motor1_mov_state (m_ctx m))
    (if stopped_short (m_ctx m) then resend_frames (m_ctx m) else []).
Proof.
  intros Hs. unfold does, report_change, stopped_short. autorewrite with run.
  destruct (negb (motor1_mov_state _ =? _) && negb (_ =? _)); cbn [andb];
    [|apply does_remember_states].
  autorewrite with run. msimpl. set (m1 := emit _ m).
  destruct (_ =? dir_value OFF).
  - rewrite exec_bind. destruct (does_resend_command m1 Hs) as [A1 A2 A3].
    destruct (exec resend_command m1) as [[] m2].
    destruct (does_remember_states m2) as [B1 B2 B3]. subst m1. msimpl.
    split; [by rewrite B1, A1 | by rewrite B2, A1 |].
    by rewrite B3, A3, written_app, <- !app_assoc.
  - destruct (does_remember_states m1) as [B1 B2 B3]. subst m1. msimpl.
    split; [done | done |]. by rewrite B3, written_app, <- !app_assoc.
Qed.

End Spec.
