(* ===== verification/ControlLoopSpec.v ===== *)
(** * The control loop refines a supervisor of one goal

    What the control loop promises is stated on abstract data: a goal (target, direction and
    start time) or none, the last position and movement state that were reported, and the frames
    sent.  [control_loop_refines] shows that a pass of [seatctrl_control_loop] is a step of it. *)
From Stdlib Require Import ZArith Lia String.
From stdpp Require Import base numbers list strings.
From S2P Require Import Prelude Prog CanDbc Os SeatController CtlMachine ControllerSpec.

(** ** The abstract supervisor *)

Record goal := Goal { g_target : Z; g_dir : MotorDirection; g_since : Z }.

(** What a SECU1_STAT frame told: position and movement state. *)
Record observation := Obs { o_pos : Z; o_mov : Z }.

(** Nothing yet; the motor did not start; still on the way; at the target; too late. *)
Inductive phase := Starting | OnTheWay | Arrived | Expired.

Definition beyond (g : goal) (pos : Z) : bool :=
  match g_dir g with
  | INC => g_target g <=? pos
  | DEC => pos <=? g_target g
  | OFF | INV => false
  end.

Definition phase_of (g : goal) (o : observation) (elapsed timeout : Z) : phase :=
  if (elapsed <? 500) && (o_mov o =? 0) && negb (o_pos o =? g_target g) then Starting
  else if negb (o_pos o =? 255) && beyond g (o_pos o) then Arrived
  else if timeout <? elapsed then Expired
  else OnTheWay.

(** The ECU gave up short of the target: it is switched off and commanded again. *)
Definition stalled (g : goal) (o : observation) : bool :=
  negb (o_mov o =? dir_value (g_dir g)) && negb (o_pos o =? g_target g) && (o_mov o =? 0).

Definition kick (g : goal) (rpm : Z) : list can_frame :=
  [stop_frame; cmd_frame (dir_value (g_dir g)) rpm].

Definition news (last : Z * Z) (o : observation) : bool :=
  negb (fst last =? o_pos o) || negb (snd last =? o_mov o).

(** One step: the frames sent, the remaining goal and the remembered observation. *)
Definition supervise (g : option goal) (last : Z * Z) (o : observation) (now timeout rpm : Z)
    : list can_frame * option goal * (Z * Z) :=
  match g with
  | None => ([], None, last)
  | Some g' =>
      let frames := if news last o && stalled g' o then kick g' rpm else [] in
      match phase_of g' o (now - g_since g') timeout with
      | Starting => ([], g, last)
      | OnTheWay => (frames, g, (o_pos o, o_mov o))
      | Arrived | Expired => (frames ++ [stop_frame], None, (255, 0))
      end
  end.

(** ** The abstraction of a machine *)

Definition goal_of (c : seatctrl_context_t) : option goal :=
  if is_ctl_running c
  then Some (Goal (desired_position c) (desired_direction c) (command_ts c)) else None.

Definition obs_of (c : seatctrl_context_t) : observation :=
  Obs (motor1_pos c) (motor1_mov_state c).

Lemma goal_of_idle c : goal_of (idle_ctx c) = None.
Proof. unfold goal_of, is_ctl_running. simpl. by rewrite !andb_false_r. Qed.

Lemma goal_of_Some c g :
  goal_of c = Some g ->
  g = Goal (desired_position c) (desired_direction c) (command_ts c)
  /\ socket c <> SOCKET_INVALID /\ 0 < command_ts c /\ desired_direction c <> OFF
  /\ desired_position c <> 255.
Proof.
  unfold goal_of, is_ctl_running. destruct (_ && _) eqn:E; [|done]. intros [= <-].
  rewrite !andb_true_iff, !negb_true_iff, !Z.eqb_neq, Z.ltb_lt in E.
  destruct E as [[[E1 E2] E3] E4]. repeat split; try done. by intros H; rewrite H in E3.
Qed.

Lemma target_reached_beyond c g :
  goal_of c = Some g ->
  target_reached c = negb (o_pos (obs_of c) =? 255) && beyond g (o_pos (obs_of c)).
Proof.
  intros [-> _]%goal_of_Some. unfold target_reached, beyond. simpl.
  destruct (desired_direction c); cbn [dir_value Z.eqb andb orb Pos.eqb]; by rewrite ?orb_false_r.
Qed.

Section Refinement.
Context {CAN : Cantools} {CANL : CantoolsLaws CAN} {S : Type} {O : OS S}.

(** The time the pass reads, after the learned-mode report (which may read the clock too). *)
Definition pass_time (m : machine S) : Z := fst (exec get_ts (snd (exec update_learned_mode m))).

(** The context after a pass that leaves the goal [g]. *)
Definition ctx_after (g : option goal) (c : seatctrl_context_t) : seatctrl_context_t :=
  match goal_of c, g with Some _, None => idle_ctx c | _, _ => c end.

Lemma does_stop_and_forget l m :
  socket (m_ctx m) <> SOCKET_INVALID ->
  does (log l;; seatctrl_stop_movement;; invalidate_last_states;; mret SEAT_CTRL_OK)
    m idle_ctx (255, 0) [stop_frame].
Proof.
  intros Hs. unfold does. autorewrite with run. rewrite exec_bind.
  destruct (effect_stop_movement (emit [EvLog l] m) Hs) as [A1 A2 A3].
  destruct (exec seatctrl_stop_movement _) as [rc m1]. rewrite exec_bind.
  destruct (does_invalidate_last_states m1) as [B1 B2 B3].
  destruct (exec invalidate_last_states m1) as [[] m2]. autorewrite with run. msimpl.
  split; [by rewrite B1, A1 | done |].
  by rewrite B3, A3, written_app, !app_nil_r.
Qed.

Lemma finish_operation_refines g elapsed m :
  goal_of (m_ctx m) = Some g ->
  let c := m_ctx m in
  let live := if negb (o_pos (obs_of c) =? 255) && beyond g (o_pos (obs_of c)) then false
              else negb (command_timeout (config c) <? elapsed) in
  does (finish_operation elapsed) m
    (if live then fun c => c else idle_ctx)
    (if live then last_of (m_st m) else (255, 0))
    (if live then [] else [stop_frame]).
Proof.
  intros Hg. cbv zeta. unfold does, finish_operation. autorewrite with run.
  rewrite (target_reached_beyond _ _ Hg). apply goal_of_Some in Hg as (_ & Hs & _).
  destruct (_ && beyond _ _); [by apply does_stop_and_forget|].
  destruct (_ <? elapsed); [by apply does_stop_and_forget|]. apply effect_refl.
Qed.

Lemma finish_operation_ok elapsed m : fst (exec (finish_operation elapsed) m) = SEAT_CTRL_OK.
Proof.
  unfold finish_operation. autorewrite with run.
  repeat case_match; rewrite ?exec_bind; repeat case_match; autorewrite with run; done.
Qed.

(** The pass once the time is known: from "not waiting any more" to the end. *)
Definition pass_body (elapsed : Z) : ctl Z :=
  st ← get_st;
  ctx ← get_ctx;
  when (negb (last_ctl_pos st =? motor1_pos ctx) || negb (last_ctl_dir st =? motor1_mov_state ctx))
    report_change;;
  finish_operation elapsed.

Lemma stalled_stopped_short c g :
  goal_of c = Some g -> stalled g (obs_of c) = stopped_short c.
Proof. by intros [-> _]%goal_of_Some. Qed.

(** Before the end of the operation is decided: the change report. *)
Lemma does_report g m :
  goal_of (m_ctx m) = Some g ->
  does (when (news (last_of (m_st m)) (obs_of (m_ctx m))) report_change) m (fun c => c)
    (o_pos (obs_of (m_ctx m)), o_mov (obs_of (m_ctx m)))
    (if news (last_of (m_st m)) (obs_of (m_ctx m)) && stalled g (obs_of (m_ctx m))
     then kick g (u8 (motor_rpm (config (m_ctx m)))) else []).
Proof.
  intros Hg. rewrite (stalled_stopped_short _ _ Hg). apply goal_of_Some in Hg as (-> & Hs & _).
  unfold does. rewrite exec_when_end.
  destruct (news _ _) eqn:E; [by apply does_report_change|].
  unfold news in E. rewrite orb_false_iff, !negb_false_iff, !Z.eqb_eq in E.
  destruct E as [E1 E2]. split; simpl; [done | | by rewrite app_nil_r].
  unfold last_of in *. simpl in *. congruence.
Qed.

Lemma pass_body_refines g elapsed m :
  goal_of (m_ctx m) = Some g ->
  let c := m_ctx m in
  let frames := if news (last_of (m_st m)) (obs_of c) && stalled g (obs_of c)
                then kick g (u8 (motor_rpm (config c))) else [] in
  let live := if negb (o_pos (obs_of c) =? 255) && beyond g (o_pos (obs_of c)) then false
              else negb (command_timeout (config c) <? elapsed) in
  does (pass_body elapsed) m
    (if live then fun c => c else idle_ctx)
    (if live then (o_pos (obs_of c), o_mov (obs_of c)) else (255, 0))
    (frames ++ if live then [] else [stop_frame]).
Proof.
  intros Hg. cbv zeta. unfold does, pass_body. rewrite exec_get_st, exec_get_ctx, exec_bind.
  pose proof (does_report g m Hg) as [A1 A2 A3]. unfold news in *. cbn [fst snd last_of] in *.
  destruct (exec (when _ report_change) m) as [[] m1]. msimpl.
  rewrite <- A1 in Hg. pose proof (finish_operation_refines g elapsed m1 Hg) as [B1 B2 B3].
  rewrite A1, A2, A3 in *. split; [exact B1 | exact B2 |]. by rewrite B3, app_assoc.
Qed.

Lemma pass_body_ok elapsed m : fst (exec (pass_body elapsed) m) = SEAT_CTRL_OK.
Proof.
  unfold pass_body. rewrite exec_get_st, exec_get_ctx, exec_bind.
  destruct (exec _ m). apply finish_operation_ok.
Qed.

Lemma waiting_starting c g elapsed :
  goal_of c = Some g ->
  waiting_for_motor elapsed c
  = (elapsed <? 500) && (o_mov (obs_of c) =? 0) && negb (o_pos (obs_of c) =? g_target g).
Proof. by intros [-> _]%goal_of_Some. Qed.

Lemma is_ctl_running_goal c : is_ctl_running c = bool_decide (is_Some (goal_of c)).
Proof.
  unfold goal_of. destruct (is_ctl_running c); symmetry;
    [by apply bool_decide_true | apply bool_decide_false; by intros []].
Qed.

(** The part of the pass after the learned-mode report, with a goal. *)
Lemma timed_pass g m :
  goal_of (m_ctx m) = Some g ->
  let c := m_ctx m in
  let elapsed := fst (exec get_ts m) - g_since g in
  let p := now ← get_ts;
           ctx ← get_ctx;
           let elapsed := now - command_ts ctx in
           ctx ← get_ctx;
           if waiting_for_motor elapsed ctx then
             log (LogWaiting (desired_position ctx) (desired_direction ctx) elapsed);;
             usleep 1000;;
             mret SEAT_CTRL_OK
           else pass_body elapsed in
  fst (exec p m) = SEAT_CTRL_OK /\
  let '(frames, g', last) :=
    supervise (Some g) (last_of (m_st m)) (obs_of c) (fst (exec get_ts m))
      (command_timeout (config c)) (u8 (motor_rpm (config c))) in
  does p m (ctx_after g') last frames.
Proof.
  intros Hg. cbv zeta. unfold does. rewrite !exec_bind.
  pose proof (does_get_ts m) as [A1 A2 A3].
  destruct (exec get_ts m) as [now m1]. msimpl. rewrite !exec_get_ctx, exec_if, !A1.
  assert (command_ts (m_ctx m) = g_since g) as -> by (by apply goal_of_Some in Hg as [-> _]).
  unfold supervise, phase_of. rewrite (waiting_starting _ _ _ Hg).
  unfold ctx_after. assert (Hm := Hg). rewrite <- A2. rewrite <- A1 in Hg |- *.
  destruct (_ && negb (_ =? g_target g)).
  { rewrite exec_log, exec_bind. destruct (does_usleep 1000 (emit [EvLog (LogWaiting
      (desired_position (m_ctx m1)) (desired_direction (m_ctx m1)) (now - g_since g))] m1))
      as [B1 B2 B3].
    destruct (exec (usleep 1000) _) as [[] m2]. rewrite exec_ret. msimpl.
    split; [done|]. split; cbv beta; [by rewrite Hm, B1 | done |].
    by rewrite B3, written_app, A3, !app_nil_r. }
  split; [apply pass_body_ok|].
  destruct (pass_body_refines g (now - g_since g) m1 Hg) as [B1 B2 B3].
  rewrite A3, app_nil_r in B3.
  destruct (_ && beyond g _); [|destruct (_ <? now - g_since g)];
    cbn [negb] in *; split; cbv beta; rewrite ?Hm, ?app_nil_r in *; by rewrite <- ?A1.
Qed.

Lemma does_control_loop (m : machine S) :
  fst (exec seatctrl_control_loop m) = SEAT_CTRL_OK /\
  let c := m_ctx m in
  let '(frames, g, last) :=
    supervise (goal_of c) (last_of (m_st m)) (obs_of c) (pass_time m)
      (command_timeout (config c)) (u8 (motor_rpm (config c))) in
  does seatctrl_control_loop m (ctx_after g) last frames.
Proof.
  cbv zeta. unfold does, seatctrl_control_loop, pass_time. rewrite exec_bind.
  destruct (does_update_learned_mode m) as [A1 A2 A3].
  destruct (exec update_learned_mode m) as [[] m1]. msimpl.
  rewrite exec_get_ctx, exec_if, is_ctl_running_goal, A1, <- A2, <- A1. rewrite app_nil_r in A3.
  destruct (goal_of (m_ctx m1)) as [g|] eqn:Hg.
  - rewrite bool_decide_true by done. cbn [negb].
    destruct (timed_pass g m1 Hg) as [B1 B]. cbv zeta in B, B1.
    destruct (supervise _ _ _ _ _ _) as [[frames g'] last].
    destruct B as [C1 C2 C3]. unfold pass_body in *.
    split; [exact B1|]. split; [by rewrite C1, A1 | done | by rewrite C3, A3].
  - rewrite bool_decide_false by (by intros []). cbn [negb]. rewrite exec_ret.
    cbn [supervise]. split; [done|]. unfold ctx_after.
    split; rewrite ?A3, ?app_nil_r; [|done|done]. by rewrite <- A1, Hg.
Qed.

(** C18: A pass of the control loop is a step of the supervisor. *)
Theorem control_loop_refines (m : machine S) :
  let c := m_ctx m in
  let '(frames, g, last) :=
    supervise (goal_of c) (last_of (m_st m)) (obs_of c) (pass_time m)
      (command_timeout (config c)) (u8 (motor_rpm (config c))) in
  let '(rc, m') := exec seatctrl_control_loop m in
  rc = SEAT_CTRL_OK /\ m_ctx m' = ctx_after g c /\ goal_of (m_ctx m') = g
  /\ last_of (m_st m') = last /\ written (m_trace m') = written (m_trace m) ++ frames.
Proof.
  cbv zeta. destruct (does_control_loop m) as [Hrc H]. cbv zeta in H.
  assert (Hg : forall g fr l,
    supervise (goal_of (m_ctx m)) (last_of (m_st m)) (obs_of (m_ctx m)) (pass_time m)
      (command_timeout (config (m_ctx m))) (u8 (motor_rpm (config (m_ctx m)))) = (fr, g, l) ->
    goal_of (ctx_after g (m_ctx m)) = g).
  { intros g fr l. unfold supervise, ctx_after. destruct (goal_of (m_ctx m)) as [g0|] eqn:E.
    - destruct (phase_of _ _ _ _); intros [= <- <- <-]; try done; apply goal_of_idle.
    - by intros [= <- <- <-]. }
  destruct (supervise _ _ _ _ _ _) as [[frames g] last]. destruct H as [C1 C2 C3].
  destruct (exec _ m) as [rc m']. msimpl. rewrite C1. split_and!; try done. by eapply Hg.
Qed.

End Refinement.
