(* ===== verification/ApiSpec.v ===== *)
(** * Contracts of the controller's API

    Exact results of every public function of [seat_controller.h] on every branch, for one
    caller at a time: what is returned, what becomes of the context and what is put on the bus.
    [Interleaving.v] treats the calls of several threads. *)
From Stdlib Require Import ZArith Lia String.
From stdpp Require Import base numbers list strings.
From S2P Require Import Prelude Prog CanDbc Os SeatController CtlMachine ControllerSpec.
From S2P Require Import ControlLoopSpec.

(** The check every entry point makes on its argument. *)
Definition valid (p : pointer) (c : seatctrl_context_t) : bool :=
  negb (is_null p || negb (magic c =? SEAT_CTRL_CONTEXT_MAGIC)).

Definition accepts (p : pointer) (c : seatctrl_context_t) (pos : Z) : bool :=
  valid p c && (0 <=? pos) && (pos <=? 100).

(** The signals of motor 1 in a SECU1_STAT frame. *)
Definition decoded (f : can_frame) : CAN_secu1_stat_t := stat_of_payload (le_combine (data f)).

Definition observe (s : CAN_secu1_stat_t) (c : seatctrl_context_t) : seatctrl_context_t :=
  set_motor1_pos (CanDbc.motor1_pos s)
    (set_motor1_learning_state (CanDbc.motor1_learning_state s)
      (set_motor1_mov_state (CanDbc.motor1_mov_state s) c)).

(** The upcall of a position change. *)
Definition pos_event (c : seatctrl_context_t) (pos : Z) : list event :=
  if running c && negb (event_cb c =? 0) && negb (motor1_pos c =? pos)
  then [EvEventCb (event_cb c) Motor1Pos pos (event_cb_user_data c)] else [].

Definition stat_verdict (f : can_frame) : Z :=
  if negb (can_id f =? CAN_SECU1_STAT_FRAME_ID) then SEAT_CTRL_ERR_INVALID
  else if can_dlc f <? 8 then SEAT_CTRL_ERR
  else if (CanDbc.motor1_pos (decoded f) <=? 100) || (CanDbc.motor1_pos (decoded f) =? 255)
  then SEAT_CTRL_OK else SEAT_CTRL_ERR_INVALID.

Lemma decoded_ranges f :
  let s := decoded f in
  is_u8 (CanDbc.motor1_pos s) /\ 0 <= CanDbc.motor1_mov_state s < 4
  /\ 0 <= CanDbc.motor1_learning_state s < 4.
Proof.
  unfold decoded, stat_of_payload, is_u8. cbn [map secu1_stat_signals fst].
  cbn [CanDbc.motor1_pos CanDbc.motor1_mov_state CanDbc.motor1_learning_state].
  split_and!; match goal with
  | |- context [extract ?sg ?p] => pose proof (extract_range sg p); simpl sg_len in *; lia
  end.
Qed.

Lemma written_pos_event c pos : written (pos_event c pos) = [].
Proof. unfold pos_event. by destruct (_ && _). Qed.

Lemma emit_nil {S} (m : machine S) : emit [] m = m.
Proof. unfold emit. rewrite app_nil_r. by destruct m. Qed.

Section Api.
Context {CAN : Cantools} {CANL : CantoolsLaws CAN} {S : Type} {O : OS S}.

Lemma stat_acceptable_decoded f :
  stat_acceptable (decoded f)
  = (CanDbc.motor1_pos (decoded f) <=? 100) || (CanDbc.motor1_pos (decoded f) =? 255).
Proof.
  destruct (decoded_ranges f) as (H1 & H2 & H3). unfold is_u8 in *.
  unfold stat_acceptable. rewrite pos_in_range, mov_state_in_range, learning_state_in_range
    by (unfold is_u8; lia).
  unfold in_range, sg_MOTOR1_POS, sg_MOTOR1_MOV_STATE, sg_MOTOR1_LEARNING_STATE, MOTOR_POS_INVALID.
  cbn [sg_min sg_max]. lia.
Qed.

(** A frame is taken over exactly when it is a complete SECU1_STAT frame with a position in
    0..100 or 255; every other frame leaves the context as it was. *)
Theorem handle_secu_stat_spec f (m : machine S) :
  wf_frame f ->
  exec (handle_secu_stat f) m =
  (stat_verdict f,
   if stat_verdict f =? SEAT_CTRL_OK
   then with_ctx (observe (decoded f))
          (emit (pos_event (m_ctx m) (CanDbc.motor1_pos (decoded f))) m)
   else m).
Proof.
  intros (_ & _ & Hlen & Hbytes). unfold handle_secu_stat, stat_verdict.
  rewrite exec_if. destruct (can_id f =? CAN_SECU1_STAT_FRAME_ID); [|done]. cbn [negb].
  destruct (Z.ltb_spec (can_dlc f) 8) as [Hd|Hd].
  - pose proof (unpack_short stat_zero (data f) (can_dlc f) Hd) as Hu.
    destruct (CAN_secu1_stat_unpack _ _ _) as [rc stat]. simpl in Hu.
    by rewrite (proj2 (Z.eqb_neq rc 0)) by lia.
  - rewrite unpack_full by done. fold (decoded f). cbn [negb Z.eqb]. rewrite exec_if.
    rewrite stat_acceptable_decoded. destruct (_ || _); [|done].
    autorewrite with run. unfold pos_event.
    destruct (running (m_ctx m) && _ && _); autorewrite with run; [done|].
    by rewrite emit_nil.
Qed.

(** *** Setting a position *)

(** Calls that are refused at the door change nothing and send nothing. *)
Lemma set_position_refuses p pos (m : machine S) :
  accepts p (m_ctx m) pos = false ->
  exec (seatctrl_set_position p pos) m = (SEAT_CTRL_ERR_INVALID, m).
Proof.
  unfold accepts, valid. intros H. unfold seatctrl_set_position. rewrite exec_get_ctx, exec_if.
  destruct (_ || _); [done|]. cbn [negb andb] in H. rewrite exec_if.
  by replace ((pos <? 0) || (100 <? pos)) with true by lia.
Qed.

Definition sleeps (n : nat) (us : Z) (m : machine S) : machine S :=
  Nat.iter n (fun m => snd (sys (O_usleep us) m)) m.

Lemma exec_usleep {B} us (k : unit -> ctl B) (m : machine S) :
  exec (usleep us ≫= k) m = exec (k tt) (snd (sys (O_usleep us) m)).
Proof. unfold usleep. rewrite exec_os. by destruct (sys _ m) as [[] m']. Qed.

Lemma sleeps_frame n us (m : machine S) :
  m_ctx (sleeps n us m) = m_ctx m /\ m_st (sleeps n us m) = m_st m
  /\ m_trace (sleeps n us m) = m_trace m ++ replicate n (EvSleep us).
Proof.
  induction n as [|n (IH1 & IH2 & IH3)]; [by rewrite app_nil_r|].
  unfold sleeps in *. simpl Nat.iter. autorewrite with sys.
  split_and!; [done | done |]. rewrite IH3, <- app_assoc. cbn [os_events]. f_equal.
  by rewrite <- replicate_cons_app.
Qed.

Lemma sleeps_S n us (m : machine S) : sleeps n us (snd (sys (O_usleep us) m)) = sleeps (Datatypes.S n) us m.
Proof. unfold sleeps. by rewrite Nat.iter_succ_r. Qed.

Lemma exec_wait_motor1_pos n (m : machine S) :
  motor1_pos (m_ctx m) = 255 -> exec (wait_motor1_pos n) m = (tt, sleeps n (100 * 1000) m).
Proof.
  revert m. induction n as [|n IH]; intros m Hp; [done|]. cbn [wait_motor1_pos].
  rewrite exec_get_ctx, exec_if, Hp. cbn [negb]. change (negb (255 =? MOTOR_POS_INVALID)) with false.
  cbv iota. rewrite exec_usleep, IH by by rewrite sys_ctx. by rewrite sleeps_S.
Qed.

Lemma exec_motor1_pos_known (m : machine S) :
  exec motor1_pos_known m =
  if motor1_pos (m_ctx m) =? 255 then (false, sleeps 30 (100 * 1000) m) else (true, m).
Proof.
  unfold motor1_pos_known. rewrite exec_get_ctx, exec_if. unfold MOTOR_POS_INVALID.
  destruct (Z.eqb_spec (motor1_pos (m_ctx m)) 255) as [Hp|Hp]; [|done].
  rewrite exec_bind, exec_wait_motor1_pos by done. rewrite exec_get_ctx, exec_ret.
  destruct (sleeps_frame 30 (100 * 1000) m) as [-> _]. by rewrite Hp.
Qed.

(** Without a known position the call gives up after 30 waits of 100 ms, having sent nothing. *)
Lemma set_position_no_frames p pos (m : machine S) :
  accepts p (m_ctx m) pos = true -> motor1_pos (m_ctx m) = 255 ->
  let '(rc, m') := exec (seatctrl_set_position p pos) m in
  rc = SEAT_CTRL_ERR_NO_FRAMES /\ m_ctx m' = m_ctx m /\ m_st m' = m_st m
  /\ m_trace m' = m_trace m ++ replicate 30 (EvSleep 100000).
Proof.
  unfold accepts, valid. intros H Hp. unfold seatctrl_set_position. rewrite exec_get_ctx, exec_if.
  destruct (_ || _); [done|]. cbn [negb andb] in H. rewrite exec_if.
  replace ((pos <? 0) || (100 <? pos)) with false by lia.
  rewrite exec_bind, exec_motor1_pos_known, Hp. cbn [Z.eqb Pos.eqb negb].
  rewrite exec_ret. split; [done|]. apply sleeps_frame.
Qed.

(** The caller's errors in the trace: the byte counts of the writes. *)
Definition write_counts (tr : list event) : list Z :=
  omap (fun e => match e with EvWrite _ _ cnt => Some cnt | _ => None end) tr.

(** What the last write of a trace means for the caller. *)
Definition write_status (tr : list event) : Z :=
  match last (write_counts tr) with
  | Some cnt => if cnt =? sizeof_can_frame then SEAT_CTRL_OK else SEAT_CTRL_ERR_CAN_IO
  | None => SEAT_CTRL_ERR
  end.

Lemma write_counts_app a b : write_counts (a ++ b) = write_counts a ++ write_counts b.
Proof. apply omap_app. Qed.

(** When the last write has succeeded, its frame is the last one on the bus. *)
Lemma last_sent tr : write_status tr = SEAT_CTRL_OK -> last (sent tr) = last (written tr).
Proof.
  unfold write_status. induction tr as [|e tr IH] using rev_ind; [done|].
  unfold sent, written in *. rewrite write_counts_app, !omap_app.
  destruct e as [fd f cnt| | |]; cbn [write_counts omap list_omap]; rewrite ?app_nil_r; try exact IH.
  rewrite last_app. cbn [last]. destruct (cnt =? sizeof_can_frame); [|done]. intros _.
  by rewrite !last_snoc.
Qed.

Lemma send_cmd1_status dir rpm (m : machine S) :
  socket (m_ctx m) <> SOCKET_INVALID ->
  let '(rc, m') := exec (seatctrl_send_cmd1 dir rpm) m in rc = write_status (m_trace m').
Proof.
  intros Hs. rewrite exec_send_cmd1, (proj2 (Z.eqb_neq _ _) Hs).
  pose proof (sys_trace (O_write (socket (m_ctx m)) (cmd_frame (u8 dir) (u8 rpm))
                sizeof_can_frame) m) as Ht.
  destruct (sys _ m) as [[cnt err] m']. simpl in Ht. unfold write_status.
  destruct (cnt =? sizeof_can_frame) eqn:E; msimpl; rewrite Ht, !write_counts_app.
  - rewrite last_app. cbn [write_counts omap list_omap os_events fst last]. by rewrite E.
  - assert (write_counts (io_error_events (m_ctx m) err) = []) as ->
      by (unfold io_error_events; by destruct (_ =? 0)).
    rewrite app_nil_r, last_app. cbn [write_counts omap list_omap os_events fst last].
    by rewrite E.
Qed.

Lemma send_cmd1_range dir rpm (m : machine S) :
  In (fst (exec (seatctrl_send_cmd1 dir rpm) m))
    [SEAT_CTRL_OK; SEAT_CTRL_ERR; SEAT_CTRL_ERR_CAN_IO].
Proof. rewrite exec_send_cmd1. repeat case_match; simpl; auto. Qed.

(** The goal that [start_movement] publishes. *)
Definition ctx_moving (now current pos : Z) (c : seatctrl_context_t) : seatctrl_context_t :=
  set_desired_position pos
    (set_desired_direction (direction_to current pos) (set_command_ts now c)).

Lemma does_start_movement current pos (m : machine S) :
  socket (m_ctx m) <> SOCKET_INVALID ->
  does (start_movement current pos) m (ctx_moving (fst (exec get_ts m)) current pos)
    (last_of (m_st m))
    [cmd_frame (dir_value (direction_to current pos)) (u8 (motor_rpm (config (m_ctx m))))]
  /\ let '(rc, m') := exec (start_movement current pos) m in rc = write_status (m_trace m').
Proof.
  intros Hs. unfold does, start_movement. rewrite exec_bind.
  destruct (does_get_ts m) as [A1 A2 A3]. destruct (exec get_ts m) as [now m1]. msimpl.
  rewrite !exec_mod_ctx, exec_get_ctx. set (m2 := with_ctx _ _).
  assert (socket (m_ctx m2) <> SOCKET_INVALID) as Hs2 by (by subst m2; msimpl; rewrite A1).
  split; [|by apply send_cmd1_status].
  destruct (effect_send_cmd1 (dir_value (direction_to current pos))
              (motor_rpm (config (m_ctx m2))) m2 Hs2) as [B1 B2 B3].
  split; [rewrite B1; subst m2; msimpl; by rewrite A1 | by rewrite B2, <- A2 |].
  rewrite B3. subst m2. msimpl. rewrite A3, app_nil_r, A1. cbn.
  unfold direction_to. by destruct (_ <? _).
Qed.

Lemma idle_ctx_idem c : idle_ctx (idle_ctx c) = idle_ctx c.
Proof. done. Qed.

Lemma does_stay_there (m : machine S) :
  socket (m_ctx m) <> SOCKET_INVALID ->
  does stay_there m idle_ctx (last_of (m_st m))
    (if motor1_mov_state (m_ctx m) =? dir_value OFF then [] else [stop_frame])
  /\ fst (exec stay_there m) = SEAT_CTRL_OK.
Proof.
  intros Hs. unfold does, stay_there. autorewrite with run.
  destruct (_ =? dir_value OFF); cbn [negb].
  - autorewrite with run. split; [|done]. split; msimpl; [done | done | by rewrite app_nil_r].
  - rewrite exec_bind. pose proof (effect_stop_movement m Hs) as A.
    destruct (exec seatctrl_stop_movement m) as [rc m1]. autorewrite with run. by split.
Qed.

(** With a known position the call first stops the motor; then it is done when the seat is there
    already, and otherwise it publishes the goal, stamped with the current time, and commands
    the motor towards it.  The status is that of the command, and the goal is published even
    when the command could not be written. *)
Lemma set_position_moves p pos (m : machine S) :
  let c := m_ctx m in
  accepts p c pos = true -> motor1_pos c <> 255 -> socket c <> SOCKET_INVALID ->
  let now := fst (exec get_ts (snd (exec (seatctrl_stop_movement;; usleep (100 * 1000)) m))) in
  let '(rc, m') := exec (seatctrl_set_position p pos) m in
  last_of (m_st m') = last_of (m_st m)
  /\ if motor1_pos c =? pos then
       rc = SEAT_CTRL_OK /\ m_ctx m' = idle_ctx c
       /\ written (m_trace m') = written (m_trace m) ++
            stop_frame :: (if motor1_mov_state c =? dir_value OFF then [] else [stop_frame])
     else
       rc = write_status (m_trace m') /\ m_ctx m' = ctx_moving now (motor1_pos c) pos c
       /\ written (m_trace m') = written (m_trace m) ++
            [stop_frame; cmd_frame (dir_value (direction_to (motor1_pos c) pos))
                           (u8 (motor_rpm (config c)))].
Proof.
  cbv zeta. unfold accepts, valid. intros H Hp Hs. unfold seatctrl_set_position.
  rewrite exec_get_ctx, exec_if. destruct (_ || _); [done|]. cbn [negb andb] in H. rewrite exec_if.
  replace ((pos <? 0) || (100 <? pos)) with false by lia. rewrite exec_bind, exec_motor1_pos_known.
  rewrite (proj2 (Z.eqb_neq _ _) Hp). cbn [negb]. rewrite !exec_bind.
  destruct (effect_stop_movement m Hs) as [A1 A2 A3].
  destruct (exec seatctrl_stop_movement m) as [rc m1]. rewrite exec_bind.
  destruct (does_usleep (100 * 1000) m1) as [B1 B2 B3].
  destruct (exec (usleep (100 * 1000)) m1) as [[] m2]. msimpl. rewrite A1 in B1. cbv beta in B1.
  rewrite exec_get_ctx, exec_if.
  assert (socket (m_ctx m2) <> SOCKET_INVALID) as Hs2 by by rewrite B1.
  assert (motor1_pos (m_ctx m2) = motor1_pos (m_ctx m)) as -> by by rewrite B1.
  rewrite app_nil_r in B3. destruct (_ =? pos).
  - destruct (does_stay_there m2 Hs2) as [[C1 C2 C3] C4].
    destruct (exec stay_there m2) as [rc' m3]. msimpl. rewrite B1 in *.
    split; [congruence|]. split_and!; [done | done |]. by rewrite C3, B3, A3, <- app_assoc.
  - destruct (does_start_movement (motor1_pos (m_ctx m)) pos m2 Hs2) as [[C1 C2 C3] C4].
    destruct (exec (start_movement _ _) m2) as [rc' m3]. msimpl. rewrite B1 in *.
    split; [congruence|]. split_and!; [done | done |]. by rewrite C3, B3, A3, <- app_assoc.
Qed.

(** Past the checks: a known position and a legal target. *)
Lemma exec_set_position_accepted p pos (m : machine S) :
  accepts p (m_ctx m) pos = true -> motor1_pos (m_ctx m) <> 255 ->
  exec (seatctrl_set_position p pos) m =
  exec (seatctrl_stop_movement;;
        usleep (100 * 1000);;
        ctx ← get_ctx;
        if motor1_pos ctx =? pos then stay_there else start_movement (motor1_pos ctx) pos) m.
Proof.
  unfold accepts, valid. intros H Hp. unfold seatctrl_set_position.
  rewrite exec_get_ctx, exec_if. destruct (_ || _); [done|]. cbn [negb andb] in H. rewrite exec_if.
  replace ((pos <? 0) || (100 <? pos)) with false by lia. rewrite exec_bind, exec_motor1_pos_known.
  by rewrite (proj2 (Z.eqb_neq _ _) Hp).
Qed.

Lemma exec_stop_closed (m : machine S) :
  socket (m_ctx m) = SOCKET_INVALID ->
  exec seatctrl_stop_movement m = (SEAT_CTRL_ERR, with_ctx idle_ctx m).
Proof.
  intros Hs. unfold seatctrl_stop_movement. rewrite exec_bind, exec_send_cmd1, Hs, Z.eqb_refl.
  by autorewrite with run.
Qed.

(** With the socket closed nothing can be sent; the goal is published all the same. *)
Lemma set_position_closed p pos (m : machine S) :
  let c := m_ctx m in
  accepts p c pos = true -> motor1_pos c <> 255 -> socket c = SOCKET_INVALID ->
  let '(rc, m') := exec (seatctrl_set_position p pos) m in
  written (m_trace m') = written (m_trace m) /\ goal_of (m_ctx m') = None
  /\ rc = if motor1_pos c =? pos then SEAT_CTRL_OK else SEAT_CTRL_ERR.
Proof.
  cbv zeta. intros H Hp Hs. rewrite exec_set_position_accepted by done.
  rewrite exec_bind, exec_stop_closed by done. rewrite exec_usleep, exec_get_ctx, exec_if.
  autorewrite with sys. msimpl.
  change (motor1_pos (idle_ctx (m_ctx m))) with (motor1_pos (m_ctx m)).
  set (m1 := snd (sys _ _)).
  assert (m_ctx m1 = idle_ctx (m_ctx m)) as C by (subst m1; by autorewrite with sys).
  assert (written (m_trace m1) = written (m_trace m)) as T
    by (subst m1; autorewrite with sys; rewrite written_app; by rewrite app_nil_r).
  clearbody m1. destruct (motor1_pos (m_ctx m) =? pos).
  - unfold stay_there. autorewrite with run. rewrite C.
    change (motor1_mov_state (idle_ctx (m_ctx m))) with (motor1_mov_state (m_ctx m)).
    destruct (_ =? dir_value OFF); cbn [negb].
    + autorewrite with run. msimpl. rewrite C. split_and!; [done | apply goal_of_idle | done].
    + rewrite exec_bind, exec_stop_closed by (by rewrite C). autorewrite with run. msimpl.
      rewrite C. split_and!; [done | apply goal_of_idle | done].
  - unfold start_movement. rewrite exec_bind. destruct (does_get_ts m1) as [A1 A2 A3].
    destruct (exec get_ts m1) as [now m2]. cbn [fst snd] in *. autorewrite with run.
    rewrite exec_send_cmd1. msimpl. rewrite A1, C. cbn [socket set_desired_position
      set_desired_direction set_command_ts idle_ctx]. rewrite Hs, Z.eqb_refl. msimpl.
    split_and!; [by rewrite A3, T, app_nil_r | | done].
    unfold goal_of, is_ctl_running. cbn [socket set_desired_position set_desired_direction
      set_command_ts]. rewrite A1, C. cbn [socket idle_ctx set_desired_position
      set_desired_direction set_command_ts]. by rewrite Hs, Z.eqb_refl.
Qed.

(** C17: The whole contract of [seatctrl_set_position], branch by branch. *)
Theorem set_position_contract p pos (m : machine S) :
  let c := m_ctx m in
  let now := fst (exec get_ts (snd (exec (seatctrl_stop_movement;; usleep (100 * 1000)) m))) in
  let '(rc, m') := exec (seatctrl_set_position p pos) m in
  if negb (accepts p c pos) then rc = SEAT_CTRL_ERR_INVALID /\ m' = m
  else if motor1_pos c =? 255 then
    rc = SEAT_CTRL_ERR_NO_FRAMES /\ m_ctx m' = c
    /\ m_trace m' = m_trace m ++ replicate 30 (EvSleep 100000)
  else if socket c =? SOCKET_INVALID then
    rc = (if motor1_pos c =? pos then SEAT_CTRL_OK else SEAT_CTRL_ERR)
    /\ goal_of (m_ctx m') = None /\ written (m_trace m') = written (m_trace m)
  else if motor1_pos c =? pos then
    rc = SEAT_CTRL_OK /\ m_ctx m' = idle_ctx c
    /\ written (m_trace m') = written (m_trace m) ++
         stop_frame :: (if motor1_mov_state c =? dir_value OFF then [] else [stop_frame])
  else
    rc = write_status (m_trace m') /\ m_ctx m' = ctx_moving now (motor1_pos c) pos c
    /\ written (m_trace m') = written (m_trace m) ++
         [stop_frame; cmd_frame (dir_value (direction_to (motor1_pos c) pos))
                        (u8 (motor_rpm (config c)))].
Proof.
  cbv zeta. destruct (accepts p (m_ctx m) pos) eqn:Ha; cbn [negb].
  2: by rewrite set_position_refuses.
  destruct (Z.eqb_spec (motor1_pos (m_ctx m)) 255) as [Hp|Hp].
  { pose proof (set_position_no_frames p pos m Ha Hp) as H.
    destruct (exec _ m) as [rc m']. tauto. }
  destruct (Z.eqb_spec (socket (m_ctx m)) SOCKET_INVALID) as [Hs|Hs].
  { pose proof (set_position_closed p pos m Ha Hp Hs) as H.
    destruct (exec _ m) as [rc m']. tauto. }
  pose proof (set_position_moves p pos m Ha Hp Hs) as H. cbv zeta in H.
  destruct (exec (seatctrl_set_position p pos) m) as [rc m']. destruct H as [_ H].
  by destruct (motor1_pos (m_ctx m) =? pos).
Qed.

Lemma goal_of_moving now current pos c :
  0 < now -> socket c <> SOCKET_INVALID -> 0 <= pos <= 100 ->
  goal_of (ctx_moving now current pos c) = Some (Goal pos (direction_to current pos) now).
Proof.
  intros Hn Hs Hpos. unfold goal_of, is_ctl_running, ctx_moving, direction_to.
  assert (u8 pos = pos) as Hu by (apply u8_small; unfold is_u8; lia).
  cbn [socket command_ts desired_direction desired_position set_desired_position set_command_ts
       set_desired_direction]. rewrite Hu.
  rewrite (proj2 (Z.eqb_neq _ _) Hs), (proj2 (Z.ltb_lt 0 now) Hn).
  unfold MOTOR_POS_INVALID. rewrite (proj2 (Z.eqb_neq pos 255)) by lia. by destruct (_ <? _).
Qed.

(** The published goal is one the supervisor will pursue: it is not reached yet, and moving in
    its direction brings the seat nearer. *)
Theorem moving_goal now current pos c :
  0 < now -> socket c <> SOCKET_INVALID -> 0 <= pos <= 100 -> current <> pos ->
  let g := Goal pos (direction_to current pos) now in
  goal_of (ctx_moving now current pos c) = Some g /\ beyond g current = false
  /\ forall step, 0 < step <= Z.abs (pos - current) ->
       Z.abs (pos - (if decide (g_dir g = INC) then current + step else current - step))
       = Z.abs (pos - current) - step.
Proof.
  intros Hn Hs Hpos Hne. cbv zeta. rewrite goal_of_moving by done. unfold beyond, direction_to.
  cbn [g_dir g_target]. destruct (Z.ltb_spec current pos); split_and!; try done;
    try (apply Z.leb_gt; lia); intros step Hstep; simpl; lia.
Qed.

(** ** Stopping, reading, and the event callback *)

(** Stopping leaves everything but the goal as it was. *)
Lemma stop_movement_ctx (m : machine S) :
  m_ctx (snd (exec seatctrl_stop_movement m)) = idle_ctx (m_ctx m).
Proof.
  destruct (Z.eq_dec (socket (m_ctx m)) SOCKET_INVALID) as [Hs|Hs];
    [by rewrite exec_stop_closed | by destruct (effect_stop_movement m Hs)].
Qed.

(** Stopping sends one stop command on an open socket, reports how it went, and forgets the goal
    whether or not the command could be sent. *)

Theorem stop_movement_spec (m : machine S) :
  let '(rc, m') := exec seatctrl_stop_movement m in
  m_ctx m' = idle_ctx (m_ctx m) /\ goal_of (m_ctx m') = None
  /\ if socket (m_ctx m) =? SOCKET_INVALID
     then rc = SEAT_CTRL_ERR /\ m_trace m' = m_trace m
     else rc = write_status (m_trace m')
          /\ written (m_trace m') = written (m_trace m) ++ [stop_frame].
Proof.
  destruct (Z.eqb_spec (socket (m_ctx m)) SOCKET_INVALID) as [Hs|Hs].
  - unfold seatctrl_stop_movement. rewrite exec_bind, exec_send_cmd1, Hs. cbn [Z.eqb Pos.eqb].
    autorewrite with run. split; [done|]. split; [apply goal_of_idle | done].
  - pose proof (effect_stop_movement m Hs) as [A1 A2 A3].
    pose proof (send_cmd1_status (dir_value OFF) 0 m Hs) as B.
    unfold seatctrl_stop_movement in *. rewrite exec_bind in *.
    destruct (exec (seatctrl_send_cmd1 _ _) m) as [rc m1].
    autorewrite with run in *. msimpl. rewrite A1.
    split_and!; [done | apply goal_of_idle | done | done].
Qed.

Lemma get_position_spec p (m : machine S) :
  exec (seatctrl_get_position p) m =
  (if valid p (m_ctx m)
   then if running (m_ctx m) then motor1_pos (m_ctx m) else SEAT_CTRL_ERR
   else SEAT_CTRL_ERR_INVALID, m).
Proof.
  unfold seatctrl_get_position, valid. autorewrite with run.
  destruct (_ || _); [done|]. cbn [negb]. by destruct (running (m_ctx m)).
Qed.

Lemma set_event_callback_spec p cb ud (m : machine S) :
  exec (seatctrl_set_event_callback p cb ud) m =
  if valid p (m_ctx m)
  then (SEAT_CTRL_OK, with_ctx (fun c => set_event_cb_user_data ud (set_event_cb cb c)) m)
  else (SEAT_CTRL_ERR_INVALID, m).
Proof.
  unfold seatctrl_set_event_callback, valid. autorewrite with run. by destruct (_ || _).
Qed.

(** After a frame has been handled, [seatctrl_get_position] answers the position of the frame. *)
Theorem position_follows_frames f (m : machine S) :
  wf_frame f -> stat_verdict f = SEAT_CTRL_OK -> valid CTX (m_ctx m) = true ->
  running (m_ctx m) = true ->
  exec (handle_secu_stat f;; seatctrl_get_position CTX) m
  = (CanDbc.motor1_pos (decoded f), snd (exec (handle_secu_stat f) m)).
Proof.
  intros Hf Hv Hm Hr. rewrite exec_bind, handle_secu_stat_spec, Hv by done. rewrite Z.eqb_refl.
  rewrite get_position_spec. unfold valid in *. msimpl.
  cbn [magic running motor1_pos observe set_motor1_pos set_motor1_learning_state
       set_motor1_mov_state]. rewrite Hm, Hr.
  rewrite u8_small; [done | apply decoded_ranges].
Qed.

(** ** Configuration and initialisation *)

(** Whatever the environment variables hold, the configuration has a device name and a motor
    speed in 1..254; a speed out of this range is reported and replaced by the default. *)
Theorem default_config_usable cfg (m : machine S) :
  let '((rc, cfg'), m') := exec (seatctrl_default_config (Some cfg)) m in
  m_ctx m' = m_ctx m /\ In rc [SEAT_CTRL_OK; SEAT_CTRL_ERR_INVALID]
  /\ match cfg' with
     | Some cfg' => is_Some (can_device cfg') /\ 1 <= motor_rpm cfg' <= 254
                   /\ (rc = SEAT_CTRL_ERR_INVALID -> motor_rpm cfg' = DEFAULT_RPM)
     | None => False
     end.
Proof.
  unfold seatctrl_default_config, env_atoi. autorewrite with run.
  repeat match goal with
  | |- context [sys ?e ?x] =>
      let H := fresh "C" in pose proof (sys_ctx e x) as H; destruct (sys e x) as [? ?];
      cbn [snd] in H; autorewrite with run
  end.
  match goal with |- context [Config (Some _) ?a ?b ?c ?d ?e ?f] =>
    generalize a, b, c, d, e, f; intros end.
  cbn [motor_rpm can_device debug_raw debug_ctl debug_stats debug_verbose command_timeout].
  destruct (_ || _) eqn:E; (split; [congruence|]); cbn [motor_rpm can_device];
    unfold DEFAULT_RPM; split_and!; simpl; auto; try lia; try (by eexists); done.
Qed.

Definition ctx_init (cfg : seatctrl_config_t) : seatctrl_context_t :=
  Context SEAT_CTRL_CONTEXT_MAGIC cfg SOCKET_INVALID false 0 0 255 OFF 255 3 2 0 0.

Lemma init_ctx_spec p cfg (m : machine S) :
  exec (seatctrl_init_ctx p cfg) m =
  match p, cfg with
  | CTX, Some cfg' => match can_device cfg' with
                      | Some _ => (SEAT_CTRL_OK, with_ctx (fun _ => ctx_init cfg') m)
                      | None => (SEAT_CTRL_ERR_INVALID, m)
                      end
  | _, _ => (SEAT_CTRL_ERR_INVALID, m)
  end.
Proof.
  unfold seatctrl_init_ctx. destruct cfg as [cfg'|]; [|by destruct p].
  destruct p; [done|]. simpl is_null. cbv iota. destruct (can_device cfg'); [|done].
  autorewrite with run. done.
Qed.

(** A fresh context refuses every movement until frames arrive, and can be opened. *)
Definition openable (c : seatctrl_context_t) : bool :=
  (socket c =? SOCKET_INVALID) && negb (running c) && (thread_id c =? 0).

(** ** Opening and closing *)

Lemma set_thread_id_0 c : thread_id c = 0 -> set_thread_id 0 c = c.
Proof. destruct c. simpl. by intros ->. Qed.

Lemma open_refused p (m : machine S) :
  valid p (m_ctx m) = false \/ can_device (config (m_ctx m)) = None \/ openable (m_ctx m) = false ->
  exists rc, In rc [SEAT_CTRL_ERR_INVALID; SEAT_CTRL_ERR] /\ exec (seatctrl_open p) m = (rc, m).
Proof.
  unfold valid, openable. intros H. unfold seatctrl_open. rewrite exec_get_ctx.
  destruct (is_null p || _); [by eexists; split; [left|]|]. cbn [negb] in H.
  destruct (can_device _); [|by eexists; split; [left|]].
  destruct H as [H|[H|H]]; [done | done |]. autorewrite with run.
  destruct (_ =? SOCKET_INVALID); cbn [negb andb] in *; [|by eexists; split; [right; left|]].
  autorewrite with run. destruct (running _); [by eexists; split; [right; left|]|].
  cbn [negb andb] in H. rewrite H. by eexists; split; [right; left|].
Qed.

(** What opening does when nothing forbids it: [NO_CAN] leaves the context as it was; a failing
    [bind] or [pthread_create] leaves the new socket in the context. *)
Theorem open_spec p (m : machine S) :
  let c := m_ctx m in
  valid p c = true -> is_Some (can_device (config c)) -> openable c = true ->
  let fd := fst (fst (sys (O_socket PF_CAN SOCK_RAW CAN_RAW) m)) in
  let '(rc, m') := exec (seatctrl_open p) m in
  if fd <? 0 then rc = SEAT_CTRL_ERR_NO_CAN /\ m_ctx m' = c
  else (rc = SEAT_CTRL_OK /\ exists tid, m_ctx m' = set_thread_id tid (set_socket fd c))
       \/ (In rc [SEAT_CTRL_ERR_CAN_BIND; SEAT_CTRL_ERR] /\ m_ctx m' = set_socket fd c).
Proof.
  cbv zeta. unfold valid, openable. intros Hv [dev Hd] Ho. unfold seatctrl_open.
  rewrite exec_get_ctx. destruct (is_null p || _); [done|]. rewrite Hd.
  rewrite !andb_true_iff, negb_true_iff, !Z.eqb_eq in Ho. destruct Ho as [[Hs Hr] Ht].
  autorewrite with run. rewrite Hs, Hr, Ht. cbn [Z.eqb Pos.eqb negb orb].
  change (negb (SOCKET_INVALID =? SOCKET_INVALID)) with false. cbv iota. autorewrite with run.
  next_sys. destruct p0 as [fd err]. msimpl. autorewrite with run.
  destruct (fd <? 0).
  { autorewrite with run. split; [done|]. msimpl. rewrite C. destruct (m_ctx m). simpl in *. by subst. }
  autorewrite with run. next_sys. destruct p0 as [[rc1 e1] ifr]. autorewrite with run.
  next_sys. destruct p0 as [rc2 e2]. msimpl. autorewrite with run.
  destruct (rc2 <? 0).
  { autorewrite with run. right. split; [by left | congruence]. }
  autorewrite with run. next_sys. destruct p0 as [rc3 e3]. msimpl. autorewrite with run.
  next_sys. destruct p0 as [rc4 tid]. msimpl. autorewrite with run.
  destruct (rc4 =? 0); cbn [negb]; autorewrite with run.
  - left. split; [done|]. exists tid. msimpl. congruence.
  - right. split; [by right; left|]. msimpl. rewrite C3, C2, C1, C0, C.
    destruct (m_ctx m). simpl in *. by subst.
Qed.

(** C40: A failed [bind] or [pthread_create] blocks every further attempt to open: the context is not
    openable any more until it is closed. *)
Theorem failed_open_blocks_reopen p (m : machine S) :
  let c := m_ctx m in
  valid p c = true -> is_Some (can_device (config c)) -> openable c = true ->
  0 <= fst (fst (sys (O_socket PF_CAN SOCK_RAW CAN_RAW) m)) ->
  let '(rc, m') := exec (seatctrl_open p) m in
  rc <> SEAT_CTRL_OK -> exec (seatctrl_open p) m' = (SEAT_CTRL_ERR, m').
Proof.
  cbv zeta. intros Hv Hd Ho Hfd. pose proof (open_spec p m Hv Hd Ho) as H. cbv zeta in H.
  destruct (exec (seatctrl_open p) m) as [rc m']. rewrite (proj2 (Z.ltb_ge _ _) Hfd) in H.
  intros Hrc. destruct H as [[H _]|[_ H]]; [done|]. unfold seatctrl_open.
  rewrite exec_get_ctx, H. unfold valid in Hv. destruct p; [done|].
  cbn [magic set_socket config is_null orb] in *. destruct (magic _ =? _); [|done].
  cbn [negb]. destruct Hd as [dev ->]. autorewrite with run. rewrite H. cbn [socket set_socket].
  unfold SOCKET_INVALID. by rewrite (proj2 (Z.eqb_neq _ _)) by lia.
Qed.

Definition ctx_closed (c : seatctrl_context_t) : seatctrl_context_t :=
  set_thread_id 0 (set_socket SOCKET_INVALID (set_running false c)).

Lemma effect_close_socket (m : machine S) :
  does close_socket m (set_socket SOCKET_INVALID) (last_of (m_st m)) []
  /\ In (fst (exec close_socket m)) [SEAT_CTRL_OK; SEAT_CTRL_ERR].
Proof.
  unfold does, close_socket. autorewrite with run.
  destruct (Z.eqb_spec (socket (m_ctx m)) SOCKET_INVALID) as [Hs|Hs]; cbn [negb].
  - autorewrite with run. split; [|by left]. split; msimpl; [|done|by rewrite app_nil_r].
    destruct (m_ctx m). simpl in *. by subst.
  - autorewrite with run. pose proof (effect_sys (O_close (socket (m_ctx m))) m) as [A1 A2 A3].
    destruct (sys _ m) as [[res err] m1]. autorewrite with run. msimpl.
    split; [by split; msimpl; rewrite ?A1|]. destruct (res <? 0); [by right; left | by left].
Qed.

Lemma effect_join_thread rc (m : machine S) :
  does (join_thread rc) m (set_thread_id 0) (last_of (m_st m)) []
  /\ In (fst (exec (join_thread rc) m)) [rc; SEAT_CTRL_ERR].
Proof.
  unfold does, join_thread. autorewrite with run.
  destruct (Z.eqb_spec (thread_id (m_ctx m)) 0) as [Ht|Ht]; autorewrite with run.
  - split; [|by left]. split; msimpl; [by rewrite set_thread_id_0 | done | by rewrite app_nil_r].
  - pose proof (effect_sys O_pthread_self m) as [A1 A2 A3].
    destruct (sys _ m) as [self m1]. autorewrite with run. msimpl.
    destruct (self =? thread_id (m_ctx m1)); autorewrite with run; msimpl.
    + split; [by split; msimpl; rewrite ?A1 | by left].
    + pose proof (effect_sys (O_pthread_join (thread_id (m_ctx m1))) m1) as [B1 B2 B3].
      destruct (sys _ m1) as [res m2]. autorewrite with run. msimpl.
      split; [split; msimpl; [by rewrite B1, A1 | by rewrite B2 |]|].
      * rewrite B3, A3. by rewrite !app_nil_r.
      * destruct (res =? 0); [by left | by right; left].
Qed.

(** Closing a valid context always ends with the socket gone, the loop told to stop, no thread
    and the context openable again, whatever the system calls answer; nothing is sent. *)
Theorem close_spec p (m : machine S) :
  let '(rc, m') := exec (seatctrl_close p) m in
  if valid p (m_ctx m)
  then In rc [SEAT_CTRL_OK; SEAT_CTRL_ERR] /\ m_ctx m' = ctx_closed (m_ctx m)
       /\ openable (m_ctx m') = true /\ written (m_trace m') = written (m_trace m)
  else rc = SEAT_CTRL_ERR_INVALID /\ m' = m.
Proof.
  unfold seatctrl_close, valid. rewrite exec_get_ctx, exec_if. destruct (_ || _); [done|].
  cbn [negb]. rewrite exec_mod_ctx, exec_bind. set (m1 := with_ctx _ m).
  destruct (does_usleep 5000 m1) as [A1 A2 A3].
  destruct (exec (usleep 5000) m1) as [[] m2]. msimpl. rewrite exec_bind.
  destruct (effect_close_socket m2) as [[B1 B2 B3] B4].
  destruct (exec close_socket m2) as [rc m3]. msimpl.
  destruct (effect_join_thread rc m3) as [[C1 C2 C3] C4].
  destruct (exec (join_thread rc) m3) as [rc' m4]. msimpl. subst m1. msimpl.
  rewrite C1, B1, A1, C3, B3, A3, !app_nil_r. split_and!; try done.
  simpl in B4, C4. simpl. intuition congruence.
Qed.

End Api.
