(* ===== verification/ThreadSpec.v ===== *)
(** * The CTL thread

    One iteration of [seatctrl_threadFunc] as a transition of the supervisor: a frame that is
    accepted becomes the observation of the next supervisor step, everything else leaves the
    context alone; the whole loop as a run of the supervisor; and when the loop ends. *)
From Stdlib Require Import ZArith Lia String.
From stdpp Require Import base numbers list strings.
From S2P Require Import Prelude Prog CanDbc Os SeatController CtlMachine ControllerSpec.
From S2P Require Import ControlLoopSpec ApiSpec.

Section Thread.
Context {CAN : Cantools} {CANL : CantoolsLaws CAN} {S : Type} {O : OS S}.

(** The [while] condition. *)
Definition loop_on (c : seatctrl_context_t) : bool :=
  running c && negb (socket c =? SOCKET_INVALID).

Definition ctl_read (m : machine S) : (Z * Z * can_frame) * machine S :=
  sys (O_read (socket (m_ctx m)) zero_frame sizeof_can_frame) m.

(** The machine in which the control loop runs after frame [f] was accepted. *)
Definition after_stat (f : can_frame) (m : machine S) : machine S :=
  with_ctx (observe (decoded f)) (emit (pos_event (m_ctx m) (CanDbc.motor1_pos (decoded f))) m).

Lemma iteration_stops (m : machine S) :
  loop_on (m_ctx m) = false -> exec seatctrl_thread_iteration m = (false, m).
Proof.
  unfold loop_on. intros H. unfold seatctrl_thread_iteration. rewrite exec_get_ctx, exec_if.
  by rewrite H.
Qed.

(** C32: Closing a valid context.  Whatever the system calls answer, even when the socket cannot be
    closed or the thread not be joined, the context ends stopped, without socket and thread id, and
    passes the tests of [seatctrl_open] again; nothing else of it has changed, nothing is sent, and
    a loop of the CTL thread that is still on it ends at its next iteration. *)
Theorem close_ends_thread p fuel (m : machine S) :
  valid p (m_ctx m) = true ->
  let '(rc, m') := exec (seatctrl_close p) m in
  In rc [SEAT_CTRL_OK; SEAT_CTRL_ERR] /\ m_ctx m' = ctx_closed (m_ctx m)
  /\ openable (m_ctx m') = true /\ written (m_trace m') = written (m_trace m)
  /\ exec (seatctrl_thread_loop (Datatypes.S fuel)) m' = (false, m').
Proof.
  intros Hv. pose proof (close_spec p m) as H. rewrite Hv in H.
  destruct (exec (seatctrl_close p) m) as [rc m']. destruct H as (H1 & Hc & H2 & H3).
  split_and!; try done. cbn [seatctrl_thread_loop].
  rewrite exec_bind, iteration_stops; [done|]. by rewrite Hc.
Qed.

(** The upcall of an I/O error. *)
Definition error_upcall (c : seatctrl_context_t) (err : Z) : list event := io_error_events c err.

(** Read errors: EAGAIN and EINTR keep the loop going, every other error (ENETDOWN included) is
    reported to the callback and ends the loop.  Nothing is sent and the context stays. *)
Lemma iteration_read_error (m : machine S) :
  loop_on (m_ctx m) = true ->
  let '((cnt, err, frame), m1) := ctl_read m in
  cnt = -1 ->
  let '(again, m') := exec seatctrl_thread_iteration m in
  again = (err =? EAGAIN) || (err =? EINTR)
  /\ m_ctx m' = m_ctx m /\ m_st m' = m_st m /\ written (m_trace m') = written (m_trace m)
  /\ (again = false -> exists pre, m_trace m' = pre ++ error_upcall (m_ctx m) err).
Proof.
  unfold loop_on, ctl_read. intros H. pose proof (effect_sys (O_read (socket (m_ctx m)) zero_frame
    sizeof_can_frame) m) as [A1 A2 A3].
  pose proof (sys_st (O_read (socket (m_ctx m)) zero_frame sizeof_can_frame) m) as A4.
  unfold seatctrl_thread_iteration. autorewrite with run. rewrite H. cbn [negb].
  autorewrite with run.
  destruct (sys _ m) as [[[cnt err] frame] m1]. msimpl. intros ->. cbn [Z.ltb Z.compare andb].
  rewrite app_nil_r in A3. autorewrite with run. rewrite A1.
  apply andb_true_iff in H as [Hr _]. rewrite Hr.
  destruct (err =? EAGAIN) eqn:E1; [|destruct (err =? EINTR) eqn:E2].
  - cbn [negb]. rewrite exec_usleep, exec_ret. autorewrite with sys.
    rewrite written_app, A1, A3, A4, app_nil_r. by split_and!.
  - rewrite exec_usleep, exec_ret. autorewrite with sys.
    rewrite written_app, A1, A3, A4, app_nil_r. by split_and!.
  - autorewrite with run. rewrite !exec_usleep. autorewrite with run sys. rewrite A1.
    change (-1 =? ENETDOWN) with false. unfold error_upcall, io_error_events.
    destruct (event_cb (m_ctx m) =? 0); cbn [negb]; autorewrite with run sys;
      msimpl; autorewrite with sys; rewrite ?written_app, A1, A3, A4, ?app_nil_r;
      (split_and!; try done); intros _; eexists; [by rewrite app_nil_r | done].
Qed.


Lemma goal_of_observe d c : goal_of (observe d c) = goal_of c.
Proof. done. Qed.

Lemma obs_of_observe f c :
  obs_of (observe (decoded f) c)
  = Obs (CanDbc.motor1_pos (decoded f)) (CanDbc.motor1_mov_state (decoded f)).
Proof.
  destruct (decoded_ranges f) as (H1 & H2 & _). unfold is_u8 in *. unfold obs_of, observe.
  cbn [motor1_pos motor1_mov_state set_motor1_pos set_motor1_mov_state
       set_motor1_learning_state]. by rewrite !u8_small by (unfold is_u8; lia).
Qed.

(** A frame that is read: an acceptable SECU1_STAT frame becomes an observation, is reported to
    the callback when the position is new, and the supervisor makes one step with it; any other
    frame is dropped.  The loop goes on. *)
Lemma iteration_frame (m : machine S) :
  let c := m_ctx m in
  loop_on c = true ->
  let '((cnt, err, f), m1) := ctl_read m in
  0 <= cnt -> wf_frame f ->
  let '(again, m') := exec seatctrl_thread_iteration m in
  again = true /\
  if stat_verdict f =? SEAT_CTRL_OK then
    let '(frames, g, last) :=
      supervise (goal_of c) (last_of (m_st m))
        (Obs (CanDbc.motor1_pos (decoded f)) (CanDbc.motor1_mov_state (decoded f)))
        (pass_time (after_stat f m1)) (command_timeout (config c)) (u8 (motor_rpm (config c))) in
    m_ctx m' = ctx_after g (observe (decoded f) c) /\ last_of (m_st m') = last
    /\ written (m_trace m') = written (m_trace m) ++ frames
  else m_ctx m' = c /\ m_st m' = m_st m /\ written (m_trace m') = written (m_trace m).
Proof.
  unfold loop_on, ctl_read. cbv zeta. intros H.
  pose proof (effect_sys (O_read (socket (m_ctx m)) zero_frame sizeof_can_frame) m) as [A1 A2 A3].
  pose proof (sys_st (O_read (socket (m_ctx m)) zero_frame sizeof_can_frame) m) as A4.
  unfold seatctrl_thread_iteration. autorewrite with run. rewrite H. cbn [negb].
  autorewrite with run.
  destruct (sys _ m) as [[[cnt err] f] m1]. msimpl. intros Hcnt Hf. rewrite app_nil_r in A3.
  rewrite (proj2 (Z.ltb_ge _ _) Hcnt). cbn [andb]. autorewrite with run.
  destruct (can_id f =? CAN_SECU1_STAT_FRAME_ID) eqn:Eid.
  2: { autorewrite with run. rewrite exec_usleep, exec_ret. unfold stat_verdict. rewrite Eid.
       cbn [negb]. change (SEAT_CTRL_ERR_INVALID =? SEAT_CTRL_OK) with false. cbv iota.
       autorewrite with sys. rewrite written_app, A1, A3, A4, app_nil_r. by split_and!. }
  rewrite exec_bind, handle_secu_stat_spec by done. autorewrite with run.
  destruct (stat_verdict f =? SEAT_CTRL_OK).
  - autorewrite with run. rewrite exec_bind. fold (after_stat f m1).
    assert (m_ctx (after_stat f m1) = observe (decoded f) (m_ctx m)) as Ec
      by (unfold after_stat; msimpl; by rewrite A1).
    destruct (does_control_loop (after_stat f m1)) as [_ B]. cbv zeta in B.
    rewrite Ec, obs_of_observe, goal_of_observe in B.
    change (m_st (after_stat f m1)) with (m_st m1) in B. rewrite A2 in B.
    change (config (observe (decoded f) (m_ctx m))) with (config (m_ctx m)) in B.
    destruct (supervise _ _ _ _ _ _) as [[frames g] last]. destruct B as [B1 B2 B3].
    destruct (exec seatctrl_control_loop _) as [rc m2]. autorewrite with run.
    rewrite exec_usleep, exec_ret. autorewrite with sys. msimpl.
    rewrite B1, B2, written_app, B3, Ec. split_and!; try done.
    unfold after_stat. msimpl. by rewrite written_app, A3, written_pos_event, !app_nil_r.
  - autorewrite with run. rewrite exec_usleep, exec_ret. autorewrite with sys.
    rewrite written_app, A1, A3, A4, app_nil_r. by split_and!.
Qed.

(** ** The loop as a run of the supervisor *)

(** What one [read] means: nothing yet, the end of the loop, a frame that is dropped, or an
    observation. *)
Inductive bus_input := Quiet | Broken | Dropped | Accepted (o : observation).

Definition input_of (r : Z * Z * can_frame) : bus_input :=
  let '(cnt, err, f) := r in
  if cnt <? 0 then if (err =? EAGAIN) || (err =? EINTR) then Quiet else Broken
  else if stat_verdict f =? SEAT_CTRL_OK
       then Accepted (Obs (CanDbc.motor1_pos (decoded f)) (CanDbc.motor1_mov_state (decoded f)))
       else Dropped.

Record sup := Sup { s_goal : option goal; s_last : Z * Z; s_obs : observation }.

Definition abs (m : machine S) : sup :=
  Sup (goal_of (m_ctx m)) (last_of (m_st m)) (obs_of (m_ctx m)).

(** One input, taken at time [now]: the frames sent, the next state, and whether to go on. *)
Definition sup_step (timeout rpm : Z) (i : bus_input) (now : Z) (s : sup)
    : list can_frame * sup * bool :=
  match i with
  | Quiet | Dropped => ([], s, true)
  | Broken => ([], s, false)
  | Accepted o =>
      let '(frames, g, last) := supervise (s_goal s) (s_last s) o now timeout rpm in
      (frames, Sup g last o, true)
  end.

Fixpoint sup_run (timeout rpm : Z) (inputs : list (bus_input * Z)) (s : sup)
    : list can_frame * sup * bool :=
  match inputs with
  | [] => ([], s, true)
  | (i, now) :: rest =>
      let '(frames, s, on) := sup_step timeout rpm i now s in
      if on then let '(more, s, on) := sup_run timeout rpm rest s in (frames ++ more, s, on)
      else (frames, s, false)
  end.

Lemma ctx_after_frame g c : config (ctx_after g c) = config c /\ loop_on (ctx_after g c) = loop_on c
  /\ socket (ctx_after g c) = socket c /\ obs_of (ctx_after g c) = obs_of c.
Proof. unfold ctx_after. destruct (goal_of c), g; by split_and!. Qed.

Lemma goal_of_after g c last o now timeout rpm frames last' :
  supervise (goal_of c) last o now timeout rpm = (frames, g, last') -> goal_of (ctx_after g c) = g.
Proof.
  unfold supervise, ctx_after. destruct (goal_of c) as [g0|] eqn:E.
  - destruct (phase_of _ _ _ _); intros [= <- <- <-]; try done; apply goal_of_idle.
  - by intros [= <- <- <-].
Qed.

(** What an iteration takes from the outside: what it reads and the time of the pass. *)
Definition heard_now (m : machine S) : bus_input * Z :=
  let '(r, m1) := ctl_read m in (input_of r, pass_time (after_stat (snd r) m1)).

(** What [fuel] iterations from [m] take from the outside. *)
Fixpoint heard (fuel : nat) (m : machine S) : list (bus_input * Z) :=
  match fuel with
  | Datatypes.O => []
  | Datatypes.S fuel =>
      let '(again, m') := exec seatctrl_thread_iteration m in
      heard_now m :: if again then heard fuel m' else []
  end.

(** An iteration is a step of the supervisor with what it heard. *)
Lemma iteration_step {L : OSLaws S} (m : machine S) :
  let c := m_ctx m in
  loop_on c = true ->
  let '(again, m') := exec seatctrl_thread_iteration m in
  sup_step (command_timeout (config c)) (u8 (motor_rpm (config c)))
      (fst (heard_now m)) (snd (heard_now m)) (abs m)
    = (drop (length (written (m_trace m))) (written (m_trace m')), abs m', again)
    /\ written (m_trace m') = written (m_trace m)
         ++ drop (length (written (m_trace m))) (written (m_trace m'))
    /\ config (m_ctx m') = config c /\ loop_on (m_ctx m') = true.
Proof.
  cbv zeta. intros H. unfold heard_now. pose proof (iteration_read_error m H) as He.
  pose proof (iteration_frame m) as Hf. cbv zeta in Hf. specialize (Hf H).
  assert (Hr : -1 <= fst (fst (fst (ctl_read m))) /\ wf_frame (snd (fst (ctl_read m)))).
  { unfold ctl_read, sys, ctl_handle.
    pose proof (os_answers _ (O_read (socket (m_ctx m)) zero_frame sizeof_can_frame) (m_os m)) as Ha.
    destruct (os_handle _ _ _). simpl in *. intuition auto using wf_zero_frame. }
  destruct (ctl_read m) as [[[cnt err] f] m1]. destruct (exec _ m) as [again m'].
  cbn [fst snd input_of] in *. destruct Hr as [Hcnt Hwf].
  destruct (Z.ltb_spec cnt 0) as [Hneg|Hpos].
  - destruct (He ltac:(lia)) as (-> & E1 & E2 & E3 & _).
    rewrite E3, drop_all, app_nil_r, E1. unfold abs. rewrite E1, E2.
    split_and!; [by destruct (_ || _) | done | done | done].
  - destruct (Hf ltac:(lia) Hwf) as (-> & Hx). destruct (stat_verdict f =? SEAT_CTRL_OK).
    + cbn [sup_step abs s_goal s_last].
      destruct (supervise _ _ _ _ _ _) as [[frames g] last] eqn:Es.
      destruct Hx as (E1 & E2 & E3). rewrite E3, drop_app_length. unfold abs.
      pose proof (ctx_after_frame g (observe (decoded f) (m_ctx m))) as (F1 & F2 & F3 & F4).
      rewrite E1, E2, F1, F2, F4, obs_of_observe.
      rewrite (goal_of_after _ (observe (decoded f) (m_ctx m)) _ _ _ _ _ _ _ Es). by split_and!.
    + destruct Hx as (E1 & E2 & E3). rewrite E3, drop_all, app_nil_r, E1.
      unfold abs. by rewrite E1, E2.
Qed.

(** C2: Whatever the bus delivers, what the CTL thread does is the run of the supervisor on what was
    read and the times of the passes: the same frames in the same order, the same goal, and it
    ends where the supervisor does. *)
Theorem thread_refines {L : OSLaws S} fuel (m : machine S) :
  let c := m_ctx m in
  loop_on c = true ->
  let '(on, m') := exec (seatctrl_thread_loop fuel) m in
  exists frames,
    sup_run (command_timeout (config c)) (u8 (motor_rpm (config c))) (heard fuel m) (abs m)
    = (frames, abs m', on)
    /\ written (m_trace m') = written (m_trace m) ++ frames
    /\ (on = true -> length (heard fuel m) = fuel).
Proof.
  cbv zeta. revert m. induction fuel as [|fuel IH]; intros m H.
  { exists []. rewrite app_nil_r. by split_and!. }
  cbn [seatctrl_thread_loop heard]. rewrite exec_bind.
  pose proof (iteration_step m) as Hs. cbv zeta in Hs. specialize (Hs H).
  destruct (exec seatctrl_thread_iteration m) as [again m1]. destruct (heard_now m) as [i now].
  destruct Hs as (E1 & E2 & E3 & E4). rewrite exec_if. destruct again.
  - specialize (IH m1 E4). rewrite E3 in IH. destruct (exec _ m1) as [on m'].
    destruct IH as (frames & F1 & F2 & F3). cbn [fst snd] in E1.
    eexists (_ ++ frames). cbn [sup_run length]. rewrite E1, F1.
    split_and!; [done | | intros Hon; f_equal; auto].
    rewrite F2, E2 at 1. by rewrite app_assoc.
  - rewrite exec_ret. cbn [fst snd] in E1. eexists. cbn [sup_run length]. rewrite E1.
    split_and!; [done | exact E2 | done].
Qed.

End Thread.
