(* ===== verification/Invariants.v ===== *)
(** * Invariants of the controller under interleaving

    The API threads (gRPC calls) and the CTL thread share the context without a lock.  Here every
    thread of the process may run between any two operations of another, and the operating
    system answers whatever [os_answer] allows ([any_env]).  [Invariant] is the interface between
    an invariant of contexts and events and the programs of the controller: whoever provides its
    laws, one for each kind of assignment and each kind of event, has the invariant at every
    moment of every interleaving ([pool_invariant]). *)
From Stdlib Require Import ZArith Lia String.
From stdpp Require Import base numbers list strings relations.
From S2P Require Import Prelude Prog CanDbc Os SeatController CtlMachine ControllerSpec.
From S2P Require Import ControlLoopSpec ApiSpec.

Definition valid_pos (p : Z) : Prop := 0 <= p <= 100 \/ p = 255.

(** One operation, whoever performs it, in any environment. *)
Definition any_env {S} : forall X, ctlE X -> machine S -> X -> machine S -> Prop := fun X e =>
  match e in ctlE X return machine S -> X -> machine S -> Prop with
  | GetCtx => fun m x m' => x = m_ctx m /\ m' = m
  | ModCtx f => fun m _ m' => m' = with_ctx f m
  | GetSt => fun m x m' => x = m_st m /\ m' = m
  | PutSt st => fun m _ m' => m' = with_st st m
  | Os e => fun m x m' => os_answer e x /\ exists o, m' = emit (os_events e x) (with_os o m)
  | EventCb cb ev v ud => fun m _ m' => m' = emit [EvEventCb cb ev v ud] m
  | Log l => fun m _ m' => m' = emit [EvLog l] m
  end.

Definition obeys {S} (C : seatctrl_context_t -> Prop) (EV : event -> Prop) (m : machine S) : Prop :=
  C (m_ctx m) /\ Forall EV (m_trace m).

(** The position a frame reports, when the controller takes it over. *)
Definition bus_position (f : can_frame) : option Z :=
  if stat_verdict f =? SEAT_CTRL_OK then Some (CanDbc.motor1_pos (decoded f)) else None.

(** The positions an operation takes from the bus. *)
Definition positions_read {X} (e : ctlE X) : X -> list Z :=
  match e in ctlE X return X -> list Z with
  | Os e =>
      match e in osE X return X -> list Z with
      | O_read _ _ _ => fun r => if fst (fst r) <? 0 then [] else option_list (bus_position (snd r))
      | _ => fun _ => []
      end
  | _ => fun _ => []
  end.

(** An environment in which the bus reports no positions but [seen]. *)
Definition env_seeing (seen : Z -> Prop) {S} : forall X, ctlE X -> machine S -> X -> machine S -> Prop :=
  fun X e m x m' => any_env X e m x m' /\ Forall seen (positions_read e x).

(** [ask] are the positions clients may ask for, [seen] those the bus may report, [started] what is
    known once an operation has been seen under way. *)
Class Invariant (C : seatctrl_context_t -> Prop) (EV : event -> Prop)
    (ask seen : Z -> Prop) (started : Prop) : Prop := {
  inv_socket v c : C c -> C (set_socket v c);
  inv_running v c : C c -> C (set_running v c);
  inv_thread_id v c : C c -> C (set_thread_id v c);
  inv_command_ts v c : C c -> C (set_command_ts v c);
  inv_event_cb v c : C c -> C (set_event_cb v c);
  inv_user_data v c : C c -> C (set_event_cb_user_data v c);
  inv_forget c : C c -> C (set_desired_position MOTOR_POS_INVALID c);
  inv_direction_off c : C c -> C (set_desired_direction OFF c);
  inv_observe s c :
    seen (CanDbc.motor1_pos s) -> valid_pos (CanDbc.motor1_pos s) -> 0 <= CanDbc.motor1_mov_state s < 4 ->
    0 <= CanDbc.motor1_learning_state s < 4 -> C c ->
    C (set_motor1_pos (CanDbc.motor1_pos s) c)
    /\ C (set_motor1_mov_state (CanDbc.motor1_mov_state s) c)
    /\ C (set_motor1_learning_state (CanDbc.motor1_learning_state s) c);
  inv_publish_direction pos d c :
    ask pos -> 0 <= pos <= 100 -> d <> INV -> C c -> C (set_desired_direction d c);
  inv_publish_position pos c : ask pos -> 0 <= pos <= 100 -> C c -> C (set_desired_position pos c);
  inv_started c : C c -> is_ctl_running c = true -> started;
  inv_asked pos : ask pos -> 0 <= pos <= 100 -> started;
  inv_stop_frame fd cnt : EV (EvWrite fd stop_frame cnt);
  inv_move_frame d c fd cnt :
    started -> d <> INV -> C c ->
    EV (EvWrite fd (cmd_frame (dir_value d) (u8 (motor_rpm (config c)))) cnt);
  inv_direction c : C c -> desired_direction c <> INV;
  inv_sleep us : EV (EvSleep us);
  inv_log l : EV (EvLog l);
  inv_can_error cb v ud : EV (EvEventCb cb CanError v ud);
  inv_position_event cb v ud : seen v -> valid_pos v -> EV (EvEventCb cb Motor1Pos v ud) }.

(** A reported position comes from the bus. *)
Definition position_from (seen : Z -> Prop) (e : event) : Prop :=
  match e with EvEventCb _ Motor1Pos v _ => seen v | _ => True end.

(** An invariant that holds whatever the bus reports, with what the bus reports. *)
Lemma invariant_seeing C EV ask started seen :
  Invariant C EV ask (fun _ => True) started ->
  Invariant C (fun e => EV e /\ position_from seen e) ask seen started.
Proof.
  intros []. split; try done; cbn [position_from]; intros; auto.
Qed.

Create HintDb kept.

Section Invariance.
Context {CAN : Cantools} {CANL : CantoolsLaws CAN} {S : Type}.
Context {C : seatctrl_context_t -> Prop} {EV : event -> Prop} {ask seen : Z -> Prop} {started : Prop}.
Context {HI : Invariant C EV ask seen started}.

Abbreviation kept := (keeps (env_seeing seen (S := S)) (obeys C EV)).

(** ** Rules for the operations *)

Lemma kept_ret {A} (a : A) (Q : A -> Prop) : Q a -> kept (mret a) Q.
Proof. done. Qed.

Lemma kept_get_ctx {B} (k : _ -> ctl B) Q :
  (forall c, C c -> kept (k c) Q) -> kept (get_ctx ≫= k) Q.
Proof. intros H s x s' Hs [[-> ->] _]. split; [done|]. apply H. by destruct Hs. Qed.

Lemma kept_get_st {B} (k : _ -> ctl B) Q :
  (forall st, kept (k st) Q) -> kept (get_st ≫= k) Q.
Proof. intros H s x s' Hs [[-> ->] _]. split; [done|]. apply H. Qed.

Lemma kept_mod_ctx f Q :
  (forall c, C c -> C (f c)) -> Q tt -> kept (mod_ctx f) Q.
Proof. intros Hf H s [] s' [Hs Ht] [-> _]. split; [split; [by apply Hf | done] | done]. Qed.

Lemma kept_put_st st Q : Q tt -> kept (put_st st) Q.
Proof. intros H s [] s' Hs [-> _]. by split. Qed.

Lemma kept_os_read {X} (e : osE X) Q :
  (forall x, os_answer e x -> Forall seen (positions_read (Os e) x) -> Forall EV (os_events e x) /\ Q x) ->
  kept (os e) Q.
Proof.
  intros H s x s' [Hs Ht] [[Ha [o ->]] Hr]. destruct (H x Ha Hr) as [He Hq]. split; [|done].
  split; [done|]. by apply Forall_app.
Qed.

Lemma kept_os {X} (e : osE X) Q :
  (forall x, os_answer e x -> Forall EV (os_events e x) /\ Q x) -> kept (os e) Q.
Proof. intros H. apply kept_os_read. intros x Ha _. by apply H. Qed.

Lemma kept_log l Q : Q tt -> kept (log l) Q.
Proof.
  intros H s [] s' [Hs Ht] [-> _]. split; [|done]. split; [done|]. apply Forall_app; split; [done|].
  constructor; [apply inv_log | done].
Qed.

Lemma kept_event_cb cb ev v ud Q :
  (ev = Motor1Pos -> seen v /\ valid_pos v) -> Q tt -> kept (call_event_cb cb ev v ud) Q.
Proof.
  intros Hv H s [] s' [Hs Ht] [-> _]. split; [|done]. split; [done|]. apply Forall_app; split; [done|].
  constructor; [|done]. destruct ev; [apply inv_can_error | by apply inv_position_event; apply Hv].
Qed.

Lemma kept_if {A} (b : bool) (p q : ctl A) Q :
  (b = true -> kept p Q) -> (b = false -> kept q Q) -> kept (if b then p else q) Q.
Proof. destruct b; auto. Qed.

Lemma kept_when b p (Q : unit -> Prop) :
  (b = true -> kept p Q) -> Q tt -> kept (when b p) Q.
Proof. destruct b; auto. Qed.

(** A call whose result does not matter. *)
Lemma kept_seq {A B} (p : ctl A) (k : A -> ctl B) Q :
  kept p (fun _ => True) -> (forall a, kept (k a) Q) -> kept (p ≫= k) Q.
Proof. intros Hp Hk. apply keeps_bind. eapply keeps_mono; [|done]. auto. Qed.

(** Walks through a program, leaving the pure side conditions. *)
Ltac kept_step :=
  lazymatch goal with
  | |- keeps _ _ (mret _) _ => apply kept_ret
  | |- keeps _ _ (get_ctx ≫= _) _ => apply kept_get_ctx; intros ? ?
  | |- keeps _ _ (get_st ≫= _) _ => apply kept_get_st; intros ?
  | |- keeps _ _ (_ ≫= _) _ => apply kept_seq; [|intros ?]
  | |- keeps _ _ (if ?b then _ else _) _ =>
      lazymatch type of b with bool => apply kept_if; intros ? end
  | |- keeps _ _ (when _ _) _ => apply kept_when; [intros ?|]
  | |- keeps _ _ (mod_ctx _) _ => apply kept_mod_ctx
  | |- keeps _ _ (put_st _) _ => apply kept_put_st
  | |- keeps _ _ (log _) _ => apply kept_log
  | |- keeps _ _ (call_event_cb _ _ _ _) _ => apply kept_event_cb
  | |- keeps _ _ _ _ => solve [eauto 3 with kept nocore]
  end.

Lemma kept_silent {X} (e : osE X) :
  (forall x, os_events e x = []) -> kept (os e) (fun _ => True).
Proof. intros H. apply kept_os. intros x _. by rewrite H. Qed.

Lemma kept_usleep us : kept (usleep us) (fun _ => True).
Proof. apply kept_os. intros. split; [|done]. constructor; [apply inv_sleep | done]. Qed.

Lemma valid_pos_invalid : valid_pos MOTOR_POS_INVALID.
Proof. by right. Qed.

#[local] Hint Extern 2 (C _) =>
  first [ apply (inv_socket (C := C)) | apply (inv_running (C := C)) | apply (inv_thread_id (C := C))
        | apply (inv_command_ts (C := C)) | apply (inv_event_cb (C := C))
        | apply (inv_user_data (C := C)) | apply (inv_forget (C := C))
        | apply (inv_direction_off (C := C)) ] : kept.
#[local] Hint Resolve kept_usleep valid_pos_invalid : kept.

(** ** Every program of the controller keeps the invariant *)

Lemma kept_get_ts : kept get_ts (fun _ => True).
Proof. unfold get_ts. apply keeps_bind, kept_os. intros [sec nsec] _. by split. Qed.

#[local] Hint Resolve kept_get_ts : kept.

Definition send_status (rc : Z) : Prop :=
  In rc [SEAT_CTRL_OK; SEAT_CTRL_ERR; SEAT_CTRL_ERR_CAN_IO].

Lemma kept_send_cmd1_status dir rpm :
  (forall fd cnt, EV (EvWrite fd (cmd_frame (u8 dir) (u8 rpm)) cnt)) ->
  kept (seatctrl_send_cmd1 dir rpm) send_status.
Proof.
  intros Hl. unfold seatctrl_send_cmd1. rewrite pack_cmd_frame by auto with width.
  cbv beta iota zeta. change (SECU1_CMD_1_LENGTH <? 0) with false. cbv iota.
  do 2 kept_step; [by right; left|].
  apply kept_get_ctx; intros c1 _. apply keeps_bind, kept_os. intros [cnt err] _. split.
  - constructor; [apply Hl | done].
  - repeat kept_step; try done; [by right; right; left | by left].
Qed.

Lemma kept_send_cmd1 dir rpm :
  (forall fd cnt, EV (EvWrite fd (cmd_frame (u8 dir) (u8 rpm)) cnt)) ->
  kept (seatctrl_send_cmd1 dir rpm) (fun _ => True).
Proof. intros. eapply keeps_mono; [|by apply kept_send_cmd1_status]. done. Qed.

Lemma kept_send_off : kept (seatctrl_send_cmd1 (dir_value OFF) 0) (fun _ => True).
Proof. apply kept_send_cmd1. intros. apply inv_stop_frame. Qed.

Lemma move_frame d c fd cnt :
  started -> d <> INV -> C c ->
  EV (EvWrite fd (cmd_frame (u8 (dir_value d)) (u8 (motor_rpm (config c)))) cnt).
Proof.
  intros. rewrite (u8_small (dir_value d)) by (destruct d; cbn; unfold is_u8; lia).
  by apply inv_move_frame.
Qed.

Lemma kept_send_move d c :
  started -> d <> INV -> C c ->
  kept (seatctrl_send_cmd1 (dir_value d) (motor_rpm (config c))) (fun _ => True).
Proof. intros. apply kept_send_cmd1. intros. by apply move_frame. Qed.

#[local] Hint Resolve kept_send_off kept_send_move inv_direction : kept.

Lemma kept_stop_movement : kept seatctrl_stop_movement (fun _ => True).
Proof. unfold seatctrl_stop_movement. repeat kept_step; auto with kept. Qed.

#[local] Hint Resolve kept_stop_movement : kept.

Lemma kept_note_learned_mode b msg : kept (note_learned_mode b msg) (fun _ => True).
Proof. unfold note_learned_mode. repeat kept_step; done. Qed.

#[local] Hint Resolve kept_note_learned_mode : kept.

Lemma kept_resend_command : started -> kept resend_command (fun _ => True).
Proof.
  intros Hst. unfold resend_command. repeat kept_step; done.
Qed.

#[local] Hint Resolve kept_resend_command : kept.

Lemma kept_control_loop : kept seatctrl_control_loop (fun _ => True).
Proof.
  unfold seatctrl_control_loop. kept_step; [unfold update_learned_mode; repeat kept_step; done|].
  do 2 kept_step; [done|].
  assert started as Hst by (eapply inv_started; [done|]; by apply negb_false_iff).
  unfold report_change, remember_states, finish_operation, invalidate_last_states.
  repeat kept_step; done.
Qed.

#[local] Hint Resolve kept_control_loop : kept.

Lemma kept_handle_secu_stat f :
  wf_frame f -> Forall seen (option_list (bus_position f)) -> kept (handle_secu_stat f) (fun _ => True).
Proof.
  intros (_ & _ & Hlen & Hbytes) Hseen. unfold handle_secu_stat. kept_step; [done|].
  match goal with H : negb _ = false |- _ => rename H into Hid end.
  destruct (Z.ltb_spec (can_dlc f) 8) as [Hd|Hd].
  - pose proof (unpack_short stat_zero (data f) (can_dlc f) Hd) as Hu.
    destruct (CAN_secu1_stat_unpack _ _ _) as [rc stat]. simpl in Hu.
    by rewrite (proj2 (Z.eqb_neq rc 0)) by lia.
  - rewrite unpack_full by done. fold (decoded f). cbn [negb Z.eqb].
    destruct (decoded_ranges f) as (H1 & H2 & H3). rewrite stat_acceptable_decoded.
    apply kept_if; [|done]. intros Hacc.
    assert (valid_pos (CanDbc.motor1_pos (decoded f))) as Hp
      by (unfold valid_pos, is_u8 in *; lia).
    assert (seen (CanDbc.motor1_pos (decoded f))) as Hs.
    { revert Hseen. unfold bus_position, stat_verdict. rewrite Hid, (proj2 (Z.ltb_ge _ _) Hd), Hacc.
      intros Hs. by inversion Hs. }
    repeat kept_step; try done; intros c' Hc';
      by destruct (inv_observe (decoded f) c' Hs Hp H2 H3 Hc') as (? & ? & ?).
Qed.

Lemma kept_thread_iteration : kept seatctrl_thread_iteration (fun _ => True).
Proof.
  unfold seatctrl_thread_iteration. do 2 kept_step; [done|].
  apply kept_get_ctx; intros c1 _.
  apply keeps_bind, kept_os_read. intros [[cnt err] f] [_ Hf] Hr. split; [by repeat constructor|].
  cbn [positions_read fst snd] in Hr.
  repeat kept_step; try done. apply kept_handle_secu_stat; [apply Hf; auto with width|].
  by destruct (cnt <? 0).
Qed.

Lemma kept_wait_motor1_pos n : kept (wait_motor1_pos n) (fun _ => True).
Proof. induction n as [|n IH]; cbn [wait_motor1_pos]; repeat kept_step; done. Qed.

#[local] Hint Resolve kept_wait_motor1_pos : kept.

Lemma direction_to_legal a b : direction_to a b <> INV.
Proof. unfold direction_to. by destruct (_ <? _). Qed.

#[local] Hint Resolve direction_to_legal : kept.

(** The results a client of [seatctrl_set_position] has to expect. *)
Definition set_position_status (rc : Z) : Prop :=
  send_status rc \/ In rc [SEAT_CTRL_ERR_INVALID; SEAT_CTRL_ERR_NO_FRAMES].

Lemma kept_start_movement cur pos :
  ask pos -> 0 <= pos <= 100 -> kept (start_movement cur pos) set_position_status.
Proof.
  intros Ha Hp. unfold start_movement. kept_step; [kept_step|].
  kept_step; [kept_step; auto with kept|].
  kept_step; [kept_step; [|done]; intros; eapply inv_publish_direction; eauto with kept|].
  kept_step; [kept_step; [|done]; intros; by apply inv_publish_position|].
  apply kept_get_ctx; intros c Hc.
  eapply keeps_mono; [|apply kept_send_cmd1_status; intros; apply move_frame; auto with kept].
  - by left.
  - by eapply inv_asked.
Qed.

Lemma kept_set_position_status p pos :
  ask pos -> kept (seatctrl_set_position p pos) set_position_status.
Proof.
  intros Ha. unfold seatctrl_set_position, stay_there, motor1_pos_known.
  do 2 kept_step; [by right; left|]. apply kept_if; intros Hpos; [by right; left|].
  kept_step; [repeat kept_step; done|]. apply kept_if; intros _; [by right; right; left|].
  kept_step; [kept_step|]. kept_step; [kept_step|]. kept_step. apply kept_if; intros _.
  - repeat kept_step; auto with kept. by left; left.
  - apply kept_start_movement; [done | lia].
Qed.

Lemma kept_set_position p pos : ask pos -> kept (seatctrl_set_position p pos) (fun _ => True).
Proof. intros. eapply keeps_mono; [|by apply kept_set_position_status]. done. Qed.

Lemma kept_get_position p : kept (seatctrl_get_position p) (fun _ => True).
Proof. unfold seatctrl_get_position. repeat kept_step; done. Qed.

Lemma kept_set_event_callback p cb ud :
  kept (seatctrl_set_event_callback p cb ud) (fun _ => True).
Proof. unfold seatctrl_set_event_callback. repeat kept_step; auto with kept. Qed.

Ltac kept_steps :=
  repeat (kept_step || (apply kept_silent; done) ||
          match goal with
          | |- keeps _ _ (match ?x with _ => _ end) _ => destruct x
          end); auto with kept.

Lemma kept_open p : kept (seatctrl_open p) (fun _ => True).
Proof. unfold seatctrl_open. kept_steps. Qed.

Lemma kept_close p : kept (seatctrl_close p) (fun _ => True).
Proof. unfold seatctrl_close, close_socket, join_thread. kept_steps. Qed.

(** ** Sequential runs *)

Lemma exec_any_env {O : OS S} {OL : OSLaws S} X (e : ctlE X) m :
  any_env X e m (fst (ctl_handle X e m)) (snd (ctl_handle X e m)).
Proof.
  destruct e as [|f| |st|X e|cb ev v ud|l]; try done.
  simpl. pose proof (os_answers X e (m_os m)) as H. destruct (os_handle X e (m_os m)) as [x o].
  simpl in *. split; [done|]. by exists o.
Qed.

Lemma exec_keeps {O : OS S} {OL : OSLaws S} {A} (p : ctl A) Q m :
  (forall v, seen v) -> kept p Q -> obeys C EV m -> Q (fst (exec p m)) /\ obeys C EV (snd (exec p m)).
Proof.
  intros Hseen. apply run_keeps. intros X e s _. split; [apply exec_any_env | by apply Forall_true].
Qed.

End Invariance.

(** ** The threads of the process *)

Inductive api_call :=
| ApiSetPosition (pos : Z)
| ApiGetPosition
| ApiStopMovement
| ApiSetEventCallback (cb user_data : Z)
| ApiOpen
| ApiClose.

Section Threads.
Context {CAN : Cantools}.

Definition call_of (a : api_call) : ctl Z :=
  match a with
  | ApiSetPosition pos => seatctrl_set_position CTX pos
  | ApiGetPosition => seatctrl_get_position CTX
  | ApiStopMovement => seatctrl_stop_movement
  | ApiSetEventCallback cb ud => seatctrl_set_event_callback CTX cb ud
  | ApiOpen => seatctrl_open CTX
  | ApiClose => seatctrl_close CTX
  end.

Definition client_thread (calls : list api_call) : Pool.thread :=
  Pool.Thread (foldr (fun a rest => call_of a;; rest) (mret false) calls) (mret false).

Definition ctl_thread : Pool.thread :=
  Pool.Thread (mod_ctx (set_running true);; mret true) seatctrl_thread_iteration.

(** The calls ask for nothing else. *)
Definition asks (ask : Z -> Prop) (a : api_call) : Prop :=
  match a with ApiSetPosition pos => ask pos | _ => True end.

Context {CANL : CantoolsLaws CAN} {S : Type}.
Context {C : seatctrl_context_t -> Prop} {EV : event -> Prop} {ask seen : Z -> Prop} {started : Prop}.
Context {HI : Invariant C EV ask seen started}.

Lemma kept_call a : asks ask a -> keeps (env_seeing seen) (obeys (S := S) C EV) (call_of a) (fun _ => True).
Proof.
  destruct a; cbn [call_of asks]; intros;
    first [ by apply kept_set_position | apply kept_get_position | apply kept_stop_movement
          | apply kept_set_event_callback | apply kept_open | apply kept_close ].
Qed.

Lemma client_keeps calls :
  Forall (asks ask) calls -> Pool.thread_keeps (env_seeing seen) (obeys (S := S) C EV) (client_thread calls).
Proof.
  intros H. split; [|done]. cbn [Pool.cur client_thread].
  induction H as [|a calls Ha _ IH]; [done|]. simpl. apply kept_seq; [by apply kept_call | done].
Qed.

Lemma ctl_thread_keeps : Pool.thread_keeps (env_seeing seen) (obeys (S := S) C EV) ctl_thread.
Proof.
  unfold Pool.thread_keeps, ctl_thread. cbn [Pool.cur Pool.body].
  split; [|apply (kept_thread_iteration (C := C) (EV := EV))].
  apply kept_seq; [|done]. apply kept_mod_ctx; [|done]. intros. by apply (inv_running (C := C)).
Qed.

(** Any number of CTL threads and of clients that ask for nothing but [ask]. *)
Lemma pool_invariant loops clients (m m' : machine S) ts :
  (forall v, seen v) -> obeys C EV m -> Forall (Forall (asks ask)) clients ->
  rtc (Pool.step any_env) (m, replicate loops ctl_thread ++ map client_thread clients) (m', ts) ->
  obeys C EV m'.
Proof.
  intros Hseen Hm Hc Hsteps. apply (Pool.steps_mono _ (env_seeing seen)) in Hsteps;
    [|intros X e r x r' Hr; split; [exact Hr | by apply Forall_true]].
  apply (Pool.pool_keeps _ (obeys C EV) _ _ Hsteps); [done|].
  apply Forall_app. split; [apply Forall_replicate, ctl_thread_keeps|].
  apply Forall_map. eapply Forall_impl; [done|]. apply client_keeps.
Qed.

End Threads.
