(* ===== verification/Interleaving.v ===== *)
(** * The controller under every interleaving

    Two invariants of any number of client threads and CTL threads.  [bus_safety]: the context is
    well formed, every frame handed to the bus is a legal command, and every reported position is
    one the ECU may report.  [motion_needs_a_request]: the seat is not moved unless a client asked
    for it, and only positions that were asked for become goals. *)
From Stdlib Require Import ZArith Lia String.
From stdpp Require Import base numbers list strings relations.
From S2P Require Import Prelude Prog CanDbc Os SeatController CtlMachine ControllerSpec.
From S2P Require Import ControlLoopSpec ApiSpec Invariants.

(** ** Well-formed contexts and legal events *)

Record ctx_ok (c : seatctrl_context_t) : Prop := CtxOk {
  ok_pos : valid_pos (motor1_pos c);
  ok_mov : 0 <= motor1_mov_state c < 4;
  ok_learning : 0 <= motor1_learning_state c < 4;
  ok_desired : valid_pos (desired_position c);
  ok_direction : desired_direction c <> INV;
  ok_rpm : 1 <= motor_rpm (config c) <= 254 }.

(** Motor 1 off, or up or down (or off) at a speed in 1..254; the other motors untouched. *)
Definition legal_command (dir rpm : Z) : Prop :=
  (dir = 0 /\ rpm = 0) \/ (0 <= dir < 3 /\ 1 <= rpm <= 254).

Definition legal_frame (f : can_frame) : Prop :=
  exists dir rpm, f = cmd_frame dir rpm /\ legal_command dir rpm.

Definition event_ok (e : event) : Prop :=
  match e with
  | EvWrite _ f _ => legal_frame f
  | EvEventCb _ Motor1Pos v _ => valid_pos v
  | EvEventCb _ CanError _ _ | EvSleep _ | EvLog _ => True
  end.

Definition safe {S} : machine S -> Prop := obeys ctx_ok event_ok.

#[export] Instance bus_invariant : Invariant ctx_ok event_ok (fun _ => True) (fun _ => True) True.
Proof.
  split; try by (intros ? ? []; split); try done.
  - intros c []. split; try done. by right.
  - intros c []. by split.
  - intros s c _ H1 H2 H3 []. unfold valid_pos in *.
    split_and!; split; try done; simpl; rewrite u8_small; unfold valid_pos, is_u8 in *; lia.
  - intros pos d c _ _ Hd []. by split.
  - intros pos c _ Hp []. split; try done. simpl. left. rewrite u8_small; unfold is_u8; lia.
  - intros fd cnt. exists 0, 0. split; [done|]. by left.
  - intros d c fd cnt _ Hd [_ _ _ _ _ Hr]. exists (dir_value d), (u8 (motor_rpm (config c))).
    rewrite u8_small by (unfold is_u8; lia). split; [done|]. right. destruct d; cbn; lia || done.
  - by intros c [].
  - by intros us; cbn.
  - by intros l; cbn.
  - by intros cb v ud _ Hv; cbn.
Qed.

Section Safety.
Context {CAN : Cantools} {CANL : CantoolsLaws CAN} {S : Type}.

Lemma safe_init cfg o :
  1 <= motor_rpm cfg <= 254 -> safe (S := S) (Machine (ctx_init cfg) statics_init o []).
Proof. intros Hr. split; [|constructor]. split; simpl; try done; try lia; by right. Qed.

(** C7: Any number of client threads calling the API in any order, together with any number of CTL
    threads: at every moment of every interleaving the context is well formed, every frame on
    the bus is a legal command for motor 1 and every reported position is a valid one. *)
Theorem bus_safety cfg o loops (clients : list (list api_call)) (m : machine S) ts :
  1 <= motor_rpm cfg <= 254 ->
  rtc (Pool.step any_env)
    (Machine (ctx_init cfg) statics_init o [],
     replicate loops ctl_thread ++ map client_thread clients) (m, ts) ->
  ctx_ok (m_ctx m) /\ Forall event_ok (m_trace m).
Proof.
  intros Hr Hsteps. refine (pool_invariant (HI := bus_invariant) _ _ _ _ _ (fun _ => I) (safe_init _ _ Hr) _ Hsteps).
  apply Forall_true. intros calls. apply Forall_true. by intros [].
Qed.

End Safety.

(** ** No motion without a request *)

(** The positions the clients ask for. *)
Definition requests (clients : list (list api_call)) : list Z :=
  omap (fun a => match a with ApiSetPosition pos => Some pos | _ => None end) (concat clients).

Section Requests.
Variable asked : Z -> Prop.

(** A request the controller accepts. *)
Definition acceptable (pos : Z) : Prop := asked pos /\ 0 <= pos <= 100.

Definition goal_asked (c : seatctrl_context_t) : Prop :=
  (desired_position c = MOTOR_POS_INVALID \/ acceptable (desired_position c))
  /\ desired_direction c <> INV
  /\ (desired_direction c <> OFF -> exists pos, acceptable pos).

(** A frame that is not a stop is there because somebody asked. *)
Definition motion_asked (e : event) : Prop :=
  match e with
  | EvWrite _ f _ => f = stop_frame \/ exists pos, acceptable pos
  | _ => True
  end.

Instance request_invariant :
  Invariant goal_asked motion_asked asked (fun _ => True) (exists pos, acceptable pos).
Proof.
  unfold goal_asked, motion_asked. split; try by (intros; simpl in *; tauto).
  - intros c (H1 & _ & _). by split_and!.
  - intros pos d c Ha Hp Hd (H1 & H2 & H3). split_and!; [done..|]. intros _. by exists pos.
  - intros pos c Ha Hp (H1 & H2 & H3). split_and!; [|done..]. right. simpl.
    rewrite u8_small by (unfold is_u8; lia). done.
  - intros c (H1 & H2 & H3) Hr. apply H3. unfold is_ctl_running in Hr. intros He.
    rewrite He in Hr. cbn in Hr. by rewrite andb_false_r in Hr.
  - intros pos Ha Hp. by exists pos.
Qed.

Lemma request_init {S} cfg (o : S) :
  obeys goal_asked motion_asked (Machine (ctx_init cfg) statics_init o []).
Proof. split; [|constructor]. split; [by left | by split]. Qed.

(** Goals were asked for, and when nothing was there is neither a goal nor a movement. *)
Lemma request_consequences {S} (m : machine S) :
  obeys goal_asked motion_asked m ->
  (forall g, goal_of (m_ctx m) = Some g -> acceptable (g_target g))
  /\ ((forall pos, ~ acceptable pos) ->
      goal_of (m_ctx m) = None /\ Forall (fun f => f = stop_frame) (written (m_trace m))).
Proof.
  intros ((H1 & H2 & H3) & Ht). split.
  - intros g Hg. apply goal_of_Some in Hg as (-> & _ & _ & _ & Hne). cbn [g_target].
    destruct H1 as [H1|H1]; [by rewrite H1 in Hne | exact H1].
  - intros Hno. split.
    + destruct (goal_of (m_ctx m)) as [g|] eqn:Hg; [|done].
      apply goal_of_Some in Hg as (_ & _ & _ & Hd & _). destruct (H3 Hd) as [pos Hpos].
      by destruct (Hno pos).
    + apply Forall_forall. intros f Hf. apply list_elem_of_omap in Hf as ([fd f' cnt| | |] & He & Hf);
        try done. injection Hf as ->. rewrite Forall_forall in Ht.
      destruct (Ht _ He) as [|[pos Hpos]]; [done|]. by destruct (Hno pos).
Qed.

End Requests.

Lemma requests_asked clients : Forall (Forall (asks (fun pos => In pos (requests clients)))) clients.
Proof.
  unfold requests. apply Forall_forall. intros calls Hc. apply Forall_forall. intros a Ha.
  destruct a as [pos| | | | |]; try exact I. apply list_elem_of_In, list_elem_of_omap.
  exists (ApiSetPosition pos). split; [|done]. apply list_elem_of_In, in_concat.
  exists calls. by rewrite <- !list_elem_of_In.
Qed.

Section Motion.
Context {CAN : Cantools} {CANL : CantoolsLaws CAN} {S : Type}.

(** C8: Whatever the clients and the CTL threads do, in whatever order: a goal is a legal position that
    some client has asked for, and when no client asks for a legal position there is never a goal
    and nothing but stop commands reaches the bus. *)
Theorem motion_needs_a_request cfg o loops (clients : list (list api_call)) (m : machine S) ts :
  rtc (Pool.step any_env)
    (Machine (ctx_init cfg) statics_init o [],
     replicate loops ctl_thread ++ map client_thread clients) (m, ts) ->
  (forall g, goal_of (m_ctx m) = Some g -> In (g_target g) (requests clients) /\ 0 <= g_target g <= 100)
  /\ ((forall pos, In pos (requests clients) -> pos < 0 \/ 100 < pos) ->
      goal_of (m_ctx m) = None /\ Forall (fun f => f = stop_frame) (written (m_trace m))).
Proof.
  intros Hsteps.
  destruct (request_consequences (fun pos => In pos (requests clients)) m) as [H1 H2].
  { exact (pool_invariant (HI := request_invariant _) _ _ _ _ _ (fun _ => I) (request_init _ _ _)
      (requests_asked clients) Hsteps). }
  split; [exact H1|]. intros Hnone. apply H2. intros pos [Hin Hpos]. destruct (Hnone pos Hin); lia.
Qed.

End Motion.
