(* ===== verification/SeatAdjuster.v ===== *)
(** * The seat adjuster

    [seat_adjuster.h] and [seat_adjuster.cc]: the C++ interface over the controller.  The class
    [Adjuster] is what the gRPC service and the feeders see of it; [SeatAdjusterImpl] is its
    implementation on top of the controller, with the C callback that turns controller events
    into calls of the subscriber.

    A [std::function] is named by a number, 0 being the empty one.  [abort_service] ends the
    process; it is the operation [Abort], and the code does nothing after it. *)
From Stdlib Require Import ZArith Lia String.
From stdpp Require Import base numbers list strings.
From S2P Require Import Prelude Prog CanDbc Os SeatController CtlMachine ControllerSpec.
From S2P Require Import ControlLoopSpec ApiSpec Invariants Interleaving.

Definition SEAT_POSITION_INVALID : Z := -1.

Inductive SetResult :=
| OK | UNSPECIFIC_ERROR | NO_CAN | CAN_IF_INDEX_ERROR | CAN_BIND_ERROR | CAN_IO_ERROR
| INVALID_ARG | NO_FRAMES.

#[export] Instance SetResult_eq_dec : EqDecision SetResult.
Proof. solve_decision. Defined.

(** ** The interface *)

Class Adjuster (S : Type) := {
  GetSeatPosition : S -> Z * S;
  SetSeatPosition : Z -> S -> SetResult * S;
  SubscribePosition : Z -> S -> S }.

(** What the header promises: [GetSeatPosition] answers -1 or a percentage and changes nothing a
    later call could see; [adj_ok] is the invariant of the implementation. *)
Class AdjusterLaws (S : Type) {A : Adjuster S} (adj_ok : S -> Prop) : Prop := {
  get_position_range s : adj_ok s -> fst (GetSeatPosition s) = -1 \/ 0 <= fst (GetSeatPosition s) <= 100;
  get_position_pure s : snd (GetSeatPosition s) = s;
  get_position_ok s : adj_ok s -> adj_ok (snd (GetSeatPosition s));
  set_position_ok p s : adj_ok s -> adj_ok (snd (SetSeatPosition p s));
  set_position_range p s : p < 0 \/ 100 < p -> adj_ok s -> SetSeatPosition p s = (INVALID_ARG, s);
  subscribe_ok cb s : adj_ok s -> adj_ok (SubscribePosition cb s) }.

(** ** The implementation *)

(** The address of [SeatAdjusterImpl::seatctrl_event_cb], and of the object ([this]). *)
Definition SEATCTRL_EVENT_CB : Z := 1.
Definition THIS : Z := 2.

(** [cb_], and the static [cb_null_dumped] of the callback. *)
Record adjuster_state := AdjusterState { cb_ : Z; cb_null_dumped : bool }.

Inductive saE : Type -> Type :=
| Ctl {X} (e : ctlE X) : saE X
| GetSelf : saE adjuster_state
| PutSelf (s : adjuster_state) : saE unit
| CallCb (cb : Z) (pos : Z) : saE unit
| LogCbNull : saE unit
| Abort (rc : Z) : saE unit.

Abbreviation sa := (prog saE).

Definition get_self : sa adjuster_state := trigger GetSelf.
Definition put_self (s : adjuster_state) : sa unit := trigger (PutSelf s).
Definition call_cb (cb pos : Z) : sa unit := trigger (CallCb cb pos).
Definition abort_service (rc : Z) : sa unit := trigger (Abort rc).
Definition sa_when (b : bool) (p : sa unit) : sa unit := if b then p else mret tt.

(** [getenv(name) && atoi(getenv(name))] *)
Definition env_flag (v : option string) : bool :=
  match v with Some s => negb (atoi s =? 0) | None => false end.

Definition SetResult_of (rc : Z) : SetResult :=
  if rc =? SEAT_CTRL_OK then OK
  else if rc =? SEAT_CTRL_ERR then UNSPECIFIC_ERROR
  else if rc =? SEAT_CTRL_ERR_NO_CAN then NO_CAN
  else if rc =? SEAT_CTRL_ERR_IFR then CAN_IF_INDEX_ERROR
  else if rc =? SEAT_CTRL_ERR_CAN_BIND then CAN_BIND_ERROR
  else if rc =? SEAT_CTRL_ERR_CAN_IO then CAN_IO_ERROR
  else if rc =? SEAT_CTRL_ERR_INVALID then INVALID_ARG
  else if rc =? SEAT_CTRL_ERR_NO_FRAMES then NO_FRAMES
  else UNSPECIFIC_ERROR.

Definition percent_of (pos : Z) : Z :=
  if (pos =? MOTOR_POS_INVALID) || (pos <? 0) then SEAT_POSITION_INVALID else pos.

Section Impl.
Context {CAN : Cantools}.
(** The static [exit_on_error]. *)
Variable exit_on_error : bool.

Definition seatctrl_event_cb (event : SeatCtrlEvent) (value : Z) (user_data : Z) : sa unit :=
  match event with
  | CanError => sa_when exit_on_error (abort_service value)
  | Motor1Pos =>
      if negb (user_data =? 0) then
        self ← get_self;
        if negb (cb_ self =? 0) then
          let pos := if value =? MOTOR_POS_INVALID then -1 else value in
          call_cb (cb_ self) pos;;
          self ← get_self;
          put_self (AdjusterState (cb_ self) false)
        else
          sa_when (negb (cb_null_dumped self)) (trigger LogCbNull);;
          self ← get_self;
          put_self (AdjusterState (cb_ self) true)
      else mret tt
  end.

(** The controller's programs inside the service: a call of the registered callback is recorded
    in the trace and runs the function above. *)
Definition dispatch : forall X, ctlE X -> sa X := fun X e =>
  match e in ctlE X return sa X with
  | EventCb cb ev v ud =>
      trigger (Ctl (EventCb cb ev v ud));;
      sa_when (cb =? SEATCTRL_EVENT_CB) (seatctrl_event_cb ev v ud)
  | e => trigger (Ctl e)
  end.

Definition lift {A} (p : ctl A) : sa A := interp dispatch p.

(** Lines 105-117: the second half of the constructor, on an initialised context. *)
Definition adjuster_start : sa unit :=
  rc ← lift (seatctrl_set_event_callback CTX SEATCTRL_EVENT_CB THIS);
  if negb (rc =? SEAT_CTRL_OK) then sa_when exit_on_error (abort_service rc) else
  rc ← lift (seatctrl_open CTX);
  if negb (rc =? SEAT_CTRL_OK) then sa_when exit_on_error (abort_service rc) else mret tt.

(** [uninit] is what the local [config] holds before it is initialised. *)
Definition SeatAdjusterImpl (uninit : seatctrl_config_t) (can_if_name : string) : sa unit :=
  put_self (AdjusterState 0 false);;
  '(_, config) ← lift (seatctrl_default_config (Some uninit));
  let config := option_map (fun c => Config (Some can_if_name) (debug_raw c) (debug_ctl c)
    (debug_stats c) (debug_verbose c) (command_timeout c) (motor_rpm c)) config in
  rc ← lift (seatctrl_init_ctx CTX config);
  if negb (rc =? SEAT_CTRL_OK) then sa_when exit_on_error (abort_service rc) else adjuster_start.

Definition SeatAdjusterImpl_destroy : sa unit := lift (seatctrl_close CTX);; mret tt.

Definition impl_GetSeatPosition : sa Z :=
  pos ← lift (seatctrl_get_position CTX);
  mret (percent_of pos).

Definition impl_SetSeatPosition (positionInPercent : Z) : sa SetResult :=
  rc ← lift (seatctrl_set_position CTX positionInPercent);
  mret (SetResult_of rc).

Definition impl_SubscribePosition (cb : Z) : sa unit :=
  self ← get_self;
  put_self (AdjusterState cb (cb_null_dumped self)).

End Impl.

(** ** The machine of the service *)

Inductive output :=
| OutCb (cb pos : Z)
| OutCbNull
| OutAbort (rc : Z).

Record service (S : Type) := Service {
  sv_ctl : machine S;
  sv_self : adjuster_state;
  sv_out : list output }.

Arguments Service {S} _ _ _.
Arguments sv_ctl {S} _.
Arguments sv_self {S} _.
Arguments sv_out {S} _.

Section ServiceMachine.
Context {CAN : Cantools} {CANL : CantoolsLaws CAN} {S : Type} {O : OS S}.
Variable exit_on_error : bool.

Definition output_one (o : output) (s : service S) : service S :=
  Service (sv_ctl s) (sv_self s) (sv_out s ++ [o]).

(** With [SA_EXIT] set the code exits where the trace has an [OutAbort]; what the handler does after
    that has no counterpart.  [Process] ends the process there. *)
Definition sa_handle : handler saE (service S) := fun X e =>
  match e in saE X return service S -> X * service S with
  | Ctl e => fun s => let '(x, m) := ctl_handle _ e (sv_ctl s) in (x, Service m (sv_self s) (sv_out s))
  | GetSelf => fun s => (sv_self s, s)
  | PutSelf a => fun s => (tt, Service (sv_ctl s) a (sv_out s))
  | CallCb cb pos => fun s => (tt, output_one (OutCb cb pos) s)
  | LogCbNull => fun s => (tt, output_one OutCbNull s)
  | Abort rc => fun s => (tt, output_one (OutAbort rc) s)
  end.

Definition sa_exec {A} (p : sa A) (s : service S) : A * service S := run sa_handle p s.

(** What one controller event does to the subscriber's side. *)
Definition deliver (e : event) (a : adjuster_state * list output) : adjuster_state * list output :=
  let '(self, out) := a in
  match e with
  | EvEventCb cb ev v ud =>
      if cb =? SEATCTRL_EVENT_CB then
        match ev with
        | CanError => (self, out ++ if exit_on_error then [OutAbort v] else [])
        | Motor1Pos =>
            if ud =? 0 then (self, out)
            else if cb_ self =? 0
            then (AdjusterState (cb_ self) true, out ++ if cb_null_dumped self then [] else [OutCbNull])
            else (AdjusterState (cb_ self) false,
                  out ++ [OutCb (cb_ self) (if v =? MOTOR_POS_INVALID then -1 else v)])
        end
      else (self, out)
  | _ => (self, out)
  end.

Definition delivered (evs : list event) (a : adjuster_state * list output) :=
  foldl (fun a e => deliver e a) a evs.

Lemma sa_exec_bind {A B} (p : sa A) (k : A -> sa B) s :
  sa_exec (p ≫= k) s = let '(a, s') := sa_exec p s in sa_exec (k a) s'.
Proof. apply run_bind. Qed.

Lemma sa_exec_event_cb ev v ud s :
  sa_exec (seatctrl_event_cb exit_on_error ev v ud) s
  = let '(self, out) := deliver (EvEventCb SEATCTRL_EVENT_CB ev v ud) (sv_self s, sv_out s) in
    (tt, Service (sv_ctl s) self out).
Proof.
  destruct s as [m self out]. unfold seatctrl_event_cb, deliver. rewrite Z.eqb_refl.
  destruct ev; [destruct exit_on_error; cbn; by rewrite ?app_nil_r|].
  destruct (ud =? 0); [done|]. cbn -[Z.eqb]. destruct (cb_ self =? 0); [|done].
  cbn -[Z.eqb]. destruct (cb_null_dumped self); cbn; by rewrite ?app_nil_r.
Qed.

(** The service after the controller went to [m] raising the events [evs]. *)
Definition advance (m : machine S) (evs : list event) (s : service S) : service S :=
  let '(self, out) := delivered evs (sv_self s, sv_out s) in Service m self out.

Lemma advance_app m1 m2 evs1 evs2 s :
  advance m2 evs2 (advance m1 evs1 s) = advance m2 (evs1 ++ evs2) s.
Proof.
  unfold advance, delivered. rewrite foldl_app.
  by destruct (foldl _ (sv_self s, sv_out s) evs1) as [self out].
Qed.

Lemma sv_ctl_advance m evs s : sv_ctl (advance m evs s) = m.
Proof. unfold advance. by destruct (delivered _ _). Qed.

Lemma deliver_os_events {X} (e : osE X) x a : delivered (os_events e x) a = a.
Proof. destruct a, e; done. Qed.

Lemma sa_exec_dispatch {X} (e : ctlE X) (s : service S) :
  exists evs,
    m_trace (snd (ctl_handle X e (sv_ctl s))) = m_trace (sv_ctl s) ++ evs /\
    sa_exec (dispatch exit_on_error X e) s
    = (fst (ctl_handle X e (sv_ctl s)), advance (snd (ctl_handle X e (sv_ctl s))) evs s).
Proof.
  destruct s as [m self out]. destruct e as [|f| |st|X e|cb ev v ud|l]; cbn [sv_ctl].
  1-4: exists []; by rewrite app_nil_r.
  - destruct (os_handle X e (m_os m)) as [x o] eqn:E. exists (os_events e x).
    unfold sa_exec, advance. cbn. rewrite E. cbn. split; [done|].
    by rewrite deliver_os_events.
  - exists [EvEventCb cb ev v ud]. split; [done|]. unfold dispatch. rewrite sa_exec_bind.
    cbn [sa_exec run trigger sa_handle ctl_handle sv_ctl sv_self sv_out snd fst].
    unfold advance, delivered. cbn [foldl sv_self sv_out].
    destruct (cb =? SEATCTRL_EVENT_CB) eqn:E; cbn [sa_when].
    + rewrite sa_exec_event_cb. unfold deliver. rewrite E, Z.eqb_refl. cbn [sv_self sv_out].
      by destruct (match ev with CanError => _ | Motor1Pos => _ end).
    + unfold deliver. by rewrite E.
  - exists [EvLog l]. done.
Qed.

(** Within the service the controller runs exactly as on its own, and every event it raises is
    delivered to the subscriber. *)
Lemma sa_exec_lift {A} (p : ctl A) (s : service S) :
  exists evs,
    m_trace (snd (exec p (sv_ctl s))) = m_trace (sv_ctl s) ++ evs /\
    sa_exec (lift exit_on_error p) s
    = (fst (exec p (sv_ctl s)), advance (snd (exec p (sv_ctl s))) evs s).
Proof.
  revert s. induction p as [a|X e k IH]; intros s.
  - exists []. rewrite app_nil_r. split; [done | by destruct s].
  - destruct (sa_exec_dispatch e s) as (evs1 & Ht1 & He1).
    unfold lift. cbn [interp]. change (prog_bind ?f ?q) with (q ≫= f). rewrite sa_exec_bind, He1.
    unfold exec in *. cbn [run]. destruct (ctl_handle X e (sv_ctl s)) as [x m1]. cbn [fst snd] in *.
    destruct (IH x (advance m1 evs1 s)) as (evs2 & Ht2 & He2).
    unfold lift in He2. rewrite sv_ctl_advance in *. exists (evs1 ++ evs2).
    rewrite Ht2, Ht1, He2, advance_app. by rewrite app_assoc.
Qed.

Lemma advance_nil s : advance (sv_ctl s) [] s = s.
Proof. by destruct s. Qed.

(** A controller program that leaves the machine alone leaves the service alone. *)
Lemma sa_exec_lift_pure {A} (p : ctl A) (s : service S) a :
  exec p (sv_ctl s) = (a, sv_ctl s) -> sa_exec (lift exit_on_error p) s = (a, s).
Proof.
  intros H. destruct (sa_exec_lift p s) as (evs & Ht & He). rewrite H in *. cbn [fst snd] in *.
  assert (evs = []) as -> by (apply (app_inv_head (m_trace (sv_ctl s))); by rewrite app_nil_r).
  by rewrite He, advance_nil.
Qed.

Lemma sa_exec_get_position s :
  sa_exec (impl_GetSeatPosition exit_on_error) s
  = (percent_of (fst (exec (seatctrl_get_position CTX) (sv_ctl s))), s).
Proof.
  unfold impl_GetSeatPosition. rewrite sa_exec_bind.
  erewrite sa_exec_lift_pure; [done|]. by rewrite get_position_spec.
Qed.

Lemma sa_exec_set_position p s :
  sa_exec (impl_SetSeatPosition exit_on_error p) s
  = let '(rc, s') := sa_exec (lift exit_on_error (seatctrl_set_position CTX p)) s in
    (SetResult_of rc, s').
Proof. unfold impl_SetSeatPosition. rewrite sa_exec_bind. by destruct (sa_exec _ s). Qed.

#[export] Instance SeatAdjusterImpl_adjuster : Adjuster (service S) := {|
  GetSeatPosition := sa_exec (impl_GetSeatPosition exit_on_error);
  SetSeatPosition p := sa_exec (impl_SetSeatPosition exit_on_error p);
  SubscribePosition cb s := snd (sa_exec (impl_SubscribePosition cb) s) |}.

Definition adjuster_safe (s : service S) : Prop := safe (sv_ctl s).

Lemma percent_of_range p :
  valid_pos p \/ p < 0 -> percent_of p = -1 \/ 0 <= percent_of p <= 100.
Proof.
  unfold valid_pos, percent_of, MOTOR_POS_INVALID, SEAT_POSITION_INVALID. intros H.
  destruct (_ || _) eqn:E; lia.
Qed.

(** The implementation keeps the promises of the interface. *)
#[export] Instance SeatAdjusterImpl_laws {OL : OSLaws S} :
  AdjusterLaws (service S) adjuster_safe.
Proof.
  split; cbn [GetSeatPosition SetSeatPosition SubscribePosition SeatAdjusterImpl_adjuster].
  - intros s [Hs _]. rewrite sa_exec_get_position, get_position_spec. cbn [fst].
    apply percent_of_range. repeat case_match; try (right; done).
    left. by apply ok_pos.
  - intros s. by rewrite sa_exec_get_position.
  - intros s. by rewrite sa_exec_get_position.
  - intros p s Hs. rewrite sa_exec_set_position.
    destruct (sa_exec_lift (seatctrl_set_position CTX p) s) as (evs & _ & ->).
    unfold adjuster_safe. cbn [snd]. rewrite sv_ctl_advance.
    by apply (exec_keeps (seen := fun _ => True) _ (fun _ => True)); [|apply kept_set_position|].
  - intros p s Hp _. rewrite sa_exec_set_position.
    rewrite (sa_exec_lift_pure _ _ SEAT_CTRL_ERR_INVALID); [done|].
    apply set_position_refuses. unfold accepts. destruct (valid _ _); [lia | done].
  - intros cb s Hs. exact Hs.
Qed.

(** A bad position never reaches the bus, an accepted one gives one of five results; the CAN
    set-up errors of [SetResult] are never results of setting a position. *)
Theorem SetSeatPosition_results {OL : OSLaws S} p (s : service S) :
  adjuster_safe s ->
  let '(r, s') := SetSeatPosition p s in
  let rc := fst (exec (seatctrl_set_position CTX p) (sv_ctl s)) in
  r = SetResult_of rc /\ (r = OK <-> rc = SEAT_CTRL_OK) /\ adjuster_safe s'
  /\ In r [OK; UNSPECIFIC_ERROR; CAN_IO_ERROR; INVALID_ARG; NO_FRAMES].
Proof.
  intros Hs. cbn [SetSeatPosition SeatAdjusterImpl_adjuster]. rewrite sa_exec_set_position.
  destruct (sa_exec_lift (seatctrl_set_position CTX p) s) as (evs & _ & ->).
  destruct (exec_keeps (seen := fun _ => True) _ _ _ (fun _ => I) (kept_set_position_status CTX p I) Hs) as [Hrc Hsafe].
  cbv zeta. unfold adjuster_safe. rewrite sv_ctl_advance.
  generalize dependent (fst (exec (seatctrl_set_position CTX p) (sv_ctl s))). intros rc Hrc.
  split; [done|]. unfold set_position_status, send_status in Hrc. simpl in Hrc.
  destruct Hrc as [[<-|[<-|[<-|[]]]]|[<-|[<-|[]]]]; (split; [by split|]); (split; [done|]);
    cbn; auto 10.
Qed.

(** Lines 94-95: the configuration with the device name of the service. *)
Definition config_of (name : string) (c : seatctrl_config_t) : seatctrl_config_t :=
  Config (Some name) (debug_raw c) (debug_ctl c) (debug_stats c) (debug_verbose c)
    (command_timeout c) (motor_rpm c).

(** The context between initialisation and opening. *)
Definition ctx_adjuster (cfg : seatctrl_config_t) : seatctrl_context_t :=
  set_event_cb_user_data THIS (set_event_cb SEATCTRL_EVENT_CB (ctx_init cfg)).

Lemma sa_exec_if {A} (b : bool) (p q : sa A) s :
  sa_exec (if b then p else q) s = if b then sa_exec p s else sa_exec q s.
Proof. by destruct b. Qed.

(** Aborting or not, the state of the adjuster stays. *)
Lemma sa_exec_abort_when b rc s :
  sv_ctl (snd (sa_exec (sa_when b (abort_service rc)) s)) = sv_ctl s
  /\ sv_self (snd (sa_exec (sa_when b (abort_service rc)) s)) = sv_self s.
Proof. by destruct b. Qed.

(** The subscriber's function is set by [SubscribePosition] only. *)
Lemma delivered_cb evs a : cb_ (fst (delivered evs a)) = cb_ (fst a).
Proof.
  revert a. induction evs as [|e evs IH]; intros a; [done|].
  change (cb_ (fst (delivered evs (deliver e a))) = cb_ (fst a)). rewrite IH. destruct a as [self out]. unfold deliver. repeat case_match; done.
Qed.

Lemma advance_cb m evs s : cb_ (sv_self (advance m evs s)) = cb_ (sv_self s).
Proof.
  unfold advance. pose proof (delivered_cb evs (sv_self s, sv_out s)) as H.
  by destruct (delivered evs _).
Qed.

Lemma open_ctx (m : machine S) cfg dev :
  m_ctx m = ctx_adjuster cfg -> can_device cfg = Some dev ->
  exists fd tid, m_ctx (snd (exec (seatctrl_open CTX) m))
                 = set_thread_id tid (set_socket fd (ctx_adjuster cfg)).
Proof.
  intros Hm Hd. pose proof (open_spec CTX m) as H. cbv zeta in H. rewrite Hm in H.
  specialize (H eq_refl (ex_intro _ dev Hd) eq_refl).
  destruct (exec (seatctrl_open CTX) m) as [rc m']. cbn [snd].
  destruct (_ <? 0); [destruct H as [_ ->]; by exists (-1), 0|].
  destruct H as [[_ [tid ->]]|[_ ->]]; [by eexists _, tid | eexists _, 0; symmetry; by apply set_thread_id_0].
Qed.

Lemma goal_of_opened tid fd cfg : goal_of (set_thread_id tid (set_socket fd (ctx_adjuster cfg))) = None.
Proof. unfold goal_of, is_ctl_running. cbn. by rewrite !andb_false_r. Qed.

(** C33: The constructor ignores the result of [seatctrl_default_config], and may: the adjuster it
    makes has a usable motor speed, its own callback and device name, no position yet and no
    subscriber, whatever the environment and whether or not the interface could be opened. *)
Theorem construction uninit name (s : service S) :
  let s' := snd (sa_exec (SeatAdjusterImpl exit_on_error uninit name) s) in
  let c := m_ctx (sv_ctl s') in
  valid CTX c = true /\ 1 <= motor_rpm (config c) <= 254 /\ can_device (config c) = Some name
  /\ event_cb c = SEATCTRL_EVENT_CB /\ event_cb_user_data c = THIS
  /\ motor1_pos c = 255 /\ goal_of c = None /\ running c = false /\ cb_ (sv_self s') = 0.
Proof.
  cbv zeta. unfold SeatAdjusterImpl. rewrite sa_exec_bind.
  set (s1 := snd (sa_exec (put_self (AdjusterState 0 false)) s)). change (sa_exec (put_self (AdjusterState 0 false)) s) with (tt, s1).
  cbv iota beta. rewrite sa_exec_bind.
  destruct (sa_exec_lift (seatctrl_default_config (Some uninit)) s1) as (evs1 & _ & ->).
  pose proof (default_config_usable uninit (sv_ctl s1)) as Hcfg.
  destruct (exec (seatctrl_default_config (Some uninit)) (sv_ctl s1)) as [[rc cfg] m1].
  cbn [fst snd]. destruct Hcfg as (_ & _ & Hcfg). destruct cfg as [cfg|]; [|done].
  destruct Hcfg as (_ & Hrpm & _). cbn [option_map]. rewrite sa_exec_bind.
  fold (config_of name cfg).
  destruct (sa_exec_lift (seatctrl_init_ctx CTX (Some (config_of name cfg)))
              (advance m1 evs1 s1)) as (evs2 & _ & ->).
  rewrite init_ctx_spec. cbn [can_device config_of fst snd].
  change (negb (SEAT_CTRL_OK =? SEAT_CTRL_OK)) with false. cbv iota. unfold adjuster_start.
  rewrite sa_exec_bind. set (s2 := advance (with_ctx _ _) evs2 _).
  assert (m_ctx (sv_ctl s2) = ctx_init (config_of name cfg)) as H2
    by (subst s2; by rewrite sv_ctl_advance).
  assert (cb_ (sv_self s2) = 0) as C2 by (subst s2; by rewrite !advance_cb).
  clearbody s2. 
  destruct (sa_exec_lift (seatctrl_set_event_callback CTX SEATCTRL_EVENT_CB THIS) s2)
    as (evs3 & _ & ->).
  rewrite set_event_callback_spec, H2. change (valid CTX (ctx_init _)) with true. cbv iota.
  cbn [fst snd]. change (negb (SEAT_CTRL_OK =? SEAT_CTRL_OK)) with false. cbv iota.
  rewrite sa_exec_bind. set (s3 := advance (with_ctx _ _) evs3 _).
  assert (m_ctx (sv_ctl s3) = ctx_adjuster (config_of name cfg)) as H3
    by (subst s3; rewrite sv_ctl_advance; msimpl; by rewrite H2).
  assert (cb_ (sv_self s3) = 0) as C3 by (subst s3; by rewrite !advance_cb).
  clearbody s3. destruct (sa_exec_lift (seatctrl_open CTX) s3) as (evs4 & _ & ->).
  destruct (open_ctx (sv_ctl s3) _ name H3 eq_refl) as (fd & tid & H4).
  set (s4 := advance _ evs4 s3).
  assert (m_ctx (sv_ctl s4) = set_thread_id tid (set_socket fd (ctx_adjuster (config_of name cfg))))
    as H5 by (subst s4; by rewrite sv_ctl_advance).
  assert (cb_ (sv_self s4) = 0) as C4 by (subst s4; by rewrite !advance_cb).
  clearbody s4. rewrite sa_exec_if.
  match goal with |- context [if ?b then sa_exec ?p s4 else _] =>
    destruct (sa_exec_abort_when exit_on_error (fst (exec (seatctrl_open CTX) (sv_ctl s3))) s4)
      as [A1 A2]; destruct b end; rewrite ?A1, ?A2; cbn [snd sa_exec run mret prog_ret];
    rewrite H5; split_and!; try done; cbn; try (apply Hrpm); try exact C4;
    apply goal_of_opened.
Qed.

(** C31: The subscriber is called exactly when an accepted frame brings a new position, and what it
    is given is what [GetSeatPosition] answers from then on. *)
Theorem subscriber_sees_position f (s : service S) :
  let c := m_ctx (sv_ctl s) in
  let pos := CanDbc.motor1_pos (decoded f) in
  wf_frame f -> stat_verdict f = SEAT_CTRL_OK -> valid CTX c = true -> running c = true ->
  event_cb c = SEATCTRL_EVENT_CB -> event_cb_user_data c = THIS -> cb_ (sv_self s) <> 0 ->
  let s' := snd (sa_exec (lift exit_on_error (handle_secu_stat f)) s) in
  fst (GetSeatPosition s') = percent_of pos
  /\ sv_out s' = sv_out s ++ (if motor1_pos c =? pos then []
                              else [OutCb (cb_ (sv_self s)) (percent_of pos)]).
Proof.
  cbv zeta. intros Hf Hv Hvalid Hr Hcb Hud Hself.
  destruct (sa_exec_lift (handle_secu_stat f) s) as (evs & Ht & ->).
  rewrite handle_secu_stat_spec, Hv, Z.eqb_refl in * by done. cbn [snd m_trace with_ctx emit] in *.
  apply app_inv_head in Ht as <-.
  cbn [GetSeatPosition SeatAdjusterImpl_adjuster].
  rewrite sa_exec_get_position, get_position_spec, sv_ctl_advance. cbn [fst]. msimpl.
  change (valid CTX (observe (decoded f) (m_ctx (sv_ctl s)))) with (valid CTX (m_ctx (sv_ctl s))).
  change (running (observe (decoded f) (m_ctx (sv_ctl s)))) with (running (m_ctx (sv_ctl s))).
  rewrite Hvalid, Hr.
  assert (motor1_pos (observe (decoded f) (m_ctx (sv_ctl s))) = CanDbc.motor1_pos (decoded f)) as ->
    by (apply u8_small, decoded_ranges).
  split; [done|]. unfold advance, pos_event, delivered. rewrite Hr, Hcb, Hud.
  destruct (motor1_pos (m_ctx (sv_ctl s)) =? _).
  { cbn. by rewrite app_nil_r. }
  cbn [andb negb foldl Z.eqb SEATCTRL_EVENT_CB]. unfold deliver. rewrite Z.eqb_refl.
  change (THIS =? 0) with false. cbv iota. rewrite (proj2 (Z.eqb_neq _ _) Hself). cbn [sv_out].
  unfold percent_of. destruct (decoded_ranges f) as [Hu _]. unfold is_u8 in Hu.
  assert ((CanDbc.motor1_pos (decoded f) <? 0) = false) as -> by (apply Z.ltb_ge; lia).
  by rewrite orb_false_r.
Qed.

End ServiceMachine.
