(* ===== verification/ClosedLoop.v ===== *)
(** * The controller against the simulated ECU

    The simulated seat stays in its range and its frames say where it is ([engine_frames]); the two
    sides give the frames of both directions the same meaning ([controller_and_ecu_agree]); a
    control loop that is fed by a live bus ends every operation within a bounded number of
    iterations ([every_operation_ends]), and the simulator is such a bus. *)
From Stdlib Require Import ZArith Lia String.
From stdpp Require Import base numbers list strings.
From S2P Require Import Prelude Prog CanDbc Os CanSim VirtualMachine SeatController CtlMachine.
From S2P Require Import ControllerSpec ControlLoopSpec ApiSpec ThreadSpec.

(** ** The engine *)

Record engine_ok (s : sae_context_t) : Prop := EngineOk {
  en_pos : _sim_motor1_pos s = SAE_POS_INVALID \/ 0 <= _sim_motor1_pos s < 101 * 1024;
  en_status : 0 <= _sim_motor1_status s <= 2;
  en_inc : _sim_motor1_status s = MotorDirection_INC -> 0 <= _sim_motor1_inc s;
  en_dec : _sim_motor1_status s = MotorDirection_DEC -> _sim_motor1_inc s <= 0;
  en_delay : 0 <= _sim_delay s }.

Lemma sae_pos_percent_div p : sae_pos_percent p = p / 1024.
Proof. unfold sae_pos_percent, POS_SHIFT. by rewrite Z.shiftr_div_pow2 by lia. Qed.

Lemma sae_pos_percent_raw p : sae_pos_percent (sae_pos_raw p) = p.
Proof.
  rewrite sae_pos_percent_div. unfold sae_pos_raw, POS_SHIFT.
  rewrite Z.shiftl_mul_pow2 by lia. change (2 ^ 10) with 1024. by rewrite Z.div_mul by lia.
Qed.

Lemma leave_invalid_ok s :
  engine_ok s ->
  engine_ok (leave_invalid_pos s) /\ 0 <= _sim_motor1_pos (leave_invalid_pos s) < 101 * 1024.
Proof.
  intros []. unfold leave_invalid_pos, SAE_POS_INVALID in *.
  change (sae_pos_raw 42) with 43008.
  destruct (Z.eqb_spec (_sim_motor1_pos s) (-1)); (split; [split|]); simpl; try done; lia.
Qed.

Lemma reset_thresholds_ok s :
  engine_ok s -> engine_ok (reset_thresholds s)
  /\ _sim_motor1_pos (reset_thresholds s) = _sim_motor1_pos s.
Proof.
  intros []. unfold reset_thresholds. destruct (_sim_threshold_enabled s); (split; [split|]); done.
Qed.

(** A tick keeps the seat within 0 and 100 percent. *)
Lemma move_motor1_ok s :
  engine_ok s -> 0 <= _sim_motor1_pos s < 101 * 1024 ->
  engine_ok (move_motor1 s) /\ 0 <= _sim_motor1_pos (move_motor1 s) < 101 * 1024.
Proof.
  intros [_ Hst Hinc Hdec Hdelay] Hp. unfold move_motor1, MotorDirection_INC, MotorDirection_DEC in *.
  rewrite !sae_pos_percent_div.
  destruct (Z.eqb_spec (_sim_motor1_status s) 2) as [E2|E2];
    [|destruct (Z.eqb_spec (_sim_motor1_status s) 1) as [E1|E1]].
  - specialize (Hinc E2).
    destruct (Z.leb_spec ((_sim_motor1_pos s + _sim_motor1_inc s) / 1024) 100) as [Hle|Hle];
      [pose proof (Z.div_mod (_sim_motor1_pos s + _sim_motor1_inc s) 1024 ltac:(lia));
       pose proof (Z.mod_pos_bound (_sim_motor1_pos s + _sim_motor1_inc s) 1024 ltac:(lia)) |];
      destruct (_ && _ && negb _); (split; [split|]); simpl; unfold MotorDirection_OFF,
        MotorDirection_INC, MotorDirection_DEC; try lia.
  - specialize (Hdec E1).
    destruct (Z.leb_spec 0 ((_sim_motor1_pos s + _sim_motor1_inc s) / 1024)) as [Hle|Hle];
      [pose proof (Z.div_mod (_sim_motor1_pos s + _sim_motor1_inc s) 1024 ltac:(lia));
       pose proof (Z.mod_pos_bound (_sim_motor1_pos s + _sim_motor1_inc s) 1024 ltac:(lia)) |];
      destruct (_ && _ && negb _); (split; [split|]); simpl; unfold MotorDirection_OFF,
        MotorDirection_INC, MotorDirection_DEC; try lia.
  - split; [split|]; try done; try lia.
Qed.

Lemma sae_tick_ok s :
  engine_ok s -> engine_ok (sae_tick s) /\ 0 <= _sim_motor1_pos (sae_tick s) < 101 * 1024.
Proof.
  intros H. destruct (leave_invalid_ok s H) as [H1 P1].
  destruct (reset_thresholds_ok _ H1) as [H2 P2]. rewrite <- P2 in P1. by apply move_motor1_ok.
Qed.

Lemma sae_pos_increment_nonneg s : 0 <= _sim_delay s -> 0 <= sae_pos_increment s.
Proof.
  intros H. unfold sae_pos_increment, sae_estimate_move_time.
  destruct (_ =? -1); [lia|]. destruct (negb _); [lia|].
  destruct (Z.ltb_spec (_sim_motor1_rpm s) 30); [done|].
  destruct (Z.ltb_spec 130 (_sim_motor1_rpm s)); cbn [Z.eqb];
    [|destruct (Z.eqb_spec (8000 + 200 * (100 - _sim_motor1_rpm s)) 0); [lia|]];
    apply Z.quot_pos; unfold POS_SHIFT; rewrite ?Z.shiftl_mul_pow2; lia.
Qed.

Lemma sae_command_ok f now s : engine_ok s -> engine_ok (sae_command f now s).
Proof.
  intros []. unfold sae_command, MotorDirection_OFF, MotorDirection_INC, MotorDirection_DEC in *.
  cbv zeta. set (s1 := set_rpm234 _ _).
  assert (0 <= sae_pos_increment s1) by by apply sae_pos_increment_nonneg.
  destruct (_ =? 0); [|destruct (_ && _); [|destruct (_ && _)]]; split; simpl;
    unfold MotorDirection_INC, MotorDirection_DEC; try done; try lia.
Qed.

(** ** What the frames say *)

(** The four two-bit fields of a state byte. *)
Lemma state_byte_fields s1 l1 s2 l2 :
  let b := state_bits s1 l1 + state_bits s2 l2 * 16 in
  (b / 2 ^ 0) mod 2 ^ 2 = s1 mod 4 /\ (b / 2 ^ 2) mod 2 ^ 2 = l1 mod 4
  /\ (b / 2 ^ 4) mod 2 ^ 2 = s2 mod 4 /\ (b / 2 ^ 6) mod 2 ^ 2 = l2 mod 4.
Proof.
  cbv zeta. rewrite !state_bits_sum. change (2 ^ 0) with 1. change (2 ^ 2) with 4.
  change (2 ^ 4) with 16. change (2 ^ 6) with 64.
  pose proof (Z.mod_pos_bound s1 4). pose proof (Z.mod_pos_bound l1 4).
  pose proof (Z.mod_pos_bound s2 4). pose proof (Z.mod_pos_bound l2 4).
  generalize dependent (s1 mod 4). generalize dependent (l1 mod 4).
  generalize dependent (s2 mod 4). generalize dependent (l2 mod 4). intros.
  split_and!; Z.to_euclidean_division_equations; lia.
Qed.

(** Reads a signal from bit [o] of byte [k]. *)
Ltac at_bits Hb k o :=
  eapply (extract_byte _ _ k o);
  first [ exact eq_refl | exact Hb | cbn [sg_start sg_len]; lia ].

(** What the database reads in a frame of the engine: the engine's own numbers. *)
Lemma decoded_stat_frame (all : bool) s :
  let percent (m : idle_motor) := u8 (if all then sae_pos_percent (_sim_motor1_pos s)
                                      else sae_pos_percent (im_pos m)) in
  decoded (stat_frame all s)
  = SecuStat (percent (_sim_motor4 s)) (im_status (_sim_motor4 s) mod 4) (im_lrn (_sim_motor4 s) mod 4)
      (percent (_sim_motor3 s)) (im_status (_sim_motor3 s) mod 4) (im_lrn (_sim_motor3 s) mod 4)
      (percent (_sim_motor2 s)) (im_status (_sim_motor2 s) mod 4) (im_lrn (_sim_motor2 s) mod 4)
      (u8 (sae_pos_percent (_sim_motor1_pos s))) (_sim_motor1_status s mod 4)
      (_sim_motor1_lrn s mod 4).
Proof.
  cbv zeta. destruct (wf_stat_frame all s) as (_ & _ & _ & Hb).
  unfold decoded, stat_of_payload. cbn [map secu1_stat_signals fst].
  unfold sg_MOTOR1_POS, sg_MOTOR1_MOV_STATE, sg_MOTOR1_LEARNING_STATE.
  cbn [stat_frame data] in *. rewrite !state_byte in *.
  destruct (state_byte_fields (_sim_motor1_status s) (_sim_motor1_lrn s)
    (im_status (_sim_motor2 s)) (im_lrn (_sim_motor2 s))) as (A1 & A2 & A3 & A4).
  destruct (state_byte_fields (im_status (_sim_motor3 s)) (im_lrn (_sim_motor3 s))
    (im_status (_sim_motor4 s)) (im_lrn (_sim_motor4 s))) as (B1 & B2 & B3 & B4).
  assert (forall z, (u8 z / 2 ^ 0) mod 2 ^ 8 = u8 z) as E.
  { intros z. rewrite Z.div_1_r. apply Z.mod_small, u8_range. }
  f_equal; (etrans;
    [ first [ at_bits Hb 5%nat 0 | at_bits Hb 4%nat 0 | at_bits Hb 3%nat 0 | at_bits Hb 2%nat 0
            | at_bits Hb 1%nat 0 | at_bits Hb 1%nat 2 | at_bits Hb 1%nat 4 | at_bits Hb 1%nat 6
            | at_bits Hb 0%nat 0 | at_bits Hb 0%nat 2 | at_bits Hb 0%nat 4 | at_bits Hb 0%nat 6 ]
    | cbn [sg_len]; first [ apply E | assumption ] ]).
Qed.

(** Every frame of a working engine is accepted by the controller and tells it the percentage
    where the simulated seat is, and how it moves. *)
Lemma engine_frames all s :
  engine_ok s ->
  let s' := sae_tick s in
  let f := stat_frame all s' in
  engine_ok s' /\ stat_verdict f = SEAT_CTRL_OK
  /\ CanDbc.motor1_pos (decoded f) = sae_pos_percent (_sim_motor1_pos s')
  /\ CanDbc.motor1_mov_state (decoded f) = _sim_motor1_status s'
  /\ 0 <= sae_pos_percent (_sim_motor1_pos s') <= 100.
Proof.
  intros H. cbv zeta. destruct (sae_tick_ok s H) as [Hok Hp]. set (s' := sae_tick s) in *.
  assert (0 <= sae_pos_percent (_sim_motor1_pos s') <= 100) as Hpp.
  { rewrite sae_pos_percent_div. split; [apply Z.div_pos; lia|].
    apply Z.lt_succ_r, Z.div_lt_upper_bound; lia. }
  unfold stat_verdict. rewrite decoded_stat_frame. cbn [CanDbc.motor1_pos CanDbc.motor1_mov_state].
  rewrite u8_small by (unfold is_u8; lia).
  rewrite (Z.mod_small (_sim_motor1_status s')) by (destruct Hok; lia).
  split_and!; try done; try lia. cbn [stat_frame can_id can_dlc].
  change (negb (1810 =? _)) with false. change (8 <? _) with false. cbv iota.
  by replace (sae_pos_percent (_sim_motor1_pos s') <=? 100) with true by lia.
Qed.

(** What the engine does with a command of the controller. *)
Definition engine_obeys (d : MotorDirection) (rpm now : Z) (s s' : sae_context_t) : Prop :=
  let moving := bool_decide (d = INC \/ d = DEC) && (0 <? rpm) in
  _sim_motor1_pos s' = _sim_motor1_pos s
  /\ _sim_motor1_rpm s' = (if decide (d = OFF) then 0 else rpm)
  /\ _sim_motor1_status s'
     = (if decide (d = OFF) then dir_value OFF else if moving then dir_value d
        else _sim_motor1_status s)
  /\ _sim_motor1_inc s'
     = (if decide (d = OFF) then 0
        else if negb moving then _sim_motor1_inc s
        else if decide (d = INC) then sae_pos_increment s' else - sae_pos_increment s')
  /\ im_rpm (_sim_motor2 s') = 0 /\ im_rpm (_sim_motor3 s') = 0 /\ im_rpm (_sim_motor4 s') = 0.

Lemma command_obeyed d rpm now s :
  is_u8 rpm -> engine_obeys d rpm now s (sae_command (cmd_frame (dir_value d) rpm) now s).
Proof.
  intros Hr. unfold engine_obeys, sae_command, is_u8 in *. cbv zeta.
  change (Z.land (nth_byte 0 (cmd_frame (dir_value d) rpm)) 3) with (Z.land (dir_value d mod 4) 3).
  change (nth_byte 1 (cmd_frame (dir_value d) rpm)) with rpm.
  destruct d; cbn [dir_value]; cbn -[sae_pos_increment Z.ltb]; try (by split_and!);
    destruct (Z.ltb_spec 0 rpm); cbn -[sae_pos_increment]; by split_and!.
Qed.

(** C39: The controller and the simulated ECU mean the same by the frames they exchange, although
    one goes through the database and the other through shifts and masks of its own.  Whatever the
    state of the engine, what the controller unpacks of its status frame are the percentages (as
    bytes), the movement and the learning states (two bits each) of the four motors, in their
    places; and a command that the controller writes, for whatever direction and speed, is one
    that the engine recognises as a command for motor 1 with this direction and this speed: OFF
    switches the motor off, INC and DEC with a speed other than 0 make it move that way, anything
    else leaves its movement as it is; it stays where it is, and the other motors get speed 0. *)
Theorem controller_and_ecu_agree {CAN : Cantools} {CANL : CantoolsLaws CAN} {S : Type} {O : OS S}
    (m : machine S) (all : bool) s dst d rpm now :
  socket (m_ctx m) <> SOCKET_INVALID ->
  (let f := stat_frame all s in
   let percent (i : idle_motor) := u8 (if all then sae_pos_percent (_sim_motor1_pos s)
                                       else sae_pos_percent (im_pos i)) in
   can_id f = CAN_SECU1_STAT_FRAME_ID
   /\ CAN_secu1_stat_unpack dst (data f) (can_dlc f)
      = (0, SecuStat
              (percent (_sim_motor4 s)) (im_status (_sim_motor4 s) mod 4) (im_lrn (_sim_motor4 s) mod 4)
              (percent (_sim_motor3 s)) (im_status (_sim_motor3 s) mod 4) (im_lrn (_sim_motor3 s) mod 4)
              (percent (_sim_motor2 s)) (im_status (_sim_motor2 s) mod 4) (im_lrn (_sim_motor2 s) mod 4)
              (u8 (sae_pos_percent (_sim_motor1_pos s))) (_sim_motor1_status s mod 4)
              (_sim_motor1_lrn s mod 4)))
  /\ exists f, written (m_trace (snd (exec (seatctrl_send_cmd1 (dir_value d) rpm) m)))
               = written (m_trace m) ++ [f]
     /\ can_id f = 1797 /\ engine_obeys d (u8 rpm) now s (sae_command f now s).
Proof.
  intros Hs. cbv zeta. split.
  - split; [done|]. rewrite <- (decoded_stat_frame all s).
    destruct (wf_stat_frame all s) as (_ & _ & Hlen & Hb). by apply unpack_full.
  - exists (cmd_frame (dir_value d) (u8 rpm)).
    destruct (effect_send_cmd1 (dir_value d) rpm m Hs) as [_ _ ->].
    rewrite (u8_small (dir_value d)) by (destruct d; cbn; unfold is_u8; lia).
    split_and!; [done | done |]. by apply command_obeyed, u8_range.
Qed.

(** ** A live bus

    What the control loop needs from its environment to end every operation: a socket on which
    every [read] delivers an acceptable frame, whatever the loop itself does. *)
Definition loop_op {X} (e : osE X) : Prop :=
  match e with
  | O_read _ _ _ | O_write _ _ _ | O_clock_gettime | O_usleep _ => True
  | _ => False
  end.

Class LiveBus (S : Type) {O : OS S} := {
  live : Z -> S -> Prop;
  live_read fd s :
    live fd s ->
    let '(cnt, _, f) := fst (os_handle _ (O_read fd zero_frame sizeof_can_frame) s) in
    0 <= cnt /\ wf_frame f /\ stat_verdict f = SEAT_CTRL_OK;
  live_stays fd X (e : osE X) s : loop_op e -> live fd s -> live fd (snd (os_handle X e s)) }.

(** The operations of the control loop.  They leave the members alone that say whether there is a
    context, a socket and a thread. *)
Definition ctl_loop_op {X} (e : ctlE X) : Prop :=
  match e with
  | Os e => loop_op e
  | ModCtx f => forall c,
      magic (f c) = magic c /\ socket (f c) = socket c /\ thread_id (f c) = thread_id c
  | _ => True
  end.

Create HintDb loops.

Ltac uses :=
  repeat first
    [ progress intros
    | solve [auto with loops nocore]
    | apply uses_bind
    | match goal with
      | |- uses _ (if ?b then _ else _) => destruct b
      | |- uses _ (when ?b _) => unfold when
      | |- uses _ (let '(_, _) := ?p in _) => destruct p
      | |- uses _ (match ?p with pair _ _ => _ end) => destruct p
      end
    | split; [first [exact I | by intros ?]|]
    | exact I ].

Section Uses.
Context {CAN : Cantools}.
Abbreviation loops := (uses (@ctl_loop_op)).

Lemma loops_get_ts : loops get_ts.
Proof. unfold get_ts. uses. Qed.
#[local] Hint Resolve loops_get_ts : loops.

Lemma loops_send dir rpm : loops (seatctrl_send_cmd1 dir rpm).
Proof. unfold seatctrl_send_cmd1. uses. Qed.
#[local] Hint Resolve loops_send : loops.

Lemma loops_stop : loops seatctrl_stop_movement.
Proof. unfold seatctrl_stop_movement. uses. Qed.
#[local] Hint Resolve loops_stop : loops.

Lemma loops_learned : loops update_learned_mode.
Proof. unfold update_learned_mode, note_learned_mode. uses. Qed.
#[local] Hint Resolve loops_learned : loops.

Lemma loops_finish elapsed : loops (finish_operation elapsed).
Proof. unfold finish_operation, invalidate_last_states. uses. Qed.
#[local] Hint Resolve loops_finish : loops.

Lemma loops_report : loops report_change.
Proof. unfold report_change, resend_command, remember_states. uses. Qed.
#[local] Hint Resolve loops_report : loops.

Lemma loops_control_loop : loops seatctrl_control_loop.
Proof. unfold seatctrl_control_loop. uses. Qed.
#[local] Hint Resolve loops_control_loop : loops.

Lemma loops_handle f : loops (handle_secu_stat f).
Proof. unfold handle_secu_stat. uses. Qed.
#[local] Hint Resolve loops_handle : loops.

Lemma loops_iteration : loops seatctrl_thread_iteration.
Proof. unfold seatctrl_thread_iteration. uses. Qed.

Lemma loops_wait n : loops (wait_motor1_pos n).
Proof. induction n; cbn [wait_motor1_pos]; uses. Qed.
#[local] Hint Resolve loops_wait : loops.

Lemma loops_set_position p pos : loops (seatctrl_set_position p pos).
Proof.
  unfold seatctrl_set_position, motor1_pos_known, stay_there, start_movement. uses.
Qed.

End Uses.

(** ** Every operation ends *)

Section Liveness.
Context {CAN : Cantools} {CANL : CantoolsLaws CAN} {S : Type} {O : OS S} {C : Clock S}.
Context {L : LiveBus S}.

(** The clock of a machine, in milliseconds. *)
Definition clock (m : machine S) : Z := now_ms (m_os m).

Lemma sys_later {X} (e : osE X) (m : machine S) :
  now_us (m_os m) <= now_us (m_os (snd (sys e m))).
Proof.
  unfold sys, ctl_handle. pose proof (clock_mono X e (m_os m)) as H.
  by destruct (os_handle X e (m_os m)).
Qed.

Lemma exec_later {A} (p : ctl A) (m : machine S) :
  now_us (m_os m) <= now_us (m_os (snd (exec p m))).
Proof.
  unfold exec. revert m. induction p as [a|X e k IH]; intros m; [done|]. cbn [run].
  assert (now_us (m_os m) <= now_us (m_os (snd (ctl_handle X e m)))) as He.
  { destruct e; try done. apply sys_later. }
  destruct (ctl_handle X e m) as [x m']. cbn [snd] in He. etrans; [exact He | apply IH].
Qed.

Lemma clock_later {A} (p : ctl A) (m : machine S) : clock m <= clock (snd (exec p m)).
Proof. unfold clock, now_ms. apply Z.div_le_mono; [lia | apply exec_later]. Qed.

Lemma exec_get_ts_clock (m : machine S) : fst (exec get_ts m) = clock m.
Proof.
  unfold get_ts. autorewrite with run. unfold sys, ctl_handle.
  pose proof (clock_reads (m_os m)) as H. destruct (os_handle _ _ _) as [x o]. simpl in H. subst x.
  autorewrite with run. cbn [fst]. apply clock_ms, now_nonneg.
Qed.

Lemma pass_time_later (m : machine S) : clock m <= pass_time m.
Proof. unfold pass_time. rewrite exec_get_ts_clock. apply clock_later. Qed.

Lemma live_exec {A} fd (p : ctl A) (m : machine S) :
  uses (@ctl_loop_op) p -> live fd (m_os m) -> live fd (m_os (snd (exec p m))).
Proof.
  apply (run_uses _ ctl_handle (fun m => live fd (m_os m))).
  intros X e m' He Hl. destruct e; try done. cbn [ctl_handle].
  pose proof (live_stays fd X e (m_os m') He Hl) as H. by destruct (os_handle X e (m_os m')).
Qed.

(** An iteration that gets a frame takes at least the millisecond it sleeps at its end. *)
Lemma iteration_sleeps (m : machine S) :
  loop_on (m_ctx m) = true -> 0 <= fst (fst (fst (ctl_read m))) ->
  now_us (m_os m) + 1000 <= now_us (m_os (snd (exec seatctrl_thread_iteration m))).
Proof.
  unfold loop_on, ctl_read. intros H.
  pose proof (sys_later (O_read (socket (m_ctx m)) zero_frame sizeof_can_frame) m) as H1.
  unfold seatctrl_thread_iteration. autorewrite with run. rewrite H. cbn [negb].
  autorewrite with run. destruct (sys _ m) as [[[cnt err] f] m1]. msimpl. intros Hc.
  rewrite (proj2 (Z.ltb_ge _ _) Hc). cbn [andb]. rewrite exec_bind.
  match goal with |- context [exec ?p m1] => pose proof (exec_later p m1) as H2;
    destruct (exec p m1) as [[] m2] end.
  cbn [snd] in H2. rewrite exec_usleep, exec_ret. unfold sys. cbn [snd ctl_handle].
  pose proof (clock_sleeps 1000 (m_os m2)) as H3. destruct (os_handle _ _ (m_os m2)) as [[] o].
  msimpl. simpl in H3. lia.
Qed.

(** The supervisor: a goal is kept as it is or ends with a stop; it ends when it is overdue. *)
Lemma supervise_goal g last o now timeout rpm :
  let '(frames, g', _) := supervise (Some g) last o now timeout rpm in
  (g' = Some g \/ g' = None /\ exists pre, frames = pre ++ [stop_frame])
  /\ (Z.max 499 timeout < now - g_since g -> g' = None).
Proof.
  unfold supervise, phase_of.
  destruct ((_ <? 500) && _ && _) eqn:E1; [|destruct (_ && beyond _ _); [|
    destruct (Z.ltb_spec timeout (now - g_since g))]];
    (split; [by eauto | try lia; try done]).
Qed.

Record going (fd timeout : Z) (m : machine S) : Prop := Going {
  go_on : loop_on (m_ctx m) = true;
  go_socket : socket (m_ctx m) = fd;
  go_live : live fd (m_os m);
  go_timeout : command_timeout (config (m_ctx m)) = timeout }.

Lemma live_iteration fd timeout (m : machine S) :
  going fd timeout m ->
  let '(again, m') := exec seatctrl_thread_iteration m in
  again = true /\ going fd timeout m' /\ clock m + 1 <= clock m'
  /\ match goal_of (m_ctx m) with
     | None => goal_of (m_ctx m') = None /\ written (m_trace m') = written (m_trace m)
     | Some g =>
         (exists frames, written (m_trace m') = written (m_trace m) ++ frames
          /\ (goal_of (m_ctx m') = Some g
              \/ goal_of (m_ctx m') = None /\ exists pre, frames = pre ++ [stop_frame]))
         /\ (Z.max 499 timeout < clock m - g_since g -> goal_of (m_ctx m') = None)
     end.
Proof.
  intros [H Hs Hl Ht]. pose proof (iteration_frame m H) as Hf. pose proof (iteration_sleeps m H) as Hu.
  pose proof (live_exec fd seatctrl_thread_iteration m loops_iteration Hl) as Hl'.
  pose proof (live_read fd (m_os m) Hl) as Hr. cbv zeta in Hf.
  pose proof (sys_later (O_read fd zero_frame sizeof_can_frame) m) as Hlr.
  unfold ctl_read, sys, ctl_handle in *. rewrite Hs in *.
  destruct (os_handle _ _ (m_os m)) as [[[cnt err] f] o]. cbn [fst snd] in *.
  destruct Hr as (Hc & Hwf & Hv). specialize (Hf Hc Hwf). specialize (Hu Hc). rewrite Hv in Hf.
  rewrite Z.eqb_refl in Hf. destruct (exec seatctrl_thread_iteration m) as [again m'].
  destruct Hf as [-> Hf]. cbn [fst snd] in *.
  match type of Hf with context [pass_time ?x] => pose proof (pass_time_later x) as Hp end.
  assert (Hmono : clock m <= clock (after_stat f (emit [] (with_os o m)))).
  { unfold clock, now_ms. apply Z.div_le_mono; [lia | exact Hlr]. }
  cbn [os_events] in *.
  destruct (supervise _ _ _ _ _ _) as [[frames g'] last'] eqn:Es. destruct Hf as (E1 & _ & E3).
  pose proof (ctx_after_frame g' (observe (decoded f) (m_ctx m))) as (F1 & F2 & F3 & _).
  split; [done|]. split; [|split].
  - split; [by rewrite E1, F2 | by rewrite E1, F3 | done | by rewrite E1, F1].
  - unfold clock, now_ms. rewrite <- Z.div_add by lia. apply Z.div_le_mono; lia.
  - assert (Eg : goal_of (m_ctx m') = g').
    { rewrite E1. by apply (goal_of_after _ (observe (decoded f) (m_ctx m)) _ _ _ _ _ _ _ Es). }
    rewrite Eg, E3. destruct (goal_of (m_ctx m)) as [g|].
    + match type of Es with supervise _ ?l ?ob ?n ?t ?r = _ =>
        pose proof (supervise_goal g l ob n t r) as Hg end.
      rewrite Es, Ht in Hg. destruct Hg as [Hg Hd]. split; [eauto | intros; apply Hd; lia].
    + injection Es as <- <- <-. by rewrite app_nil_r.
Qed.

Lemma idle_loop fd timeout fuel (m : machine S) :
  going fd timeout m -> goal_of (m_ctx m) = None ->
  let '(on, m') := exec (seatctrl_thread_loop fuel) m in
  on = true /\ going fd timeout m' /\ goal_of (m_ctx m') = None
  /\ written (m_trace m') = written (m_trace m).
Proof.
  revert m. induction fuel as [|fuel IH]; intros m Hm Hg; [done|].
  cbn [seatctrl_thread_loop]. rewrite exec_bind. pose proof (live_iteration _ _ m Hm) as H.
  rewrite Hg in H. destruct (exec seatctrl_thread_iteration m) as [again m1].
  destruct H as (-> & Hm1 & _ & Hg1 & Hw). specialize (IH m1 Hm1 Hg1). rewrite Hw in IH. exact IH.
Qed.

(** On a live bus every operation ends, with a stop command as the last frame and nothing sent
    after it: within one iteration of the loop per millisecond that is left of the timeout (or of
    the 500 ms in which the motor may start), and one more. *)
Lemma every_operation_ends fd timeout fuel g (m : machine S) :
  going fd timeout m -> goal_of (m_ctx m) = Some g ->
  Z.max 499 timeout < clock m + Z.of_nat fuel - g_since g ->
  let '(on, m') := exec (seatctrl_thread_loop (Datatypes.S fuel)) m in
  on = true /\ going fd timeout m' /\ goal_of (m_ctx m') = None
  /\ exists frames, written (m_trace m') = written (m_trace m) ++ frames ++ [stop_frame].
Proof.
  revert m. induction fuel as [|fuel IH]; intros m Hm Hg Hd; cbn [seatctrl_thread_loop];
    rewrite exec_bind; pose proof (live_iteration _ _ m Hm) as H; rewrite Hg in H;
    destruct (exec seatctrl_thread_iteration m) as [again m1];
    destruct H as (-> & Hm1 & Hclk & Hcase & Hend).
  - specialize (Hend ltac:(lia)). destruct Hcase as (frames & Hw & [Hc|[_ [pre ->]]]); [congruence|].
    split_and!; try done. by exists pre.
  - destruct Hcase as (frames & Hw & [Hc|[Hc [pre ->]]]).
    + specialize (IH m1 Hm1 Hc ltac:(lia)). rewrite Hw in IH. cbn [seatctrl_thread_loop] in IH.
      cbv iota. destruct (exec _ m1) as [on m']. destruct IH as (-> & H1 & H2 & pre & H3).
      split_and!; try done. exists (frames ++ pre). by rewrite H3, <- !app_assoc.
    + pose proof (idle_loop fd timeout (Datatypes.S fuel) m1 Hm1 Hc) as H.
      rewrite Hw in H. cbv iota. cbn [seatctrl_thread_loop] in H.
      destruct (exec _ m1) as [on m']. destruct H as (-> & H1 & H2 & H3).
      split_and!; try done. by exists pre.
Qed.

Lemma exec_usleep_end us (m : machine S) : exec (usleep us) m = (tt, snd (sys (O_usleep us) m)).
Proof.
  unfold exec, usleep, os, trigger, sys. cbn [run]. by destruct (ctl_handle _ _ m) as [[] m'].
Qed.

Lemma sys_sleeps us (m : machine S) :
  now_us (m_os m) + us <= now_us (m_os (snd (sys (O_usleep us) m))).
Proof.
  unfold sys, ctl_handle. pose proof (clock_sleeps us (m_os m)) as H.
  by destruct (os_handle _ _ (m_os m)).
Qed.

(** Setting a position takes its time stamp after the pause of 100 ms, and before it returns. *)
Lemma set_position_time p pos (m : machine S) :
  accepts p (m_ctx m) pos = true -> motor1_pos (m_ctx m) <> 255 -> motor1_pos (m_ctx m) <> pos ->
  let now := fst (exec get_ts (snd (exec (seatctrl_stop_movement;; usleep (100 * 1000)) m))) in
  clock m + 100 <= now <= clock (snd (exec (seatctrl_set_position p pos) m)).
Proof.
  intros Ha Hp Hne. cbv zeta. rewrite exec_set_position_accepted, exec_get_ts_clock by done.
  rewrite !exec_bind. pose proof (exec_later seatctrl_stop_movement m) as H1.
  assert (motor1_pos (m_ctx (snd (exec seatctrl_stop_movement m))) = motor1_pos (m_ctx m)) as Hpos.
  { by rewrite stop_movement_ctx. }
  destruct (exec seatctrl_stop_movement m) as [rc m1]. cbn [snd] in *.
  rewrite exec_usleep, exec_get_ctx, exec_if. autorewrite with sys. rewrite Hpos.
  rewrite (proj2 (Z.eqb_neq _ _) Hne).
  rewrite exec_usleep_end. split; [|apply clock_later].
  unfold clock, now_ms. cbn [snd]. rewrite <- Z.div_add by lia. apply Z.div_le_mono; [lia|].
  pose proof (sys_sleeps (100 * 1000) m1). lia.
Qed.

End Liveness.

(** ** The simulator is a live bus *)

Section SimBus.
Context {S : Type} {libc : OS S}.

(** An open simulated socket with a working engine. *)
Record sim_live (fd : Z) (w : @sim_world S) : Prop := SimLive {
  sl_mocked : sim_is_mocked_fd (fst w) fd = true;
  sl_fd : _sim_fd (sae (fst w)) = fd;
  sl_valid : fd <> -1;
  sl_active : _sim_active (sae (fst w)) = true;
  sl_engine : engine_ok (sae (fst w)) }.

Lemma sim_live_libc fd (w : @sim_world S) s : sim_live fd w -> sim_live fd (fst w, s).
Proof. by intros []. Qed.

Lemma sae_tick_session s :
  _sim_fd (sae_tick s) = _sim_fd s /\ _sim_active (sae_tick s) = _sim_active s.
Proof.
  unfold sae_tick, move_motor1, reset_thresholds, leave_invalid_pos.
  repeat case_match; by split.
Qed.

Lemma sae_command_session f now s :
  _sim_fd (sae_command f now s) = _sim_fd s /\ _sim_active (sae_command f now s) = _sim_active s.
Proof. unfold sae_command. cbv zeta. repeat case_match; by split. Qed.

(** Reading and writing the simulated socket. *)
Lemma sim_live_read fd (w : @sim_world S) buf len :
  sim_live fd w -> sim_live fd (snd (sae_read_cb buf len w)).
Proof.
  intros [H1 H2 H3 H4 H5]. destruct (sae_tick_session (sae (fst w))) as [T1 T2].
  destruct (sae_tick_ok _ H5) as [T3 _]. unfold sae_read_cb.
  repeat (case_match; rewrite ?call_snd in *; simplify_eq); cbn [fst snd] in *;
    try (by split); try congruence;
    split; cbn [fst snd sae set_sae mock_socket mock_active set_oldpos _sim_fd _sim_active];
    try done; try congruence; destruct T3; by split.
Qed.

Lemma sim_live_write fd (w : @sim_world S) f len :
  sim_live fd w -> sim_live fd (snd (sae_write_cb f len w)).
Proof.
  intros [H1 H2 H3 H4 H5]. unfold sae_write_cb, sim_get_ts.
  repeat (case_match; rewrite ?call_snd in *; simplify_eq); cbn [fst snd] in *; try (by split);
    split; cbn [fst snd sae set_sae mock_socket mock_active]; rewrite ?(proj1 (sae_command_session _ _ _)),
      ?(proj2 (sae_command_session _ _ _)); try done; by apply sae_command_ok.
Qed.

#[export] Instance sim_live_bus : LiveBus (@sim_world S).
Proof.
  refine {| live := sim_live |}.
  - intros fd w [H1 H2 H3 H4 H5]. hooks. rewrite H1, H2. cbn [Z.eqb negb].
    change (sizeof_can_frame =? sizeof_can_frame) with true. cbv iota. rewrite Z.eqb_refl. cbn [negb].
    unfold sae_read_cb. rewrite H2, (proj2 (Z.eqb_neq _ _) H3), H4. cbn [negb].
    change (sizeof_can_frame =? sizeof_can_frame) with true. cbn [negb].
    destruct (_ =? SAE_POS_INVALID); rewrite !call_snd; cbn [fst snd];
      (split; [done|]); (split; [apply wf_stat_frame|]); by apply engine_frames.
  - intros fd X e w He Hl. destruct e; try done; hooks;
      repeat case_match; rewrite ?call_snd; cbn [fst snd];
      auto using sim_live_libc, sim_live_read, sim_live_write.
Defined.

End SimBus.
