(* ===== verification/Session.v ===== *)
(** * Sessions: calls of the API between iterations of the loop

    As long as every call of the API and every iteration of the CTL thread is taken as a whole,
    the controller is the supervisor with one more kind of input, the requests.  Then the motor is
    commanded exactly while there is a goal.  [Races] shows that the granularity matters. *)
From Stdlib Require Import ZArith Lia String.
From stdpp Require Import base numbers list strings relations.
From S2P Require Import Prelude Prog CanDbc Os CanSim VirtualMachine SeatController CtlMachine.
From S2P Require Import ControllerSpec ControlLoopSpec ApiSpec ThreadSpec Invariants ClosedLoop.

(** ** The programs *)

Inductive turn := Iterate | Request (pos : Z) | Stop | Locate.

Section Session.
Context {CAN : Cantools} {CANL : CantoolsLaws CAN} {S : Type} {O : OS S} {OL : OSLaws S} {C : Clock S}.

(** What the calls return, in order; [on] while the loop of the CTL thread goes on. *)
Fixpoint session (turns : list turn) (on : bool) : ctl (list Z) :=
  match turns with
  | [] => mret []
  | Iterate :: turns =>
      if on then again ← seatctrl_thread_iteration; session turns again else session turns false
  | Request pos :: turns =>
      rc ← seatctrl_set_position CTX pos; rest ← session turns on; mret (rc :: rest)
  | Stop :: turns => rc ← seatctrl_stop_movement; rest ← session turns on; mret (rc :: rest)
  | Locate :: turns => pos ← seatctrl_get_position CTX; rest ← session turns on; mret (pos :: rest)
  end.

(** ** The supervisor with requests *)

Inductive input :=
| Heard (i : bus_input) (now : Z)
| Asked (pos now status : Z)
| Told (status : Z)
| Looked.

(** A request at the time [now]; [status] is what became of the last frame. *)
Definition sup_request (rpm pos now status : Z) (s : sup) : list can_frame * sup * Z :=
  let here := o_pos (s_obs s) in
  if (pos <? 0) || (100 <? pos) then ([], s, SEAT_CTRL_ERR_INVALID)
  else if here =? 255 then ([], s, SEAT_CTRL_ERR_NO_FRAMES)
  else if here =? pos then
    (stop_frame :: (if o_mov (s_obs s) =? 0 then [] else [stop_frame]),
     Sup None (s_last s) (s_obs s), SEAT_CTRL_OK)
  else
    let d := direction_to here pos in
    ([stop_frame; cmd_frame (dir_value d) rpm], Sup (Some (Goal pos d now)) (s_last s) (s_obs s), status).

Fixpoint sup_session (timeout rpm : Z) (inputs : list input) (s : sup) : list can_frame * sup * list Z :=
  match inputs with
  | [] => ([], s, [])
  | Heard i now :: rest =>
      let '(frames, s, _) := sup_step timeout rpm i now s in
      let '(more, s, answers) := sup_session timeout rpm rest s in (frames ++ more, s, answers)
  | Asked pos now status :: rest =>
      let '(frames, s, rc) := sup_request rpm pos now status s in
      let '(more, s, answers) := sup_session timeout rpm rest s in (frames ++ more, s, rc :: answers)
  | Told status :: rest =>
      let '(more, s, answers) := sup_session timeout rpm rest (Sup None (s_last s) (s_obs s)) in
      (stop_frame :: more, s, status :: answers)
  | Looked :: rest =>
      let here := o_pos (s_obs s) in
      let '(more, s, answers) := sup_session timeout rpm rest s in (more, s, here :: answers)
  end.

(** What a session takes from the outside: what is read, the time, what becomes of the frames. *)
Definition asked_at (m : machine S) : Z :=
  fst (exec get_ts (snd (exec (seatctrl_stop_movement;; usleep (100 * 1000)) m))).

Fixpoint taken (turns : list turn) (on : bool) (m : machine S) : list input :=
  match turns with
  | [] => []
  | Iterate :: turns =>
      if on then
        let '(again, m') := exec seatctrl_thread_iteration m in
        let '(i, now) := heard_now m in Heard i now :: taken turns again m'
      else taken turns false m
  | Request pos :: turns =>
      let m' := snd (exec (seatctrl_set_position CTX pos) m) in
      Asked pos (asked_at m) (write_status (m_trace m')) :: taken turns on m'
  | Stop :: turns =>
      let m' := snd (exec seatctrl_stop_movement m) in
      Told (write_status (m_trace m')) :: taken turns on m'
  | Locate :: turns => Looked :: taken turns on m
  end.

(** ** One turn *)

(** A session: opened, and with a clock that has started. *)
Record in_session (m : machine S) : Prop := InSession {
  is_on : loop_on (m_ctx m) = true;
  is_magic : magic (m_ctx m) = SEAT_CTRL_CONTEXT_MAGIC;
  is_dir : desired_direction (m_ctx m) <> INV;
  is_clock : 0 < clock m }.

Definition intact (c : seatctrl_context_t) : Prop :=
  magic c = SEAT_CTRL_CONTEXT_MAGIC /\ desired_direction c <> INV.

Instance intact_invariant : Invariant intact (fun _ => True) (fun _ => True) (fun _ => True) True.
Proof. split; unfold intact; intros; split_and?; by try tauto. Qed.

Lemma intact_after {A} (p : ctl A) (m : machine S) :
  keeps (env_seeing (fun _ => True)) (obeys (S := S) intact (fun _ => True)) p (fun _ => True) ->
  in_session m -> loop_on (m_ctx (snd (exec p m))) = true -> in_session (snd (exec p m)).
Proof.
  intros Hk [H1 H2 H3 H4] H5.
  destruct (exec_keeps p (fun _ => True) m (fun _ => I) Hk) as (_ & [H6 H7] & _).
  { split; [by split | by apply Forall_true]. }
  split; try done. pose proof (clock_later p m). lia.
Qed.

(** From [m] to [m'] the frames [frames] are written and the supervisor goes to [s]. *)
Definition moves_to (m m' : machine S) (frames : list can_frame) (s : sup) : Prop :=
  abs m' = s /\ written (m_trace m') = written (m_trace m) ++ frames
  /\ config (m_ctx m') = config (m_ctx m) /\ in_session m'.

Lemma session_socket (m : machine S) : in_session m -> socket (m_ctx m) <> SOCKET_INVALID.
Proof. intros [H _ _ _]. unfold loop_on in H. apply andb_true_iff in H as [_ H]. by apply negb_true_iff, Z.eqb_neq in H. Qed.

Lemma iterate_turn (m : machine S) :
  in_session m ->
  let '(again, m') := exec seatctrl_thread_iteration m in
  let '(i, now) := heard_now m in
  let '(frames, s, _) :=
    sup_step (command_timeout (config (m_ctx m))) (u8 (motor_rpm (config (m_ctx m)))) i now (abs m) in
  moves_to m m' frames s.
Proof.
  intros Hm. pose proof (iteration_step m (is_on _ Hm)) as H.
  pose proof (intact_after seatctrl_thread_iteration m) as Hi.
  destruct (exec seatctrl_thread_iteration m) as [again m']. destruct (heard_now m) as [i now].
  cbn [fst snd] in *. destruct H as (E1 & E2 & E3 & E4). rewrite E1.
  split_and!; [done..|]. apply Hi; [|done|done]. apply (kept_thread_iteration (EV := fun _ => True)).
Qed.

Lemma request_turn pos (m : machine S) :
  in_session m ->
  let '(rc, m') := exec (seatctrl_set_position CTX pos) m in
  let '(frames, s, answer) :=
    sup_request (u8 (motor_rpm (config (m_ctx m)))) pos (asked_at m) (write_status (m_trace m')) (abs m) in
  rc = answer /\ moves_to m m' frames s.
Proof.
  intros Hm. pose proof (session_socket m Hm) as Hs.
  pose proof (intact_after (seatctrl_set_position CTX pos) m) as Hi.
  assert (valid CTX (m_ctx m) = true) as Hv by (unfold valid; by rewrite (is_magic _ Hm), Z.eqb_refl).
  specialize (Hi (kept_set_position (C := intact) (EV := fun _ => True) (ask := fun _ => True) _ _ I) Hm).
  unfold sup_request. cbn [abs s_obs s_goal s_last obs_of o_pos o_mov].
  destruct ((pos <? 0) || (100 <? pos)) eqn:Ep.
  { rewrite set_position_refuses in * by (unfold accepts; rewrite Hv; cbn [andb]; lia). cbn [snd] in Hi.
    split; [done|]. split_and!; [done | by rewrite app_nil_r | done | done]. }
  assert (accepts CTX (m_ctx m) pos = true) as Ha by (unfold accepts; rewrite Hv; cbn [andb]; lia).
  destruct (Z.eqb_spec (motor1_pos (m_ctx m)) 255) as [Hp|Hp].
  { pose proof (set_position_no_frames CTX pos m Ha Hp) as H.
    destruct (exec (seatctrl_set_position CTX pos) m) as [rc m']. destruct H as (-> & H1 & H2 & H3).
    cbn [snd] in Hi. split; [done|]. unfold moves_to, abs. rewrite H1, H2, H3, written_app. split_and!; try done.
    apply Hi. by rewrite H1, (is_on _ Hm). }
  pose proof (set_position_moves CTX pos m Ha Hp Hs) as H. cbv zeta in H. fold (asked_at m) in H.
  assert (motor1_pos (m_ctx m) <> pos -> 0 < asked_at m) as Hnow.
  { intros Hne. pose proof (set_position_time CTX pos m Ha Hp Hne) as Ht. cbv zeta in Ht.
    fold (asked_at m) in Ht. pose proof (is_clock _ Hm). lia. }
  destruct (exec (seatctrl_set_position CTX pos) m) as [rc m']. cbn [snd] in Hi.
  destruct H as [Hl H]. unfold moves_to, abs.
  destruct (Z.eqb_spec (motor1_pos (m_ctx m)) pos) as [He|He]; destruct H as (-> & Hc & Hw).
  - split; [done|]. rewrite Hc, Hl in *. split_and!; [by rewrite goal_of_idle | exact Hw | done |].
    apply Hi. exact (is_on _ Hm).
  - split; [done|]. rewrite Hc, Hl in *. split_and!; [|exact Hw | done |].
    + rewrite goal_of_moving by (auto || lia). done.
    + apply Hi. exact (is_on _ Hm).
Qed.

Lemma stop_turn (m : machine S) :
  in_session m ->
  let '(rc, m') := exec seatctrl_stop_movement m in
  rc = write_status (m_trace m') /\ moves_to m m' [stop_frame] (Sup None (last_of (m_st m)) (obs_of (m_ctx m))).
Proof.
  intros Hm. pose proof (session_socket m Hm) as Hs. destruct (effect_stop_movement m Hs) as [A1 A2 A3].
  pose proof (intact_after seatctrl_stop_movement m) as Hi.
  specialize (Hi (kept_stop_movement (EV := fun _ => True)) Hm).
  pose proof (send_cmd1_status (dir_value OFF) 0 m Hs) as B.
  unfold seatctrl_stop_movement in *. rewrite exec_bind in *.
  destruct (exec (seatctrl_send_cmd1 _ _) m) as [rc m1]. autorewrite with run in *. msimpl.
  unfold moves_to, abs. msimpl. split; [done|]. rewrite A1, A2 in *.
  split_and!; [by rewrite goal_of_idle | done | done |]. apply Hi. exact (is_on _ Hm).
Qed.

Lemma locate_turn (m : machine S) :
  in_session m -> exec (seatctrl_get_position CTX) m = (motor1_pos (m_ctx m), m).
Proof.
  intros [H1 H2 _ _]. rewrite get_position_spec. unfold valid. rewrite H2, Z.eqb_refl. cbn.
  unfold loop_on in H1. by apply andb_true_iff in H1 as [-> _].
Qed.

(** ** The refinement *)

(** One move after the other. *)
Lemma moves_trans (m1 m2 m3 : machine S) frames more s1 :
  moves_to m1 m2 frames s1 -> written (m_trace m3) = written (m_trace m2) ++ more ->
  written (m_trace m3) = written (m_trace m1) ++ (frames ++ more).
Proof. intros (_ & H & _) ->. by rewrite H, app_assoc. Qed.

Lemma session_run turns on (m : machine S) :
  in_session m ->
  let '(answers, m') := exec (session turns on) m in
  exists frames,
    sup_session (command_timeout (config (m_ctx m))) (u8 (motor_rpm (config (m_ctx m))))
      (taken turns on m) (abs m) = (frames, abs m', answers)
    /\ written (m_trace m') = written (m_trace m) ++ frames /\ in_session m'.
Proof.
  revert on m. induction turns as [|[|pos| |] turns IH]; intros on m Hm; cbn [session taken].
  - exists []. by rewrite app_nil_r.
  - destruct on; [|by apply IH]. rewrite exec_bind. pose proof (iterate_turn m Hm) as H.
    destruct (exec seatctrl_thread_iteration m) as [again m1]. destruct (heard_now m) as [i now].
    cbn [sup_session]. destruct (sup_step _ _ _ _ _) as [[frames s] on']. pose proof H as (E1 & _ & E3 & E4).
    specialize (IH again m1 E4). destruct (exec (session turns again) m1) as [answers m'].
    destruct IH as (more & F1 & F2 & F3). rewrite E1, E3 in F1. rewrite F1. exists (frames ++ more).
    split_and!; [done | by eapply moves_trans | done].
  - rewrite exec_bind. pose proof (request_turn pos m Hm) as H.
    destruct (exec (seatctrl_set_position CTX pos) m) as [rc m1]. cbn [snd sup_session].
    destruct (sup_request _ _ _ _ _) as [[frames s] answer]. destruct H as [-> H]. pose proof H as (E1 & _ & E3 & E4).
    rewrite exec_bind. specialize (IH on m1 E4). destruct (exec (session turns on) m1) as [answers m'].
    destruct IH as (more & F1 & F2 & F3). rewrite E1, E3 in F1. rewrite F1. exists (frames ++ more).
    split_and!; [done | by eapply moves_trans | done].
  - rewrite exec_bind. pose proof (stop_turn m Hm) as H.
    destruct (exec seatctrl_stop_movement m) as [rc m1]. cbn [snd sup_session].
    destruct H as [-> H]. pose proof H as (E1 & _ & E3 & E4).
    rewrite exec_bind. specialize (IH on m1 E4). destruct (exec (session turns on) m1) as [answers m'].
    destruct IH as (more & F1 & F2 & F3). rewrite E1, E3 in F1. cbn [abs s_last s_obs]. rewrite F1.
    exists (stop_frame :: more). split_and!; [done | by eapply (moves_trans _ _ _ [stop_frame]) | done].
  - rewrite exec_bind, (locate_turn m Hm), exec_bind. specialize (IH on m Hm). cbn [sup_session].
    destruct (exec (session turns on) m) as [answers m']. destruct IH as (more & F1 & F2 & F3).
    rewrite F1. by exists more.
Qed.

(** C6: Whatever is called between the iterations of the loop, and whatever the bus delivers: the
    answers of the calls, the frames on the bus, the goal and what the loop remembers are those
    of the supervisor. *)
Theorem session_refines turns on (m : machine S) :
  in_session m ->
  let '(answers, m') := exec (session turns on) m in
  exists frames,
    sup_session (command_timeout (config (m_ctx m))) (u8 (motor_rpm (config (m_ctx m))))
      (taken turns on m) (abs m) = (frames, abs m', answers)
    /\ written (m_trace m') = written (m_trace m) ++ frames.
Proof.
  intros Hm. pose proof (session_run turns on m Hm) as H.
  destruct (exec (session turns on) m) as [answers m']. destruct H as (frames & H1 & H2 & _). by exists frames.
Qed.

(** ** The motor is commanded while there is a goal *)













(** Without a goal the loop sends nothing, however long it runs. *)
Lemma idle_thread fuel (m : machine S) :
  loop_on (m_ctx m) = true -> goal_of (m_ctx m) = None ->
  let m' := snd (exec (seatctrl_thread_loop fuel) m) in
  goal_of (m_ctx m') = None /\ written (m_trace m') = written (m_trace m).
Proof.
  cbv zeta. revert m. induction fuel as [|fuel IH]; intros m Hm Hg; [done|]. cbn [seatctrl_thread_loop].
  rewrite exec_bind. pose proof (iteration_step m Hm) as H.
  destruct (exec seatctrl_thread_iteration m) as [again m1]. destruct H as (E1 & E2 & _ & E4).
  assert (drop (length (written (m_trace m))) (written (m_trace m1)) = [] /\ goal_of (m_ctx m1) = None) as [E5 E6].
  { destruct (fst (heard_now m)); cbn [sup_step abs s_goal] in E1; rewrite ?Hg in E1; cbn [supervise] in E1;
      injection E1; intros; split; congruence. }
  rewrite E5, app_nil_r in E2. rewrite exec_if. destruct again; [|by split].
  destruct (IH m1 E4 E6) as [H1 H2]. split; [done | by rewrite H2, E2].
Qed.

End Session.
