(* ===== verification/SeatsService.v ===== *)
(** * The gRPC seats service

    [seats_grpc_service.cc] over the interface of the seat adjuster, with the messages of
    [seats.proto].  A field that is not set reads as its default, so messages are records of
    values; enums of proto3 are open, so a component is a number. *)
From Stdlib Require Import ZArith Lia String.
From stdpp Require Import base numbers list strings.
From S2P Require Import Prelude Prog Grpc CanDbc Os SeatController CtlMachine ControllerSpec.
From S2P Require Import ControlLoopSpec ApiSpec Interleaving SeatAdjuster.

(** ** Messages *)

Record SeatLocation := Location { row : Z; index : Z }.

Record Position := Pos {
  base_position : Z; cushion : Z; lumbar : Z; side_bolster : Z; head_restraint : Z }.

Record Seat := MkSeat { seat_location : SeatLocation; seat_position : Position }.

Record MoveRequest := Move_request { move_seat : Seat }.

Record MoveComponentRequest := Move_component {
  mc_seat : SeatLocation; mc_component : Z; mc_position : Z }.

Record CurrentPositionRequest := Current_position { cp_row : Z; cp_index : Z }.

Record CurrentPositionReply := Position_reply { reply_seat : Seat }.

Definition BASE : Z := 0.

(** ** Status *)

Definition mk_status (c : StatusCode) (msg : string) : Status := MkStatus c msg "".

Definition SetResult_2_grpcStatus (result : SetResult) : Status :=
  match result with
  | OK => Status_OK
  | UNSPECIFIC_ERROR => mk_status INTERNAL "Unspecific error"
  | NO_CAN => mk_status INTERNAL "SocketCAN not available"
  | CAN_IF_INDEX_ERROR => mk_status INTERNAL "CAN interface index error"
  | CAN_BIND_ERROR => mk_status INTERNAL "SocketCAN bind() error"
  | CAN_IO_ERROR => mk_status INTERNAL "SocketCAN i/o error"
  | INVALID_ARG => mk_status INTERNAL "Invalid argument(s)"
  | NO_FRAMES => mk_status INTERNAL "Can signals not coming from ECU"
  end.

(** Positions are in tenths of a percent; the adjuster's in percent. *)
Definition to_percent (position : Z) : Z := Z.quot (position + 5) 10.

(** ** The handlers

    Programs over the two calls of the adjuster they make. *)
Inductive adjE : Type -> Type :=
| A_Get : adjE Z
| A_Set (percent : Z) : adjE SetResult.

Abbreviation handling := (prog adjE).

Definition Move (request : MoveRequest) : handling Status :=
  let location := seat_location (move_seat request) in
  if negb (row location =? 1) || negb (index location =? 1) then
    mret (mk_status OUT_OF_RANGE "Unknown seat location") else
  let position := seat_position (move_seat request) in
  if (base_position position <? 0) || (1000 <? base_position position) then
    mret (mk_status INVALID_ARGUMENT "Invalid base position") else
  let position_in_percent := to_percent (base_position position) in
  result ← trigger (A_Set position_in_percent);
  mret (SetResult_2_grpcStatus result).

Definition MoveComponent (request : MoveComponentRequest) : handling Status :=
  let location := mc_seat request in
  if negb (row location =? 1) || negb (index location =? 1) then
    mret (mk_status OUT_OF_RANGE "Unknown seat location") else
  let component := mc_component request in
  if negb (component =? BASE) then
    mret (mk_status NOT_FOUND "Unsupported seat component") else
  let base_position := mc_position request in
  if (base_position <? 0) || (1000 <? base_position) then
    mret (mk_status INVALID_ARGUMENT "Invalid base position") else
  let base_position_in_percent := to_percent base_position in
  result ← trigger (A_Set base_position_in_percent);
  mret (SetResult_2_grpcStatus result).

(** The reply is filled in only when the location is known. *)
Definition CurrentPosition (request : CurrentPositionRequest) (reply : CurrentPositionReply)
    : handling (Status * CurrentPositionReply) :=
  if negb (cp_row request =? 1) || negb (cp_index request =? 1) then
    mret (mk_status OUT_OF_RANGE "Unknown seat location", reply) else
  let location := Location (cp_row request) (cp_index request) in
  base_position_in_percent ← trigger A_Get;
  let base :=
    if negb (base_position_in_percent =? SEAT_POSITION_INVALID)
    then base_position_in_percent * 10 else -1 in
  mret (Status_OK, Position_reply (MkSeat location (Pos base (-1) (-1) (-1) (-1)))).

(** [Move] is [MoveComponent] of the base: the other components are never looked at. *)
Theorem Move_is_MoveComponent_BASE req :
  let seat := move_seat req in
  Move req
  = MoveComponent (Move_component (seat_location seat) BASE (base_position (seat_position seat))).
Proof. done. Qed.

Section Service.
Context {S : Type} {A : Adjuster S}.

(** A handler with the adjuster to itself. *)
Definition adj_handle : handler adjE S := fun X e =>
  match e in adjE X return S -> X * S with
  | A_Get => GetSeatPosition
  | A_Set percent => SetSeatPosition percent
  end.

Definition serve {R} (p : handling R) (s : S) : R * S := run adj_handle p s.

(** The position of the driver's seat, in tenths of a percent, -1 when it is not known. *)
Lemma serve_current_position reply s :
  serve (CurrentPosition (Current_position 1 1) reply) s
  = let '(p, s') := GetSeatPosition s in
    (Status_OK, Position_reply (MkSeat (Location 1 1)
       (Pos (if negb (p =? SEAT_POSITION_INVALID) then p * 10 else -1) (-1) (-1) (-1) (-1))), s').
Proof. unfold serve, CurrentPosition. cbn. by destruct (GetSeatPosition s). Qed.

(** ** What the service promises *)

(** The driver's seat, the only one there is. *)
Definition driver_seat (l : SeatLocation) : bool := (row l =? 1) && (index l =? 1).

Definition legal_base (b : Z) : bool := (0 <=? b) && (b <=? 1000).

(** The percentage commanded for a legal base position is a legal target, within half a percent. *)
Lemma to_percent_near b :
  legal_base b = true -> 0 <= to_percent b <= 100 /\ - 5 <= to_percent b * 10 - b <= 5.
Proof.
  unfold legal_base, to_percent. intros H. rewrite Z.quot_div_nonneg by lia.
  pose proof (Z.div_mod (b + 5) 10). pose proof (Z.mod_pos_bound (b + 5) 10). lia.
Qed.

(** The verdict on a request, before the adjuster is asked. *)
Definition admission (l : SeatLocation) (component base : Z) : StatusCode :=
  if negb (driver_seat l) then OUT_OF_RANGE
  else if negb (component =? BASE) then NOT_FOUND
  else if negb (legal_base base) then INVALID_ARGUMENT
  else Code_OK.

(** A request that is not admitted never reaches the adjuster; an admitted one is exactly one
    call of [SetSeatPosition] with the rounded percentage, and its status is the result's. *)
Lemma MoveComponent_spec req s :
  let verdict := admission (mc_seat req) (mc_component req) (mc_position req) in
  let '(st, s') := serve (MoveComponent req) s in
  if decide (verdict = Code_OK)
  then let '(r, s1) := SetSeatPosition (to_percent (mc_position req)) s in
       st = SetResult_2_grpcStatus r /\ s' = s1
  else error_code st = verdict /\ s' = s.
Proof.
  unfold serve, MoveComponent, admission, driver_seat, legal_base. cbv zeta.
  destruct (row _ =? 1), (index _ =? 1), (_ =? BASE); cbn [negb orb andb]; try done.
  destruct (Z.ltb_spec (mc_position req) 0), (Z.ltb_spec 1000 (mc_position req)),
    (Z.leb_spec 0 (mc_position req)), (Z.leb_spec (mc_position req) 1000); try lia; try done.
  cbn. by destruct (SetSeatPosition _ s).
Qed.

Lemma status_ok_iff r : error_code (SetResult_2_grpcStatus r) = Code_OK <-> r = OK.
Proof. by destruct r. Qed.

Context {adj_ok : S -> Prop} {AL : AdjusterLaws S adj_ok}.

(** C29: [OUT_OF_RANGE], [NOT_FOUND] and [INVALID_ARGUMENT] mean that nothing happened; [OK] means
    that the adjuster accepted the nearest percentage of the requested position; every error of
    the adjuster is [INTERNAL].  The adjuster stays well formed. *)
Theorem MoveComponent_contract req s :
  adj_ok s ->
  let verdict := admission (mc_seat req) (mc_component req) (mc_position req) in
  let '(st, s') := serve (MoveComponent req) s in
  adj_ok s' /\
  match error_code st with
  | Code_OK => verdict = Code_OK /\ exists p, 0 <= p <= 100
      /\ - 5 <= p * 10 - mc_position req <= 5 /\ SetSeatPosition p s = (OK, s')
  | OUT_OF_RANGE => verdict = OUT_OF_RANGE /\ s' = s
  | NOT_FOUND => verdict = NOT_FOUND /\ s' = s
  | INVALID_ARGUMENT => verdict = INVALID_ARGUMENT /\ s' = s
  | INTERNAL => verdict = Code_OK
      /\ fst (SetSeatPosition (to_percent (mc_position req)) s) <> OK
  | _ => False
  end.
Proof.
  intros Hok. pose proof (MoveComponent_spec req s) as H. cbv zeta in *.
  destruct (serve (MoveComponent req) s) as [st s'].
  destruct (decide (admission _ _ _ = Code_OK)) as [Hv|Hv].
  - assert (legal_base (mc_position req) = true) as Hb.
    { revert Hv. unfold admission. destruct (driver_seat _), (_ =? BASE), (legal_base _); done. }
    pose proof (to_percent_near _ Hb) as [H1 H2].
    pose proof (set_position_ok (to_percent (mc_position req)) s Hok) as Hok'.
    destruct (SetSeatPosition _ s) as [r s1] eqn:E. destruct H as [-> ->].
    split; [done|]. destruct r; cbn; (split; [done|]); try done.
    by exists (to_percent (mc_position req)).
  - destruct H as [H ->]. split; [done|]. revert H Hv. unfold admission.
    destruct (driver_seat _), (_ =? BASE), (legal_base _); cbn; intros -> ?; done.
Qed.

(** The reported base position is -1 or the percentage times ten, in the range of the API, and
    asking does not disturb the adjuster. *)
Theorem CurrentPosition_contract req reply s :
  adj_ok s ->
  let '(st, reply', s') := serve (CurrentPosition req reply) s in
  s' = s /\
  if (cp_row req =? 1) && (cp_index req =? 1)
  then st = Status_OK /\ seat_location (reply_seat reply') = Location 1 1
       /\ let b := base_position (seat_position (reply_seat reply')) in
          (b = -1 <-> fst (GetSeatPosition s) = -1)
          /\ (b <> -1 -> b = fst (GetSeatPosition s) * 10 /\ 0 <= b <= 1000)
  else error_code st = OUT_OF_RANGE /\ reply' = reply.
Proof.
  intros Hok. destruct req as [r i]. cbn [cp_row cp_index].
  destruct (Z.eqb_spec r 1) as [->|Hr];
    [|unfold serve, CurrentPosition; cbn [cp_row]; by rewrite (proj2 (Z.eqb_neq _ _) Hr)].
  destruct (Z.eqb_spec i 1) as [->|Hi];
    [|unfold serve, CurrentPosition; cbn [cp_row cp_index]; by rewrite (proj2 (Z.eqb_neq _ _) Hi)].
  rewrite serve_current_position. cbn [andb]. pose proof (get_position_range s Hok) as Hr.
  pose proof (get_position_pure s) as Hp.
  destruct (GetSeatPosition s) as [p s']. cbn [fst snd] in *. subst s'.
  unfold SEAT_POSITION_INVALID. split; [done|]. split; [done|]. split; [done|].
  cbn [reply_seat seat_position base_position].
  destruct (Z.eqb_spec p (-1)); cbn [negb]; lia.
Qed.

End Service.
