(* ===== verification/EndToEnd.v ===== *)
(** * From a gRPC request to the CAN bus

    The whole service at work: [Move] over the implementation of the seat adjuster over the
    controller, followed by the CTL thread on a live bus. *)
From Stdlib Require Import ZArith Lia String.
From stdpp Require Import base numbers list strings.
From S2P Require Import Prelude Prog CanDbc Os Grpc CanSim VirtualMachine SeatController CtlMachine.
From S2P Require Import ControllerSpec ControlLoopSpec ApiSpec ThreadSpec Interleaving SeatAdjuster.
From S2P Require Import ClosedLoop SeatsService.

Section EndToEnd.
Context {CAN : Cantools} {CANL : CantoolsLaws CAN} {S : Type} {O : OS S} {C : Clock S}.
Context {L : LiveBus S}.
Variable exit_on_error : bool.

(** The CTL thread inside the service, for [fuel] iterations. *)
Definition service_thread (fuel : nat) : sa bool :=
  lift exit_on_error (seatctrl_thread_loop fuel).

Lemma service_thread_ctl fuel s :
  let '(on, s') := sa_exec (service_thread fuel) s in
  (on, sv_ctl s') = exec (seatctrl_thread_loop fuel) (sv_ctl s).
Proof.
  unfold service_thread.
  destruct (sa_exec_lift exit_on_error (seatctrl_thread_loop fuel) s) as (evs & _ & ->).
  rewrite sv_ctl_advance. by destruct (exec _ (sv_ctl s)).
Qed.

Lemma move_sets_position req (s : service S) :
  let seat := move_seat req in
  let b := base_position (seat_position seat) in
  driver_seat (seat_location seat) = true -> legal_base b = true ->
  sv_ctl (snd (serve (A := SeatAdjusterImpl_adjuster exit_on_error) (Move req) s))
  = snd (exec (seatctrl_set_position CTX (to_percent b)) (sv_ctl s)).
Proof.
  cbv zeta. unfold driver_seat, legal_base, serve, Move. intros Hd Hb.
  apply andb_true_iff in Hd as [-> ->]. cbn [negb orb].
  replace ((_ <? 0) || (1000 <? _)) with false by lia.
  rewrite run_bind. cbn [run trigger adj_handle SetSeatPosition SeatAdjusterImpl_adjuster].
  rewrite sa_exec_set_position.
  destruct (sa_exec_lift exit_on_error (seatctrl_set_position CTX
    (to_percent (base_position (seat_position (move_seat req))))) s) as (evs & _ & ->).
  cbn. by rewrite sv_ctl_advance.
Qed.

(** The percentage a request asks for. *)
Definition target (req : MoveRequest) : Z :=
  to_percent (base_position (seat_position (move_seat req))).

Lemma going_set_position fd timeout pos (m : machine S) :
  going fd timeout m -> fd <> SOCKET_INVALID -> accepts CTX (m_ctx m) pos = true ->
  motor1_pos (m_ctx m) <> 255 ->
  going fd timeout (snd (exec (seatctrl_set_position CTX pos) m)).
Proof.
  intros [H Hs Hl Ht] Hfd Ha Hp.
  assert (socket (m_ctx m) <> SOCKET_INVALID) as Hs' by congruence.
  pose proof (set_position_moves CTX pos m Ha Hp Hs') as Hm. cbv zeta in Hm.
  pose proof (live_exec fd _ m (loops_set_position CTX pos) Hl) as Hl'.
  destruct (exec _ m) as [rc m']. cbn [snd] in *. destruct Hm as [_ Hm].
  destruct (_ =? pos); destruct Hm as (_ & Hc & _); split; try done; by rewrite Hc.
Qed.

End EndToEnd.

Section Completion.
Context {CAN : Cantools} {CANL : CantoolsLaws CAN} {S : Type} {O : OS S} {C : Clock S}.
Context {L : LiveBus S}.

(** C1: [SA_EXIT] unset.  A legal request to move the driver's seat, when its position is known,
    every read of the socket delivers an acceptable status frame, no other thread works on the
    context until the request has returned and only the CTL thread after that (so no further
    request comes while it works): the controller hands to the socket a stop, then the
    command towards the requested percentage, and within one iteration of the CTL thread per
    millisecond of the timeout, 500 at least, the operation is over and the last frame handed over
    is a stop, which is the last frame on the bus as well if its write succeeded.  A seat that is
    there already is only stopped. *)
Theorem move_request_completes fd timeout fuel req (s : service S) :
  let seat := move_seat req in
  let c := m_ctx (sv_ctl s) in
  let before := written (m_trace (sv_ctl s)) in
  driver_seat (seat_location seat) = true ->
  legal_base (base_position (seat_position seat)) = true ->
  going fd timeout (sv_ctl s) -> fd <> SOCKET_INVALID -> valid CTX c = true ->
  motor1_pos c <> 255 -> Z.max 499 timeout < Z.of_nat fuel ->
  let s1 := snd (serve (A := SeatAdjusterImpl_adjuster false) (Move req) s) in
  let '(on, s2) := sa_exec (service_thread false (Datatypes.S fuel)) s1 in
  on = true /\ goal_of (m_ctx (sv_ctl s2)) = None
  /\ (write_status (m_trace (sv_ctl s2)) = SEAT_CTRL_OK ->
      last (sent (m_trace (sv_ctl s2))) = Some stop_frame)
  /\ if motor1_pos c =? target req
     then written (m_trace (sv_ctl s2)) = before ++
            stop_frame :: (if motor1_mov_state c =? dir_value OFF then [] else [stop_frame])
     else exists frames, written (m_trace (sv_ctl s2)) = before ++
            [stop_frame; cmd_frame (dir_value (direction_to (motor1_pos c) (target req)))
                           (u8 (motor_rpm (config c)))] ++ frames ++ [stop_frame].
Proof.
  cbv zeta. intros Hd Hb Hg Hfd Hv Hp Hfuel. set (m := sv_ctl s) in *.
  assert (accepts CTX (m_ctx m) (target req) = true) as Ha.
  { unfold accepts. rewrite Hv. destruct (to_percent_near _ Hb). unfold target. lia. }
  assert (socket (m_ctx m) <> SOCKET_INVALID) as Hs by (rewrite (go_socket _ _ _ Hg); done).
  pose proof (set_position_moves CTX _ m Ha Hp Hs) as Hm. cbv zeta in Hm.
  pose proof (going_set_position _ _ _ m Hg Hfd Ha Hp) as Hg'.
  pose proof (set_position_time CTX _ m Ha Hp) as Ht. cbv zeta in Ht.
  pose proof (move_sets_position false req s Hd Hb) as Hs1. cbv zeta in Hs1. fold (target req) in Hs1.
  set (s1 := snd (serve (Move req) s)) in *. fold m in Hs1. clearbody s1.
  pose proof (service_thread_ctl false (Datatypes.S fuel) s1) as Hl. rewrite Hs1 in Hl.
  destruct (sa_exec _ s1) as [on s2]. destruct (exec (seatctrl_set_position _ _) m) as [rc m1].
  cbn [snd] in *. destruct Hm as [_ Hm]. destruct (Z.eqb_spec (motor1_pos (m_ctx m)) (target req)).
  - destruct Hm as (_ & Hc & Hw).
    pose proof (idle_loop fd timeout (Datatypes.S fuel) m1 Hg') as H. rewrite <- Hl, Hc in H.
    destruct (H (goal_of_idle _)) as (Hon & _ & Hgoal & Hwr). rewrite Hon, Hgoal. split_and!; [done..| |].
    + intros Hst. rewrite (last_sent _ Hst), Hwr, Hw, last_app. by destruct (motor1_mov_state _ =? _).
    + by rewrite Hwr, Hw.
  - destruct Hm as (_ & Hc & Hw). destruct (Ht n) as [Ht1 Ht2].
    assert (0 <= clock m) as Hclk by (apply Z.div_pos; [apply now_nonneg | lia]).
    eassert (Hgo : goal_of (m_ctx m1) = Some _).
    { rewrite Hc. apply goal_of_moving; [lia | done | unfold accepts in Ha; lia]. }
    pose proof (every_operation_ends fd timeout fuel _ m1 Hg' Hgo) as H.
    cbn [g_since] in H. specialize (H ltac:(lia)). rewrite <- Hl in H.
    destruct H as (Hon & _ & Hgoal & frames & Hwr). split_and!; [done..| |].
    { intros Hst. by rewrite (last_sent _ Hst), Hwr, app_assoc, last_snoc. }
    exists frames. by rewrite Hwr, Hw, <- !app_assoc.
Qed.

End Completion.
