(* ===== verification/Scenario.v ===== *)
(** * The service on the simulated ECU

    The service started on the virtual machine with the CAN simulator, the way the container runs
    it against [cansim]: the constructor opens the simulated interface, the CTL thread reads its
    frames, and [Move] is called.  Everything is evaluated. *)
From Stdlib Require Import ZArith Lia String.
From stdpp Require Import base numbers list strings.
From S2P Require Import Prelude Prog CanDbc Os Grpc CanSim VirtualMachine SeatController CtlMachine.
From S2P Require Import ControllerSpec ControlLoopSpec ApiSpec ThreadSpec Interleaving SeatAdjuster.
From S2P Require Import ClosedLoop SeatsService EndToEnd.

#[local] Existing Instance dbc_codec.
#[local] Existing Instance dbc_codec_laws.

(** A process with an uninitialised context; the simulator delivers a frame every 10 ms. *)
Definition boot : service (@sim_world vm) :=
  Service (Machine zero_ctx statics_init
             (sim_init_context, Vm 1000000 [("SAE_DELAY"%string, "10"%string)]) [])
    (AdjusterState 0 false) [].

(** After the constructor and three frames: the seat is where the simulator puts it. *)
Definition service_up : service (@sim_world vm) :=
  snd (sa_exec (SeatAdjusterImpl false zero_config "vcan0";;
                lift false (seatctrl_threadFunc 3)) boot).

Definition move_to (b : Z) : MoveRequest := Move_request (MkSeat (Location 1 1) (Pos b 0 0 0 0)).

#[local] Instance adjuster : Adjuster (service (@sim_world vm)) := SeatAdjusterImpl_adjuster false.

(** The service after a [Move] and [n] iterations of the CTL thread. *)
Definition settled (n : nat) (b : Z) : service (@sim_world vm) :=
  snd (sa_exec (service_thread false n) (snd (serve (Move (move_to b)) service_up))).

(** The controller after the same, for a target in percent. *)
Definition settled_ctl (n : nat) (p : Z) : machine (@sim_world vm) :=
  snd (exec (seatctrl_thread_loop n) (snd (exec (seatctrl_set_position CTX p) (sv_ctl service_up)))).

Lemma settled_settled_ctl n b :
  legal_base b = true -> sv_ctl (settled n b) = settled_ctl n (to_percent b).
Proof.
  intros Hb. unfold settled, settled_ctl. pose proof (move_sets_position false (move_to b) service_up
    eq_refl Hb) as H. cbv zeta in H. cbn [move_to move_seat seat_position base_position] in H.
  unfold adjuster. rewrite <- H. set (s := snd (serve _ _)).
  pose proof (service_thread_ctl false n s) as Hs. destruct (sa_exec _ s) as [on s'].
  cbn [snd]. by rewrite <- Hs.
Qed.

(** The seat stands at [p], the controller knows it, and nothing is going on any more. *)
Definition stands_at (p : Z) (m : machine (@sim_world vm)) : bool :=
  let s := sae (fst (m_os m)) in
  (motor1_pos (m_ctx m) =? p) && (sae_pos_percent (_sim_motor1_pos s) =? p)
  && (_sim_motor1_status s =? MotorDirection_OFF)
  && valid CTX (m_ctx m) && running (m_ctx m) && negb (is_ctl_running (m_ctx m)).

(** Six frames per percentage point, and some for the start. *)
Definition frames_for (p : Z) : nat := Z.to_nat (10 + 6 * Z.abs (p - 42)).

Lemma every_percentage_is_reached :
  forallb (fun p => stands_at p (settled_ctl (frames_for p) p)) (seqZ 0 101) = true.
Proof. vm_compute. reflexivity. Qed.

(** C21: From the position in which the simulator starts, a [Move] to any legal position brings the
    simulated seat to the nearest percentage, in a number of frames proportional to the distance:
    the motor is off, the operation is over and [CurrentPosition] reports the target. *)
Theorem simulated_move_arrives b reply :
  legal_base b = true ->
  let s := settled (frames_for (to_percent b)) b in
  let '(st, reply', _) := serve (CurrentPosition (Current_position 1 1) reply) s in
  st = Status_OK
  /\ base_position (seat_position (reply_seat reply')) = to_percent b * 10
  /\ let engine := sae (fst (m_os (sv_ctl s))) in
     sae_pos_percent (_sim_motor1_pos engine) = to_percent b
     /\ _sim_motor1_status engine = MotorDirection_OFF
     /\ goal_of (m_ctx (sv_ctl s)) = None.
Proof.
  intros Hb. cbv zeta. pose proof (settled_settled_ctl (frames_for (to_percent b)) b Hb) as Hs.
  destruct (to_percent_near b Hb) as [Hp _].
  assert (stands_at (to_percent b) (settled_ctl (frames_for (to_percent b)) (to_percent b)) = true) as H.
  { pose proof every_percentage_is_reached as H. rewrite forallb_forall in H. apply (H (to_percent b)).
    apply list_elem_of_In, elem_of_seqZ. lia. }
  rewrite <- Hs in H. clear Hs. generalize dependent (settled (frames_for (to_percent b)) b). intros s H.
  unfold stands_at in H. rewrite !andb_true_iff, !Z.eqb_eq, negb_true_iff in H.
  destruct H as (((((H1 & H2) & H3) & H4) & H5) & H6).
  rewrite serve_current_position. cbn [GetSeatPosition adjuster SeatAdjusterImpl_adjuster].
  rewrite sa_exec_get_position, get_position_spec, H4, H5, H1. cbn [fst].
  assert (percent_of (to_percent b) = to_percent b) as ->.
  { unfold percent_of, MOTOR_POS_INVALID. destruct (_ || _) eqn:E; [lia | done]. }
  unfold SEAT_POSITION_INVALID. rewrite (proj2 (Z.eqb_neq _ _)) by lia.
  split_and!; try done. unfold goal_of. by rewrite H6.
Qed.
