(* ===== verification/Races.v ===== *)
(** * Concurrent requests

    The fields of a goal are published and cleared one after the other.  Here the operations of
    clients and the CTL thread are interleaved on the simulated ECU, by schedules that are
    evaluated. *)
From Stdlib Require Import ZArith Lia String.
From stdpp Require Import base numbers list strings relations.
From S2P Require Import Prelude Prog CanDbc Os CanSim VirtualMachine SeatController CtlMachine.
From S2P Require Import ControllerSpec ControlLoopSpec ApiSpec ThreadSpec Invariants Session.
From S2P Require Import SeatAdjuster Scenario.

#[local] Existing Instance dbc_codec.
#[local] Existing Instance dbc_codec_laws.

(** The controller of a service that is up, the CTL thread, and two clients. *)
Definition racing (a b : Z) : machine (@sim_world vm) * list (Pool.thread (E := ctlE)) :=
  (sv_ctl service_up,
   [ Pool.Thread (mret true) seatctrl_thread_iteration;
     client_thread [ApiSetPosition a]; client_thread [ApiSetPosition b] ]).

(** The first client is suspended after it has published time and direction, the second makes its
    whole call, the first goes on, and the CTL thread takes forty steps. *)
Definition schedule : list nat :=
  replicate 13 1%nat ++ replicate 18 2%nat ++ replicate 5 1%nat ++ replicate 40 0%nat.

(** The moment at which both calls have returned. *)
Definition both_done : list nat := take 36 schedule.

(** Both calls are over and every frame was written; the direction is the second client's, the
    target the first one's. *)
Definition mixed (a : Z) (c : machine (@sim_world vm) * list (Pool.thread (E := ctlE))) : bool :=
  let '(m, ts) := c in
  bool_decide (map Pool.finished ts = [false; true; true])
  && forallb (Z.eqb sizeof_can_frame) (write_counts (m_trace m))
  && match goal_of (m_ctx m) with
     | Some g => (g_target g =? a) && bool_decide (g_dir g = DEC)
     | None => false
     end.

(** The operation is over where the seat was; the last commands were down, up and stop. *)
Definition dropped (c : machine (@sim_world vm) * list (Pool.thread (E := ctlE))) : bool :=
  let '(m, _) := c in
  bool_decide (goal_of (m_ctx m) = None) && (motor1_pos (m_ctx m) =? 42)
  && bool_decide (written (m_trace m)
       = [stop_frame; stop_frame; cmd_frame (dir_value DEC) 80; cmd_frame (dir_value INC) 80; stop_frame]).

Definition outcome (a : Z) (c : machine (@sim_world vm) * list (Pool.thread (E := ctlE))) : bool :=
  match Pool.sched ctl_handle both_done c with
  | Some c =>
      mixed a c && match Pool.sched ctl_handle (drop 36 schedule) c with
                   | Some c => dropped c
                   | None => false
                   end
  | None => false
  end.

Lemma outcome_everywhere :
  forallb (fun a => forallb (fun b => outcome a (racing a b)) (seqZ 0 42)) (seqZ 43 58) = true.
Proof. vm_compute. reflexivity. Qed.

Lemma outcome_spec a c :
  outcome a c = true ->
  exists m1 ts1 m2 ts2,
    rtc (Pool.step any_env) c (m1, ts1)
    /\ map Pool.finished ts1 = [false; true; true]
    /\ Forall (eq sizeof_can_frame) (write_counts (m_trace m1))
    /\ (exists since, goal_of (m_ctx m1) = Some (Goal a DEC since))
    /\ rtc (Pool.step any_env) (m1, ts1) (m2, ts2)
    /\ goal_of (m_ctx m2) = None /\ motor1_pos (m_ctx m2) = 42
    /\ written (m_trace m2) = [stop_frame; stop_frame; cmd_frame (dir_value DEC) 80;
                               cmd_frame (dir_value INC) 80; stop_frame].
Proof.
  intros H.
  unfold outcome in H. destruct (Pool.sched _ both_done _) as [[m1 ts1]|] eqn:E1; [|done].
  destruct (Pool.sched _ _ (m1, ts1)) as [[m2 ts2]|] eqn:E2; [|by rewrite andb_false_r in H].
  apply (Pool.sched_steps any_env) in E1, E2; try apply exec_any_env.
  unfold mixed, dropped in H. rewrite !andb_true_iff, !bool_decide_eq_true, Z.eqb_eq in H.
  destruct H as [[[H1 H2] H3] [[H4 H5] H6]].
  exists m1, ts1, m2, ts2. split_and!; try done.
  - apply Forall_forall. intros n Hn. rewrite forallb_forall in H2.
    apply Z.eqb_eq, H2, list_elem_of_In, Hn.
  - destruct (goal_of (m_ctx m1)) as [[t d since]|]; [|done]. cbn [g_target g_dir] in H3.
    rewrite andb_true_iff, Z.eqb_eq, bool_decide_eq_true in H3. destruct H3 as [-> ->]. by exists since.
Qed.

(** C23: Two requests on either side of the seat, both accepted with OK: there is an interleaving in
    which the goal has the direction of one and the target of the other.  The control loop takes
    it for reached at the next frame and stops the motor, and the seat has gone nowhere. *)
Theorem concurrent_requests_mix a b :
  42 < a <= 100 -> 0 <= b < 42 ->
  exists m1 ts1 m2 ts2,
    rtc (Pool.step any_env) (racing a b) (m1, ts1)
    /\ map Pool.finished ts1 = [false; true; true]
    /\ Forall (eq sizeof_can_frame) (write_counts (m_trace m1))
    /\ (exists since, goal_of (m_ctx m1) = Some (Goal a DEC since))
    /\ rtc (Pool.step any_env) (m1, ts1) (m2, ts2)
    /\ goal_of (m_ctx m2) = None /\ motor1_pos (m_ctx m2) = 42
    /\ written (m_trace m2) = [stop_frame; stop_frame; cmd_frame (dir_value DEC) 80;
                               cmd_frame (dir_value INC) 80; stop_frame].
Proof.
  intros Ha Hb. pose proof outcome_everywhere as H.
  rewrite forallb_forall in H. specialize (H a). rewrite forallb_forall in H.
  specialize (H ltac:(apply list_elem_of_In, elem_of_seqZ; lia) b
                ltac:(apply list_elem_of_In, elem_of_seqZ; lia)).
  exact (outcome_spec a _ H).
Qed.

(** ** The end of one operation, the start of the next

    At the target the CTL thread sends a stop frame and then clears the goal, field by field.  A
    request that is made in between has its goal cleared with the old one, and its command is
    already on the bus. *)

(** One client, two calls: to 43, and when that is nearly done to [b]. *)
Definition successive (b : Z) : machine (@sim_world vm) * list (Pool.thread (E := ctlE)) :=
  (sv_ctl service_up,
   [ Pool.Thread (mret true) seatctrl_thread_iteration; client_thread [ApiSetPosition 43; ApiSetPosition b] ]).

(** The first call, the loop until it has written the stop frame, the second call, and the three
    assignments that clear the goal. *)
Definition late_clearing : list nat :=
  replicate 18 1%nat ++ replicate 153 0%nat ++ replicate 18 1%nat ++ replicate 3 0%nat.

Definition stray (b : Z) (c : machine (@sim_world vm) * list (Pool.thread (E := ctlE))) : bool :=
  let '(m, ts) := c in
  bool_decide (map Pool.finished ts = [false; true])
  && forallb (Z.eqb sizeof_can_frame) (write_counts (m_trace m))
  && loop_on (m_ctx m) && bool_decide (goal_of (m_ctx m) = None)
  && bool_decide (last (written (m_trace m)) = Some (cmd_frame (dir_value (direction_to 43 b)) 80)).

Lemma stray_everywhere :
  forallb (fun b => match Pool.sched ctl_handle late_clearing (successive b) with
                    | Some c => stray b c | None => false end)
    (seqZ 0 43 ++ seqZ 44 57) = true.
Proof. vm_compute. reflexivity. Qed.

(** C19: A client asks for 43 and then for any other position, and both calls succeed: there is an
    interleaving with the loop after which the motor is commanded towards the second position but
    there is no goal.  However long the loop goes on, it sends nothing any more: neither at the
    position nor after the timeout is the motor stopped. *)
Theorem request_at_the_end_is_lost b :
  0 <= b <= 100 -> b <> 43 ->
  exists m ts,
    rtc (Pool.step any_env) (successive b) (m, ts)
    /\ map Pool.finished ts = [false; true]
    /\ Forall (eq sizeof_can_frame) (write_counts (m_trace m))
    /\ last (written (m_trace m)) = Some (cmd_frame (dir_value (direction_to 43 b)) 80)
    /\ goal_of (m_ctx m) = None
    /\ forall n, written (m_trace (snd (exec (seatctrl_thread_loop n) m))) = written (m_trace m).
Proof.
  intros Hb Hne. pose proof stray_everywhere as H. rewrite forallb_forall in H. specialize (H b).
  destruct (Pool.sched ctl_handle late_clearing (successive b)) as [[m ts]|] eqn:E.
  2: { specialize (H ltac:(apply list_elem_of_In, elem_of_app; rewrite !elem_of_seqZ; lia)). done. }
  specialize (H ltac:(apply list_elem_of_In, elem_of_app; rewrite !elem_of_seqZ; lia)).
  apply (Pool.sched_steps any_env) in E; [|apply exec_any_env].
  unfold stray in H. rewrite !andb_true_iff, !bool_decide_eq_true in H.
  destruct H as [[[[H1 H2] H3] H4] H5]. exists m, ts. split_and!; try done.
  - apply Forall_forall. intros n Hn. rewrite forallb_forall in H2.
    apply Z.eqb_eq, H2, list_elem_of_In, Hn.
  - intros n. by destruct (idle_thread n m H3 H4).
Qed.
