(* ===== verification/DataBrokerFeeder.v ===== *)
(** * The data broker feeder

    [data_broker_feeder.cc].  The state shared by the feeder thread and the threads that feed
    values is one record; an operation is one atomic access to it (the code takes the mutex for
    [stored_values_], the flags are atomics), one call of the broker, or one wait.  Log output is
    left out. *)
From Stdlib Require Import ZArith Lia String.
From stdpp Require Import base numbers list strings gmap fin_maps.
From S2P Require Import Prelude Prog Grpc KuksaClient.

(** ** Data *)

(** What the feeder looks at in the broker's metadata of a data point. *)
Record Metadata := MkMetadata { md_name : string; md_id : Z; md_data_type : DataType }.

Record DatapointMetadata := Dp {
  name : string;
  data_type : DataType;
  change_type : ChangeType;
  initial_value : Datapoint;
  description : string }.

Definition DatapointConfiguration := list DatapointMetadata.
Abbreviation DatapointValues := (gmap string Datapoint).

(** The fields that change; [connected] is the flag of the client. *)
Record feeder := Feeder {
  stored_values_ : DatapointValues;
  id_map_ : gmap string Z;
  dp_meta_ : gmap string Metadata;
  feeder_active_ : bool;
  feeder_ready_ : bool;
  connected : bool }.

Definition set_stored v f := Feeder v (id_map_ f) (dp_meta_ f) (feeder_active_ f) (feeder_ready_ f) (connected f).
Definition set_ids v f := Feeder (stored_values_ f) v (dp_meta_ f) (feeder_active_ f) (feeder_ready_ f) (connected f).
Definition set_meta v f := Feeder (stored_values_ f) (id_map_ f) v (feeder_active_ f) (feeder_ready_ f) (connected f).
Definition set_active v f := Feeder (stored_values_ f) (id_map_ f) (dp_meta_ f) v (feeder_ready_ f) (connected f).
Definition set_ready v f := Feeder (stored_values_ f) (id_map_ f) (dp_meta_ f) (feeder_active_ f) v (connected f).
Definition set_connected v f := Feeder (stored_values_ f) (id_map_ f) (dp_meta_ f) (feeder_active_ f) (feeder_ready_ f) v.

Definition new_feeder (conn : bool) : feeder := Feeder ∅ ∅ ∅ true false conn.

Record RegistrationMetadata := Registration {
  reg_name : string; reg_data_type : DataType; reg_change_type : ChangeType; reg_description : string }.

(** ** Operations *)

Inductive fdE : Type -> Type :=
| F_get : fdE feeder
| F_mod (f : feeder -> feeder) : fdE unit
| F_swap_stored : fdE DatapointValues
| F_wait_connected : fdE bool
| F_get_metadata (names : list string) : fdE (Status * list Metadata)
| F_register (request : list RegistrationMetadata) : fdE (Status * gmap string Z)
| F_update (request : gmap Z Datapoint) : fdE (Status * gmap Z Z)
| F_cond_wait : fdE bool
| F_notify_all : fdE unit
| F_sleep_ms (ms : Z) : fdE unit.

Abbreviation fd := (prog fdE).

Definition f_get : fd feeder := trigger F_get.
Definition f_mod (g : feeder -> feeder) : fd unit := trigger (F_mod g).
Definition f_when (b : bool) (p : fd unit) : fd unit := if b then p else mret tt.

(** ** Values *)

Definition store (name : string) (value : Datapoint) (f : feeder) : feeder :=
  set_stored (<[name := value]> (stored_values_ f)) f.

Definition storeValues (values : list (string * Datapoint)) (f : feeder) : feeder :=
  foldl (fun f v => store (fst v) (snd v) f) f values.

(** [insert] of a range: what is there already stays. *)
Definition restore (values : DatapointValues) (f : feeder) : feeder :=
  set_stored (stored_values_ f ∪ values) f.

Definition FeedValue (name : string) (value : Datapoint) : fd unit :=
  f ← f_get;
  f_when (feeder_active_ f)
    (f_mod (store name value);;
     trigger F_notify_all).

Definition FeedValues (values : list (string * Datapoint)) : fd unit :=
  f ← f_get;
  f_when (feeder_active_ f)
    (f_mod (storeValues values);;
     trigger F_notify_all).

(** ** Errors *)

Definition unrecoverable (c : StatusCode) : bool :=
  match c with INTERNAL | UNAUTHENTICATED | UNIMPLEMENTED => true | _ => false end.

Definition handleError (status : Status) : fd unit :=
  f_when (unrecoverable (error_code status)) (f_mod (set_active false));;
  f_mod (set_connected false).

Definition restoreValues (values : DatapointValues) : fd unit := f_mod (restore values).

Section Feeder.
Variable dp_config_ : DatapointConfiguration.

(** ** Registration *)

Definition getMetadata : fd bool :=
  if (length dp_config_ =? 0)%nat then mret false else
  '(status, metadata) ← trigger (F_get_metadata (map name dp_config_));
  if ok status then
    f_mod (fun f => foldl (fun f m => set_meta (<[md_name m := m]> (dp_meta_ f)) f) f metadata);;
    mret true
  else
    handleError status;;
    mret false.

Definition dp_registered (meta : gmap string Metadata) (dp : DatapointMetadata) : bool :=
  match meta !! name dp with
  | None => false
  | Some md => bool_decide (data_type dp = md_data_type md)
  end.

Definition checkDatapoints : fd bool :=
  getMetadata;;
  f ← f_get;
  mret (forallb (dp_registered (dp_meta_ f)) dp_config_).

Definition registration (dp : DatapointMetadata) : RegistrationMetadata :=
  Registration (name dp) (data_type dp) (change_type dp) (description dp).

Definition registerDatapoints : fd bool :=
  registered ← checkDatapoints;
  if registered : bool then
    f_mod (fun f => set_ids ((md_id <$> dp_meta_ f) ∪ id_map_ f) f);;
    mret true
  else
  '(status, results) ← trigger (F_register (map registration dp_config_));
  if ok status then
    f_mod (set_ids results);;
    mret true
  else
    handleError status;;
    mret false.

(** ** Feeding *)

(** The request: the values whose name is known, by id. *)
Definition update_request (ids : gmap string Z) (values : DatapointValues) : gmap Z Datapoint :=
  foldl (fun req v => match ids !! fst v with
                      | Some id => <[id := snd v]> req
                      | None => req
                      end) ∅ (map_to_list values).

Definition feedToBroker (values_to_feed : DatapointValues) : fd bool :=
  f ← f_get;
  '(status, errors) ← trigger (F_update (update_request (id_map_ f) values_to_feed));
  if ok status then mret true
  else
    handleError status;;
    mret false.

(** [insert] of a pair: what is there already stays. *)
Definition insert_initial (values : DatapointValues) (dp : DatapointMetadata) : DatapointValues :=
  match values !! name dp with
  | Some _ => values
  | None => <[name dp := initial_value dp]> values
  end.

Definition feedStoredValues (feed_initial_values : bool) : fd unit :=
  values_to_feed ← trigger F_swap_stored;
  let values_to_feed :=
    if feed_initial_values then foldl insert_initial values_to_feed dp_config_ else values_to_feed in
  successfully_sent ← feedToBroker values_to_feed;
  f_when (negb successfully_sent)
    (restoreValues values_to_feed;;
     f ← f_get;
     f_when (feeder_active_ f && connected f) (trigger (F_sleep_ms 500))).

(** ** The feeder thread *)

Definition cleanup : fd unit :=
  f_mod (set_ids ∅);;
  f_mod (set_meta ∅);;
  f_mod (set_ready false).

(** Lines 120-136: wait for a notification, at most [fuel] times 5 s; [true] when still waiting. *)
Fixpoint wait_for_values (fuel : nat) : fd bool :=
  match fuel with
  | O => mret true
  | S fuel =>
      f ← f_get;
      if negb (feeder_active_ f) then mret false else
      notified ← trigger F_cond_wait;
      f ← f_get;
      if negb (feeder_active_ f) || negb (connected f) then mret false else
      if notified : bool then mret false else wait_for_values fuel
  end.

(** One pass of the inner loop, lines 98-151; [false] when the loop is left. *)
Definition feed_pass (fuel : nat) (also_feed_initial_values : bool) : fd bool :=
  f ← f_get;
  if negb (feeder_active_ f && connected f) then mret false else
  feedStoredValues also_feed_initial_values;;
  f ← f_get;
  (if feeder_active_ f && connected f then
     f ← f_get;
     f_when (bool_decide (stored_values_ f = ∅)) (wait_for_values fuel;; mret tt)
   else mret tt);;
  f ← f_get;
  mret (connected f).

(** The inner loop for at most [fuel] passes.  When they are used up the model goes on as if the
    connection had been lost, which the code does not do: a behaviour more, for every [fuel]. *)
Fixpoint feed_loop (fuel : nat) (also_feed_initial_values : bool) : fd unit :=
  match fuel with
  | O => mret tt
  | S fuel' =>
      again ← feed_pass fuel also_feed_initial_values;
      if again : bool then feed_loop fuel' false else mret tt
  end.

(** One iteration of [Run]; [false] when the loop ends. *)
Definition run_iteration (fuel : nat) : fd bool :=
  f ← f_get;
  if negb (feeder_active_ f) then mret false else
  trigger F_wait_connected;;
  f ← f_get;
  registered ← (if feeder_active_ f && connected f then registerDatapoints else mret true);
  if negb registered then
    trigger (F_sleep_ms 5000);;
    mret true
  else
  f_mod (set_ready true);;
  feed_loop fuel true;;
  cleanup;;
  mret true.

(** [Run] itself, for at most [iterations] iterations; [true] when it is still running. *)
Fixpoint Run (iterations fuel : nat) : fd bool :=
  match iterations with
  | O => mret true
  | S iterations =>
      again ← run_iteration fuel;
      if again : bool then Run iterations fuel else mret false
  end.

(** [subscriber_context_] is never set in this class, so there is no call to cancel. *)
Definition Shutdown : fd unit :=
  f ← f_get;
  f_when (feeder_active_ f)
    (f_mod (fun f => set_active false (set_stored ∅ f));;
     trigger F_notify_all).

Definition Ready : fd bool :=
  f ← f_get;
  if negb (feeder_active_ f) then mret false else
  f ← f_get;
  if negb (connected f) then mret false else
  f ← f_get;
  mret (feeder_ready_ f).

End Feeder.
