(* ===== verification/FeederSpec.v ===== *)
(** * Correctness of the data broker feeder

    The feeder thread runs against a broker ([Broker]) that answers anything and lets other
    threads store values while a call is under way ([during]).  [feed_delivers_or_keeps] is the
    central contract: a value is either delivered or kept, and a newer one is never overwritten. *)
From Stdlib Require Import ZArith Lia String.
From stdpp Require Import base numbers list strings gmap fin_maps relations.
From S2P Require Import Prelude Prog Stable Grpc KuksaClient DataBrokerFeeder.

(** ** The environment *)

Class Broker (S : Type) := {
  br_wait_connected : S -> bool * S;
  br_get_metadata : list string -> S -> (Status * list Metadata) * S;
  br_register : list RegistrationMetadata -> S -> (Status * gmap string Z) * S;
  br_update : gmap Z Datapoint -> S -> (Status * gmap Z Z) * S;
  br_cond_wait : S -> bool * S;
  br_during : S -> DatapointValues -> DatapointValues }.

Inductive fd_event :=
| EvMetadata (names : list string)
| EvRegister (request : list RegistrationMetadata)
| EvUpdate (request : gmap Z Datapoint)
| EvFeederSleep (ms : Z).

Record fmachine (S : Type) := FMachine { fm : feeder; fm_broker : S; fm_trace : list fd_event }.

Arguments FMachine {S} _ _ _.
Arguments fm {S} _.
Arguments fm_broker {S} _.
Arguments fm_trace {S} _.

Section Machine.
Context {S : Type} {B : Broker S}.

(** What the others did to the stored values while a call was under way. *)
Definition disturbed (b : S) (f : feeder) : feeder := set_stored (br_during b (stored_values_ f)) f.

Definition fd_handle : handler fdE (fmachine S) := fun X e =>
  match e in fdE X return fmachine S -> X * fmachine S with
  | F_get => fun m => (fm m, m)
  | F_mod g => fun m => (tt, FMachine (g (fm m)) (fm_broker m) (fm_trace m))
  | F_swap_stored => fun m =>
      (stored_values_ (fm m), FMachine (set_stored ∅ (fm m)) (fm_broker m) (fm_trace m))
  | F_wait_connected => fun m =>
      let '(r, b) := br_wait_connected (fm_broker m) in
      (r, FMachine (set_connected r (disturbed (fm_broker m) (fm m))) b (fm_trace m))
  | F_get_metadata names => fun m =>
      let '(r, b) := br_get_metadata names (fm_broker m) in
      (r, FMachine (disturbed (fm_broker m) (fm m)) b (fm_trace m ++ [EvMetadata names]))
  | F_register req => fun m =>
      let '(r, b) := br_register req (fm_broker m) in
      (r, FMachine (disturbed (fm_broker m) (fm m)) b (fm_trace m ++ [EvRegister req]))
  | F_update req => fun m =>
      let '(r, b) := br_update req (fm_broker m) in
      (r, FMachine (disturbed (fm_broker m) (fm m)) b (fm_trace m ++ [EvUpdate req]))
  | F_cond_wait => fun m =>
      let '(r, b) := br_cond_wait (fm_broker m) in
      (r, FMachine (disturbed (fm_broker m) (fm m)) b (fm_trace m))
  | F_notify_all => fun m => (tt, m)
  | F_sleep_ms ms => fun m => (tt, FMachine (fm m) (fm_broker m) (fm_trace m ++ [EvFeederSleep ms]))
  end.

Definition fd_exec {A} (p : fd A) (m : fmachine S) : A * fmachine S := run fd_handle p m.

Lemma fd_exec_bind {A C} (p : fd A) (k : A -> fd C) m :
  fd_exec (p ≫= k) m = let '(a, m') := fd_exec p m in fd_exec (k a) m'.
Proof. apply run_bind. Qed.

Lemma fd_exec_get {C} (k : feeder -> fd C) m : fd_exec (f_get ≫= k) m = fd_exec (k (fm m)) m.
Proof. done. Qed.

Lemma fd_exec_mod {C} g (k : unit -> fd C) m :
  fd_exec (f_mod g ≫= k) m = fd_exec (k tt) (FMachine (g (fm m)) (fm_broker m) (fm_trace m)).
Proof. done. Qed.

Lemma fd_exec_trigger {X C} (e : fdE X) (k : X -> fd C) m :
  fd_exec (trigger e ≫= k) m = let '(x, m') := fd_handle X e m in fd_exec (k x) m'.
Proof. done. Qed.

Lemma fd_exec_ret {C} (a : C) m : fd_exec (mret a) m = (a, m).
Proof. done. Qed.

Lemma fd_exec_if {C} (b : bool) (p q : fd C) m :
  fd_exec (if b then p else q) m = if b then fd_exec p m else fd_exec q m.
Proof. by destruct b. Qed.

(** ** The request *)

Definition initial_values (cfg : DatapointConfiguration) : DatapointValues :=
  list_to_map (map (fun dp => (name dp, initial_value dp)) cfg).

(** Initial values fill the gaps only. *)
Lemma insert_initials cfg values :
  foldl insert_initial values cfg = values ∪ initial_values cfg.
Proof.
  revert values. induction cfg as [|dp cfg IH]; intros values; simpl.
  { unfold initial_values. simpl. by rewrite (right_id_L ∅ (∪)). }
  rewrite IH. unfold insert_initial, initial_values. simpl.
  apply map_eq. intros n. rewrite !lookup_union.
  destruct (decide (n = name dp)) as [->|Hn].
  - destruct (values !! name dp) as [v|] eqn:E.
    + rewrite E, lookup_insert_eq. by destruct (list_to_map _ !! name dp).
    + rewrite !lookup_insert_eq. by destruct (list_to_map _ !! name dp).
  - destruct (values !! name dp) as [v|] eqn:E; by rewrite ?lookup_insert_ne by done.
Qed.

(** A request holds values with a known name only, under their ids, and there is a value under every
    id of a name that has one. *)
Lemma update_request_sound (ids : gmap string Z) (values : DatapointValues) id v :
  update_request ids values !! id = Some v -> exists n, ids !! n = Some id /\ values !! n = Some v.
Proof.
  unfold update_request. setoid_rewrite <- (elem_of_map_to_list values).
  induction (map_to_list values) as [|[n w] l IH] using rev_ind; [by cbn; rewrite lookup_empty|].
  rewrite foldl_snoc. cbn [fst snd]. setoid_rewrite elem_of_app.
  destruct (ids !! n) as [i|] eqn:Ei; [destruct (decide (i = id)) as [->|Hne]|].
  - rewrite lookup_insert_eq. intros [= <-]. exists n. split; [done|]. right. by apply list_elem_of_singleton.
  - rewrite lookup_insert_ne by done. intros (n' & ? & ?)%IH. eauto.
  - intros (n' & ? & ?)%IH. eauto.
Qed.

Lemma update_request_complete (ids : gmap string Z) (values : DatapointValues) n id v :
  ids !! n = Some id -> values !! n = Some v -> is_Some (update_request ids values !! id).
Proof.
  intros Hid Hv. apply elem_of_map_to_list in Hv. unfold update_request. revert Hv.
  induction (map_to_list values) as [|[n' w] l IH] using rev_ind; [by intros []%elem_of_nil|].
  rewrite foldl_snoc, elem_of_app, list_elem_of_singleton. cbn [fst snd]. intros [Hl|[= -> ->]].
  - destruct (ids !! n') as [i|]; [|by apply IH].
    destruct (decide (i = id)) as [->|Hne]; [by rewrite lookup_insert_eq|].
    rewrite lookup_insert_ne by done. by apply IH.
  - rewrite Hid, lookup_insert_eq. eauto.
Qed.

(** A value whose id belongs to no other value of the batch goes out. *)
Lemma update_request_unique (ids : gmap string Z) (values : DatapointValues) n id v :
  ids !! n = Some id -> values !! n = Some v ->
  (forall n', ids !! n' = Some id -> is_Some (values !! n') -> n' = n) ->
  update_request ids values !! id = Some v.
Proof.
  intros Hid Hv Hu. destruct (update_request_complete ids values n id v Hid Hv) as [w Hw].
  destruct (update_request_sound _ _ _ _ Hw) as (n' & Hn' & Hv').
  rewrite Hw, <- Hv, <- (Hu n' Hn') by eauto. by rewrite Hv'.
Qed.

(** ** Feeding *)

Lemma fd_exec_when b (p : fd unit) m :
  fd_exec (f_when b p) m = if b then fd_exec p m else (tt, m).
Proof. by destruct b. Qed.

Lemma fd_exec_handleError st m :
  fd_exec (handleError st) m
  = (tt, FMachine (set_connected false
             (set_active (feeder_active_ (fm m) && negb (unrecoverable (error_code st))) (fm m)))
           (fm_broker m) (fm_trace m)).
Proof.
  unfold handleError. destruct (unrecoverable _), m as [[? ? ? [] ? ?] b tr]; done.
Qed.

(** The values a pass sends: what is stored, and the initial values where nothing is stored. *)
Definition batch (cfg : DatapointConfiguration) (initial : bool) (f : feeder) : DatapointValues :=
  if initial then stored_values_ f ∪ initial_values cfg else stored_values_ f.

(** What the broker answers to the batch, and what is stored while it does. *)
Definition broker_answer (cfg : DatapointConfiguration) (initial : bool) (m : fmachine S) : Status :=
  fst (fst (br_update (update_request (id_map_ (fm m)) (batch cfg initial (fm m))) (fm_broker m))).

Definition meanwhile (m : fmachine S) : DatapointValues := br_during (fm_broker m) ∅.

Lemma feedStoredValues_spec cfg initial m :
  let m' := snd (fd_exec (feedStoredValues cfg initial) m) in
  let st := broker_answer cfg initial m in
  fm_trace m' = fm_trace m ++ [EvUpdate (update_request (id_map_ (fm m)) (batch cfg initial (fm m)))]
  /\ fm m' = (if ok st then set_stored (meanwhile m) (fm m)
             else set_connected false
                    (set_active (feeder_active_ (fm m) && negb (unrecoverable (error_code st)))
                       (set_stored (meanwhile m ∪ batch cfg initial (fm m)) (fm m))))
  /\ fm_broker m' = snd (br_update (update_request (id_map_ (fm m)) (batch cfg initial (fm m)))
                           (fm_broker m)).
Proof.
  cbv zeta. unfold feedStoredValues. rewrite fd_exec_trigger. cbn [fd_handle].
  set (b := batch cfg initial (fm m)). cbv zeta.
  assert ((if initial then foldl insert_initial (stored_values_ (fm m)) cfg
           else stored_values_ (fm m)) = b) as ->
    by (subst b; unfold batch; destruct initial; [apply insert_initials | done]).
  rewrite fd_exec_bind. unfold feedToBroker. rewrite fd_exec_get, fd_exec_trigger.
  cbn [fd_handle fm fm_broker fm_trace id_map_ set_stored disturbed stored_values_].
  unfold broker_answer, meanwhile. fold b.
  destruct (br_update (update_request (id_map_ (fm m)) b) (fm_broker m)) as [[st errs] br].
  cbn [fst snd]. rewrite fd_exec_if. destruct (ok st).
  - rewrite fd_exec_ret. done.
  - rewrite fd_exec_bind, fd_exec_handleError. rewrite fd_exec_ret. cbn [negb fd_exec f_when].
    unfold restoreValues. rewrite fd_exec_bind. cbn -[union]. rewrite andb_false_r. done.
Qed.

(** C20: One pass of feeding, whatever the ids are and whatever the broker answers.  One request is
    sent.  Under the id of every name with a value in the batch it holds the value of a name with
    this id, so the value itself if no other name with a value has the id.  When the broker refuses
    the request, every value of the batch is stored again, except where a newer value was stored in
    the meantime, and an unrecoverable error stops the feeder; when it accepts, only the newer values
    remain. *)
Theorem feed_delivers_or_keeps cfg initial m n v :
  let m' := snd (fd_exec (feedStoredValues cfg initial) m) in
  let st := broker_answer cfg initial m in
  let ids := id_map_ (fm m) in
  let values := batch cfg initial (fm m) in
  values !! n = Some v ->
  (exists req, fm_trace m' = fm_trace m ++ [EvUpdate req]
     /\ forall id, ids !! n = Some id ->
        (exists n', ids !! n' = Some id /\ is_Some (req !! id) /\ req !! id = values !! n')
        /\ ((forall n', ids !! n' = Some id -> is_Some (values !! n') -> n' = n) -> req !! id = Some v))
  /\ (ok st = true -> stored_values_ (fm m') = meanwhile m)
  /\ (ok st = false ->
       stored_values_ (fm m') !! n = Some (default v (meanwhile m !! n))
       /\ connected (fm m') = false
       /\ feeder_active_ (fm m') = feeder_active_ (fm m) && negb (unrecoverable (error_code st))).
Proof.
  cbv zeta. intros Hv. destruct (feedStoredValues_spec cfg initial m) as (Ht & Hf & _).
  rewrite Ht, Hf. split_and!.
  - eexists. split; [done|]. intros id Hid. split; [|by apply update_request_unique].
    destruct (update_request_complete _ _ _ _ _ Hid Hv) as [w Hw].
    destruct (update_request_sound _ _ _ _ Hw) as (n' & Hn' & Hv').
    exists n'. rewrite Hw. split_and!; [done | done | by rewrite Hv'].
  - by intros ->.
  - intros ->. split_and!; [|done|done]. cbn [stored_values_ set_connected set_active set_stored].
    rewrite lookup_union, Hv. by destruct (meanwhile m !! n).
Qed.

(** ** Registration *)

(** The feeder has metadata of the declared type for every name of the configuration. *)
Definition covered (cfg : DatapointConfiguration) (meta : gmap string Metadata) : Prop :=
  forall dp, In dp cfg -> exists md, meta !! name dp = Some md /\ md_data_type md = data_type dp.

Lemma covered_check cfg meta : forallb (dp_registered meta) cfg = true <-> covered cfg meta.
Proof.
  unfold covered, dp_registered. rewrite forallb_forall. apply forall_proper. intros dp.
  apply forall_proper. intros _. destruct (meta !! name dp) as [md|].
  - rewrite bool_decide_eq_true. split; [eauto | by intros (? & [= <-] & ?)].
  - split; [done | by intros (? & ? & _)].
Qed.

(** The metadata that is cached when the broker has been asked for it: the answer replaces what was
    there, name by name; after a failure everything stays. *)
Definition asked_metadata (cfg : DatapointConfiguration) (m : fmachine S) : gmap string Metadata :=
  let '(st, mds) := fst (br_get_metadata (map name cfg) (fm_broker m)) in
  if ok st then foldl (fun meta md => <[md_name md := md]> meta) (dp_meta_ (fm m)) mds else dp_meta_ (fm m).

Lemma cache_metadata (mds : list Metadata) f :
  foldl (fun f md => set_meta (<[md_name md := md]> (dp_meta_ f)) f) f mds
  = set_meta (foldl (fun meta md => <[md_name md := md]> meta) (dp_meta_ f) mds) f.
Proof. revert f. induction mds as [|md mds IH]; intros f; [by destruct f|]. simpl. by rewrite IH. Qed.

Lemma getMetadata_asks cfg m :
  cfg <> [] ->
  let m1 := snd (fd_exec (getMetadata cfg) m) in
  fm_trace m1 = fm_trace m ++ [EvMetadata (map name cfg)]
  /\ dp_meta_ (fm m1) = asked_metadata cfg m
  /\ fm_broker m1 = snd (br_get_metadata (map name cfg) (fm_broker m)).
Proof.
  intros Hne. unfold getMetadata. destruct (Nat.eqb_spec (length cfg) 0) as [E|E]; [by destruct cfg|].
  rewrite fd_exec_trigger. cbn [fd_handle]. unfold asked_metadata.
  destruct (br_get_metadata _ _) as [[st mds] b]. cbn [fst snd]. rewrite fd_exec_if. destruct (ok st).
  - rewrite fd_exec_mod, fd_exec_ret. cbn [snd fm fm_trace fm_broker]. by rewrite cache_metadata.
  - by rewrite fd_exec_bind, fd_exec_handleError, fd_exec_ret.
Qed.

(** C34: Registration.  The broker is asked for the metadata of all names.  If then there is metadata
    of the declared type for every name, nothing is registered, registration succeeds and every name
    gets the id of its metadata.  If not, the whole configuration is registered in one request: when
    that succeeds the ids are those the broker answers, when it fails registration fails and the
    client is disconnected. *)
Theorem registration_gives_ids cfg m :
  cfg <> [] ->
  let meta := asked_metadata cfg m in
  let asked := fm_trace m ++ [EvMetadata (map name cfg)] in
  let '(st, ids) :=
    fst (br_register (map registration cfg) (snd (br_get_metadata (map name cfg) (fm_broker m)))) in
  let '(r, m') := fd_exec (registerDatapoints cfg) m in
  (covered cfg meta ->
     r = true /\ fm_trace m' = asked
     /\ forall dp, In dp cfg -> exists md, meta !! name dp = Some md /\ id_map_ (fm m') !! name dp = Some (md_id md))
  /\ (~ covered cfg meta ->
     fm_trace m' = asked ++ [EvRegister (map registration cfg)] /\ r = ok st
     /\ if ok st then id_map_ (fm m') = ids else connected (fm m') = false).
Proof.
  intros Hne. cbv zeta. destruct (getMetadata_asks cfg m Hne) as (Ht & Hm & Hb).
  unfold registerDatapoints. rewrite fd_exec_bind. unfold checkDatapoints.
  rewrite fd_exec_bind. destruct (fd_exec (getMetadata cfg) m) as [r1 m1]. cbn [snd] in *.
  rewrite fd_exec_get, fd_exec_ret, <- Hb, <- Hm. destruct (forallb _ cfg) eqn:Hall.
  - rewrite fd_exec_mod, fd_exec_ret. destruct (fst (br_register _ _)) as [st ids].
    apply covered_check in Hall. split; [|by intros Hn; destruct (Hn Hall)]. intros _. split_and!; [done..|].
    intros dp Hin. destruct (Hall dp Hin) as (md & E & _). exists md. split; [done|].
    cbn [fm id_map_ set_ids]. rewrite lookup_union, lookup_fmap, E. simpl.
    by destruct (id_map_ (fm m1) !! name dp).
  - assert (~ covered cfg (dp_meta_ (fm m1))) as Hn by (rewrite <- covered_check; by rewrite Hall).
    rewrite fd_exec_trigger. cbn [fd_handle].
    destruct (br_register (map registration cfg) (fm_broker m1)) as [[st res] br].
    cbn [fst snd]. rewrite fd_exec_if. destruct (ok st) eqn:Est.
    + rewrite fd_exec_mod, fd_exec_ret. split; [done|]. intros _. split_and!; [|done..].
      cbn [fm_trace]. by rewrite Ht.
    + rewrite fd_exec_bind, fd_exec_handleError, fd_exec_ret. split; [done|]. intros _. split_and!; [|done..].
      cbn [fm_trace]. by rewrite Ht.
Qed.

(** ** Initial values *)

(** What has been done stays done. *)
Lemma trace_grows {A} (p : fd A) m : exists rest, fm_trace (snd (fd_exec p m)) = fm_trace m ++ rest.
Proof.
  apply (run_uses (fun _ _ => True) fd_handle (fun m' => exists rest, fm_trace m' = fm_trace m ++ rest));
    [|by apply uses_all | by exists []; rewrite app_nil_r].
  intros X e m1 _ [rest Hr].
  assert (exists more, fm_trace (snd (fd_handle X e m1)) = fm_trace m1 ++ more) as [more Hm].
  { destruct e; cbn; repeat case_match; cbn; eauto; by exists []; rewrite app_nil_r. }
  exists (rest ++ more). by rewrite Hm, Hr, app_assoc.
Qed.

(** The machine when the connection has been waited for. *)
Definition reconnected (m : fmachine S) : fmachine S := snd (fd_handle _ F_wait_connected m).

(** Once the feeder has connected and registered, its first request has the initial value of every data
    point for which no value is stored, whatever has been delivered on earlier connections. *)
Lemma first_request_initial cfg fuel m n id v :
  feeder_active_ (fm m) = true -> connected (fm (reconnected m)) = true ->
  let '(registered, m2) := fd_exec (registerDatapoints cfg) (reconnected m) in
  registered = true -> feeder_active_ (fm m2) = true -> connected (fm m2) = true ->
  initial_values cfg !! n = Some v -> stored_values_ (fm m2) !! n = None ->
  id_map_ (fm m2) !! n = Some id -> (forall n', id_map_ (fm m2) !! n' = Some id -> n' = n) ->
  exists req rest, fm_trace (snd (fd_exec (run_iteration cfg (Datatypes.S fuel)) m))
      = fm_trace m2 ++ EvUpdate req :: rest
    /\ req !! id = Some v.
Proof.
  intros Ha Hc. destruct (fd_exec (registerDatapoints cfg) (reconnected m)) as [registered m2] eqn:E.
  intros -> Ha2 Hc2 Hi Hs Hid Hu. unfold run_iteration. rewrite fd_exec_get, Ha. cbn [negb].
  rewrite fd_exec_trigger.
  assert (feeder_active_ (fm (reconnected m)) = true) as Har.
  { unfold reconnected. cbn [fd_handle]. by destruct (br_wait_connected (fm_broker m)). }
  unfold reconnected in *. destruct (fd_handle _ F_wait_connected m) as [r m1]. cbn [snd] in *.
  rewrite fd_exec_get, Har, Hc. cbn [andb]. rewrite fd_exec_bind, E. cbn [negb].
  rewrite fd_exec_mod. set (m3 := FMachine _ _ _). rewrite fd_exec_bind. cbn [feed_loop].
  rewrite fd_exec_bind. unfold feed_pass. rewrite fd_exec_get.
  change (feeder_active_ (fm m3)) with (feeder_active_ (fm m2)). change (connected (fm m3)) with (connected (fm m2)).
  rewrite Ha2, Hc2. cbn [andb negb]. rewrite fd_exec_bind.
  destruct (feedStoredValues_spec cfg true m3) as (Ht & _ & _).
  destruct (fd_exec (feedStoredValues cfg true) m3) as [u m4]. cbn [snd] in Ht.
  set (req := update_request _ _) in Ht. exists req.
  match goal with |- context [fd_exec ?p m4] => destruct (trace_grows p m4) as [rest1 H1]; destruct (fd_exec p m4) as [again m5] end.
  cbn [snd] in H1.
  match goal with |- context [fd_exec ?p m5] => destruct (trace_grows p m5) as [rest2 H2]; destruct (fd_exec p m5) as [u' m6] end.
  cbn [snd] in H2.
  match goal with |- context [fd_exec ?p m6] => destruct (trace_grows p m6) as [rest3 H3] end.
  exists (rest1 ++ rest2 ++ rest3). split.
  - rewrite H3, H2, H1, Ht. change (fm_trace m3) with (fm_trace m2). by rewrite <- !app_assoc.
  - apply update_request_unique with (n := n); [exact Hid | | intros n' Hn' _; by apply Hu].
    unfold batch. change (stored_values_ (fm m3)) with (stored_values_ (fm m2)).
    by rewrite lookup_union, Hs, Hi.
Qed.

(** ** Shutting down *)

(** An inactive feeder does nothing any more: values are ignored, every loop is left at its next
    test without a call to the broker. *)
Theorem inactive_feeder_rests cfg fuel initial n v m :
  feeder_active_ (fm m) = false ->
  fd_exec (FeedValue n v) m = (tt, m) /\ fd_exec (run_iteration cfg fuel) m = (false, m)
  /\ fd_exec (feed_loop cfg fuel initial) m = (tt, m)
  /\ fd_exec (wait_for_values (Datatypes.S fuel)) m = (false, m).
Proof.
  intros Ha. split_and!.
  - unfold FeedValue. by rewrite fd_exec_get, Ha.
  - unfold run_iteration. by rewrite fd_exec_get, Ha.
  - destruct fuel; [done|]. cbn [feed_loop]. rewrite fd_exec_bind. unfold feed_pass.
    by rewrite fd_exec_get, Ha.
  - cbn [wait_for_values]. by rewrite fd_exec_get, Ha.
Qed.

End Machine.

(** ** Interleavings

    The thread of [Run], the threads that feed values and the one that shuts down share the
    feeder; the client's flag may be set by anyone. *)
Definition any_broker : forall X, fdE X -> feeder -> X -> feeder -> Prop := fun X e =>
  match e in fdE X return feeder -> X -> feeder -> Prop with
  | F_get => fun f x f' => x = f /\ f' = f
  | F_mod g => fun f _ f' => f' = g f
  | F_swap_stored => fun f x f' => x = stored_values_ f /\ f' = set_stored ∅ f
  | F_wait_connected => fun f x f' => f' = set_connected x f
  | _ => fun f _ f' => exists c, f' = set_connected c f
  end.

Section Interleaving.
Variable cfg : DatapointConfiguration.

Definition stopped (f : feeder) : Prop := feeder_active_ f = false.

(** Operations that do not make an inactive feeder active. *)
Definition stays_down : forall X, fdE X -> Prop := fun X e =>
  match e with F_mod g => forall f, stopped f -> stopped (g f) | _ => True end.

Abbreviation stays := (uses stays_down).

Lemma stays_down_keeps X (e : fdE X) : stays_down X e -> op_keeps any_broker stopped e.
Proof.
  intros He f x f' Hf Hr. destruct e; cbn in *; subst; auto;
    lazymatch type of Hr with _ /\ _ => destruct Hr as [_ ->] | _ => destruct Hr as [c ->] end; done.
Qed.

Ltac stay :=
  repeat lazymatch goal with
  | |- uses _ (mret _) => exact I
  | |- uses _ (_ ≫= _) => apply uses_bind; [|intros ?]
  | |- uses _ (f_when ?b _) => unfold f_when; apply uses_if
  | |- uses _ (if ?b then _ else _) => lazymatch type of b with bool => apply uses_if end
  | |- uses _ f_get => exact (conj I (fun _ => I))
  | |- uses _ (f_mod _) => split; [intros ? ?|intros ?; exact I]
  | |- uses _ (trigger _) => split; [exact I | intros ?; exact I]
  | |- uses _ (match ?x with _ => _ end) => destruct x
  end.

Lemma stopped_fold {A} (l : list A) (g : feeder -> A -> feeder) f :
  (forall f a, stopped f -> stopped (g f a)) -> stopped f -> stopped (foldl g f l).
Proof. intros Hg. revert f. induction l as [|a l IH]; simpl; auto. Qed.

Lemma stays_feed_value n v : stays (FeedValue n v).
Proof. unfold FeedValue. stay. done. Qed.

Lemma stays_feed_values vs : stays (FeedValues vs).
Proof. unfold FeedValues. stay. by apply stopped_fold. Qed.

Lemma stays_shutdown : stays Shutdown.
Proof. unfold Shutdown. stay. done. Qed.

Lemma stays_register : stays (registerDatapoints cfg).
Proof.
  unfold registerDatapoints, checkDatapoints, getMetadata, handleError. stay; try done; by apply stopped_fold.
Qed.

Lemma stays_feed initial : stays (feedStoredValues cfg initial).
Proof. unfold feedStoredValues, feedToBroker, handleError, restoreValues. stay; done. Qed.

Lemma stays_wait fuel : stays (wait_for_values fuel).
Proof. induction fuel as [|fuel IH]; cbn [wait_for_values]; stay; done. Qed.

Lemma stays_feed_loop fuel : forall initial, stays (feed_loop cfg fuel initial).
Proof.
  induction fuel as [|fuel IH]; intros initial; cbn [feed_loop]; unfold feed_pass; stay;
    first [apply stays_feed | apply stays_wait | done].
Qed.

Lemma stays_run fuel : stays (run_iteration cfg fuel).
Proof.
  unfold run_iteration, cleanup. stay; first [apply stays_register | apply stays_feed_loop | done].
Qed.

Inductive feeder_call := CallFeedValue (n : string) (v : Datapoint)
  | CallFeedValues (vs : list (string * Datapoint)) | CallShutdown.

Definition feeder_call_of (c : feeder_call) : fd unit :=
  match c with
  | CallFeedValue n v => FeedValue n v
  | CallFeedValues vs => FeedValues vs
  | CallShutdown => Shutdown
  end.

Definition run_thread (fuel : nat) : Pool.thread :=
  Pool.Thread (run_iteration cfg fuel) (run_iteration cfg fuel).

Definition feeding_thread (calls : list feeder_call) : Pool.thread :=
  Pool.Thread (foldr (fun c rest => feeder_call_of c;; rest) (mret false) calls) (mret false).

(** Stopping is final: once the feeder is inactive, by [Shutdown] or by an unrecoverable error,
    no interleaving of the feeder thread with any clients makes it active again. *)
Theorem feeder_stop_is_final fuels clients f f' ts :
  feeder_active_ f = false ->
  rtc (Pool.step any_broker) (f, map run_thread fuels ++ map feeding_thread clients) (f', ts) ->
  feeder_active_ f' = false.
Proof.
  intros Hf Hsteps. apply (Pool.pool_keeps any_broker stopped _ _ Hsteps); [done|].
  enough (Forall (fun t => stays (Pool.cur t) /\ stays (Pool.body t))
    (map run_thread fuels ++ map feeding_thread clients)) as H.
  { eapply List.Forall_impl; [|exact H]. intros t [H1 H2]. split; (eapply keeps_uses; [apply stays_down_keeps | done]). }
  apply Forall_app. split; apply Forall_map, Forall_true.
  - intros fuel. split; apply stays_run.
  - intros calls. split; [|exact I]. induction calls as [|c calls IH]; [exact I|].
    cbn. apply uses_bind; [|intros; apply IH].
    destruct c; [apply stays_feed_value | apply stays_feed_values | apply stays_shutdown].
Qed.

End Interleaving.

(** ** A scripted broker *)
Module Scripted.

Record script := Script {
  s_metadata : list (Status * list Metadata);
  s_register : list (Status * gmap string Z);
  s_update : list (Status * gmap Z Z);
  s_during : DatapointValues }.

Definition pop {A} (d : A) (l : list A) : A * list A :=
  match l with [] => (d, []) | a :: l => (a, l) end.

#[export] Instance scripted_broker : Broker script := {|
  br_wait_connected s := (true, s);
  br_get_metadata _ s :=
    let '(r, l) := pop (Status_OK, []) (s_metadata s) in
    (r, Script l (s_register s) (s_update s) (s_during s));
  br_register _ s :=
    let '(r, l) := pop (Status_OK, ∅) (s_register s) in
    (r, Script (s_metadata s) l (s_update s) (s_during s));
  br_update _ s :=
    let '(r, l) := pop (Status_OK, ∅) (s_update s) in
    (r, Script (s_metadata s) (s_register s) l (s_during s));
  br_cond_wait s := (true, s);
  br_during s vs := s_during s ∪ vs |}.

Definition config : DatapointConfiguration :=
  [ Dp "a" UINT16 ON_CHANGE (uint32_value 10) "first";
    Dp "b" UINT16 ON_CHANGE (uint32_value 20) "second" ].

Definition down : Status := MkStatus UNAVAILABLE "down" "".

End Scripted.

Import Scripted.

(** Metadata of an earlier connection survives a failed registration, so a broker that knows only
    one of two data points passes the check: nothing is registered, and the values of both names
    go out under the same id. *)
Theorem stale_metadata_survives :
  let first_broker := [MkMetadata "a" 1 UINT16] in
  let second_broker := [MkMetadata "b" 1 UINT16] in
  let s := Scripted.Script [(Status_OK, first_broker); (Status_OK, second_broker)]
             [(Scripted.down, ∅)] [] ∅ in
  let run := (run_iteration Scripted.config 1;; run_iteration Scripted.config 1) in
  fm_trace (snd (fd_exec run (FMachine (new_feeder false) s [])))
  = [ EvMetadata ["a"%string; "b"%string];
      EvRegister (map registration Scripted.config);
      EvFeederSleep 5000;
      EvMetadata ["a"%string; "b"%string];
      EvUpdate {[ 1 := uint32_value 20 ]} ].
Proof. vm_compute. reflexivity. Qed.
