(* ===== verification/FeederLiveness.v ===== *)
(** * The feeder delivers

    A broker may refuse, fail and be unreachable for a while.  When its failures come to an end
    and are not of the kind that stops the feeder, a stored value reaches it. *)
From Stdlib Require Import ZArith Lia String.
From stdpp Require Import base numbers list strings gmap fin_maps.
From S2P Require Import Prelude Prog Grpc KuksaClient DataBrokerFeeder FeederSpec.

(** A call either succeeds or uses up some of the broker's [trouble]. *)
Definition attempt (success : bool) (before after : nat) : Prop :=
  if success then (after <= before)%nat else (after < before)%nat.

(** A broker that comes back.  [assign] are the ids that it gives to names at present, different ones
    to different names; [accepted] the updates it has taken, each with the ids of its time; [n] is
    the data point in question, which only the feeder feeds.  When an update fails the broker may
    have been restarted and then gives other ids; while the feeder connects and registers it keeps
    them ([stale_metadata_survives] shows what happens otherwise). *)
Class RecoveringBroker (S : Type) {B : Broker S} (cfg : DatapointConfiguration) (n : string) := {
  trouble : S -> nat;
  assign : S -> string -> Z;
  accepted : S -> list ((string -> Z) * gmap Z Datapoint);
  rb_inj b n1 n2 : assign b n1 = assign b n2 -> n1 = n2;
  rb_connect b :
    let '(r, b') := br_wait_connected b in
    attempt r (trouble b) (trouble b') /\ accepted b' = accepted b /\ assign b' = assign b;
  rb_metadata names b :
    let '((st, mds), b') := br_get_metadata names b in
    attempt (ok st) (trouble b) (trouble b') /\ accepted b' = accepted b /\ assign b' = assign b
    /\ unrecoverable (error_code st) = false
    /\ Forall (fun md => md_id md = assign b (md_name md)) mds;
  rb_register b :
    let '((st, ids), b') := br_register (map registration cfg) b in
    attempt (ok st) (trouble b) (trouble b') /\ accepted b' = accepted b /\ assign b' = assign b
    /\ unrecoverable (error_code st) = false
    /\ map_Forall (fun n i => i = assign b n) ids
    /\ (ok st = true -> forall dp, In dp cfg -> is_Some (ids !! name dp));
  rb_update req b :
    let '((st, _), b') := br_update req b in
    attempt (ok st) (trouble b) (trouble b')
    /\ accepted b' = accepted b ++ (if ok st then [(assign b, req)] else [])
    /\ (ok st = true -> assign b' = assign b)
    /\ unrecoverable (error_code st) = false;
  rb_cond_wait b :
    let '(_, b') := br_cond_wait b in
    (trouble b' <= trouble b)%nat /\ accepted b' = accepted b /\ assign b' = assign b;
  rb_during b vs : br_during b vs !! n = vs !! n }.

Section Liveness.
Context {S : Type} {B : Broker S} {cfg : DatapointConfiguration} {n : string}.
Context {RB : RecoveringBroker S cfg n}.
Variable v : Datapoint.
Hypothesis configured : In n (map name cfg).

Abbreviation trouble_of m := (trouble (fm_broker m)).
Abbreviation assign_of m := (assign (fm_broker m)).

(** The value is stored. *)
Record waiting (m : fmachine S) : Prop := Waiting {
  wa_active : feeder_active_ (fm m) = true;
  wa_stored : stored_values_ (fm m) !! n = Some v }.

(** It waits to be delivered, and the ids that the feeder knows are the broker's of now. *)
Record pending (m : fmachine S) : Prop := Pending {
  pe_waiting : waiting m;
  pe_ids : map_Forall (fun n i => i = assign_of m n) (id_map_ (fm m));
  pe_meta : map_Forall (fun n md => md_id md = assign_of m n) (dp_meta_ (fm m)) }.


(** Still pending, and still connected as before unless a failure was used up. *)
Definition progress (m m' : fmachine S) : Prop :=
  pending m' /\
  ((connected (fm m') = connected (fm m) /\ (trouble_of m' <= trouble_of m)%nat)
   \/ (connected (fm m') = false /\ (trouble_of m' < trouble_of m)%nat)).

Lemma progress_refl m : pending m -> progress m m.
Proof. split; [done | by left]. Qed.



Abbreviation careful :=
  (uses (fun X (e : fdE X) =>
     match e with F_register req => req = map registration cfg | _ => True end)).






(** ** Steps that make progress *)









(** ** Feeding *)




Lemma fd_exec_assoc {A C D} (p : fd A) (f : A -> fd C) (k : C -> fd D) m :
  fd_exec ((p ≫= f) ≫= k) m = fd_exec (p ≫= fun a => f a ≫= k) m.
Proof. rewrite !fd_exec_bind. destruct (fd_exec p m). by rewrite fd_exec_bind. Qed.





(** ** Iterations *)








End Liveness.
