(* ===== verification/SeatService.v ===== *)
(** * The seat service process

    [seat_data_feeder.cc], [seat_position_subscriber.cc] and [main.cc] of [bin/seat_service]: the
    adjuster's positions go to the broker, the broker's actuator targets go to the adjuster, and
    [main] wires the two, the gRPC server and the signal handler together. *)
From Stdlib Require Import ZArith Lia String.
From stdpp Require Import base numbers list strings gmap.
From S2P Require Import Prelude Prog Grpc KuksaClient SeatController Interleaving SeatAdjuster.
From S2P Require Import SeatsService DataBrokerFeeder.

(** ** The seat data feeder *)

(** Positions in tenths of a percent, as in the gRPC service. *)
Definition datapoint_of (position_in_percent : Z) : Datapoint :=
  if (0 <=? position_in_percent) && (position_in_percent <=? 100) then
    uint32_value (position_in_percent * 10)
  else if position_in_percent =? -1 then failure_value NOT_AVAILABLE
  else failure_value INVALID_VALUE.

(** The function given to [SubscribePosition], and its number. *)
Definition FEEDER_CB : Z := 5.

Definition position_callback (seat_pos_name : string) (position_in_percent : Z) : fd unit :=
  FeedValue seat_pos_name (datapoint_of position_in_percent).

(** ** The seat position subscriber *)

(** An update of an entry: its path, and the actuator target when it is a [uint32]. *)
Record EntryUpdate := Update { entry_path : string; actuator_target : option Z }.

Inductive psE : Type -> Type :=
| P_running : psE bool
| P_set_running (b : bool) : psE unit
| P_wait_connected : psE bool
| P_subscribe (path : string) : psE unit
| P_read : psE (option (list EntryUpdate))
| P_finish : psE Status
| P_set_seat_position (percent : Z) : psE SetResult
| P_set_context (present : bool) : psE unit
| P_context : psE bool
| P_try_cancel : psE unit
| P_sleep_s (s : Z) : psE unit.

Abbreviation ps := (prog psE).

(** Lines 87-105: one update of a response. *)
Definition handle_update (seat_pos_name : string) (update : EntryUpdate) : ps unit :=
  if bool_decide (entry_path update = seat_pos_name) then
    match actuator_target update with
    | Some position =>
        if (position <? 0) || (1000 <? position) then mret tt
        else
          let position_in_percent := Z.quot (u32 (position + 5)) 10 in
          trigger (P_set_seat_position position_in_percent);; mret tt
    | None => mret tt
    end
  else mret tt.

Definition handle_response (seat_pos_name : string) (updates : list EntryUpdate) : ps unit :=
  foldr (fun u rest => handle_update seat_pos_name u;; rest) (mret tt) updates.

(** Lines 81-106: until the stream ends; [fuel] bounds the responses. *)
Fixpoint read_loop (fuel : nat) (seat_pos_name : string) : ps unit :=
  match fuel with
  | O => mret tt
  | S fuel =>
      response ← trigger P_read;
      match response with
      | Some updates => handle_response seat_pos_name updates;; read_loop fuel seat_pos_name
      | None => mret tt
      end
  end.

(** One iteration of [Run] with [failures] failed subscriptions so far: the new count, or [None]
    when the loop ends. *)
Definition subscriber_iteration (fuel : nat) (seat_pos_name : string) (failures : Z)
    : ps (option Z) :=
  running ← trigger P_running;
  if negb running then mret None else
  connected ← trigger P_wait_connected;
  if negb connected then mret (Some failures) else
  trigger (P_set_context true);;
  trigger (P_subscribe seat_pos_name);;
  read_loop fuel seat_pos_name;;
  status ← trigger P_finish;
  if ok status then
    trigger (P_set_context false);;
    mret (Some 0)
  else
    let not_found := bool_decide (error_code status = NOT_FOUND) in
    let failures := if not_found then failures + 1 else failures in
    if not_found && (3 <? failures) then
      trigger (P_set_running false);;
      mret None
    else
      trigger (P_sleep_s 5);;
      trigger (P_set_context false);;
      mret (Some failures).

Fixpoint subscriber_loop (iterations fuel : nat) (seat_pos_name : string) (failures : Z)
    : ps (option Z) :=
  match iterations with
  | O => mret (Some failures)
  | S iterations =>
      r ← subscriber_iteration fuel seat_pos_name failures;
      match r with
      | Some failures => subscriber_loop iterations fuel seat_pos_name failures
      | None => mret None
      end
  end.

(** [Run], for at most [iterations] turns of its loop; [None] when it returned. *)
Definition subscriber_Run (iterations fuel : nat) (seat_pos_name : string) : ps (option Z) :=
  trigger (P_set_running true);;
  subscriber_loop iterations fuel seat_pos_name 0.

Definition subscriber_Shutdown : ps unit :=
  trigger (P_set_running false);;
  present ← trigger P_context;
  if present : bool then trigger P_try_cancel else mret tt.

(** ** main *)

Definition SEAT_POS_VSS_3 : string := "Vehicle.Cabin.Seat.Row1.Pos1.Position".
Definition SEAT_POS_VSS_4 : string := "Vehicle.Cabin.Seat.Row1.DriverSide.Position".

Definition metadata_4 : DatapointConfiguration :=
  [ Dp SEAT_POS_VSS_4 UINT16 ON_CHANGE createNotAvailableValue
      "Seat position on vehicle x-axis. Position is relative to the frontmost position supported by the seat. 0 = Frontmost position supported.";
    Dp "Vehicle.Cabin.SeatRowCount" UINT8 STATIC (createDatapoint_uint32 2)
      "Number of seat rows in vehicle.";
    Dp "Vehicle.Cabin.SeatPosCount" UINT8_ARRAY STATIC (createDatapoint_uint32s [2; 3])
      "Number of seats across each row from the front to the rear." ].

Definition metadata_3 : DatapointConfiguration :=
  [ Dp SEAT_POS_VSS_3 UINT16 ON_CHANGE createNotAvailableValue
      "Longitudinal position of overall seat";
    Dp "Vehicle.Cabin.SeatRowCount" UINT8 STATIC (createDatapoint_uint32 2)
      "Number of rows of seats";
    Dp "Vehicle.Cabin.SeatPosCount" UINT8_ARRAY STATIC (createDatapoint_uint32s [2; 3])
      "Number of seats across each row from the front to the rear." ].

(** What the process does, in order. *)
Inductive action :=
| CreateAdjuster (can_if_name : string)
| CreateClient (broker_addr : string)
| StartFeeder (name : string)
| StartSubscriber (name : string)
| BuildServer (address : string)
| StartServer
| WaitForSignal
| ShutdownFeeder
| ShutdownSubscriber
| ShutdownServer
| JoinServer
| JoinSubscriber
| JoinFeeder
| ShutdownProtobuf.

(** [server] tells whether [BuildAndStart] gives a server; the result is the actions and the exit
    code of the process. *)
Definition Run (can_if_name listen_address port broker_addr : string) (vss_4 server : bool)
    : list action * Z :=
  let metadata := if vss_4 then metadata_4 else metadata_3 in
  let seat_pos_name := if vss_4 then SEAT_POS_VSS_4 else SEAT_POS_VSS_3 in
  match metadata with
  | [] => ([], 1)
  | first :: _ =>
      if negb (bool_decide (seat_pos_name = name first)) then ([], 1)
      else
        ([CreateAdjuster can_if_name; CreateClient broker_addr; StartFeeder seat_pos_name;
          StartSubscriber seat_pos_name; BuildServer (listen_address +:+ ":" +:+ port)]
         ++ (if server then [StartServer; WaitForSignal] else [])
         ++ [ShutdownFeeder; ShutdownSubscriber]
         ++ (if server then [ShutdownServer; JoinServer] else [])
         ++ [JoinSubscriber; JoinFeeder; ShutdownProtobuf], 0)
  end.

(** [args] are [argv[1]] and so on; [env] answers [getenv]. *)
Definition main (args : list string) (env : string -> option string) (server : bool)
    : list action * Z :=
  let parsed :=
    match args with
    | [a1; a2; a3] => Some (a1, a2, a3)
    | [a1; a2] => Some (a1, a2, "50051"%string)
    | [a1] => Some (a1, "localhost"%string, "50051"%string)
    | _ => None
    end in
  match parsed with
  | None => ([], 1)
  | Some (can_if_name, listen_address, port) =>
      let broker_addr := getEnvVar (env "BROKER_ADDR"%string) "localhost:55555" in
      let vss_val := getEnvVar (env "VSS"%string) "4" in
      if bool_decide (vss_val = "3"%string) then
        Run can_if_name listen_address port broker_addr false server
      else if bool_decide (vss_val = "4"%string) then
        Run can_if_name listen_address port broker_addr true server
      else ([], 1)
  end.
