(* ===== verification/BrokerCalls.v ===== *)
(** * The calls of the broker client

    The methods of [kuksa_client.cc] that forward to the channel and to the generated stubs
    ([stubE], operations of the environment), and what the data feeder and the subscriber ask of
    the broker, made through them.  Every call goes out with the metadata of the client. *)
From Stdlib Require Import ZArith Lia String.
From stdpp Require Import base numbers list strings gmap relations.
From S2P Require Import Prelude Prog Stable Grpc KuksaClient SeatController Interleaving SeatAdjuster.
From S2P Require Import SeatsService DataBrokerFeeder SeatService.

(** ** The client over its stubs *)

(** What a [ClientContext] has been given. *)
Abbreviation context := (list (string * string)).

Inductive stubE : Type -> Type :=
| Channel_WaitForConnected : stubE bool
| Channel_GetState (try_to_connect : bool) : stubE Z
| Collector_RegisterDatapoints (c : context) (request : list RegistrationMetadata) : stubE (Status * gmap string Z)
| Collector_UpdateDatapoints (c : context) (request : gmap Z Datapoint) : stubE (Status * gmap Z Z)
| VAL_Subscribe (c : context) (path : string) : stubE unit
| Broker_GetMetadata (c : context) (names : list string) : stubE (Status * list Metadata).

(** [kuksaE]: a client object ([K_get], [K_put]) and the stubs it holds. *)
Inductive kuksaE : Type -> Type :=
| K_get : kuksaE KuksaClient
| K_mod (f : KuksaClient -> KuksaClient) : kuksaE unit
| Stub {X} (e : stubE X) : kuksaE X.

Abbreviation kc := (prog kuksaE).

Definition client_WaitForConnected : kc bool :=
  ready ← trigger (Stub Channel_WaitForConnected);
  trigger (K_mod (fun c => snd (WaitForConnected ready c)));;
  c ← trigger K_get;
  mret (Connected c).

Definition client_GetState : kc Z := trigger (Stub (Channel_GetState false)).

Definition client_createClientContext : kc context :=
  c ← trigger K_get;
  mret (createClientContext c).

Definition client_RegisterDatapoints (c : context) (request : list RegistrationMetadata) : kc (Status * gmap string Z) :=
  trigger (Stub (Collector_RegisterDatapoints c request)).

Definition client_UpdateDatapoints (c : context) (request : gmap Z Datapoint) : kc (Status * gmap Z Z) :=
  trigger (Stub (Collector_UpdateDatapoints c request)).

Definition client_Subscribe (c : context) (path : string) : kc unit := trigger (Stub (VAL_Subscribe c path)).

Definition client_GetMetadata (c : context) (names : list string) : kc (Status * list Metadata) :=
  trigger (Stub (Broker_GetMetadata c names)).

(** ** Its users *)

(** What the feeder and the subscriber do besides, and [subscriber_context_]. *)
Inductive callE : Type -> Type :=
| Kuksa {X} (e : kuksaE X) : callE X
| Feeder_ {X} (e : fdE X) : callE X
| Subscriber {X} (e : psE X) : callE X
| C_get : callE (option context)
| C_put (c : option context) : callE unit.

Abbreviation calls := (prog callE).

Definition ask {A} (p : kc A) : calls A := interp (fun X e => trigger (Kuksa e)) p.

(** A call with a context of its own. *)
Definition with_context_ {A} (call : context -> kc A) : calls A :=
  c ← ask client_createClientContext;
  ask (call c).

(** The feeder keeps [connected] itself as well: the flag is the client's. *)
Definition feeder_call : forall X, fdE X -> calls X := fun X e =>
  match e in fdE X return calls X with
  | F_wait_connected =>
      ready ← ask client_WaitForConnected;
      trigger (Feeder_ (F_mod (set_connected ready)));;
      mret ready
  | F_get_metadata names => with_context_ (fun c => client_GetMetadata c names)
  | F_register request => with_context_ (fun c => client_RegisterDatapoints c request)
  | F_update request => with_context_ (fun c => client_UpdateDatapoints c request)
  | e => trigger (Feeder_ e)
  end.

(** [Subscribe] takes the context that was made just before; there is no call without one. *)
Definition subscriber_call : forall X, psE X -> calls X := fun X e =>
  match e in psE X return calls X with
  | P_wait_connected => ask client_WaitForConnected
  | P_set_context true =>
      c ← ask client_createClientContext;
      trigger (C_put (Some c))
  | P_set_context false => trigger (C_put None)
  | P_context =>
      c ← trigger C_get;
      mret (bool_decide (is_Some c))
  | P_subscribe path =>
      c ← trigger C_get;
      match c with
      | Some c => ask (client_Subscribe c path)
      | None => mret tt
      end
  | e => trigger (Subscriber e)
  end.

(** ** The shared client *)

Record caller := Caller { ca_client : KuksaClient; ca_context : option context; ca_sent : list context }.

Definition context_of {X} (e : stubE X) : list context :=
  match e with
  | Collector_RegisterDatapoints c _ | Collector_UpdateDatapoints c _ | VAL_Subscribe c _
  | Broker_GetMetadata c _ => [c]
  | _ => []
  end.

(** The stubs and all else answer anything; what is called with which context is recorded. *)
Definition any_call : forall X, callE X -> caller -> X -> caller -> Prop := fun X e =>
  match e in callE X return caller -> X -> caller -> Prop with
  | Kuksa e =>
      match e in kuksaE X return caller -> X -> caller -> Prop with
      | K_get => fun s x s' => x = ca_client s /\ s' = s
      | K_mod f => fun s _ s' => s' = Caller (f (ca_client s)) (ca_context s) (ca_sent s)
      | Stub e => fun s _ s' => s' = Caller (ca_client s) (ca_context s) (ca_sent s ++ context_of e)
      end
  | C_get => fun s x s' => x = ca_context s /\ s' = s
  | C_put c => fun s _ s' => s' = Caller (ca_client s) c (ca_sent s)
  | Feeder_ _ | Subscriber _ => fun s _ s' => s' = s
  end.

Section Carried.
Variable md : GrpcMetadata.

Definition carried (s : caller) : Prop :=
  metadata_ (ca_client s) = md
  /\ (forall c, ca_context s = Some c -> c = map_to_list md)
  /\ Forall (eq (map_to_list md)) (ca_sent s).

Abbreviation carries := (keeps any_call carried).

Lemma carries_create : carries (ask client_createClientContext) (fun c => c = map_to_list md).
Proof. intros s x s' Hs [-> ->]. split; [done|]. cbn. unfold createClientContext. by destruct Hs as [-> _]. Qed.

Lemma carries_stub {X} (e : stubE X) :
  Forall (eq (map_to_list md)) (context_of e) -> carries (ask (trigger (Stub e))) (fun _ => True).
Proof.
  intros He s x s' (H1 & H2 & H3) ->. split; [|done]. split_and!; [done..|]. by apply Forall_app.
Qed.

Lemma carries_wait : carries (ask client_WaitForConnected) (fun _ => True).
Proof.
  intros s x s' (H1 & H2 & H3) ->. split; [split_and!; [done..|]; by apply Forall_app|].
  intros s1 [] s2 (G1 & G2 & G3) ->. split; [by split_and!|].
  intros s3 y s4 G [-> ->]. by split.
Qed.

Lemma carries_with_context {A} (call : context -> kc A) :
  carries (ask (call (map_to_list md))) (fun _ => True) -> carries (with_context_ call) (fun _ => True).
Proof. intros H. apply keeps_bind. eapply keeps_mono; [|apply carries_create]. by intros c ->. Qed.

Lemma carries_feeder {X} (e : fdE X) : carries (feeder_call X e) (fun _ => True).
Proof.
  destruct e; try (by intros s x s' Hs ->); cbn [feeder_call].
  - apply keeps_bind. eapply keeps_mono; [|apply carries_wait]. intros ready _ s [] s' Hs ->. by split.
  - apply carries_with_context, carries_stub. by repeat constructor.
  - apply carries_with_context, carries_stub. by repeat constructor.
  - apply carries_with_context, carries_stub. by repeat constructor.
Qed.

Lemma carries_subscriber {X} (e : psE X) : carries (subscriber_call X e) (fun _ => True).
Proof.
  destruct e as [ |b| |n| | |p|b| | |z]; try (by intros s x s' Hs ->); cbn [subscriber_call].
  - apply carries_wait.
  - intros s c s' Hs [-> ->]. split; [done|]. destruct (ca_context s) as [c|] eqn:Ec; [|done].
    apply carries_stub. destruct Hs as (_ & H & _). rewrite (H c Ec). by repeat constructor.
  - destruct b.
    + apply keeps_bind. eapply keeps_mono; [|apply carries_create].
      intros c -> s [] s' (H1 & H2 & H3) ->. split; [|done]. split_and!; [done | by intros c [= <-] | done].
    + intros s [] s' (H1 & H2 & H3) ->. split; [|done]. by split_and!.
  - intros s c s' Hs [-> ->]. by split.
Qed.

Lemma carries_interp {E A} (g : forall X, E X -> calls X) (p : prog E A) :
  (forall X (e : E X), carries (g X e) (fun _ => True)) -> carries (interp g p) (fun _ => True).
Proof.
  intros Hg. induction p as [a|X e k IH]; cbn [interp]; [done|]. change (prog_bind ?f ?q) with (q ≫= f).
  apply keeps_bind. eapply keeps_mono; [|apply Hg]. auto.
Qed.

End Carried.

Definition calling_feeder (cfg : DatapointConfiguration) (fuel : nat) : Pool.thread (E := callE) :=
  Pool.Thread (interp feeder_call (run_iteration cfg fuel)) (interp feeder_call (run_iteration cfg fuel)).

Definition calling_subscriber (n : string) (fuel : nat * nat) : Pool.thread (E := callE) :=
  Pool.Thread (interp subscriber_call (subscriber_Run (fst fuel) (snd fuel) n);; mret false) (mret false).

(** C30: The feeder and the subscriber share one client.  However they interleave and whatever the
    broker answers, every call that reaches a stub carries exactly the metadata of the client: the
    Dapr application id when [VEHICLEDATABROKER_DAPR_APP_ID] is set and not empty, else nothing. *)
Theorem calls_carry_app_id dapr_port app_id addr cfg n feeders subscribers s ts :
  rtc (Pool.step any_call)
    (Caller (new_KuksaClient dapr_port app_id addr) None [],
     map (calling_feeder cfg) feeders ++ map (calling_subscriber n) subscribers) (s, ts) ->
  Forall (eq (match app_id with
              | Some id => if empty id then [] else [("dapr-app-id"%string, id)]
              | None => []
              end)) (ca_sent s).
Proof.
  intros Hsteps.
  assert (map_to_list (getGrpcMetadata app_id)
          = match app_id with
            | Some id => if empty id then [] else [("dapr-app-id"%string, id)]
            | None => [] end) as <-.
  { unfold getGrpcMetadata, getEnvVar. destruct app_id as [id|]; [change (default "" (Some id)) with id | by cbn].
    destruct (empty id); cbn [negb]; [apply map_to_list_empty | apply map_to_list_singleton]. }
  apply (Pool.pool_keeps any_call (carried (getGrpcMetadata app_id)) _ _ Hsteps).
  { split_and!; done. }
  apply Forall_app. split; apply Forall_map, Forall_true.
  - intros fuel. split; apply carries_interp; intros; apply carries_feeder.
  - intros fuel. split; [|done]. apply keeps_bind. eapply keeps_mono; [|apply carries_interp; intros; apply carries_subscriber].
    done.
Qed.
