(* ===== verification/Signals.v ===== *)
(** * Waiting for a signal

    [main.cc] of [bin/seat_service] waits for SIGINT or SIGTERM through a pipe to itself: the signal
    handler writes the number of the signal, [wait_for_signal] reads it.  [kernel] is the pipe as
    POSIX describes it; what blocks for ever is recorded in [k_stuck]. *)
From Stdlib Require Import ZArith Lia String.
From stdpp Require Import base numbers list strings.
From S2P Require Import Prelude Prog Os.

Definition SIGINT : Z := 2.
Definition SIGTERM : Z := 15.
Definition O_NONBLOCK : Z := 2048.

(** [char sig = signal]. *)
Definition i8 (z : Z) : Z := (z + 2 ^ 7) mod 2 ^ 8 - 2 ^ 7.

(** Every call answers its result; [write] also [errno], [read] also the byte. *)
Inductive sigE : Type -> Type :=
| S_pipe : sigE Z
| S_fcntl_getfl : sigE Z
| S_fcntl_setfl (flags : Z) : sigE Z
| S_signal (signum : Z) : sigE unit
| S_write (byte : Z) : sigE (Z * Z)
| S_read : sigE (Z * Z).

Abbreviation sig := (prog sigE).

(** For at most [fuel] writes; [false] when it is still interrupted. *)
Fixpoint signal_handler (fuel : nat) (signal : Z) : sig bool :=
  match fuel with
  | O => mret false
  | S fuel =>
      '(r, errno) ← trigger (S_write (i8 signal));
      if r <? 0 then
        if errno =? EINTR then signal_handler fuel signal else mret true
      else mret true
  end.

(** [false] when the process exits with code 1. *)
Definition setup_signal_handler : sig bool :=
  r ← trigger S_pipe;
  if r =? -1 then mret false else
  fl ← trigger S_fcntl_getfl;
  r ← trigger (S_fcntl_setfl (Z.lor fl O_NONBLOCK));
  if negb (r =? 0) then mret false else
  trigger (S_signal SIGINT);;
  trigger (S_signal SIGTERM);;
  mret true.

Inductive wake := Received (signal : Z) | ReadError | UnexpectedEof.

Definition wait_for_signal : sig wake :=
  '(res, buf) ← trigger S_read;
  mret (if res <? 0 then ReadError else if res =? 1 then Received buf else UnexpectedEof).

(** ** The pipe *)

(** [k_interrupts] writes are interrupted before they do anything; [k_fails] lets [pipe] or
    [fcntl] fail. *)
Record kernel := Kernel {
  k_bytes : list Z; k_capacity : nat; k_flags : Z; k_interrupts : nat;
  k_handled : list Z; k_pipe_fails : bool; k_fcntl_fails : bool; k_stuck : bool }.

Definition k_set_bytes bs k := Kernel bs (k_capacity k) (k_flags k) (k_interrupts k) (k_handled k)
  (k_pipe_fails k) (k_fcntl_fails k) (k_stuck k).
Definition k_set_flags fl k := Kernel (k_bytes k) (k_capacity k) fl (k_interrupts k) (k_handled k)
  (k_pipe_fails k) (k_fcntl_fails k) (k_stuck k).
Definition k_interrupted k := Kernel (k_bytes k) (k_capacity k) (k_flags k) (pred (k_interrupts k))
  (k_handled k) (k_pipe_fails k) (k_fcntl_fails k) (k_stuck k).
Definition k_handle n k := Kernel (k_bytes k) (k_capacity k) (k_flags k) (k_interrupts k)
  (n :: k_handled k) (k_pipe_fails k) (k_fcntl_fails k) (k_stuck k).
Definition k_block k := Kernel (k_bytes k) (k_capacity k) (k_flags k) (k_interrupts k) (k_handled k)
  (k_pipe_fails k) (k_fcntl_fails k) true.

Definition nonblocking (k : kernel) : bool := negb (Z.land (k_flags k) O_NONBLOCK =? 0).

Definition kernel_handle : handler sigE kernel := fun X e =>
  match e in sigE X return kernel -> X * kernel with
  | S_pipe => fun k => if k_pipe_fails k then (-1, k) else (0, k_set_flags 0 (k_set_bytes [] k))
  | S_fcntl_getfl => fun k => (k_flags k, k)
  | S_fcntl_setfl fl => fun k => if k_fcntl_fails k then (-1, k) else (0, k_set_flags fl k)
  | S_signal n => fun k => (tt, k_handle n k)
  | S_write b => fun k =>
      match k_interrupts k with
      | S _ => ((-1, EINTR), k_interrupted k)
      | O =>
          if (length (k_bytes k) <? k_capacity k)%nat then ((1, 0), k_set_bytes (k_bytes k ++ [b]) k)
          else if nonblocking k then ((-1, EAGAIN), k) else ((-1, EAGAIN), k_block k)
      end
  | S_read => fun k =>
      match k_bytes k with
      | b :: rest => ((1, b), k_set_bytes rest k)
      | [] => ((-1, 0), k_block k)
      end
  end.

Abbreviation k_run := (run kernel_handle).

(** The handler is run for every signal that is delivered. *)
Definition deliver_signals (fuel : nat) (signals : list Z) (k : kernel) : kernel :=
  foldl (fun k s => snd (k_run (signal_handler fuel s) k)) k signals.

(** ** No signal is lost *)

(** The state in which the handler never blocks. *)
Record armed (k : kernel) : Prop := Armed {
  ar_nonblocking : nonblocking k = true; ar_room : (0 < k_capacity k)%nat; ar_free : k_stuck k = false }.

Lemma setup_arms k :
  (0 < k_capacity k)%nat -> k_stuck k = false ->
  let '(r, k') := k_run setup_signal_handler k in
  if r : bool then armed k' /\ k_bytes k' = [] /\ k_interrupts k' = k_interrupts k
    /\ In SIGINT (k_handled k') /\ In SIGTERM (k_handled k')
  else (k_pipe_fails k || k_fcntl_fails k) = true.
Proof.
  intros Hc Hs. destruct k as [bs c fl i h pf ff st]. unfold setup_signal_handler. cbn in Hc, Hs.
  destruct pf; [done|]. destruct ff; [done|]. cbn. split_and!; try done; [by right; left | by left].
Qed.

Lemma handler_wakes fuel s k :
  armed k -> (k_interrupts k < fuel)%nat ->
  let '(r, k') := k_run (signal_handler fuel s) k in
  r = true /\ armed k' /\ (k_interrupts k' <= k_interrupts k)%nat
  /\ match k_bytes k with
     | [] => k_bytes k' = [i8 s]
     | b :: _ => exists rest, k_bytes k' = b :: rest
     end.
Proof.
  revert k. induction fuel as [|fuel IH]; intros k [Hn Hr Hf] Hi; [lia|].
  cbn [signal_handler]. rewrite run_bind. cbn [run trigger kernel_handle].
  destruct (k_interrupts k) as [|i] eqn:Ei.
  - rewrite Hn. destruct (Nat.ltb_spec (length (k_bytes k)) (k_capacity k)) as [Hl|Hl]; cbn.
    + split_and!; try done; [lia|]. destruct (k_bytes k); [done | by eexists].
    + split_and!; try done; [lia|]. destruct (k_bytes k) as [|b bs] eqn:Eb; [cbn in Hl; lia | by exists bs].
  - cbn. specialize (IH (k_interrupted k)). destruct (k_run (signal_handler fuel s) _) as [r k'].
    destruct IH as (-> & H1 & H2 & H3); [by split | cbn; lia |]. cbn in H2, H3.
    split_and!; try done. lia.
Qed.

(** C36: When the signals are set up, any number of signals, at least one, with any number of interrupted
    writes and even when the pipe is full: the handler never blocks, and the wait ends with the
    number of the first of them. *)
Theorem first_signal_ends_the_wait fuel s signals k :
  (0 < k_capacity k)%nat -> k_stuck k = false -> k_pipe_fails k = false -> k_fcntl_fails k = false ->
  (k_interrupts k < fuel)%nat ->
  let '(ready, k1) := k_run setup_signal_handler k in
  let k2 := deliver_signals fuel (s :: signals) k1 in
  let '(woken, k3) := k_run wait_for_signal k2 in
  ready = true /\ woken = Received (i8 s) /\ k_stuck k3 = false.
Proof.
  intros Hc Hs Hp Hf Hi. pose proof (setup_arms k Hc Hs) as H. rewrite Hp, Hf in H.
  destruct (k_run setup_signal_handler k) as [[] k1]; [|done].
  destruct H as (Ha & Hb & Hk & _). cbv zeta. cbn [deliver_signals foldl].
  pose proof (handler_wakes fuel s k1 Ha ltac:(lia)) as H. rewrite Hb in H.
  destruct (k_run (signal_handler fuel s) k1) as [r k2]. destruct H as (_ & Ha2 & Hi2 & Hb2).
  cbn [snd]. fold (deliver_signals fuel signals k2).
  assert (exists rest, k_bytes k2 = i8 s :: rest) as Hb2' by (by exists []). clear Hb2.
  assert (k_interrupts k2 < fuel)%nat as Hi2' by lia. clear Hi2 Ha Hb Hk k1 r.
  assert (armed (deliver_signals fuel signals k2)
          /\ exists rest, k_bytes (deliver_signals fuel signals k2) = i8 s :: rest) as [Ha3 [rest Hb3]].
  { revert k2 Ha2 Hb2' Hi2'. induction signals as [|s2 signals IH]; intros k2 Ha2 [rest Hb2] Hi2;
      [by eauto|]. cbn [deliver_signals foldl].
    pose proof (handler_wakes fuel s2 k2 Ha2 Hi2) as H. rewrite Hb2 in H.
    destruct (k_run (signal_handler fuel s2) k2) as [r k3]. destruct H as (_ & Ha3 & Hi3 & Hb3).
    cbn [snd]. apply IH; [done..|lia]. }
  unfold wait_for_signal. rewrite run_bind. cbn [run trigger kernel_handle]. rewrite Hb3. cbn.
  split_and!; try done. apply Ha3.
Qed.
