(* ===== verification/FeederTypes.v ===== *)
(** * The types of the values that are fed

    The protocol of the broker says how the value of a data point is represented for its declared
    type ([has_type]).  Whatever the threads of the process do, the values the seat service
    stores and sends have the types it declares. *)
From Stdlib Require Import ZArith Lia String.
From stdpp Require Import base numbers list strings gmap fin_maps relations.
From S2P Require Import Prelude Prog Grpc KuksaClient DataBrokerFeeder FeederSpec SeatService.

(** ** Representation of values *)

Definition within (lo hi z : Z) : bool := (lo <=? z) && (z <=? hi).
Definition is_int (w : Z) : Z -> bool := within (- 2 ^ (w - 1)) (2 ^ (w - 1) - 1).
Definition is_uint (w : Z) : Z -> bool := within 0 (2 ^ w - 1).

(** There are no 8 and 16 bit integers in the protocol: they travel as 32 bit ones.  A failure
    stands for a value of any type. *)
Definition has_type (t : DataType) (v : Datapoint) : bool :=
  match t, v with
  | _, failure_value _ => true
  | STRING, string_value _ => true
  | BOOL, bool_value _ => true
  | INT8, int32_value z => is_int 8 z
  | INT16, int32_value z => is_int 16 z
  | INT32, int32_value z => is_int 32 z
  | INT64, int64_value z => is_int 64 z
  | UINT8, uint32_value z => is_uint 8 z
  | UINT16, uint32_value z => is_uint 16 z
  | UINT32, uint32_value z => is_uint 32 z
  | UINT64, uint64_value z => is_uint 64 z
  | FLOAT, float_value _ => true
  | DOUBLE, double_value _ => true
  | STRING_ARRAY, string_array _ => true
  | BOOL_ARRAY, bool_array _ => true
  | INT8_ARRAY, int32_array zs => forallb (is_int 8) zs
  | INT16_ARRAY, int32_array zs => forallb (is_int 16) zs
  | INT32_ARRAY, int32_array zs => forallb (is_int 32) zs
  | INT64_ARRAY, int64_array zs => forallb (is_int 64) zs
  | UINT8_ARRAY, uint32_array zs => forallb (is_uint 8) zs
  | UINT16_ARRAY, uint32_array zs => forallb (is_uint 16) zs
  | UINT32_ARRAY, uint32_array zs => forallb (is_uint 32) zs
  | UINT64_ARRAY, uint64_array zs => forallb (is_uint 64) zs
  | FLOAT_ARRAY, float_array _ => true
  | DOUBLE_ARRAY, double_array _ => true
  | _, _ => false
  end.

(** ** The feeder and the requests it has sent *)

Definition logged : Type := feeder * list (gmap Z Datapoint).

Definition logged_broker : forall X, fdE X -> logged -> X -> logged -> Prop :=
  fun X e s x s' =>
    any_broker X e (fst s) x (fst s')
    /\ snd s' = snd s ++ match e in fdE X with F_update req => [req] | _ => [] end.

(** The ids that an answer of the broker gives to names. *)
Definition ids_told {X} (e : fdE X) : X -> list (string * Z) :=
  match e in fdE X return X -> list (string * Z) with
  | F_get_metadata _ => fun r => if ok (fst r) then map (fun md => (md_name md, md_id md)) (snd r) else []
  | F_register _ => fun r => if ok (fst r) then map_to_list (snd r) else []
  | _ => fun _ => []
  end.

Section Values.
Variable cfg : DatapointConfiguration.
(** What may be fed, and under which name; the ids that the broker gives to names. *)
Variable fits : string -> Datapoint -> Prop.
Variable given : string * Z -> Prop.

Definition giving_broker : forall X, fdE X -> logged -> X -> logged -> Prop :=
  fun X e s x s' => logged_broker X e s x s' /\ Forall given (ids_told e x).

(** A request carries ids: its values fit a name to which the broker has given the id. *)
Definition request_fits (req : gmap Z Datapoint) : Prop :=
  map_Forall (fun id v => exists n, given (n, id) /\ fits n v) req.

(** The ids that the feeder knows are the broker's. *)
Definition ids_given (f : feeder) : Prop :=
  map_Forall (fun n id => given (n, id)) (id_map_ f)
  /\ map_Forall (fun n md => given (n, md_id md)) (dp_meta_ f).

(** Only values that fit are stored or have been sent. *)
Definition feeds_only (s : logged) : Prop :=
  map_Forall fits (stored_values_ (fst s)) /\ ids_given (fst s) /\ Forall request_fits (snd s).

Abbreviation feeds := (keeps giving_broker feeds_only).

(** ** Rules *)

Lemma feeds_get {C} (k : feeder -> fd C) Q :
  (forall f, ids_given f -> feeds (k f) Q) -> feeds (f_get ≫= k) Q.
Proof.
  intros H [f l] x [f' l'] Hs [[Hr Hlog] _]. cbn in Hr, Hlog. destruct Hr as [-> ->].
  rewrite app_nil_r in Hlog. subst l'. split; [done|]. apply H, Hs.
Qed.

Lemma feeds_swap {C} (k : DatapointValues -> fd C) Q :
  (forall vs, map_Forall fits vs -> feeds (k vs) Q) -> feeds (trigger F_swap_stored ≫= k) Q.
Proof.
  intros H [f l] x [f' l'] [Hs Hl] [[Hr Hlog] _]. cbn in Hr, Hlog. destruct Hr as [-> ->].
  rewrite app_nil_r in Hlog. subst l'. split; [|by apply H]. split; [|exact Hl].
  apply map_Forall_empty.
Qed.

Lemma feeds_mod g Q :
  (forall f, map_Forall fits (stored_values_ f) -> ids_given f ->
     map_Forall fits (stored_values_ (g f)) /\ ids_given (g f)) ->
  Q tt -> feeds (f_mod g) Q.
Proof.
  intros Hg HQ [f l] [] [f' l'] (Hs & Hi & Hl) [[Hr Hlog] _]. cbn in *. rewrite app_nil_r in Hlog. subst.
  split; [|done]. by destruct (Hg f Hs Hi).
Qed.

(** Calls of the broker and waits; what the broker says about ids is true. *)
Lemma feeds_call {X} (e : fdE X) (Q : X -> Prop) :
  match e with F_mod _ => False | F_update req => request_fits req | _ => True end ->
  (forall x, Forall given (ids_told e x) -> Q x) -> feeds (trigger e) Q.
Proof.
  intros He HQ [f l] x [f' l'] (Hs & Hi & Hl) [[Hr Hlog] Hx]. cbn [fst snd] in *.
  split; [|by apply HQ].
  assert ((stored_values_ f' = stored_values_ f \/ stored_values_ f' = ∅)
          /\ id_map_ f' = id_map_ f /\ dp_meta_ f' = dp_meta_ f) as (H1 & H2 & H3).
  { destruct e; try done; cbn in Hr;
      lazymatch type of Hr with
      | _ /\ _ => destruct Hr as [_ ->] | _ = _ => subst f' | _ => destruct Hr as [? ->] end; auto. }
  unfold feeds_only, ids_given. cbn [fst snd]. rewrite H2, H3. subst l'. split_and!; [|exact (proj1 Hi)|exact (proj2 Hi)|].
  - destruct H1 as [->| ->]; [done | apply map_Forall_empty].
  - apply Forall_app. split; [done|]. destruct e; by repeat constructor.
Qed.

Lemma feeds_seq {A C} (p : fd A) (k : A -> fd C) Q :
  feeds p (fun _ => True) -> (forall a, feeds (k a) Q) -> feeds (p ≫= k) Q.
Proof. intros Hp Hk. apply keeps_bind. eapply keeps_mono; [|done]. auto. Qed.

Lemma feeds_if {A} (b : bool) (p q : fd A) Q : feeds p Q -> feeds q Q -> feeds (if b then p else q) Q.
Proof. by destruct b. Qed.

Lemma feeds_when b p : feeds p (fun _ => True) -> feeds (f_when b p) (fun _ => True).
Proof. by destruct b. Qed.

Ltac feeding :=
  repeat lazymatch goal with
  | |- keeps _ _ (mret _) _ => exact I
  | |- keeps _ _ (f_get ≫= _) _ => apply feeds_get; intros ? ?
  | |- keeps _ _ (_ ≫= _) _ => apply feeds_seq; [|intros ?]
  | |- keeps _ _ (if ?b then _ else _) _ =>
      lazymatch type of b with bool => apply feeds_if end
  | |- keeps _ _ (f_when _ _) _ => apply feeds_when
  | |- keeps _ _ (f_mod _) _ => apply feeds_mod; [|done]
  | |- keeps _ _ (trigger _) _ => apply feeds_call; [done|intros; exact I]
  | |- keeps _ _ (match ?x with _ => _ end) _ => destruct x
  end.

(** ** The programs *)

Lemma feeds_feed_value n v : fits n v -> feeds (FeedValue n v) (fun _ => True).
Proof.
  intros Hv. unfold FeedValue. feeding. intros g Hg Hi. by split; [apply map_Forall_insert_2|].
Qed.

Lemma feeds_shutdown : feeds Shutdown (fun _ => True).
Proof. unfold Shutdown. feeding. intros g _ Hi. by split; [apply map_Forall_empty|]. Qed.

(** Metadata is cached with its ids. *)
Lemma cached_metadata (l : list Metadata) f :
  Forall given (map (fun md => (md_name md, md_id md)) l) ->
  map_Forall fits (stored_values_ f) -> ids_given f ->
  let f' := foldl (fun f m => set_meta (<[md_name m := m]> (dp_meta_ f)) f) f l in
  map_Forall fits (stored_values_ f') /\ ids_given f'.
Proof.
  intros Hl. revert f. induction l as [|m l IH]; intros f Hs [Hi Hm]; [by split_and!|].
  inversion Hl; subst. apply IH; [done | exact Hs |]. split; [exact Hi|]. by apply map_Forall_insert_2.
Qed.

Lemma feeds_handleError st : feeds (handleError st) (fun _ => True).
Proof. unfold handleError. feeding; by intros g Hg Hi. Qed.

Lemma feeds_getMetadata : feeds (getMetadata cfg) (fun _ => True).
Proof.
  unfold getMetadata. apply feeds_if; [done|]. apply keeps_bind.
  eapply keeps_mono; [|apply (feeds_call _ (fun x => Forall given (ids_told (F_get_metadata (map name cfg)) x))); done].
  intros [status metadata] Ht. cbn [ids_told fst snd] in Ht. destruct (ok status).
  - feeding. intros g. by apply cached_metadata.
  - apply feeds_seq; [apply feeds_handleError | done].
Qed.

Lemma feeds_register : feeds (registerDatapoints cfg) (fun _ => True).
Proof.
  unfold registerDatapoints, checkDatapoints. apply feeds_seq.
  { apply feeds_seq; [apply feeds_getMetadata | intros ?; by feeding]. }
  intros []; [feeding|].
  - intros g Hg [Hi Hm]. split; [exact Hg|]. split; [|exact Hm]. apply map_Forall_union_2; [|exact Hi].
    apply map_Forall_fmap. eapply map_Forall_impl; [exact Hm|]. done.
  - apply keeps_bind.
    eapply keeps_mono; [|apply (feeds_call _ (fun x => Forall given (ids_told (F_register (map registration cfg)) x))); done].
    intros [status results] Ht. cbn [ids_told fst snd] in Ht. destruct (ok status).
    + feeding. intros g Hg [_ Hm]. split; [exact Hg|]. split; [|exact Hm].
      intros n id Hid. rewrite Forall_forall in Ht. by apply Ht, elem_of_map_to_list.
    + apply feeds_seq; [apply feeds_handleError | done].
Qed.

(** The values of a request are values that were fed, under ids of their names. *)
Lemma update_request_values ids values :
  map_Forall (fun n id => given (n, id)) ids ->
  map_Forall fits values -> request_fits (update_request ids values).
Proof.
  intros Hi Hv. unfold update_request.
  assert (Forall (fun nv => fits (fst nv) (snd nv)) (map_to_list values)) as Hl.
  { apply Forall_forall. intros [n v] Hin%elem_of_map_to_list. by apply Hv. }
  revert Hl. generalize (map_to_list values). intros l Hl.
  assert (request_fits ∅) as H0 by apply map_Forall_empty. revert H0.
  generalize (∅ : gmap Z Datapoint).
  induction Hl as [|[n v] l Hn _ IH]; intros req Hreq; [done|]. simpl. apply IH.
  destruct (ids !! n) as [id|] eqn:E; [|done]. apply map_Forall_insert_2; [|done].
  exists n. split; [by apply Hi | done].
Qed.

Hypothesis initial_fits : Forall (fun dp => fits (name dp) (initial_value dp)) cfg.

Lemma insert_initials_fit dps values :
  (forall dp, In dp dps -> In dp cfg) ->
  map_Forall fits values -> map_Forall fits (foldl insert_initial values dps).
Proof.
  revert values. induction dps as [|dp dps IH]; intros values Hin Hv; [done|]. simpl.
  apply IH; [by auto using in_cons|]. unfold insert_initial. destruct (values !! name dp); [done|].
  apply map_Forall_insert_2; [|done].
  rewrite Forall_forall in initial_fits. apply initial_fits, list_elem_of_In, Hin. by left.
Qed.

Lemma feeds_feed initial : feeds (feedStoredValues cfg initial) (fun _ => True).
Proof.
  unfold feedStoredValues. apply feeds_swap. intros vs Hvs. cbv zeta.
  assert (map_Forall fits (if initial then foldl insert_initial vs cfg else vs)) as Hb
    by (destruct initial; [by apply insert_initials_fit | done]).
  generalize dependent (if initial then foldl insert_initial vs cfg else vs). intros b Hb.
  unfold feedToBroker, restoreValues. feeding; try apply feeds_handleError.
  - apply feeds_call; [|intros; exact I]. apply update_request_values; [|done]. apply H.
  - intros g Hg Hi. by split; [apply map_Forall_union_2|].
Qed.

Lemma feeds_wait fuel : feeds (wait_for_values fuel) (fun _ => True).
Proof. induction fuel as [|fuel IH]; cbn [wait_for_values]; feeding; done. Qed.

Lemma feeds_feed_loop fuel : forall initial, feeds (feed_loop cfg fuel initial) (fun _ => True).
Proof.
  induction fuel as [|fuel IH]; intros initial; cbn [feed_loop]; unfold feed_pass; feeding;
    first [apply feeds_feed | apply feeds_wait | done].
Qed.

Lemma feeds_run fuel : feeds (run_iteration cfg fuel) (fun _ => True).
Proof.
  unfold run_iteration, cleanup. feeding; try first [apply feeds_register | apply feeds_feed_loop].
  - by intros g Hg Hi.
  - intros g Hg [_ Hm]. split; [exact Hg|]. split; [apply map_Forall_empty | exact Hm].
  - intros g Hg [Hi _]. split; [exact Hg|]. split; [exact Hi | apply map_Forall_empty].
  - by intros g Hg Hi.
Qed.

End Values.

(** ** The types of a configuration *)

Definition conforms (cfg : DatapointConfiguration) (n : string) (v : Datapoint) : Prop :=
  exists dp, In dp cfg /\ name dp = n /\ has_type (data_type dp) v = true.

(** The values of a request have the type of a configured data point to which the broker has given
    the id they are sent under. *)
Definition request_conforms (cfg : DatapointConfiguration) (ids : list (string * Z)) : gmap Z Datapoint -> Prop :=
  request_fits (conforms cfg) (fun a => In a ids).

Lemma initial_values_conform cfg :
  Forall (fun dp => has_type (data_type dp) (initial_value dp) = true) cfg ->
  Forall (fun dp => conforms cfg (name dp) (initial_value dp)) cfg.
Proof.
  rewrite !Forall_forall. intros H dp Hin. exists dp. split_and!; [|done|by apply H].
  by apply list_elem_of_In.
Qed.

(** ** The seat service *)

Definition seat_metadata (vss_4 : bool) : DatapointConfiguration :=
  if vss_4 then metadata_4 else metadata_3.

Definition seat_pos_name (vss_4 : bool) : string := if vss_4 then SEAT_POS_VSS_4 else SEAT_POS_VSS_3.

(** A thread in which the adjuster reports positions, and which shuts the feeder down at the end
    if [stop] says so. *)
Definition reporting_thread (vss_4 stop : bool) (positions : list Z) : Pool.thread :=
  Pool.Thread
    (foldr (fun p rest => position_callback (seat_pos_name vss_4) p;; rest)
       ((if stop then Shutdown else mret tt);; mret false) positions)
    (mret false).

Lemma initial_values_typed vss_4 :
  Forall (fun dp => conforms (seat_metadata vss_4) (name dp) (initial_value dp)) (seat_metadata vss_4).
Proof. apply initial_values_conform. destruct vss_4; repeat constructor. Qed.

Lemma position_typed vss_4 p : conforms (seat_metadata vss_4) (seat_pos_name vss_4) (datapoint_of p).
Proof.
  assert (has_type UINT16 (datapoint_of p) = true) as Ht.
  { unfold datapoint_of. destruct (_ && _) eqn:E; [|by destruct (p =? -1)].
    cbn [has_type]. unfold is_uint, within. lia. }
  destruct vss_4; eexists; (split; [by left|]); by split.
Qed.

Lemma initial_position vss_4 :
  initial_values (seat_metadata vss_4) !! seat_pos_name vss_4 = Some (failure_value NOT_AVAILABLE).
Proof. by destruct vss_4. Qed.

(** C26: Whenever the seat service has connected and registered, so again after every lost
    connection, the first request it sends says of the seat's position that it is not available,
    unless a position is stored that has not been delivered: whatever position has been delivered
    before. *)
Theorem reconnect_feeds_not_available {S : Type} {B : Broker S} vss_4 fuel (m : fmachine S) id :
  feeder_active_ (fm m) = true -> connected (fm (reconnected m)) = true ->
  let '(registered, m2) := fd_exec (registerDatapoints (seat_metadata vss_4)) (reconnected m) in
  registered = true -> feeder_active_ (fm m2) = true -> connected (fm m2) = true ->
  stored_values_ (fm m2) !! seat_pos_name vss_4 = None ->
  id_map_ (fm m2) !! seat_pos_name vss_4 = Some id ->
  (forall n, id_map_ (fm m2) !! n = Some id -> n = seat_pos_name vss_4) ->
  exists req rest, fm_trace (snd (fd_exec (run_iteration (seat_metadata vss_4) (Datatypes.S fuel)) m))
      = fm_trace m2 ++ EvUpdate req :: rest
    /\ req !! id = Some (failure_value NOT_AVAILABLE).
Proof.
  intros Ha Hc. pose proof (first_request_initial (seat_metadata vss_4) fuel m (seat_pos_name vss_4) id
    (failure_value NOT_AVAILABLE) Ha Hc) as H.
  destruct (fd_exec _ (reconnected m)) as [registered m2]. intros H1 H2 H3.
  apply (H H1 H2 H3 (initial_position vss_4)).
Qed.

(** C27: Whatever positions the adjuster reports, however the threads interleave and whatever the broker
    answers: every value the service stores has the data type declared for the data point of its
    name, and every value it sends the type of a data point to which the broker has given the id
    that the value is sent under. *)
Theorem fed_values_have_their_type vss_4 conn fuels (reports : list (bool * list Z)) ids f log ts :
  let cfg := seat_metadata vss_4 in
  Pool.learns logged_broker (@ids_told)
    ((new_feeder conn, []),
     map (run_thread cfg) fuels ++ map (fun r => reporting_thread vss_4 (fst r) (snd r)) reports)
    ids ((f, log), ts) ->
  map_Forall (conforms cfg) (stored_values_ f) /\ Forall (request_conforms cfg ids) log.
Proof.
  cbv zeta. intros Hsteps%Pool.learns_steps.
  eapply (Pool.pool_keeps _ (feeds_only (conforms (seat_metadata vss_4)) (fun a => In a ids))) in Hsteps
    as [(H1 & _ & H2) _]; [done | by split_and!; try apply map_Forall_empty; constructor |].
  apply Forall_app. split; apply Forall_map, Forall_true.
  - intros fuel. split; apply feeds_run, initial_values_typed.
  - intros [stop positions]. split; [|exact I]. cbn [Pool.cur reporting_thread].
    induction positions as [|p positions IH]; cbn [foldr fst snd].
    + apply feeds_seq; [|done]. apply feeds_if; [apply feeds_shutdown | exact I].
    + apply feeds_seq; [|done]. apply feeds_feed_value, position_typed.
Qed.
