(* ===== verification/Process.v ===== *)
(** * The seat service as a process

    [main.cc] of [bin/seat_service] with all the threads it makes: the main thread performs the
    actions of [SeatService.main], the CTL thread is started by the adjuster, the data feeder and
    the position subscriber have a thread each, the gRPC server calls the adjuster from threads of
    its own, and signals interrupt.  Every thread is the program of its component, with the
    operations of all components gathered in one signature ([opE]) and tagged with the thread that
    performs them.  [proc_step] is one operation of one thread in any environment.

    An operation on an object that has been destroyed, or on the call context of the subscriber
    when there is none, is undefined in C++; the process records it in [pr_faults]. *)
From Stdlib Require Import ZArith Lia String.
From stdpp Require Import base numbers list strings gmap relations functions.
From S2P Require Import Prelude Prog CanDbc Os Grpc SeatController CtlMachine ApiSpec Invariants.
From S2P Require Import SeatAdjuster SeatsService KuksaClient DataBrokerFeeder FeederSpec SeatService Signals.
From S2P Require Import FeederTypes.

(** ** Threads, objects, operations *)

Inductive tid := TMain | TCtl | TFeeder | TSubscriber | TServer | THandler (i : nat) | TSignal (i : nat).

#[export] Instance tid_eq_dec : EqDecision tid.
Proof. solve_decision. Defined.

(** A signal handler runs in whatever thread is interrupted; it needs no start. *)
Inductive phase := NotStarted | Running | Finished.

#[export] Instance phase_eq_dec : EqDecision phase.
Proof. solve_decision. Defined.

(** The objects of [Run] that threads work on, and the call context of the subscriber. *)
Inductive object := ObjAdjuster | ObjFeeder | ObjSubscriber | ObjContext.

#[export] Instance object_eq_dec : EqDecision object.
Proof. solve_decision. Defined.

Inductive server_state := NoServer | Serving | Stopped.

Inductive opE : Type -> Type :=
| OpSa {X} (e : saE X) : opE X
| OpFd {X} (e : fdE X) : opE X
| OpPs {X} (e : psE X) : opE X
| OpSig {X} (e : sigE X) : opE X
| OpSpawn (t : tid) : opE unit
| OpEnd : opE unit
| OpJoin (t : tid) : opE unit
| OpServe : opE unit
| OpServerWait : opE unit
| OpArrive : opE unit
| OpStopServing : opE unit
| OpDrain : opE unit
| OpDeliver (signal : Z) : opE unit
| OpDestroy (o : object) : opE unit
| OpExit (code : Z) : opE unit.

Inductive procE : Type -> Type :=
| By {X} (t : tid) (e : opE X) : procE X.

Abbreviation proc := (prog procE).

(** ** The programs of the threads *)

Section Programs.
Context {CAN : Cantools}.
(** [SA_EXIT] of the adjuster. *)
Variable exit_on_error : bool.
(** The data point that is fed, and whether the server can be built. *)
Variable vss_4 : bool.
Variable t : tid.

Definition by_me {X} (e : opE X) : proc X := trigger (By t e).

Definition fd_op : forall X, fdE X -> proc X := fun X e => by_me (OpFd e).
Definition sig_op : forall X, sigE X -> proc X := fun X e => by_me (OpSig e).

(** The number of the data feeder's callback runs its function. *)
Definition sa_op : forall X, saE X -> proc X := fun X e =>
  match e in saE X return proc X with
  | CallCb cb pos =>
      by_me (OpSa (CallCb cb pos));;
      if cb =? FEEDER_CB then interp fd_op (position_callback (seat_pos_name vss_4) pos) else mret tt
  | e => by_me (OpSa e)
  end.

Definition as_adjuster {A} (p : sa A) : proc A := interp sa_op p.

Definition ps_op : forall X, psE X -> proc X := fun X e =>
  match e in psE X return proc X with
  | P_set_seat_position percent => as_adjuster (impl_SetSeatPosition exit_on_error percent)
  | e => by_me (OpPs e)
  end.

(** The thread function of the controller. *)
Definition ctl_prologue : proc bool :=
  as_adjuster (lift exit_on_error (mod_ctx (set_running true)));;
  mret true.

Definition until_done (again : bool) : proc bool :=
  if again then mret true else by_me OpEnd;; mret false.

Definition ctl_body : proc bool :=
  again ← as_adjuster (lift exit_on_error seatctrl_thread_iteration);
  until_done again.

Definition feeder_body (fuel : nat) : proc bool :=
  again ← interp fd_op (run_iteration (seat_metadata vss_4) fuel);
  until_done again.

(** [None]: the subscriber has returned. *)
Definition subscriber_program (iterations fuel : nat) : proc bool :=
  r ← interp ps_op (subscriber_Run iterations fuel (seat_pos_name vss_4));
  match r with
  | None => by_me OpEnd;; mret false
  | Some _ => mret false
  end.

Definition server_program : proc bool := by_me OpServerWait;; by_me OpEnd;; mret false.

(** A call of the gRPC service, handled in a thread of the server. *)
Inductive rpc :=
| RpcMove (request : MoveRequest)
| RpcMoveComponent (request : MoveComponentRequest)
| RpcCurrentPosition (request : CurrentPositionRequest) (reply : CurrentPositionReply).

Definition adj_op : forall X, adjE X -> proc X := fun X e =>
  match e in adjE X return proc X with
  | A_Get => as_adjuster (impl_GetSeatPosition exit_on_error)
  | A_Set percent => as_adjuster (impl_SetSeatPosition exit_on_error percent)
  end.

Definition handle_rpc (call : rpc) : proc unit :=
  match call with
  | RpcMove request => interp adj_op (Move request);; mret tt
  | RpcMoveComponent request => interp adj_op (MoveComponent request);; mret tt
  | RpcCurrentPosition request reply => interp adj_op (CurrentPosition request reply);; mret tt
  end.

Definition handler_program (call : rpc) : proc bool :=
  by_me OpArrive;;
  handle_rpc call;;
  by_me OpEnd;;
  mret false.

Definition signal_program (fuel : nat) (signal : Z) : proc bool :=
  by_me (OpDeliver signal);;
  interp sig_op (signal_handler fuel signal);;
  mret false.

(** ** The main thread *)

Definition perform (a : action) : proc unit :=
  match a with
  | CreateAdjuster _ => as_adjuster (adjuster_start exit_on_error)
  | CreateClient _ | BuildServer _ | ShutdownProtobuf => mret tt
  | StartFeeder _ => as_adjuster (impl_SubscribePosition FEEDER_CB);; by_me (OpSpawn TFeeder)
  | StartSubscriber _ => by_me (OpSpawn TSubscriber)
  | StartServer => by_me OpServe;; by_me (OpSpawn TServer)
  | WaitForSignal =>
      ready ← interp sig_op setup_signal_handler;
      if ready : bool then interp sig_op wait_for_signal;; mret tt
      else by_me (OpExit 1)
  | ShutdownFeeder => interp fd_op Shutdown
  | ShutdownSubscriber => interp ps_op subscriber_Shutdown
  | ShutdownServer => by_me OpStopServing;; by_me OpDrain
  | JoinServer => by_me (OpJoin TServer)
  | JoinSubscriber => by_me (OpJoin TSubscriber)
  | JoinFeeder => by_me (OpJoin TFeeder)
  end.

(** The end of the scope of [Run]: its objects are destroyed in reverse order. *)
Definition leave_scope : proc unit :=
  by_me (OpDestroy ObjSubscriber);;
  interp fd_op Shutdown;;
  by_me (OpDestroy ObjFeeder);;
  as_adjuster (SeatAdjusterImpl_destroy exit_on_error);;
  by_me (OpDestroy ObjAdjuster).

Definition perform_all (actions : list action) : proc unit :=
  foldr (fun a rest => perform a;; rest) (mret tt) actions.

Definition main_program (actions : list action) : proc bool :=
  perform_all actions;;
  leave_scope;;
  by_me (OpExit 0);;
  mret false.

End Programs.

(** ** The state *)

Record process (S : Type) := Process {
  pr_ctl : machine S;
  pr_self : adjuster_state;
  pr_feed : logged;
  pr_running : bool;
  (** [subscriber_context_], with whether its call is cancelled. *)
  pr_context : option bool;
  pr_kernel : kernel;
  pr_phase : tid -> phase;
  (** The id that the system has given to the CTL thread. *)
  pr_ctl_id : option Z;
  pr_server : server_state;
  pr_alive : object -> bool;
  pr_faults : list (tid * object);
  pr_exit : option Z }.

Arguments Process {S} _ _ _ _ _ _ _ _ _ _ _ _.
Arguments pr_ctl {S} _.
Arguments pr_self {S} _.
Arguments pr_feed {S} _.
Arguments pr_running {S} _.
Arguments pr_context {S} _.
Arguments pr_kernel {S} _.
Arguments pr_phase {S} _ _.
Arguments pr_ctl_id {S} _.
Arguments pr_server {S} _.
Arguments pr_alive {S} _ _.
Arguments pr_faults {S} _.
Arguments pr_exit {S} _.

Section State.
Context {S : Type}.

Definition with_ctl m (s : process S) : process S := Process m (pr_self s) (pr_feed s) (pr_running s) (pr_context s)
  (pr_kernel s) (pr_phase s) (pr_ctl_id s) (pr_server s) (pr_alive s) (pr_faults s) (pr_exit s).
Definition with_self a (s : process S) : process S := Process (pr_ctl s) a (pr_feed s) (pr_running s) (pr_context s)
  (pr_kernel s) (pr_phase s) (pr_ctl_id s) (pr_server s) (pr_alive s) (pr_faults s) (pr_exit s).
Definition with_feed f (s : process S) : process S := Process (pr_ctl s) (pr_self s) f (pr_running s) (pr_context s)
  (pr_kernel s) (pr_phase s) (pr_ctl_id s) (pr_server s) (pr_alive s) (pr_faults s) (pr_exit s).
Definition with_running b (s : process S) : process S := Process (pr_ctl s) (pr_self s) (pr_feed s) b (pr_context s)
  (pr_kernel s) (pr_phase s) (pr_ctl_id s) (pr_server s) (pr_alive s) (pr_faults s) (pr_exit s).
Definition with_context c (s : process S) : process S := Process (pr_ctl s) (pr_self s) (pr_feed s) (pr_running s) c
  (pr_kernel s) (pr_phase s) (pr_ctl_id s) (pr_server s) (pr_alive s) (pr_faults s) (pr_exit s).
Definition with_kernel k (s : process S) : process S := Process (pr_ctl s) (pr_self s) (pr_feed s) (pr_running s) (pr_context s)
  k (pr_phase s) (pr_ctl_id s) (pr_server s) (pr_alive s) (pr_faults s) (pr_exit s).
Definition with_phase (t : tid) (p : phase) (s : process S) : process S := Process (pr_ctl s) (pr_self s) (pr_feed s) (pr_running s) (pr_context s)
  (pr_kernel s) (<[t := p]> (pr_phase s)) (pr_ctl_id s) (pr_server s) (pr_alive s) (pr_faults s) (pr_exit s).
Definition with_ctl_id id (s : process S) : process S := Process (pr_ctl s) (pr_self s) (pr_feed s) (pr_running s) (pr_context s)
  (pr_kernel s) (pr_phase s) id (pr_server s) (pr_alive s) (pr_faults s) (pr_exit s).
Definition with_server v (s : process S) : process S := Process (pr_ctl s) (pr_self s) (pr_feed s) (pr_running s) (pr_context s)
  (pr_kernel s) (pr_phase s) (pr_ctl_id s) v (pr_alive s) (pr_faults s) (pr_exit s).
Definition without (o : object) (s : process S) : process S := Process (pr_ctl s) (pr_self s) (pr_feed s) (pr_running s) (pr_context s)
  (pr_kernel s) (pr_phase s) (pr_ctl_id s) (pr_server s) (<[o := false]> (pr_alive s)) (pr_faults s) (pr_exit s).
Definition with_fault f (s : process S) : process S := Process (pr_ctl s) (pr_self s) (pr_feed s) (pr_running s) (pr_context s)
  (pr_kernel s) (pr_phase s) (pr_ctl_id s) (pr_server s) (pr_alive s) (pr_faults s ++ f) (pr_exit s).
Definition exited code (s : process S) : process S := Process (pr_ctl s) (pr_self s) (pr_feed s) (pr_running s) (pr_context s)
  (pr_kernel s) (pr_phase s) (pr_ctl_id s) (pr_server s) (pr_alive s) (pr_faults s) (Some code).

(** The object an operation works on.  The context of the controller is a member of the adjuster. *)
Definition object_of {X} (e : opE X) : option object :=
  match e with
  | OpSa _ => Some ObjAdjuster
  | OpFd _ => Some ObjFeeder
  | OpPs P_try_cancel => Some ObjContext
  | OpPs _ => Some ObjSubscriber
  | _ => None
  end.

Definition usable (s : process S) (o : object) : bool :=
  match o with
  | ObjContext => bool_decide (is_Some (pr_context s))
  | o => pr_alive s o
  end.

Definition charge {X} (t : tid) (e : opE X) (s s' : process S) : process S :=
  match object_of e with
  | Some o => if usable s o then s' else with_fault [(t, o)] s'
  | None => s'
  end.

(** A thread acts while it is running; a handler begins by arriving. *)
Definition enabled {X} (s : process S) (t : tid) (e : opE X) : Prop :=
  match e with OpArrive => pr_phase s t = NotStarted | _ => pr_phase s t = Running end.

(** ** One operation

    [open_stream]: the broker keeps the stream of a subscription open until the call is
    cancelled, so that until then neither [Read] nor [Finish] sees its end.

    [pthread_create] starts the CTL thread (once: [Run] opens the controller only once) and gives it
    an id; no other thread is told by [pthread_self] that it has this id; [pthread_join] with this
    id waits for the CTL thread and succeeds, and with any other id fails at once. *)
Variable open_stream : bool.

Definition os_step {X} (t : tid) (e : osE X) : process S -> machine S -> X -> process S -> Prop :=
  match e in osE X return process S -> machine S -> X -> process S -> Prop with
  | O_pthread_create => fun s m r s' =>
      if fst r =? 0
      then pr_phase s TCtl = NotStarted /\ s' = with_ctl_id (Some (snd r)) (with_phase TCtl Running (with_ctl m s))
      else s' = with_ctl m s
  | O_pthread_self => fun s m id s' => (t <> TCtl -> pr_ctl_id s <> Some id) /\ s' = with_ctl m s
  | O_pthread_join id => fun s m rc s' =>
      (if bool_decide (pr_ctl_id s = Some id) then pr_phase s TCtl = Finished /\ rc = 0 else rc <> 0)
      /\ s' = with_ctl m s
  | _ => fun s m _ s' => s' = with_ctl m s
  end.

Definition ctl_step {X} (t : tid) (e : ctlE X) : process S -> machine S -> X -> process S -> Prop :=
  match e in ctlE X return process S -> machine S -> X -> process S -> Prop with
  | Os e => os_step t e
  | _ => fun s m _ s' => s' = with_ctl m s
  end.

Definition sa_step {X} (t : tid) (e : saE X) : process S -> X -> process S -> Prop :=
  match e in saE X return process S -> X -> process S -> Prop with
  | Ctl e => fun s x s' => exists m, any_env _ e (pr_ctl s) x m /\ ctl_step t e s m x s'
  | GetSelf => fun s x s' => x = pr_self s /\ s' = s
  | PutSelf a => fun s _ s' => s' = with_self a s
  | CallCb _ _ | LogCbNull => fun s _ s' => s' = s
  | Abort rc => fun s _ s' => s' = exited rc s
  end.

Definition ps_step {X} (e : psE X) : process S -> X -> process S -> Prop :=
  match e in psE X return process S -> X -> process S -> Prop with
  | P_running => fun s x s' => x = pr_running s /\ s' = s
  | P_set_running b => fun s _ s' => s' = with_running b s
  | P_wait_connected => fun s x s' =>
      s' = with_feed (set_connected x (fst (pr_feed s)), snd (pr_feed s)) s
  | P_read => fun s x s' =>
      (open_stream = true -> x = None -> pr_context s = Some true) /\ s' = s
  | P_set_context true => fun s _ s' => s' = with_context (Some false) s
  | P_set_context false => fun s _ s' => s' = with_context None s
  | P_context => fun s x s' => x = bool_decide (is_Some (pr_context s)) /\ s' = s
  | P_try_cancel => fun s _ s' =>
      s' = match pr_context s with Some _ => with_context (Some true) s | None => s end
  | P_finish => fun s _ s' => (open_stream = true -> pr_context s = Some true) /\ s' = s
  | P_subscribe _ | P_sleep_s _ | P_set_seat_position _ => fun s _ s' => s' = s
  end.

Definition op_step {X} (t : tid) (e : opE X) : process S -> X -> process S -> Prop :=
  match e in opE X return process S -> X -> process S -> Prop with
  | OpSa e => sa_step t e
  | OpFd e => fun s x s' => exists f, logged_broker _ e (pr_feed s) x f /\ s' = with_feed f s
  | OpPs e => ps_step e
  | OpSig e => fun s x s' =>
      (match e with S_read => k_bytes (pr_kernel s) <> [] | _ => True end)
      /\ x = fst (kernel_handle _ e (pr_kernel s))
      /\ s' = with_kernel (snd (kernel_handle _ e (pr_kernel s))) s
  | OpSpawn t' => fun s _ s' => pr_phase s t' = NotStarted /\ s' = with_phase t' Running s
  | OpEnd => fun s _ s' => s' = with_phase t Finished s
  | OpJoin t' => fun s _ s' => pr_phase s t' = Finished /\ s' = s
  | OpServe => fun s _ s' => pr_server s = NoServer /\ s' = with_server Serving s
  | OpServerWait => fun s _ s' => pr_server s = Stopped /\ s' = s
  | OpArrive => fun s _ s' => pr_server s = Serving /\ s' = with_phase t Running s
  | OpStopServing => fun s _ s' => s' = with_server Stopped s
  | OpDrain => fun s _ s' => (forall i, pr_phase s (THandler i) <> Running) /\ s' = s
  | OpDeliver signal => fun s _ s' => In signal (k_handled (pr_kernel s)) /\ s' = s
  | OpDestroy o => fun s _ s' => s' = without o s
  | OpExit code => fun s _ s' => s' = exited code s
  end.

Definition proc_step : forall X, procE X -> process S -> X -> process S -> Prop := fun X e =>
  match e in procE X return process S -> X -> process S -> Prop with
  | By t e => fun s x s' =>
      pr_exit s = None /\ enabled s t e /\ exists s1, op_step t e s x s1 /\ s' = charge t e s s1
  end.

(** ** The process at its start

    The context of the controller has just been initialised with [cfg] ([seatctrl_init_ctx]);
    until then the main thread is alone and [construction] says what it does. *)
Definition initial_phase (t : tid) : phase :=
  match t with TMain | TSignal _ => Running | _ => NotStarted end.

Definition process_init (cfg : seatctrl_config_t) (o : S) (k : kernel) : process S :=
  Process (Machine (ctx_init cfg) statics_init o []) (AdjusterState 0 false) (new_feeder false, [])
    false None k initial_phase None NoServer (fun _ => true) [] None.

Context {CAN : Cantools}.

(** The fuel of the threads, the requests and the signals: anything is possible. *)
Record workload := Workload {
  w_feeder : nat; w_subscriber : nat * nat; w_handlers : list rpc;
  w_signals : list (nat * Z) }.

Definition other_threads (exit_on_error vss_4 : bool) (w : workload) : list (Pool.thread (E := procE)) :=
  [ Pool.Thread (ctl_prologue exit_on_error vss_4 TCtl) (ctl_body exit_on_error vss_4 TCtl);
    Pool.Thread (feeder_body vss_4 TFeeder (w_feeder w)) (feeder_body vss_4 TFeeder (w_feeder w));
    Pool.Thread (subscriber_program exit_on_error vss_4 TSubscriber (fst (w_subscriber w)) (snd (w_subscriber w)))
      (mret false);
    Pool.Thread (server_program TServer) (mret false) ]
  ++ imap (fun i call => Pool.Thread (handler_program exit_on_error vss_4 (THandler i) call) (mret false))
       (w_handlers w)
  ++ imap (fun i fs => Pool.Thread (signal_program (TSignal i) (fst fs) (snd fs)) (mret false))
       (w_signals w).

Definition main_thread (exit_on_error vss_4 : bool) (actions : list action) : Pool.thread (E := procE) :=
  Pool.Thread (main_program exit_on_error vss_4 TMain actions) (mret false).

Definition start (exit_on_error vss_4 : bool) (cfg : seatctrl_config_t) (o : S) (k : kernel)
    (actions : list action) (w : workload) : process S * list (Pool.thread (E := procE)) :=
  (process_init cfg o k, main_thread exit_on_error vss_4 actions :: other_threads exit_on_error vss_4 w).

End State.

(** The state an operation leaves, when its step says so. *)
Ltac leaving H := lazymatch type of H with _ /\ _ => destruct H as [_ ->] | _ = _ => subst end.
