(* ===== verification/ProcessSpec.v ===== *)
(** * What holds at every moment of the process

    The invariants of the components hold for the whole process.  [process_keeps] is the general
    rule: an [Invariant] of the controller and a condition on the values that may be fed hold at
    every moment of the runs in which the bus reports certain positions and the broker names
    certain targets only.  [process_safe] is its first instance; [ProcessRequests] has two more. *)
From Stdlib Require Import ZArith Lia String.
From stdpp Require Import base numbers list strings gmap relations functions.
From S2P Require Import Prelude Prog Stable CanDbc Os Grpc SeatController CtlMachine ControllerSpec ApiSpec Invariants.
From S2P Require Import Interleaving SeatAdjuster SeatsService KuksaClient DataBrokerFeeder FeederSpec SeatService Signals.
From S2P Require Import FeederTypes Process.

(** The percentage the adjuster makes of a position of the controller. *)
Definition reported_percent (v : Z) : Z := if v =? MOTOR_POS_INVALID then -1 else v.

(** The percentage the subscriber makes of an actuator target. *)
Definition target_percent (position : Z) : Z := Z.quot (u32 (position + 5)) 10.

(** ** What the process learns from outside *)

(** The positions an operation takes from the bus. *)
Definition positions_in {X} (e : procE X) : X -> list Z :=
  match e in procE X return X -> list Z with
  | By _ e =>
      match e in opE X return X -> list Z with
      | OpSa e =>
          match e in saE X return X -> list Z with
          | Ctl e => positions_read e
          | _ => fun _ => []
          end
      | _ => fun _ => []
      end
  end.

(** The actuator targets that updates name for the seat. *)
Definition targets_of (name : string) (updates : list EntryUpdate) : list Z :=
  omap (fun u => if bool_decide (entry_path u = name) then actuator_target u else None) updates.

(** The targets an operation takes from the broker. *)
Definition targets_in (name : string) {X} (e : procE X) : X -> list Z :=
  match e in procE X return X -> list Z with
  | By _ e =>
      match e in opE X return X -> list Z with
      | OpPs e =>
          match e in psE X return X -> list Z with
          | P_read => fun x => match x with Some updates => targets_of name updates | None => [] end
          | _ => fun _ => []
          end
      | _ => fun _ => []
      end
  end.

(** The ids that the broker gives to names. *)
Definition ids_in {X} (e : procE X) : X -> list (string * Z) :=
  match e in procE X return X -> list (string * Z) with
  | By _ e =>
      match e in opE X return X -> list (string * Z) with
      | OpFd e => ids_told e
      | _ => fun _ => []
      end
  end.

Section Keeps.
Context {CAN : Cantools} {CANL : CantoolsLaws CAN} {S : Type}.
Variables exit_on_error vss_4 open_stream : bool.

(** The bus reports no positions but [seen], the broker names no targets but [told] and gives to
    names no ids but [given]. *)
Variables seen told : Z -> Prop.
Variable given : string * Z -> Prop.

Definition restricted : forall X, procE X -> process S -> X -> process S -> Prop :=
  fun X e s x s' => proc_step open_stream X e s x s'
    /\ Forall seen (positions_in e x) /\ Forall told (targets_in (seat_pos_name vss_4) e x)
    /\ Forall given (ids_in e x).

(** An invariant of the controller, and the values that may be fed. *)
Context {C : seatctrl_context_t -> Prop} {EV : event -> Prop} {ask : Z -> Prop} {started : Prop}.
Context {HI : Invariant C EV ask seen started}.
Variable fits : string -> Datapoint -> Prop.
Hypothesis reported_fits : forall cb v ud,
  EV (EvEventCb cb Motor1Pos v ud) -> fits (seat_pos_name vss_4) (datapoint_of (reported_percent v)).
Hypothesis told_ask : forall position,
  told position -> 0 <= position <= 1000 -> ask (target_percent position).
Hypothesis initial_fits :
  Forall (fun dp => fits (name dp) (initial_value dp)) (seat_metadata vss_4).

Definition both (s : process S) : Prop := obeys C EV (pr_ctl s) /\ feeds_only fits given (pr_feed s).

Abbreviation kept_by := (keeps restricted both).

Lemma charge_ctl {X} t (e : opE X) (s s' : process S) : pr_ctl (charge t e s s') = pr_ctl s'.
Proof. unfold charge. by repeat case_match. Qed.

Lemma charge_feed {X} t (e : opE X) (s s' : process S) : pr_feed (charge t e s s') = pr_feed s'.
Proof. unfold charge. by repeat case_match. Qed.

Lemma both_charge {X} t (e : opE X) (s s' : process S) : both s' -> both (charge t e s s').
Proof. unfold both. by rewrite charge_ctl, charge_feed. Qed.

(** An operation that leaves both components alone. *)
Definition aside {X} (e : opE X) : Prop :=
  match e with OpSa _ | OpFd _ => False | _ => True end.

Lemma aside_step {X} t (e : opE X) (s : process S) x s1 :
  aside e -> op_step open_stream t e s x s1 ->
  pr_ctl s1 = pr_ctl s
  /\ (pr_feed s1 = pr_feed s
      \/ exists c, pr_feed s1 = (set_connected c (fst (pr_feed s)), snd (pr_feed s))).
Proof.
  intros Ha Hst.
  destruct e as [X e|X e|X e|X e|t'| |t'| | | | | |g|o|c]; try done; cbn [op_step] in Hst;
    try (leaving Hst; by auto).
  - destruct e as [ |b| |n| | |p|b| | |z]; cbn [ps_step] in Hst;
      try (leaving Hst; by auto).
    + subst s1. split; [done|]. right. by exists x.
    + destruct b; subst s1; by auto.
    + destruct (pr_context s); subst s1; by auto.
  - destruct Hst as (_ & _ & ->). by auto.
Qed.

Lemma kept_aside {X} t (e : opE X) :
  aside e -> kept_by (by_me t e) (fun x => Forall told (targets_in (seat_pos_name vss_4) (By t e) x)).
Proof.
  intros Ha s x s' [HC HF] [(_ & _ & s1 & Hst & ->) (_ & Ht & _)]. split; [|exact Ht].
  apply both_charge. destruct (aside_step _ _ _ _ _ Ha Hst) as [E [F|[c F]]]; split; by rewrite ?E, ?F.
Qed.

Lemma kept_me {X} t (e : opE X) : aside e -> kept_by (by_me t e) (fun _ => True).
Proof. intros. eapply keeps_mono; [|by apply kept_aside]. done. Qed.

Lemma kept_seq_p {A B} (p : proc A) (k : A -> proc B) Q :
  kept_by p (fun _ => True) -> (forall a, kept_by (k a) Q) -> kept_by (p ≫= k) Q.
Proof. intros Hp Hk. apply keeps_bind. eapply keeps_mono; [|done]. auto. Qed.

(** ** Programs of the feeder *)

Lemma kept_fd_op {X} t (e : fdE X) :
  op_keeps (giving_broker given) (feeds_only fits given) e ->
  kept_by (fd_op t X e) (answered (giving_broker given) (feeds_only fits given) e).
Proof.
  intros He s x s' [HC HF] [(_ & _ & s1 & (f & Hf & ->) & ->) (_ & _ & Hg)].
  assert (giving_broker given X e (pr_feed s) x f) as Hr by by split. split.
  - apply both_charge. split; [done|]. by eapply He.
  - by exists (pr_feed s), f.
Qed.

Lemma kept_feeder {A} t (p : fd A) Q :
  keeps (giving_broker given) (feeds_only fits given) p Q -> kept_by (interp (fd_op t) p) Q.
Proof. apply keeps_interp. intros X e. apply kept_fd_op. Qed.

Lemma kept_signals {A} t (p : sig A) : kept_by (interp (sig_op t) p) (fun _ => True).
Proof.
  eapply (keeps_interp (fun _ _ (_ : unit) _ _ => True) _ (fun _ => True)).
  - intros X e _. apply (keeps_mono _ _ _ (fun _ => True)); [intros x _; by exists tt, tt|].
    by apply kept_me.
  - by apply (keeps_uses _ _ (fun _ _ => True)), uses_all.
Qed.

(** ** Programs of the adjuster

    They see the controller, and the positions the callback has been called with. *)
Definition heard (v : Z) : Prop := exists cb ud, EV (EvEventCb cb Motor1Pos v ud).

Definition heard_percent (p : Z) : Prop := exists v, heard v /\ p = reported_percent v.

Definition any_adjuster : forall X, saE X -> machine S * list Z -> X -> machine S * list Z -> Prop :=
  fun X e =>
  match e in saE X return machine S * list Z -> X -> machine S * list Z -> Prop with
  | Ctl e => fun m x m' => env_seeing seen _ e (fst m) x (fst m') /\ snd m' = snd m
  | CallCb _ p => fun m _ m' => fst m' = fst m /\ snd m' = snd m ++ [p]
  | _ => fun m _ m' => m' = m
  end.

Definition adjusting (m : machine S * list Z) : Prop :=
  obeys C EV (fst m) /\ Forall heard_percent (snd m).

Abbreviation adjusts := (keeps any_adjuster adjusting).

Lemma ctl_of_step {X} t (e : ctlE X) (s : process S) m x s1 :
  ctl_step t e s m x s1 -> pr_ctl s1 = m /\ pr_feed s1 = pr_feed s.
Proof.
  destruct e as [|f| |st|X e|cb ev v ud|l]; cbn [ctl_step]; try (by intros ->).
  destruct e; cbn [os_step]; try (by intros ->); try (by intros [_ ->]).
  destruct (_ =? _); [by intros [_ ->] | by intros ->].
Qed.

Lemma sa_of_step {X} t (e : saE X) (s : process S) x s1 :
  sa_step t e s x s1 -> Forall seen (positions_in (By t (OpSa e)) x) ->
  (exists l, any_adjuster _ e (pr_ctl s, []) x (pr_ctl s1, l)) /\ pr_feed s1 = pr_feed s.
Proof.
  destruct e as [X e| |a|cb p| |rc]; cbn [sa_step any_adjuster fst snd].
  - intros (m & Hm & Hs) Hx. destruct (ctl_of_step _ _ _ _ _ _ Hs) as [-> ->].
    split; [by exists [] | done].
  - intros [_ ->] _. split; [by exists [] | done].
  - intros -> _. split; [by exists [] | done].
  - intros -> _. split; [by exists [p] | done].
  - intros -> _. split; [by exists [] | done].
  - intros -> _. split; [by exists [] | done].
Qed.

Lemma kept_sa_step {X} t (e : saE X) :
  op_keeps any_adjuster adjusting e ->
  kept_by (trigger (By t (OpSa e)))
    (fun x => exists m l, adjusting (m, []) /\ any_adjuster _ e (m, []) x l /\ adjusting l).
Proof.
  intros He s x s' [HC HF] [(_ & _ & s1 & Hst & ->) (Hx & _)].
  destruct (sa_of_step _ _ _ _ _ Hst Hx) as [[l Ha] Hf].
  assert (adjusting (pr_ctl s, [])) as Hi by (by split).
  pose proof (He _ _ _ Hi Ha) as Hi'. split.
  - apply both_charge. split; [apply Hi' | by rewrite Hf].
  - by exists (pr_ctl s), (pr_ctl s1, l).
Qed.

Lemma kept_sa_op {X} t (e : saE X) :
  op_keeps any_adjuster adjusting e -> kept_by (sa_op vss_4 t X e) (answered any_adjuster adjusting e).
Proof.
  intros He.
  assert (kept_by (trigger (By t (OpSa e))) (answered any_adjuster adjusting e)) as Ht.
  { eapply keeps_mono; [|by apply kept_sa_step]. intros x (m & l & H & Ha & _). by exists (m, []), l. }
  destruct e as [X e| |a|cb p| |rc]; try exact Ht.
  cbn [sa_op]. apply keeps_bind. eapply keeps_mono; [|by apply kept_sa_step].
  intros [] (m & [m' l] & Hi & Ha & Hi'). pose proof Ha as [Hm Hl]. cbn [fst snd app] in Hm, Hl. subst m' l.
  destruct Hi' as [_ Hp]. apply Forall_singleton in Hp as (v & (cb' & ud & Hv) & ->).
  assert (answered any_adjuster adjusting (CallCb cb (reported_percent v)) tt) as Hans
    by (by exists (m, []), (m, [reported_percent v])).
  destruct (cb =? FEEDER_CB); [|exact Hans].
  eapply keeps_mono; [|apply kept_feeder, feeds_feed_value; by eapply reported_fits]. by intros [].
Qed.

Lemma kept_adjuster {A} t (p : sa A) Q : adjusts p Q -> kept_by (as_adjuster vss_4 t p) Q.
Proof. apply keeps_interp. intros X e. apply kept_sa_op. Qed.

(** The adjuster's own operations do not touch the controller. *)
Definition private {X} (e : saE X) : Prop :=
  match e with Ctl _ => False | CallCb _ p => heard_percent p | _ => True end.

Lemma adjusts_private {A} (p : sa A) : uses (@private) p -> adjusts p (fun _ => True).
Proof.
  apply keeps_uses. intros X e He m x m' [Hm Hl] Hr.
  destruct e; try done; try (by rewrite Hr).
  destruct Hr as [Hr1 Hr2]. split; [by rewrite Hr1|]. rewrite Hr2. apply Forall_app. by repeat constructor.
Qed.

Lemma private_event_cb ev v ud :
  (ev = Motor1Pos -> heard v) -> uses (@private) (seatctrl_event_cb exit_on_error ev v ud).
Proof.
  intros Hv. destruct ev; cbn [seatctrl_event_cb]; [by destruct exit_on_error|].
  assert (heard_percent (reported_percent v)) as Hp by (exists v; auto).
  destruct (negb _); [|done]. apply uses_bind; [done|]. intros a. destruct (negb _).
  - by cbn.
  - apply uses_bind; [by destruct (negb _) | done].
Qed.

Lemma adjusts_ctl {X} (e : ctlE X) :
  op_keeps (env_seeing seen) (obeys (S := S) C EV) e ->
  adjusts (trigger (Ctl e)) (fun x => exists m m' : machine S, env_seeing seen _ e m x m' /\ obeys C EV m /\ obeys C EV m').
Proof.
  intros He m x m' [Hm Hl] (Hr & Hs). pose proof (He _ _ _ Hm Hr) as Hm'.
  split; [by split; [|rewrite Hs] | by exists (fst m), (fst m')].
Qed.

Lemma adjusts_dispatch {X} (e : ctlE X) :
  op_keeps (env_seeing seen) (obeys (S := S) C EV) e ->
  adjusts (dispatch exit_on_error X e) (answered (env_seeing seen) (obeys (S := S) C EV) e).
Proof.
  intros He. pose proof (adjusts_ctl e He) as Ht.
  destruct e as [|f| |st|X e|cb ev v ud|l];
    try (eapply keeps_mono; [|exact Ht]; intros x (m & m' & Hr & Hm & _); by exists m, m').
  cbn [dispatch]. apply keeps_bind. eapply keeps_mono; [|exact Ht].
  intros [] (m & m' & Hr & Hm & [_ Ht']).
  assert (answered (env_seeing seen) (obeys (S := S) C EV) (EventCb cb ev v ud) tt) as Hans by (by exists m, m').
  destruct (cb =? _); [|exact Hans].
  eapply keeps_mono; [|apply adjusts_private, private_event_cb]; [by intros []|].
  intros ->. destruct Hr as [-> _]. apply Forall_app in Ht' as [_ Hev]. exists cb, ud. by inversion Hev.
Qed.

Lemma adjusts_lift {A} (p : ctl A) Q :
  keeps (env_seeing seen) (obeys (S := S) C EV) p Q -> adjusts (lift exit_on_error p) Q.
Proof. apply keeps_interp. intros X e. apply adjusts_dispatch. Qed.

Lemma adjusts_seq {A B} (p : ctl A) (k : A -> sa B) :
  keeps (env_seeing seen) (obeys (S := S) C EV) p (fun _ => True) -> (forall a, adjusts (k a) (fun _ => True)) ->
  adjusts (lift exit_on_error p ≫= k) (fun _ => True).
Proof. intros Hp Hk. apply keeps_bind. eapply keeps_mono; [|by apply adjusts_lift]. auto. Qed.

Lemma adjusts_abort b rc : adjusts (sa_when b (abort_service rc)) (fun _ => True).
Proof. apply adjusts_private. by destruct b. Qed.

Lemma adjusts_start : adjusts (adjuster_start exit_on_error) (fun _ => True).
Proof.
  unfold adjuster_start. apply adjusts_seq; [apply kept_set_event_callback|]. intros rc.
  destruct (negb _); [apply adjusts_abort|]. apply adjusts_seq; [apply kept_open|]. intros rc2.
  destruct (negb _); [apply adjusts_abort | done].
Qed.

Lemma adjusts_destroy : adjusts (SeatAdjusterImpl_destroy exit_on_error) (fun _ => True).
Proof. apply adjusts_seq; [apply kept_close | done]. Qed.

Lemma adjusts_set p : ask p -> adjusts (impl_SetSeatPosition exit_on_error p) (fun _ => True).
Proof. intros. apply adjusts_seq; [by apply kept_set_position | done]. Qed.

Lemma adjusts_get : adjusts (impl_GetSeatPosition exit_on_error) (fun _ => True).
Proof. apply adjusts_seq; [apply kept_get_position | done]. Qed.

(** ** Programs of the subscriber

    They see what the broker answers, and the positions the adjuster has been asked for. *)
Definition any_subscriber : forall X, psE X -> list Z -> X -> list Z -> Prop := fun X e =>
  match e in psE X return list Z -> X -> list Z -> Prop with
  | P_read => fun l x l' =>
      Forall told (match x with Some us => targets_of (seat_pos_name vss_4) us | None => [] end) /\ l' = l
  | P_set_seat_position percent => fun l _ l' => l' = l ++ [percent]
  | _ => fun l _ l' => l' = l
  end.

Abbreviation subscribes := (keeps any_subscriber (Forall ask)).

Lemma kept_ps_op {X} t (e : psE X) :
  op_keeps any_subscriber (Forall ask) e ->
  kept_by (ps_op exit_on_error vss_4 t X e) (answered any_subscriber (Forall ask) e).
Proof.
  intros He.
  assert (kept_by (by_me t (OpPs e)) 
      (fun x => Forall told (targets_in (seat_pos_name vss_4) (By t (OpPs e)) x))) as Ht
    by (by apply kept_aside).
  destruct e as [ |b| |n| | |p|b| | |z]; cbn [ps_op];
    try (eapply keeps_mono; [|exact Ht]; intros x _; by exists [], []).
  - eapply keeps_mono; [|exact Ht]. intros x Hx. exists [], []. by split_and!.
  - assert (ask p) as Hp.
    { apply Forall_singleton. by apply (He [] OK [p]). }
    eapply keeps_mono; [|by apply kept_adjuster, adjusts_set]. intros x _. exists [], [p]. by split.
Qed.

Lemma kept_ps {A} t (p : ps A) Q :
  subscribes p Q -> kept_by (interp (ps_op exit_on_error vss_4 t) p) Q.
Proof. apply keeps_interp. intros X e. apply kept_ps_op. Qed.

(** An operation that asks nothing of the adjuster. *)
Definition passive {X} (e : psE X) : Prop :=
  match e with P_set_seat_position _ => False | _ => True end.

Lemma subscribes_passive {A} (p : ps A) : uses (@passive) p -> subscribes p (fun _ => True).
Proof.
  apply keeps_uses. intros X e He l x l' Hl Hr. destruct e; try done; try (by rewrite Hr).
  by destruct Hr as [_ ->].
Qed.

Lemma subscribes_seq {A B} (p : ps A) (k : A -> ps B) Q :
  subscribes p (fun _ => True) -> (forall a, subscribes (k a) Q) -> subscribes (p ≫= k) Q.
Proof. intros Hp Hk. apply keeps_bind. eapply keeps_mono; [|done]. auto. Qed.

Lemma subscribes_if {A} (b : bool) (p q : ps A) Q :
  (b = true -> subscribes p Q) -> (b = false -> subscribes q Q) -> subscribes (if b then p else q) Q.
Proof. destruct b; auto. Qed.

Lemma subscribes_update u :
  Forall told (targets_of (seat_pos_name vss_4) [u]) ->
  subscribes (handle_update (seat_pos_name vss_4) u) (fun _ => True).
Proof.
  unfold targets_of, handle_update. cbn [omap list_omap]. case_bool_decide as Hn; [|done].
  destruct (actuator_target u) as [position|]; [|done]. intros Ht. inversion Ht as [|? ? Hp _]. subst.
  apply subscribes_if; [done|]. intros Hr l x l' Hl ->. split; [|done].
  apply Forall_app. split; [done|]. constructor; [|done]. apply told_ask; [done|lia].
Qed.

Lemma subscribes_read fuel : subscribes (read_loop fuel (seat_pos_name vss_4)) (fun _ => True).
Proof.
  induction fuel as [|fuel IH]; [done|]. intros l x l' Hl [Hx ->]. split; [done|].
  destruct x as [us|]; [|done]. apply subscribes_seq; [|done].
  clear Hl. induction us as [|u us IHu]; [done|].
  change (u :: us) with ([u] ++ us) in Hx. unfold targets_of in Hx. rewrite omap_app in Hx.
  apply Forall_app in Hx as [Hu Hx].
  apply subscribes_seq; [by apply subscribes_update | intros _; by apply IHu].
Qed.

Ltac subscribing :=
  repeat lazymatch goal with
  | |- keeps _ _ (mret _) _ => exact I
  | |- keeps _ _ (read_loop _ _) _ => apply subscribes_read
  | |- keeps _ _ (_ ≫= _) _ => apply subscribes_seq; [|intros ?]
  | |- keeps _ _ (if _ then _ else _) _ => apply subscribes_if; intros _
  | |- keeps _ _ (trigger _) _ => by apply subscribes_passive
  end.

Lemma subscribes_Run iterations fuel :
  subscribes (subscriber_Run iterations fuel (seat_pos_name vss_4)) (fun _ => True).
Proof.
  unfold subscriber_Run. subscribing. generalize 0. induction iterations as [|n IH]; intros failures; [done|].
  cbn [subscriber_loop]. apply subscribes_seq; [unfold subscriber_iteration; cbv zeta; subscribing|].
  intros [f|]; [apply IH | done].
Qed.

(** ** The threads *)

Lemma kept_until t again : kept_by (until_done t again) (fun _ => True).
Proof. destruct again; [done|]. by apply kept_seq_p; [apply kept_me|]. Qed.

Lemma kept_perform a : kept_by (perform exit_on_error vss_4 TMain a) (fun _ => True).
Proof.
  destruct a; cbn [perform]; try done; try by apply kept_me.
  - apply kept_adjuster, adjusts_start.
  - apply kept_seq_p; [|intros; by apply kept_me]. apply kept_adjuster, adjusts_private. by cbn.
  - apply kept_seq_p; [by apply kept_me | intros; by apply kept_me].
  - apply kept_seq_p; [apply kept_signals|]. intros [].
    + apply kept_seq_p; [apply kept_signals | done].
    + by apply kept_me.
  - apply kept_feeder, feeds_shutdown.
  - apply kept_ps. unfold subscriber_Shutdown. subscribing.
  - apply kept_seq_p; [by apply kept_me | intros; by apply kept_me].
Qed.

Lemma kept_main actions : kept_by (main_program exit_on_error vss_4 TMain actions) (fun _ => True).
Proof.
  unfold main_program, leave_scope, perform_all. apply kept_seq_p.
  - induction actions as [|a actions IH]; [done|]. apply kept_seq_p; [apply kept_perform | done].
  - intros _. repeat (apply kept_seq_p; [|intros _]); try done; try (by apply kept_me).
    + apply kept_feeder, feeds_shutdown.
    + apply kept_adjuster, adjusts_destroy.
Qed.

(** *** The handlers of the gRPC service *)

(** The percentage a call asks the adjuster for, when it is admitted. *)
Definition asks_for (call : rpc) (percent : Z) : Prop :=
  match call with
  | RpcMove request =>
      let seat := move_seat request in
      let base := base_position (seat_position seat) in
      admission (seat_location seat) BASE base = Code_OK /\ percent = to_percent base
  | RpcMoveComponent request =>
      admission (mc_seat request) (mc_component request) (mc_position request) = Code_OK
      /\ percent = to_percent (mc_position request)
  | RpcCurrentPosition _ _ => False
  end.

(** What a handler may ask of the adjuster. *)
Definition may_ask {X} (e : adjE X) : Prop :=
  match e with A_Get => True | A_Set percent => ask percent end.

Lemma asks_component req :
  (admission (mc_seat req) (mc_component req) (mc_position req) = Code_OK -> ask (to_percent (mc_position req))) ->
  uses (@may_ask) (MoveComponent req).
Proof.
  unfold admission, driver_seat, legal_base, MoveComponent. intros H.
  destruct (row _ =? 1), (index _ =? 1), (_ =? BASE); cbn [negb orb andb] in *; try done.
  destruct (_ || _) eqn:E; [done|]. split; [|done]. apply H.
  by replace ((0 <=? _) && (_ <=? 1000)) with true by lia.
Qed.

Lemma kept_handling {A} t (p : handling A) :
  uses (@may_ask) p -> kept_by (interp (adj_op exit_on_error vss_4 t) p) (fun _ => True).
Proof.
  induction p as [a|X e k IH]; [done|]. intros [He Hk]. cbn [interp].
  change (prog_bind ?f ?q) with (q ≫= f). apply kept_seq_p; [|intros x; by apply IH].
  destruct e; cbn [adj_op]; [apply kept_adjuster, adjusts_get | by apply kept_adjuster, adjusts_set].
Qed.

Lemma kept_handler i call :
  (forall percent, asks_for call percent -> ask percent) ->
  kept_by (handler_program exit_on_error vss_4 (THandler i) call) (fun _ => True).
Proof.
  intros Hc. apply kept_seq_p; [by apply kept_me|]. intros _.
  apply kept_seq_p; [|intros _; by apply kept_seq_p; [apply kept_me|]].
  destruct call as [req|req|req reply]; (apply kept_seq_p; [apply kept_handling | done]).
  - rewrite Move_is_MoveComponent_BASE. apply asks_component. intros Ha. by apply Hc.
  - apply asks_component. intros Ha. by apply Hc.
  - unfold CurrentPosition. by destruct (_ || _).
Qed.

(** The threads of a process, one kind after the other. *)
Lemma Forall_others (P : Pool.thread -> Prop) w :
  P (Pool.Thread (ctl_prologue exit_on_error vss_4 TCtl) (ctl_body exit_on_error vss_4 TCtl)) ->
  P (Pool.Thread (feeder_body vss_4 TFeeder (w_feeder w)) (feeder_body vss_4 TFeeder (w_feeder w))) ->
  P (Pool.Thread (subscriber_program exit_on_error vss_4 TSubscriber (fst (w_subscriber w)) (snd (w_subscriber w)))
       (mret false)) ->
  P (Pool.Thread (server_program TServer) (mret false)) ->
  (forall i call, w_handlers w !! i = Some call ->
     P (Pool.Thread (handler_program exit_on_error vss_4 (THandler i) call) (mret false))) ->
  (forall i fuel sg, P (Pool.Thread (signal_program (TSignal i) fuel sg) (mret false))) ->
  Forall P (other_threads exit_on_error vss_4 w).
Proof.
  intros H1 H2 H3 H4 H5 H6. unfold other_threads. apply Forall_app. split; [by repeat constructor|].
  apply Forall_app. split; apply Forall_lookup; intros i t; rewrite list_lookup_imap;
    intros (x & Hx & ->)%fmap_Some; [by apply H5 | apply H6].
Qed.

Lemma kept_others w :
  (forall call percent, In call (w_handlers w) -> asks_for call percent -> ask percent) ->
  Forall (Pool.thread_keeps restricted both) (other_threads exit_on_error vss_4 w).
Proof.
  intros Hw. apply Forall_others; intros; unfold Pool.thread_keeps; cbn [Pool.cur Pool.body]; split; try done.
  - apply kept_seq_p; [|done]. apply kept_adjuster, adjusts_lift, kept_mod_ctx; [|done].
    intros c. apply (inv_running (C := C)).
  - apply kept_seq_p; [|apply kept_until]. apply kept_adjuster, adjusts_lift, kept_thread_iteration.
  - apply kept_seq_p; [|apply kept_until]. apply kept_feeder, feeds_run, initial_fits.
  - apply kept_seq_p; [|apply kept_until]. apply kept_feeder, feeds_run, initial_fits.
  - apply kept_seq_p; [apply kept_ps, subscribes_Run|]. intros []; [done|].
    by apply kept_seq_p; [apply kept_me|].
  - unfold server_program. repeat (apply kept_seq_p; [by apply kept_me | intros _]). done.
  - apply kept_handler. intros percent. eapply Hw, list_elem_of_In, list_elem_of_lookup_2. done.
  - unfold signal_program. apply kept_seq_p; [by apply kept_me | intros _].
    by apply kept_seq_p; [apply kept_signals|].
Qed.

(** Every moment of every restricted run. *)
Lemma process_keeps cfg (o : S) k actions w (s : process S) ts :
  C (ctx_init cfg) -> (forall call percent, In call (w_handlers w) -> asks_for call percent -> ask percent) ->
  rtc (Pool.step restricted) (start exit_on_error vss_4 cfg o k actions w) (s, ts) ->
  obeys C EV (pr_ctl s) /\ feeds_only fits given (pr_feed s).
Proof.
  intros Hc Hw Hsteps. apply (Pool.pool_keeps _ both _ _ Hsteps).
  - split; [by split|]. by split_and!; try apply map_Forall_empty.
  - cbn [start snd]. constructor; [split; [apply kept_main | done] | by apply kept_others].
Qed.

End Keeps.

(** ** The components are safe in the process *)
Section Safe.
Context {CAN : Cantools} {CANL : CantoolsLaws CAN} {S : Type}.
Variables exit_on_error vss_4 open_stream : bool.

(** C3: The whole process, whatever its threads interleave, the operating system and the broker answer,
    and the clients of the gRPC service ask for: the context of the controller is well formed,
    every frame on the bus is a legal command and every reported position valid; every value
    stored for the broker has the type declared for the data point of its name, and every value
    sent to it the type of a data point to which the broker has given the id that the value is
    sent under ([ids] are the ids of names in the answers of the broker by then). *)
Theorem process_safe cfg (o : S) k actions w ids (s : process S) ts :
  1 <= motor_rpm cfg <= 254 ->
  Pool.learns (proc_step open_stream) (@ids_in) (start exit_on_error vss_4 cfg o k actions w) ids (s, ts) ->
  ctx_ok (m_ctx (pr_ctl s)) /\ Forall event_ok (m_trace (pr_ctl s))
  /\ map_Forall (conforms (seat_metadata vss_4)) (stored_values_ (fst (pr_feed s)))
  /\ Forall (request_conforms (seat_metadata vss_4) ids) (snd (pr_feed s)).
Proof.
  intros Hr Hrun%Pool.learns_steps.
  assert (safe (pr_ctl s) /\ feeds_only (conforms (seat_metadata vss_4)) (fun a => In a ids) (pr_feed s))
    as [[H1 H2] (H3 & _ & H4)]; [|done].
  eapply (process_keeps exit_on_error vss_4 open_stream (fun _ => True) (fun _ => True) (fun a => In a ids)
    (HI := bus_invariant)) with (fits := conforms (seat_metadata vss_4)); try done.
  - intros cb v ud _. apply position_typed.
  - apply initial_values_typed.
  - by apply (safe_init cfg o).
  - eapply Pool.steps_mono; [|exact Hrun]. intros X e r x r' [Hx Ht].
    split_and!; [done | by apply Forall_true | by apply Forall_true | done].
Qed.

End Safe.
