(* ===== verification/ProcessRequests.v ===== *)
(** * What the process moves the seat for, and what it tells the broker

    Two more instances of [process_keeps], for a run together with what is learned in it
    ([Pool.learns]): every goal of the controller was asked for, by an admitted call of the gRPC
    service or by an actuator target of the broker ([process_moves_on_request]); every value that
    goes to the broker is an initial value of the configuration or a position from the bus
    ([fed_values_come_from_the_bus]).  Every run learns something ([Pool.steps_learn]), so the
    theorems speak of all runs. *)
From Stdlib Require Import ZArith Lia String.
From stdpp Require Import base numbers list strings gmap relations functions.
From S2P Require Import Prelude Prog Stable CanDbc Os Grpc SeatController CtlMachine ControllerSpec.
From S2P Require Import ControlLoopSpec ApiSpec Invariants Interleaving SeatAdjuster SeatsService.
From S2P Require Import KuksaClient DataBrokerFeeder FeederSpec SeatService Signals FeederTypes Process ProcessSpec.

(** What is asked for, in percent: by the calls of the service and by the targets of the broker. *)
Definition requested (calls : list rpc) (targets : list Z) (percent : Z) : Prop :=
  (exists call, In call calls /\ asks_for call percent)
  \/ (exists position, In position targets /\ 0 <= position <= 1000 /\ percent = target_percent position).

(** Where a value of the service comes from: it is the initial value of its data point, or a
    position that the ECU has reported, or that it is not known. *)
Definition sourced (vss_4 : bool) (reported : Z -> Prop) (n : string) (v : Datapoint) : Prop :=
  (exists dp, In dp (seat_metadata vss_4) /\ n = name dp /\ v = initial_value dp)
  \/ (n = seat_pos_name vss_4 /\ exists p, reported p
      /\ ((0 <= p <= 100 /\ v = uint32_value (10 * p)) \/ (p = 255 /\ v = failure_value NOT_AVAILABLE))).

(** What the bus reports and the ids that the broker gives to names, in the order of their arrival. *)
Inductive lesson := Reported (position : Z) | Given (name : string) (id : Z).

Definition lessons {X} (e : procE X) (x : X) : list lesson :=
  map Reported (positions_in e x) ++ map (fun a => Given (fst a) (snd a)) (ids_in e x).

Lemma Forall_lessons {X} (e : procE X) x l :
  Forall (fun a => In a l) (lessons e x) ->
  Forall (fun p => In (Reported p) l) (positions_in e x) /\ Forall (fun a => In (Given (fst a) (snd a)) l) (ids_in e x).
Proof. unfold lessons. by rewrite Forall_app, !Forall_map. Qed.

Section Sources.
Context {CAN : Cantools} {CANL : CantoolsLaws CAN} {S : Type}.
Variables exit_on_error vss_4 open_stream : bool.

Abbreviation process_learns learn := (Pool.learns (proc_step (S := S) open_stream) learn).

(** C4: The whole process, whatever its threads interleave and the operating system answers: a goal of
    the controller is the rounded percentage of an admitted [Move] or [MoveComponent] or of a legal
    actuator target of the broker; and when there is neither there is never a goal and nothing but
    stop commands reaches the bus. *)
Theorem process_moves_on_request cfg (o : S) k actions w targets (s : process S) ts :
  process_learns (@targets_in (seat_pos_name vss_4))
    (start exit_on_error vss_4 cfg o k actions w) targets (s, ts) ->
  (forall g, goal_of (m_ctx (pr_ctl s)) = Some g ->
     requested (w_handlers w) targets (g_target g) /\ 0 <= g_target g <= 100)
  /\ ((forall percent, ~ requested (w_handlers w) targets percent) ->
      goal_of (m_ctx (pr_ctl s)) = None /\ Forall (fun f => f = stop_frame) (written (m_trace (pr_ctl s)))).
Proof.
  intros Hrun%Pool.learns_steps. set (asked := requested (w_handlers w) targets).
  destruct (request_consequences asked (pr_ctl s)) as [H1 H2].
  - eapply (process_keeps exit_on_error vss_4 open_stream (fun _ => True) (fun p => In p targets) (fun _ => True)
      (HI := request_invariant asked)) with (fits := fun _ _ => True); try done.
    + intros position Ht Hp. right. by exists position.
    + by apply Forall_true.
    + apply (request_init asked cfg o).
    + intros call percent Hc Ha. left. by exists call.
    + eapply Pool.steps_mono; [|exact Hrun]. intros X e r x r' [Hr Ht].
      split_and!; [done | by apply Forall_true | done | by apply Forall_true].
  - split; [exact H1|]. intros Hno. apply H2. intros percent [Ha _]. by destruct (Hno percent).
Qed.

Lemma sourced_position (reported : Z -> Prop) p :
  reported p -> valid_pos p -> sourced vss_4 reported (seat_pos_name vss_4) (datapoint_of (reported_percent p)).
Proof.
  intros Hin Hp. right. split; [done|]. exists p. split; [done|].
  unfold reported_percent, datapoint_of, MOTOR_POS_INVALID. destruct Hp as [Hp | ->]; [left | by right].
  split; [done|]. rewrite (proj2 (Z.eqb_neq p 255)) by lia.
  replace ((0 <=? p) && (p <=? 100)) with true by lia. by rewrite Z.mul_comm.
Qed.

(** C5: At every moment of the process, whatever its threads interleave: every value that is stored for
    the broker under a name, and every value that has been sent to it under an id that it has given
    to the name, is the initial value of the data point of that name, or the name is that of the
    seat's position and the value ten times a percentage that an accepted status frame on the bus
    has reported, or not available after a frame that said so. *)
Theorem fed_values_come_from_the_bus cfg (o : S) k actions w news (s : process S) ts :
  1 <= motor_rpm cfg <= 254 ->
  process_learns (@lessons) (start exit_on_error vss_4 cfg o k actions w) news (s, ts) ->
  let reported p := In (Reported p) news in
  map_Forall (sourced vss_4 reported) (stored_values_ (fst (pr_feed s)))
  /\ Forall (map_Forall (fun id v => exists n, In (Given n id) news /\ sourced vss_4 reported n v))
       (snd (pr_feed s)).
Proof.
  intros Hrpm Hrun%Pool.learns_steps reported.
  assert (obeys ctx_ok (fun e => event_ok e /\ position_from reported e) (pr_ctl s)
          /\ feeds_only (sourced vss_4 reported) (fun a => In (Given (fst a) (snd a)) news) (pr_feed s))
    as [_ (H1 & _ & H2)]; [|done].
  eapply (process_keeps exit_on_error vss_4 open_stream reported (fun _ => True)
    (fun a => In (Given (fst a) (snd a)) news) (HI := invariant_seeing _ _ _ _ reported bus_invariant))
    with (fits := sourced vss_4 reported); try done.
  - intros cb v ud [Hv Hin]. by apply sourced_position.
  - apply Forall_forall. intros dp Hdp. left. by exists dp.
  - by apply (safe_init cfg o).
  - eapply Pool.steps_mono; [|exact Hrun]. intros X e r x r' [Hr [Hp Hi]%Forall_lessons].
    split_and!; [done | done | by apply Forall_true | done].
Qed.

End Sources.
