(* ===== verification/ProcessObjects.v ===== *)
(** * Objects outlive the threads that use them

    [Run] of [main.cc] keeps its objects on the stack and joins its threads before it returns.
    With two exceptions ([excusable]) no thread works on an object that is gone: the CTL thread
    may call the callback of the data feeder after the feeder has been destroyed, and [Shutdown] may
    cancel a call whose context the subscriber has just dropped.  [Teardown] shows that both happen.
    The CTL thread's own use of the adjuster is left to [ProcessThreads]. *)
From Stdlib Require Import ZArith Lia String.
From stdpp Require Import base numbers list strings gmap relations functions.
From S2P Require Import Prelude Prog Stable CanDbc Os Grpc SeatController CtlMachine ApiSpec Invariants.
From S2P Require Import SeatAdjuster SeatsService KuksaClient DataBrokerFeeder FeederSpec SeatService Signals.
From S2P Require Import FeederTypes Process ProcessSpec.

Section Objects.
Context {CAN : Cantools} {S : Type}.
Variables exit_on_error vss_4 open_stream : bool.

Abbreviation step_of := (proc_step (S := S) open_stream).

(** The gRPC server is down, no handler is under way. *)
Definition quiet (s : process S) : Prop :=
  pr_server s <> Serving /\ forall i, pr_phase s (THandler i) <> Running.

Definition settled (s : process S) : Prop :=
  pr_phase s TFeeder = Finished /\ pr_phase s TSubscriber = Finished /\ quiet s.

(** [ProcessThreads] shows that the CTL thread does not use the adjuster after its end. *)
Definition excusable (f : tid * object) : Prop := f = (TCtl, ObjFeeder) \/ f = (TMain, ObjContext).

Definition tidy (s : process S) : Prop :=
  Forall (fun f => excusable f \/ f = (TCtl, ObjAdjuster)) (pr_faults s)
  /\ forall o, pr_alive s o = false -> settled s.

(** ** What the operations do to threads and objects *)

(** They start no thread, change neither the server nor any object. *)
Definition calm {X} (t : tid) (e : opE X) : Prop :=
  match e with
  | OpSpawn _ | OpServe | OpStopServing | OpDestroy _ => False
  | OpArrive => exists i, t = THandler i
  | _ => True
  end.

(** Threads that are over stay so, and quiet it stays, except that the CTL thread may be started. *)
Definition undisturbed (s s1 : process S) : Prop :=
  pr_alive s1 = pr_alive s /\ pr_faults s1 = pr_faults s /\ pr_server s1 = pr_server s
  /\ (forall t, t <> TCtl -> pr_phase s t = Finished -> pr_phase s1 t = Finished)
  /\ (quiet s -> quiet s1).

Lemma undisturbed_refl (s s1 : process S) :
  pr_alive s1 = pr_alive s -> pr_faults s1 = pr_faults s -> pr_phase s1 = pr_phase s ->
  pr_server s1 = pr_server s -> undisturbed s s1.
Proof.
  intros Ha Hf Hp Hs. split_and!; [done | done | done | by intros t _; rewrite Hp |].
  unfold quiet. by rewrite Hp, Hs.
Qed.

Lemma undisturbed_ctl (s s1 : process S) p :
  pr_alive s1 = pr_alive s -> pr_faults s1 = pr_faults s -> pr_phase s1 = <[TCtl := p]> (pr_phase s) ->
  pr_server s1 = pr_server s -> undisturbed s s1.
Proof.
  intros Ha Hf Hp Hs. split_and!; [done | done | done | |].
  - intros t Ht. by rewrite Hp, fn_lookup_insert_ne.
  - intros [H1 H2]. split; [by rewrite Hs|]. intros i. by rewrite Hp, fn_lookup_insert_ne.
Qed.

Ltac leaves H := leaving H; by apply undisturbed_refl.

Lemma calm_ps {X} (e : psE X) (s : process S) x s1 : ps_step open_stream e s x s1 -> undisturbed s s1.
Proof.
  destruct e as [ |b| |n| | |p|b| | |z]; cbn [ps_step]; intros Hst; try leaves Hst.
  - destruct b; leaves Hst.
  - destruct (pr_context s); leaves Hst.
Qed.

Lemma calm_sa {X} t (e : saE X) (s : process S) x s1 : sa_step t e s x s1 -> undisturbed s s1.
Proof.
  destruct e as [X e| |a|cb p| |rc]; cbn [sa_step]; intros Hst; try leaves Hst.
  destruct Hst as (m & _ & Hst). destruct e as [|f| |st|X e|cb ev v ud|l]; cbn [ctl_step] in Hst; try leaves Hst.
  destruct e; cbn [os_step] in Hst; try leaves Hst.
  destruct (_ =? _); [|leaves Hst]. destruct Hst as [_ ->]. by eapply undisturbed_ctl.
Qed.

Lemma calm_step {X} t (e : opE X) (s : process S) x s1 :
  calm t e -> enabled s t e -> op_step open_stream t e s x s1 -> undisturbed s s1.
Proof.
  intros Hc He Hst.
  destruct e as [X e|X e|X e|X e|t'| |t'| | | | | |g|o|c]; try done; cbn [op_step] in Hst; try leaves Hst.
  - by eapply calm_sa.
  - destruct Hst as (f & _ & ->). by apply undisturbed_refl.
  - by eapply calm_ps.
  - destruct Hst as (_ & _ & ->). by apply undisturbed_refl.
  - subst s1. split_and!; [done | done | done | |].
    + intros t' _ Ht'. cbn. destruct (decide (t' = t)) as [->|]; [by rewrite fn_lookup_insert|].
      by rewrite fn_lookup_insert_ne.
    + intros [H1 H2]. split; [done|]. intros i. cbn.
      destruct (decide (THandler i = t)) as [<-|]; [by rewrite fn_lookup_insert|].
      by rewrite fn_lookup_insert_ne.
  - destruct Hst as [Hv ->]. cbn [enabled] in He. split_and!; [done | done | done | |].
    + intros t' _ Ht'. cbn. rewrite fn_lookup_insert_ne; [done|]. intros ->. by rewrite He in Ht'.
    + by intros [H1 _].
Qed.

Lemma charge_fields {X} t (e : opE X) (s s1 : process S) :
  pr_alive (charge t e s s1) = pr_alive s1 /\ pr_phase (charge t e s s1) = pr_phase s1
  /\ pr_server (charge t e s s1) = pr_server s1
  /\ (pr_faults (charge t e s s1) = pr_faults s1
      \/ exists o, object_of e = Some o /\ usable s o = false
                   /\ pr_faults (charge t e s s1) = pr_faults s1 ++ [(t, o)]).
Proof.
  unfold charge. destruct (object_of e) as [o|] eqn:Eo; [|by auto].
  destruct (usable s o) eqn:Eu; [by auto|]. split_and!; try done. right. by exists o.
Qed.

Lemma settled_charge {X} t (e : opE X) (s s1 : process S) :
  settled s1 -> settled (charge t e s s1).
Proof.
  destruct (charge_fields t e s s1) as (_ & Hp & Hv & _). unfold settled, quiet. by rewrite Hp, Hv.
Qed.

(** ** The other threads *)

Definition permitted : forall X, procE X -> Prop := fun X e =>
  match e in procE X with
  | By t e =>
      match e with
      | OpSa _ => match t with TCtl | TSubscriber | THandler _ => True | _ => False end
      | OpFd _ => match t with TCtl | TFeeder | TSubscriber | THandler _ => True | _ => False end
      | OpPs P_try_cancel => False
      | OpPs _ => t = TSubscriber
      | OpSig _ | OpDeliver _ | OpServerWait => True
      | OpEnd => t <> TMain
      | OpArrive => exists i, t = THandler i
      | _ => False
      end
  end.

Lemma permitted_calm {X} t (e : opE X) : permitted _ (By t e) -> calm t e.
Proof. by destruct e. Qed.

(** A thread that acts has not ended, so its objects are there. *)
Lemma permitted_fault {X} t (e : opE X) (s : process S) o :
  permitted _ (By t e) -> enabled s t e -> (forall o, pr_alive s o = false -> settled s) ->
  object_of e = Some o -> usable s o = false ->
  excusable (t, o) \/ (t, o) = (TCtl, ObjAdjuster).
Proof.
  intros Hp He Hs Ho Hu.
  assert (o <> ObjContext -> t = TFeeder \/ t = TSubscriber \/ (exists i, t = THandler i) ->
          pr_phase s t = Running -> False) as Hno.
  { intros Hc Ht Hr. assert (pr_alive s o = false) as Ha by (by destruct o).
    destruct (Hs o Ha) as (H1 & H2 & _ & H4). destruct Ht as [->|[->|[i ->]]]; [congruence..|].
    by apply (H4 i). }
  destruct e as [X e|X e|X e|X e|t'| |t'| | | | | |g|o'|c]; try done; cbn [object_of] in Ho.
  - injection Ho as <-. cbn in Hp, He. destruct t; try done; try (by right); exfalso; apply Hno; eauto.
  - injection Ho as <-. cbn in Hp, He. destruct t; try done; try (by left; left); exfalso; apply Hno; eauto.
  - assert (o = ObjSubscriber) as -> by (by destruct e; injection Ho as <-).
    assert (t = TSubscriber) as -> by (by destruct e). exfalso. apply Hno; eauto.
Qed.

Lemma permitted_keeps X (e : procE X) : permitted X e -> op_keeps step_of tidy e.
Proof.
  destruct e as [X t e]. intros Hp s x s' [Hf Ha] (_ & He & s1 & Hst & ->).
  destruct (calm_step _ _ _ _ _ (permitted_calm _ _ Hp) He Hst) as (E1 & E2 & _ & E3 & E4).
  destruct (charge_fields t e s s1) as (C1 & C2 & C3 & C4). split.
  - destruct C4 as [->|(o & Ho & Hu & ->)]; rewrite E2; [done|]. apply Forall_app. split; [done|].
    constructor; [|done]. by eapply permitted_fault.
  - intros o Ho. rewrite C1, E1 in Ho. apply settled_charge. destruct (Ha o Ho) as (H1 & H2 & H3).
    split_and!; [by apply E3 | by apply E3 | by apply E4..].
Qed.

(** ** What the main thread knows

    The objects [os] are still there, the threads [j] have been joined, and if [q] the server is
    down.  The others cannot change that. *)
Definition fact (os : list object) (q : bool) (j : list tid) (s : process S) : Prop :=
  Forall (fun o => pr_alive s o = true) os /\ (q = true -> quiet s)
  /\ Forall (fun t => t <> TCtl /\ pr_phase s t = Finished) j.

Lemma fact_undisturbed os q j (s s1 : process S) : undisturbed s s1 -> fact os q j s -> fact os q j s1.
Proof.
  intros (E1 & E2 & _ & E3 & E4) (H1 & H2 & H3). split_and!.
  - by rewrite E1.
  - auto.
  - eapply Forall_impl; [|exact H3]. intros t [Ht Hf]. auto.
Qed.

Lemma fact_charge {X} t (e : opE X) os q j (s s1 : process S) :
  fact os q j s1 -> fact os q j (charge t e s s1).
Proof.
  destruct (charge_fields t e s s1) as (C1 & C2 & C3 & _). unfold fact, quiet. by rewrite C1, C2, C3.
Qed.

Lemma fact_stable os q j : stable step_of tidy permitted (fact os q j).
Proof.
  intros X [Y t e] s x s' Hp _ Hf (_ & He & s1 & Hst & ->). apply fact_charge.
  eapply fact_undisturbed; [|done]. eapply calm_step; [by apply permitted_calm | done..].
Qed.

Lemma stopped_stable : stable step_of tidy permitted (fun s => pr_server s = Stopped).
Proof.
  intros X [Y t e] s x s' Hp _ Hs (_ & He & s1 & Hst & ->).
  destruct (charge_fields t e s s1) as (_ & _ & -> & _).
  destruct (calm_step _ _ _ _ _ (permitted_calm _ _ Hp) He Hst) as (_ & _ & -> & _). done.
Qed.

(** Operations of the main thread on objects it knows to be there. *)
Definition known (os : list object) : forall X, procE X -> Prop := fun X e =>
  match e in procE X with
  | By t e =>
      t = TMain /\ calm t e /\
      match object_of e with Some ObjContext | None => True | Some o => In o os end
  end.

Lemma known_step os q j X (e : procE X) s x s' :
  known os X e -> tidy s -> fact os q j s -> step_of X e s x s' -> tidy s' /\ fact os q j s'.
Proof.
  destruct e as [X t e]. intros (-> & Hc & Ho) [Hf Ha] Hp (_ & He & s1 & Hst & ->).
  pose proof (calm_step _ _ _ _ _ Hc He Hst) as Hu. split.
  - destruct Hu as (E1 & E2 & _ & E3 & E4).
    destruct (charge_fields TMain e s s1) as (C1 & _ & _ & C4). split.
    + destruct C4 as [->|(o & Hob & Hus & ->)]; rewrite E2; [done|]. apply Forall_app. split; [done|].
      constructor; [|done]. rewrite Hob in Ho. destruct o; try (by left; right);
        destruct Hp as [Hos _]; rewrite Forall_forall in Hos; cbn [usable] in Hus;
        by rewrite Hos in Hus.
    + intros o Hal. rewrite C1, E1 in Hal. apply settled_charge. destruct (Ha o Hal) as (H1 & H2 & H3).
      split_and!; [by apply E3 | by apply E3 | by apply E4..].
  - apply fact_charge. by eapply fact_undisturbed.
Qed.

Lemma proves_known os q j {A} (p : proc A) :
  uses (known os) p -> proves step_of tidy permitted anywhere (fact os q j) p (fun _ => fact os q j).
Proof.
  apply proves_uses; [apply fact_stable | | done]. intros X e s x s'. apply known_step.
Qed.

Abbreviation all_objects := [ObjAdjuster; ObjFeeder; ObjSubscriber; ObjContext].

(** While every object is there, it is enough to look at the fact. *)
Lemma tidy_all q j (s s1 : process S) :
  tidy s -> pr_faults s1 = pr_faults s -> fact all_objects q j s1 -> tidy s1.
Proof.
  intros [Hf _] Hs (Ha & _). split; [by rewrite Hs|]. intros o Ho. rewrite Forall_forall in Ha.
  by rewrite Ha in Ho by (destruct o; cbn; tauto).
Qed.

(** What the actions of [Run] add to what is known. *)
Definition learn (a : action) (k : bool * list tid) : bool * list tid :=
  let '(q, j) := k in
  match a with
  | StartServer => (false, j)
  | ShutdownServer => (true, j)
  | JoinServer => (q, TServer :: j)
  | JoinSubscriber => (q, TSubscriber :: j)
  | JoinFeeder => (q, TFeeder :: j)
  | _ => (q, j)
  end.

Abbreviation known_main q j p q' j' :=
  (proves step_of tidy permitted anywhere (fact all_objects q j) p (fun _ => fact all_objects q' j')).

(** An operation of the main thread with an effect of its own. *)
Lemma main_op q j q' j' {X} (e : opE X) :
  object_of e = None ->
  (forall s x s1, enabled s TMain e -> op_step open_stream TMain e s x s1 -> fact all_objects q j s ->
     pr_faults s1 = pr_faults s /\ fact all_objects q' j' s1) ->
  known_main q j (by_me TMain e) q' j'.
Proof.
  intros Ho H. apply proves_op; [intros; apply fact_stable | | done].
  intros s x s' Hs Hp (_ & He & s1 & Hst & ->). destruct (H s x s1 He Hst Hp) as [Hf Hq].
  unfold charge. rewrite Ho. split; [|done]. by eapply tidy_all.
Qed.

Lemma main_spawn q j t :
  (forall i, t <> THandler i) -> known_main q j (by_me TMain (OpSpawn t)) q j.
Proof.
  intros Ht. apply main_op; [done|]. intros s [] s1 _ [Hn ->] (H1 & H2 & H3). split; [done|].
  split_and!; [done | |].
  - intros Hq. destruct (H2 Hq) as [Q1 Q2]. split; [done|]. intros i. cbn.
    rewrite fn_lookup_insert_ne by (intros E; by apply (Ht i)). done.
  - eapply Forall_impl; [|exact H3]. intros t' [Hc Hf]. split; [done|]. cbn.
    rewrite fn_lookup_insert_ne; [done|]. intros ->. by rewrite Hf in Hn.
Qed.

Lemma main_join q j t : t <> TCtl -> known_main q j (by_me TMain (OpJoin t)) q (t :: j).
Proof.
  intros Ht. apply main_op; [done|]. intros s [] s1 _ [Hn ->] (H1 & H2 & H3). split; [done|].
  split_and!; [done | done | by constructor].
Qed.

Lemma main_serve q j : known_main q j (by_me TMain OpServe) false j.
Proof.
  apply main_op; [done|]. intros s [] s1 _ [Hn ->] (H1 & H2 & H3). by split_and!.
Qed.

Lemma main_stop_drain q j :
  known_main q j (by_me TMain OpStopServing;; by_me TMain OpDrain) true j.
Proof.
  apply (proves_bind _ _ _ _ _ _ _ (fun _ s => fact all_objects false j s /\ pr_server s = Stopped)).
  - apply proves_op; [| |done].
    { intros _. apply stable_and; [apply fact_stable | apply stopped_stable]. }
    intros s [] s' Hs Hp (_ & He & s1 & -> & ->). cbn [charge object_of].
    assert (fact all_objects false j (with_server Stopped s)) as Hf
      by (destruct Hp as (H1 & _ & H3); by split_and!).
    split; [by eapply tidy_all | done].
  - intros _. apply proves_op; [intros; apply fact_stable | | done].
    intros s [] s' Hs [Hp Hv] (_ & He & s1 & [Hq ->] & ->). cbn [charge object_of]. split; [done|].
    destruct Hp as (H1 & _ & H3). split_and!; [done | | done]. intros _. split; [by rewrite Hv | done].
Qed.

(** Programs of the components, run by the main thread. *)
Lemma known_fd_op os {X} (e : fdE X) : In ObjFeeder os -> uses (known os) (fd_op TMain X e).
Proof. by cbn. Qed.

Lemma known_fd os {A} (p : fd A) : In ObjFeeder os -> uses (known os) (interp (fd_op TMain) p).
Proof.
  intros H. eapply (uses_interp (fun _ _ => True)); [|by apply uses_all].
  intros X e _. by apply known_fd_op.
Qed.

Lemma known_adjuster os {A} (p : sa A) :
  In ObjAdjuster os -> In ObjFeeder os -> uses (known os) (as_adjuster vss_4 TMain p).
Proof.
  intros Ha Hf. eapply (uses_interp (fun _ _ => True)); [|by apply uses_all].
  intros X e _. destruct e; try by cbn. cbn [sa_op]. apply uses_bind; [by cbn|]. intros _.
  destruct (_ =? _); [by apply known_fd | done].
Qed.

(** Closing raises no event, so it does not reach the data feeder. *)
Definition no_event : forall X, ctlE X -> Prop := fun X e =>
  match e with EventCb _ _ _ _ => False | _ => True end.

Ltac uses_no_event :=
  repeat first
    [ done
    | apply uses_bind; [|intros ?]
    | lazymatch goal with
      | |- uses _ (if ?b then _ else _) => destruct b
      | |- uses _ (let '(_, _) := ?x in _) => destruct x
      end
    | by cbn ].

Lemma close_no_event : uses no_event (seatctrl_close CTX).
Proof. unfold seatctrl_close, close_socket, join_thread. uses_no_event. Qed.

Lemma known_close os :
  In ObjAdjuster os ->
  uses (known os) (as_adjuster vss_4 TMain (SeatAdjusterImpl_destroy exit_on_error)).
Proof.
  intros Ha. apply (uses_interp (fun X e => match e with CallCb _ _ => False | _ => True end)).
  - intros X e He. by destruct e.
  - apply uses_bind; [|done]. apply (uses_interp no_event); [|apply close_no_event].
    intros X e He. by destruct e.
Qed.

Lemma known_ps {A} (p : ps A) : uses (known all_objects) (interp (ps_op exit_on_error vss_4 TMain) p).
Proof.
  eapply (uses_interp (fun _ _ => True)); [|by apply uses_all].
  intros X e _. destruct e; try (cbn; tauto). apply known_adjuster; cbn; tauto.
Qed.

Lemma known_sig os {A} (p : sig A) : uses (known os) (interp (sig_op TMain) p).
Proof. eapply (uses_interp (fun _ _ => True)); [|by apply uses_all]. by cbn. Qed.

Lemma main_performs a k :
  known_main (fst k) (snd k) (perform exit_on_error vss_4 TMain a) (fst (learn a k)) (snd (learn a k)).
Proof.
  destruct k as [q j]. destruct a; cbn [perform learn fst snd]; try (by intros s _ Hs).
  - apply proves_known, known_adjuster; cbn; tauto.
  - apply (proves_bind _ _ _ _ _ _ _ (fun _ => fact all_objects q j)); [|intros _; by apply main_spawn].
    apply proves_known, known_adjuster; cbn; tauto.
  - by apply main_spawn.
  - apply (proves_bind _ _ _ _ _ _ _ (fun _ => fact all_objects false j)); [apply main_serve|].
    intros _. by apply main_spawn.
  - apply proves_known. apply uses_bind; [apply known_sig|]. intros []; [|by cbn].
    apply uses_bind; [apply known_sig | done].
  - apply proves_known, known_fd. cbn. tauto.
  - apply proves_known, known_ps.
  - apply main_stop_drain.
  - by apply main_join.
  - by apply main_join.
  - by apply main_join.
Qed.

Lemma main_performs_all actions k :
  known_main (fst k) (snd k) (perform_all exit_on_error vss_4 TMain actions)
    (fst (foldl (fun k a => learn a k) k actions)) (snd (foldl (fun k a => learn a k) k actions)).
Proof.
  revert k. induction actions as [|a actions IH]; intros k; cbn [perform_all foldr foldl].
  - by intros s _ Hs.
  - apply (proves_bind _ _ _ _ _ _ _
             (fun _ => fact all_objects (fst (learn a k)) (snd (learn a k)))); [apply main_performs|].
    intros _. apply IH.
Qed.

(** An object goes when nobody needs it any more. *)
Lemma main_destroys o os j :
  o <> ObjContext -> In TFeeder j -> In TSubscriber j -> ~ In o os ->
  proves step_of tidy permitted anywhere (fact (o :: os) true j) (by_me TMain (OpDestroy o))
    (fun _ => fact os true j).
Proof.
  intros Ho Hf Hs Hn. apply proves_op; [intros; apply fact_stable | | done].
  intros s [] s' [Hfl Hal] (H1 & H2 & H3) (_ & _ & s1 & -> & ->). cbn [charge object_of].
  assert (settled s) as Hset.
  { rewrite Forall_forall in H3. by destruct (H3 _ Hf), (H3 _ Hs), (H2 eq_refl). }
  split; [by split|]. inversion H1; subst. split_and!; [|done..].
  apply Forall_forall. intros o' Ho'. cbn. rewrite fn_lookup_insert_ne by congruence.
  rewrite Forall_forall in H5. by apply H5.
Qed.

Lemma fact_forget os os' q j (s : process S) :
  (forall o, In o os' -> In o os) -> fact os q j s -> fact os' q j s.
Proof.
  intros Ho (H1 & H2). split; [|done]. rewrite Forall_forall in H1 |- *. auto.
Qed.

(** Every step of the way out forgets one object. *)
Lemma main_step_out os os' j {A} (p : proc unit) (k : unit -> proc A) Q :
  (forall o, In o os' -> In o os) ->
  proves step_of tidy permitted anywhere (fact os' true j) p (fun _ => fact os' true j) ->
  proves step_of tidy permitted anywhere (fact os' true j) (k tt) Q ->
  proves step_of tidy permitted anywhere (fact os true j) (p ≫= k) Q.
Proof.
  intros Ho Hp Hk. apply (proves_bind _ _ _ _ _ _ _ (fun _ => fact os' true j)); [|by intros []].
  eapply proves_weaken; [| |exact Hp]; [|done]. intros s _. by apply fact_forget.
Qed.

Lemma main_destroys_and o os os' j {A} (k : unit -> proc A) Q :
  o <> ObjContext -> In TFeeder j -> In TSubscriber j -> ~ In o os' ->
  (forall o', In o' (o :: os') -> In o' os) ->
  proves step_of tidy permitted anywhere (fact os' true j) (k tt) Q ->
  proves step_of tidy permitted anywhere (fact os true j) (by_me TMain (OpDestroy o) ≫= k) Q.
Proof.
  intros Ho Hf Hs Hn Hos Hk. apply (proves_bind _ _ _ _ _ _ _ (fun _ => fact os' true j)); [|by intros []].
  eapply proves_weaken; [| |by apply main_destroys]; [|done]. intros s _. by apply fact_forget.
Qed.

Lemma main_leaves j :
  In TFeeder j -> In TSubscriber j ->
  proves step_of tidy permitted anywhere (fact all_objects true j)
    (leave_scope exit_on_error vss_4 TMain) (fun _ => fact [ObjContext] true j).
Proof.
  intros Hf Hs. unfold leave_scope.
  apply (main_destroys_and _ _ [ObjFeeder; ObjAdjuster; ObjContext]);
    [done | done | done | by cbn; intuition discriminate | cbn; tauto |].
  apply (main_step_out _ [ObjFeeder; ObjAdjuster; ObjContext]); [done | |].
  { apply proves_known, known_fd. cbn. tauto. }
  apply (main_destroys_and _ _ [ObjAdjuster; ObjContext]);
    [done | done | done | by cbn; intuition discriminate | cbn; tauto |].
  apply (main_step_out _ [ObjAdjuster; ObjContext]); [done | apply proves_known, known_close; by left |].
  apply main_destroys; [done | done | done | by cbn; intuition discriminate].
Qed.

(** ** The theorem *)

Lemma may_fd t {A} (p : fd A) :
  permitted _ (By t (OpFd F_get)) -> uses permitted (interp (fd_op t) p).
Proof.
  intros Ht. eapply (uses_interp (fun _ _ => True)); [|by apply uses_all]. by cbn.
Qed.

Lemma may_adjuster t {A} (p : sa A) :
  permitted _ (By t (OpSa GetSelf)) -> uses permitted (as_adjuster vss_4 t p).
Proof.
  intros Ht. eapply (uses_interp (fun _ _ => True)); [|by apply uses_all].
  intros X e _. destruct e; try by cbn. cbn [sa_op]. apply uses_bind; [by cbn|]. intros _.
  destruct (_ =? _); [|done]. apply may_fd. by destruct t.
Qed.

Lemma may_handling t {A} (p : handling A) :
  permitted _ (By t (OpSa GetSelf)) -> uses permitted (interp (adj_op exit_on_error vss_4 t) p).
Proof.
  intros Ht. eapply (uses_interp (fun _ _ => True)); [|by apply uses_all].
  intros X e _. destruct e; by apply may_adjuster.
Qed.

Definition no_cancel : forall X, psE X -> Prop := fun X e =>
  match e with P_try_cancel => False | _ => True end.

Ltac uses_no_cancel :=
  repeat first
    [ done
    | apply uses_bind; [|intros ?]
    | lazymatch goal with
      | |- uses _ (if ?b then _ else _) => destruct b
      | |- uses _ (match ?x with _ => _ end) => destruct x
      end
    | by cbn ].

Lemma read_loop_no_cancel fuel n : uses no_cancel (read_loop fuel n).
Proof.
  induction fuel as [|fuel IH]; cbn [read_loop]; [done|]. apply uses_bind; [by cbn|].
  intros [updates|]; [|done]. apply uses_bind; [|by intros _].
  induction updates as [|u updates IHu]; [done|]. apply uses_bind; [|by intros _].
  unfold handle_update. uses_no_cancel.
Qed.

Lemma subscriber_no_cancel iterations fuel n : uses no_cancel (subscriber_Run iterations fuel n).
Proof.
  unfold subscriber_Run. apply uses_bind; [by cbn|]. intros _. generalize 0.
  induction iterations as [|iterations IH]; intros failures; cbn [subscriber_loop]; [done|].
  apply uses_bind; [|by intros []]. unfold subscriber_iteration.
  uses_no_cancel. apply read_loop_no_cancel.
Qed.

Lemma may_subscribe iterations fuel n :
  uses permitted (interp (ps_op exit_on_error vss_4 TSubscriber) (subscriber_Run iterations fuel n)).
Proof.
  eapply (uses_interp no_cancel); [|apply subscriber_no_cancel].
  intros X e He. destruct e; try by cbn. by apply may_adjuster.
Qed.

Lemma may_me t {X} (e : opE X) : permitted _ (By t e) -> uses permitted (by_me t e).
Proof. by cbn. Qed.

Lemma may_until t again : t <> TMain -> uses permitted (until_done t again).
Proof. by destruct again. Qed.

Lemma others_permitted w :
  Forall (fun t => uses permitted (Pool.cur t) /\ uses permitted (Pool.body t))
    (other_threads exit_on_error vss_4 w).
Proof.
  apply Forall_others; intros; cbn [Pool.cur Pool.body]; split; try done;
    unfold ctl_prologue, ctl_body, feeder_body, subscriber_program, handler_program, signal_program.
  - apply uses_bind; [by apply may_adjuster | intros; by apply may_until].
  - apply uses_bind; [by apply may_fd | intros; by apply may_until].
  - apply uses_bind; [by apply may_fd | intros; by apply may_until].
  - apply uses_bind; [apply may_subscribe | by intros []].
  - apply uses_bind; [cbn; eauto|]. intros _.
    apply uses_bind; [|by cbn]. destruct call; (apply uses_bind; [by apply may_handling | done]).
  - apply uses_bind; [by cbn|]. intros _. apply uses_bind; [|done].
    eapply (uses_interp (fun _ _ => True)); [|by apply uses_all]. by cbn.
Qed.

Lemma others_tidy w : Forall (other_ok step_of tidy permitted) (other_threads exit_on_error vss_4 w).
Proof.
  eapply Forall_impl; [|apply others_permitted]. intros t [H1 H2]. split; [|done].
  split; (eapply (keeps_uses _ _ permitted); [apply permitted_keeps | done]).
Qed.

Lemma main_is_ok cfg o k actions :
  fst (foldl (fun k a => learn a k) (true, []) actions) = true ->
  In TFeeder (snd (foldl (fun k a => learn a k) (true, []) actions)) ->
  In TSubscriber (snd (foldl (fun k a => learn a k) (true, []) actions)) ->
  main_ok step_of tidy permitted anywhere (process_init cfg o k) (main_thread exit_on_error vss_4 actions).
Proof.
  intros Hq Hf Hs. exists (fact all_objects true []). split; [apply fact_stable|]. split.
  { split_and!; [by repeat constructor | by intros _; split | constructor]. }
  cbn [Pool.cur main_thread]. unfold main_program.
  eapply proves_bind; [apply (main_performs_all actions (true, []))|]. intros ?. rewrite Hq.
  eapply proves_bind; [by apply main_leaves|]. intros ?.
  eapply proves_bind; [by apply proves_known; cbn|]. by intros ? ? ? ?.
Qed.

Lemma learned can_if addr port broker vss server :
  foldl (fun k a => learn a k) (true, []) (fst (Run can_if addr port broker vss server))
  = (true, [TFeeder; TSubscriber] ++ if server then [TServer] else []).
Proof. destruct vss, server; vm_compute; reflexivity. Qed.

Lemma process_tidy can_if addr port broker server cfg (o : S) k w (s : process S) ts :
  rtc (Pool.step step_of)
    (start exit_on_error vss_4 cfg o k (fst (Run can_if addr port broker vss_4 server)) w) (s, ts) ->
  tidy s.
Proof.
  intros Hsteps. apply (main_keeps step_of tidy permitted anywhere _ _ Hsteps); [by split|].
  exists (main_thread exit_on_error vss_4 (fst (Run can_if addr port broker vss_4 server))),
    (other_threads exit_on_error vss_4 w).
  split; [reflexivity|]. split; [|apply others_tidy].
  apply main_is_ok; rewrite learned; cbn; tauto.
Qed.

End Objects.
