(* ===== verification/ProcessThreads.v ===== *)
(** * The CTL thread and the adjuster

    [ProcessObjects] leaves the controller's own thread out.  It works on the context inside the
    adjuster, is started by [seatctrl_open] and joined by [seatctrl_close], which the destructor
    of the adjuster calls: so it has ended when the adjuster is destroyed ([ctl_thread_ends_first]),
    and no thread but for the exceptions of [ProcessObjects] works on an object that is gone
    ([threads_end_before_objects]).  That rests on the thread's id in the context, which the code
    compares with 0 and with [pthread_self]; no other thread has this id, but it may be 0. *)
From Stdlib Require Import ZArith Lia String.
From stdpp Require Import base numbers list strings gmap relations functions.
From S2P Require Import Prelude Prog Stable CanDbc Os Grpc SeatController CtlMachine ApiSpec Invariants.
From S2P Require Import SeatAdjuster ClosedLoop SeatsService KuksaClient DataBrokerFeeder FeederSpec SeatService.
From S2P Require Import Signals FeederTypes Process ProcessSpec ProcessObjects.

(** ** The controller's programs inside the adjuster *)

Definition on_ctl (P : forall X, ctlE X -> Prop) : forall X, saE X -> Prop := fun X e =>
  match e with Ctl e => P _ e | _ => True end.

Section OnCtl.
Context {CAN : Cantools}.
Variable exit_on_error : bool.

Lemma on_ctl_event P ev v ud : uses (on_ctl P) (seatctrl_event_cb exit_on_error ev v ud).
Proof.
  destruct ev; cbn [seatctrl_event_cb]; [by destruct exit_on_error|].
  destruct (negb _); [|done]. apply uses_bind; [by cbn|]. intros self. destruct (negb _).
  - apply uses_bind; [by cbn|]. intros _. apply uses_bind; by cbn.
  - apply uses_bind; [by destruct (negb _)|]. intros _. apply uses_bind; by cbn.
Qed.

Lemma on_ctl_lift P {A} (p : ctl A) : uses P p -> uses (on_ctl P) (lift exit_on_error p).
Proof.
  apply uses_interp. intros X e He. destruct e; try by split. cbn [dispatch].
  apply uses_bind; [by split|]. intros _. destruct (_ =? _); [apply on_ctl_event | done].
Qed.

Lemma loops_set percent : uses (on_ctl (@ctl_loop_op)) (impl_SetSeatPosition exit_on_error percent).
Proof. apply uses_bind; [apply on_ctl_lift, loops_set_position | done]. Qed.

Lemma loops_get : uses (on_ctl (@ctl_loop_op)) (impl_GetSeatPosition exit_on_error).
Proof. apply uses_bind; [|done]. apply on_ctl_lift. unfold seatctrl_get_position. uses. Qed.

Lemma loops_set_callback p cb ud : uses (@ctl_loop_op) (seatctrl_set_event_callback p cb ud).
Proof. unfold seatctrl_set_event_callback. uses. Qed.

End OnCtl.

(** ** Programs of the controller, run by the main thread, one operation after the other *)
Section MainCtl.
Context {CAN : Cantools} {S : Type}.
Variables exit_on_error vss_4 : bool.

Definition of_ctl {A} (p : ctl A) : proc A := as_adjuster vss_4 TMain (lift exit_on_error p).

Definition plain {X} (e : ctlE X) : Prop := match e with EventCb _ _ _ _ => False | _ => True end.

Variable R : forall X, procE X -> process S -> X -> process S -> Prop.
Variable I : process S -> Prop.
Variable others : forall X, procE X -> Prop.
Variable need : forall X, procE X -> process S -> Prop.

Lemma proves_ctl P {X A} (e : ctlE X) (Q : X -> process S -> Prop) (k : X -> ctl A) Q' :
  plain e -> (forall x, stable R I others (Q x)) ->
  (forall s x s', I s -> P s -> R _ (By TMain (OpSa (Ctl e))) s x s' -> I s' /\ Q x s') ->
  (forall x, proves R I others need (Q x) (of_ctl (k x)) Q') ->
  (forall s, I s -> P s -> need _ (By TMain (OpSa (Ctl e))) s) ->
  proves R I others need P (of_ctl (Vis e k)) Q'.
Proof.
  intros He HQ Hst Hk Hn.
  assert (proves R I others need P (Vis (By TMain (OpSa (Ctl e))) (fun x => of_ctl (k x))) Q') as H;
    [|by destruct e].
  split; [done|]. intros s x s' Hs Hp Hr. destruct (Hst s x s' Hs Hp Hr) as [Hs' HQ'].
  split; [done|]. exists (Q x). by split_and!.
Qed.

End MainCtl.

Section Threads.
Context {CAN : Cantools} {S : Type}.
Variables exit_on_error vss_4 open_stream : bool.

Abbreviation step_of := (proc_step (S := S) open_stream).

(** The code takes the id 0 for no thread; a system that gives it to one is left out.  While the
    CTL thread is running the adjuster is there, and the thread has never used it without. *)
Definition ctl_owned (s : process S) : Prop :=
  (pr_phase s TCtl = NotStarted -> pr_ctl_id s = None)
  /\ (pr_ctl_id s <> Some 0 ->
  (pr_phase s TCtl = Running -> pr_alive s ObjAdjuster = true) /\ ~ In (TCtl, ObjAdjuster) (pr_faults s)).

Abbreviation ctx_of s := (m_ctx (pr_ctl s)).

(** ** What the others do *)

Definition ctl_quiet {X} (e : ctlE X) : Prop :=
  match e with
  | ModCtx f => forall c, magic (f c) = magic c /\ thread_id (f c) = thread_id c
  | Os O_pthread_create => False
  | _ => True
  end.

(** They neither start the CTL thread, nor forget it, nor destroy the adjuster. *)
Definition bystander : forall X, procE X -> Prop := fun X e =>
  match e in procE X with
  | By t e =>
      match e with
      | OpSa (Ctl e) => ctl_quiet e
      | OpSpawn t' => t' <> TCtl
      | OpArrive => t <> TCtl
      | OpDestroy o => o <> ObjAdjuster
      | _ => True
      end
  end.

Definition idle (s : process S) : Prop := pr_phase s TCtl <> Running.

(** The thread is not running, or the code cannot know of it. *)
Definition ended (s : process S) : Prop := idle s \/ pr_ctl_id s = Some 0.

(** The adjuster is there with a context; [P] relates the id in the context and that of the thread. *)
Definition owner (P : Z -> option Z -> Prop) (s : process S) : Prop :=
  pr_alive s ObjAdjuster = true /\ magic (ctx_of s) = SEAT_CTRL_CONTEXT_MAGIC
  /\ P (thread_id (ctx_of s)) (pr_ctl_id s).

Definition steady (s s' : process S) : Prop :=
  pr_alive s' ObjAdjuster = pr_alive s ObjAdjuster /\ magic (ctx_of s') = magic (ctx_of s)
  /\ thread_id (ctx_of s') = thread_id (ctx_of s) /\ pr_ctl_id s' = pr_ctl_id s
  /\ (pr_phase s' TCtl = pr_phase s TCtl \/ pr_phase s' TCtl = Finished)
  /\ (In (TCtl, ObjAdjuster) (pr_faults s') ->
      In (TCtl, ObjAdjuster) (pr_faults s) \/ (pr_phase s TCtl = Running /\ pr_alive s ObjAdjuster = false)).

Lemma steady_aside (s s' : process S) :
  pr_alive s' ObjAdjuster = pr_alive s ObjAdjuster -> pr_ctl s' = pr_ctl s ->
  pr_ctl_id s' = pr_ctl_id s -> pr_faults s' = pr_faults s ->
  pr_phase s' TCtl = pr_phase s TCtl \/ pr_phase s' TCtl = Finished -> steady s s'.
Proof. intros Ha Hc Hi Hf Hp. split_and!; rewrite ?Hc, ?Hf; auto. Qed.

Lemma charge_ctl_id {X} t (e : opE X) (s s' : process S) : pr_ctl_id (charge t e s s') = pr_ctl_id s'.
Proof. unfold charge. by repeat case_match. Qed.

Lemma steady_charge {X} t (e : opE X) (s0 s s' : process S) :
  (t = TCtl -> enabled s TCtl e /\ s0 = s) -> steady s s' -> steady s (charge t e s0 s').
Proof.
  intros Ht (H1 & H2 & H3 & H4 & H5 & H6). unfold steady. rewrite charge_ctl, charge_ctl_id.
  destruct (charge_fields t e s0 s') as (-> & -> & _ & Hf). split_and!; try done.
  destruct Hf as [->|(o & Ho & Hu & ->)]; [done|]. rewrite in_app_iff. intros [Hin|[[= -> ->]|[]]]; [by apply H6|].
  destruct (Ht eq_refl) as [He ->]. right. split; [|exact Hu]. by destruct e.
Qed.

Lemma ctl_quiet_step {X} t (e : ctlE X) (s : process S) x s1 :
  ctl_quiet e -> sa_step t (Ctl e) s x s1 -> steady s s1.
Proof.
  intros He (m & Hm & Hst).
  assert (s1 = with_ctl m s) as ->.
  { destruct e as [|f| |st|X e|cb ev v ud|l]; try done. destruct e; cbn [ctl_step os_step] in Hst; try done.
    all: by destruct Hst as [_ ->]. }
  enough (magic (m_ctx m) = magic (ctx_of s) /\ thread_id (m_ctx m) = thread_id (ctx_of s)) as [H1 H2]
    by (split_and!; auto).
  destruct e as [|f| |st|X e|cb ev v ud|l]; cbn [any_env ctl_quiet] in Hm, He;
    [by destruct Hm as [_ ->] | subst m; apply He | by destruct Hm as [_ ->] | by subst m |
     by destruct Hm as (_ & o & ->) | by subst m..].
Qed.

Lemma bystander_steady {X} (e : procE X) (s : process S) x s' :
  bystander X e -> step_of X e s x s' -> steady s s'.
Proof.
  destruct e as [X t e]. intros He (_ & Hen & s1 & Hst & ->). apply steady_charge; [by intros ->|].
  destruct e as [X e|X e|X e|X e|t'| |t'| | | | | |g|o|c]; cbn [op_step] in Hst;
    try (leaving Hst; apply steady_aside; by auto).
  - destruct e as [X e| |a|cb p| |rc]; [by eapply ctl_quiet_step|..]; cbn [sa_step] in Hst;
      leaving Hst; apply steady_aside; by auto.
  - destruct Hst as (f & _ & ->). apply steady_aside; auto.
  - destruct e as [ |b| |n| | |p|b| | |z]; cbn [ps_step] in Hst;
      try (leaving Hst; apply steady_aside; by auto); repeat case_match; leaving Hst; apply steady_aside; by auto.
  - destruct Hst as (_ & _ & ->). apply steady_aside; auto.
  - destruct Hst as [_ ->]. apply steady_aside; [done..|]. left. cbn. cbn in He.
    by rewrite fn_lookup_insert_ne.
  - subst s1. apply steady_aside; [done..|]. cbn.
    destruct (decide (t = TCtl)) as [->|]; [right; by rewrite fn_lookup_insert | left; by rewrite fn_lookup_insert_ne].
  - destruct Hst as [_ ->]. apply steady_aside; [done..|]. left. cbn. cbn in He.
    by rewrite fn_lookup_insert_ne.
  - subst s1. cbn in He. apply steady_aside; [|by auto..]. cbn. by rewrite fn_lookup_insert_ne.
Qed.

Lemma steady_owned (s s' : process S) : steady s s' -> ctl_owned s -> ctl_owned s'.
Proof.
  intros (Ha & _ & _ & Hi & Hp & Hf) [Hn Ho]. unfold ctl_owned. rewrite Hi. split.
  { intros H. apply Hn. by destruct Hp as [<-|Hp]; [|rewrite Hp in H]. }
  intros Hz. destruct (Ho Hz) as [H1 H2]. split.
  - intros Hr. rewrite Ha. apply H1. by destruct Hp as [<-|Hp]; [|rewrite Hp in Hr].
  - intros [H|[Hr Hd]]%Hf; [done|]. rewrite (H1 Hr) in Hd. done.
Qed.

Lemma bystander_keeps X (e : procE X) : bystander X e -> op_keeps step_of ctl_owned e.
Proof. intros He s x s' Hs Hr. eapply steady_owned; [by eapply bystander_steady | done]. Qed.

(** ** What the main thread relies on *)

Abbreviation firm := (preserved steady).

Lemma firm_idle : firm idle.
Proof. intros s s' (_ & _ & _ & _ & [H|H] & _); unfold idle; by rewrite H. Qed.

Lemma firm_ctl_id id : firm (fun s => pr_ctl_id s = id).
Proof. intros s s' (_ & _ & _ & -> & _). done. Qed.

Lemma firm_not_id id : firm (fun s => pr_ctl_id s <> id).
Proof. intros s s' (_ & _ & _ & -> & _). done. Qed.

Lemma firm_owner P : firm (owner P).
Proof. intros s s' (H1 & H2 & H3 & H4 & _). unfold owner. by rewrite H1, H2, H3, H4. Qed.

Lemma firm_magic c : firm (fun s => magic c = magic (ctx_of s)).
Proof. intros s s' (_ & H & _). by rewrite H. Qed.

Lemma firm_thread_id c : firm (fun s => thread_id c = thread_id (ctx_of s)).
Proof. intros s s' (_ & _ & H & _). by rewrite H. Qed.

#[local] Hint Resolve firm_idle firm_ctl_id firm_not_id firm_owner firm_magic firm_thread_id : preserved.

Lemma firm_ended : firm ended.
Proof. unfold ended. auto with preserved. Qed.
#[local] Hint Resolve firm_ended : preserved.

Lemma firm_stable P : firm P -> stable step_of ctl_owned bystander P.
Proof. intros HP X e s x s' He _ Hp Hr. eapply HP; [by eapply bystander_steady | done]. Qed.

Abbreviation main_proves := (proves step_of ctl_owned bystander anywhere).

Lemma main_quiet P {A} (p : proc A) : firm P -> uses bystander p -> main_proves P p (fun _ => P).
Proof.
  intros HP. apply proves_uses; [by apply firm_stable | | done]. intros X e s x s' He Hs Hp Hr.
  pose proof (bystander_steady _ _ _ _ He Hr) as Hst. split; [by eapply steady_owned | by eapply HP].
Qed.

Abbreviation of_ctl := (of_ctl exit_on_error vss_4).

Lemma ctl_vis {X A} P (R : X -> process S -> Prop) (e : ctlE X) (k : X -> ctl A) Q :
  plain e -> (forall x, firm (R x)) ->
  (forall s x s', ctl_owned s -> P s -> step_of _ (By TMain (OpSa (Ctl e))) s x s' -> ctl_owned s' /\ R x s') ->
  (forall x, main_proves (R x) (of_ctl (k x)) Q) ->
  main_proves P (of_ctl (Vis e k)) Q.
Proof.
  intros He HR Hst Hk. apply (proves_ctl _ _ _ _ _ _ _ _ R); [done | | done..].
  intros x. apply firm_stable, HR.
Qed.

Lemma ctl_get P {A} (k : seatctrl_context_t -> ctl A) Q :
  firm P ->
  (forall c, main_proves (fun s => P s /\ magic c = magic (ctx_of s) /\ thread_id c = thread_id (ctx_of s))
               (of_ctl (k c)) Q) ->
  main_proves P (of_ctl (Vis GetCtx k)) Q.
Proof.
  intros HP. apply ctl_vis; [done | auto with preserved |]. intros s x s' Hs Hp Hr.
  pose proof (bystander_steady (By TMain (OpSa (Ctl GetCtx))) s x s' I Hr) as Hst.
  split; [by eapply steady_owned|]. split; [by eapply HP|].
  destruct Hst as (_ & -> & -> & _). by destruct Hr as (_ & _ & s1 & (m & [-> _] & _) & _).
Qed.

Lemma ctl_pass P {X A} (e : ctlE X) (k : X -> ctl A) Q :
  plain e -> ctl_quiet e -> firm P -> (forall x, main_proves P (of_ctl (k x)) Q) ->
  main_proves P (of_ctl (Vis e k)) Q.
Proof.
  intros Hp He HP. apply (ctl_vis P (fun _ => P)); [done | done |]. intros s x s' Hs Hps Hr.
  assert (steady s s') as Hst by (eapply bystander_steady; [|exact Hr]; exact He).
  split; [by eapply steady_owned | by eapply HP].
Qed.

(** The member is set, everything else stays. *)
Lemma ctl_set_id P P' id {A} (k : unit -> ctl A) Q :
  firm P' ->
  (forall s m, P s -> m_ctx m = set_thread_id id (ctx_of s) -> P' (with_ctl m s)) ->
  main_proves P' (of_ctl (k tt)) Q -> main_proves P (of_ctl (Vis (ModCtx (set_thread_id id)) k)) Q.
Proof.
  intros HP' Hset Hk. apply (ctl_vis P (fun _ => P')); [done | done | | by intros []].
  intros s [] s' Hs Hp (_ & _ & s1 & (m & -> & ->) & ->).
  assert (steady (with_ctl (with_ctx (set_thread_id id) (pr_ctl s)) s)
            (charge TMain (OpSa (Ctl (ModCtx (set_thread_id id)))) s
               (with_ctl (with_ctx (set_thread_id id) (pr_ctl s)) s))) as Hst
    by (apply steady_charge; [done | split_and!; auto]).
  split; [by apply (steady_owned _ _ Hst) | by eapply HP', Hset].
Qed.

(** The thread is not running and not in the context, or its id is there. *)
Definition held (s : process S) : Prop :=
  (owner (fun id _ => id = 0) s /\ ended s) \/ owner (fun id i => i = Some id) s.

Lemma firm_held : firm held.
Proof. unfold held. auto with preserved. Qed.
#[local] Hint Resolve firm_held : preserved.

(** What an answer to [pthread_create] means. *)
Definition launched (r : Z * Z) (s : process S) : Prop :=
  owner (fun _ _ => True) s /\ (fst r = 0 -> pr_ctl_id s = Some (snd r)) /\ (fst r <> 0 -> ended s).

Lemma firm_launched r : firm (launched r).
Proof. unfold launched. auto 6 with preserved. Qed.
#[local] Hint Resolve firm_launched : preserved.

Lemma pthread_create_launches s r s' :
  ctl_owned s -> owner (fun id _ => id = 0) s /\ ended s ->
  step_of _ (By TMain (OpSa (Ctl (Os O_pthread_create)))) s r s' -> ctl_owned s' /\ launched r s'.
Proof.
  intros Hs [(Ha & Hm & _) Hi] (_ & _ & s1 & (m & (_ & [o ->]) & Hst) & ->). cbn [ctl_step os_step] in Hst.
  assert (charge TMain (OpSa (Ctl (Os O_pthread_create))) s s1 = s1) as ->
    by (unfold charge; cbn; by rewrite Ha).
  unfold ctl_owned, launched, owner, ended, idle in *. destruct (Z.eqb_spec (fst r) 0) as [E|E].
  - destruct Hst as [Hn ->]. destruct Hs as [Hs Ho]. rewrite (Hs Hn) in Ho. cbn.
    split; [|by split_and!]. split; [done|]. intros _. split; [done|]. by apply Ho.
  - subst s1. split; [exact Hs|]. by split_and!.
Qed.

Lemma pthread_join_ends s x s' id :
  ctl_owned s -> pr_ctl_id s = Some id -> step_of _ (By TMain (OpSa (Ctl (Os (O_pthread_join id))))) s x s' ->
  ctl_owned s' /\ idle s'.
Proof.
  intros Hs Hid (_ & _ & s1 & (m & _ & [Hp ->]) & ->). rewrite bool_decide_eq_true_2 in Hp by done.
  destruct Hp as [Hp _]. set (s1 := with_ctl m s).
  assert (pr_faults (charge TMain (OpSa (Ctl (Os (O_pthread_join id)))) s s1) = pr_faults s
          \/ pr_faults (charge TMain (OpSa (Ctl (Os (O_pthread_join id)))) s s1) = pr_faults s ++ [(TMain, ObjAdjuster)]) as Hf
    by (unfold charge; cbn [object_of]; destruct (usable s ObjAdjuster); auto).
  unfold ctl_owned, idle. rewrite charge_ctl_id.
  destruct (charge_fields TMain (OpSa (Ctl (Os (O_pthread_join id)))) s s1) as (-> & -> & _).
  change (pr_phase s1) with (pr_phase s). rewrite Hp. split; [|done]. split; [done|].
  intros Hz. split; [done|]. destruct (proj2 Hs Hz) as [_ Hn].
  destruct Hf as [->| ->]; [done|]. rewrite in_app_iff. by intros [?|[[=]|[]]].
Qed.

(** ** Opening and closing *)

Abbreviation main_ctl P p Q := (main_proves P (of_ctl p) Q).

Lemma open_holds : main_ctl held (seatctrl_open CTX) (fun _ => held).
Proof.
  unfold seatctrl_open. apply ctl_get; [auto with preserved|]. intros c0.
  destruct (if _ : bool then None else _) as [dev|]; [|by intros s _ [H _]].
  apply ctl_get; [auto with preserved|]. intros c1. destruct (negb _); [by intros s _ [[H _] _]|].
  apply ctl_get; [auto with preserved|]. intros c. destruct (running c || _) eqn:E; [by intros s _ [[[H _] _] _]|].
  apply orb_false_iff in E as [_ E%negb_false_iff%Z.eqb_eq].
  apply (proves_weaken _ _ _ _ (fun s => owner (fun id _ => id = 0) s /\ ended s) _ _ (fun _ => held));
    [|done|].
  { intros s _ [[[[H|(Ha & Hm & H)] _] _] [_ Hid]]; [done|]. split; [|right; congruence].
    by rewrite E in Hid. }
  apply ctl_pass; [done | exact I | auto with preserved |]. intros [fd err].
  apply ctl_pass; [done | by intros ? | auto with preserved |]. intros _. destruct (fd <? 0).
  { apply ctl_pass; [done | by intros ? | auto with preserved |]. intros _ s _ H. by left. }
  apply ctl_pass; [done | exact I | auto with preserved |]. intros c2.
  apply ctl_pass; [done | exact I | auto with preserved |]. intros [[rc err1] ifr].
  apply ctl_pass; [done | exact I | auto with preserved |]. intros c3.
  apply ctl_pass; [done | exact I | auto with preserved |]. intros [rc1 err2]. destruct (rc1 <? 0); [by intros s _ H; left|].
  apply ctl_pass; [done | exact I | auto with preserved |]. intros c4.
  apply ctl_pass; [done | exact I | auto with preserved |]. intros ?.
  apply (ctl_vis _ launched); [done | auto with preserved | apply pthread_create_launches |]. intros [r id].
  destruct (Z.eqb_spec r 0) as [->|Hr].
  - eapply (ctl_set_id _ held); [auto with preserved | |].
    + intros s m ((Ha & Hm & _) & Hid & _) Em. right. unfold owner. cbn. rewrite Em. split_and!; [done | exact Hm | by apply Hid].
    + cbn. by intros s _ H.
  - eapply (ctl_set_id _ (fun s => owner (fun _ _ => True) s /\ ended s)); [auto with preserved | |].
    + intros s m ((Ha & Hm & _) & _ & Hi) Em. split; [|by apply Hi]. unfold owner. cbn. by rewrite Em.
    + cbn [negb]. eapply (ctl_set_id _ held); [auto with preserved | | by intros s _ H].
      intros s m ((Ha & Hm & _) & Hi) Em. left. split; [|exact Hi]. unfold owner. cbn. by rewrite Em.
Qed.

Lemma join_ends rc : main_ctl held (join_thread rc) (fun _ => ended).
Proof.
  unfold join_thread. apply ctl_get; [auto with preserved|]. intros c. destruct (Z.eqb_spec (thread_id c) 0) as [E|E].
  { intros s _ [[[_ H]|(_ & _ & H)] [_ Hid]]; [done|]. right. congruence. }
  apply (ctl_vis _ (fun id s => pr_ctl_id s <> Some id /\ owner (fun id i => i = Some id) s));
    [done | auto with preserved | |].
  { intros s id s' Hs [Hh [_ Hid]] Hr.
    assert (steady s s') as Hst by (eapply bystander_steady; [|exact Hr]; exact I).
    split; [by eapply steady_owned|]. split.
    - destruct Hst as (_ & _ & _ & -> & _). destruct Hr as (_ & _ & s1 & (m & _ & [Hself _]) & _).
      by apply Hself.
    - destruct Hh as [[(_ & _ & H) _]|H]; [congruence | by eapply firm_owner]. }
  intros id. apply ctl_get; [auto with preserved|]. intros c'.
  destruct (Z.eqb_spec id (thread_id c')) as [E'|E'].
  { apply (proves_weaken _ _ _ _ (fun _ => False) _ _ (fun _ => ended)); [|done | by split; [|intros s x s' _ []]].
    intros s _ [[Hn (_ & _ & H)] [_ Hid]]. apply Hn. rewrite H. congruence. }
  apply ctl_get; [auto with preserved|]. intros c2.
  eapply (ctl_vis _ (fun _ => ended)); [done | auto with preserved | |].
  { intros s x s' Hs [[[_ (_ & _ & H)] _] [_ Hid]] Hr.
    assert (pr_ctl_id s = Some (thread_id c2)) as Hc by congruence.
    destruct (pthread_join_ends _ _ _ _ Hs Hc Hr) as [H1 H2]. split; [done | by left]. }
  intros res. eapply (ctl_set_id _ ended); [auto with preserved | by intros s m H _ | by intros s _ H].
Qed.

Lemma close_ends : main_ctl held (seatctrl_close CTX) (fun _ => ended).
Proof.
  unfold seatctrl_close. apply ctl_get; [auto with preserved|]. intros c.
  destruct (Z.eqb_spec (magic c) SEAT_CTRL_CONTEXT_MAGIC) as [E|E]; cbn [is_null negb orb].
  2:{ intros s _ [Hh [Hm _]]. destruct Hh as [[(_ & H & _) _]|(_ & H & _)]; congruence. }
  apply (proves_weaken _ _ _ _ held _ _ (fun _ => ended)); [by intros s _ [H _] | done |].
  apply ctl_pass; [done | by intros ? | auto with preserved |]. intros _.
  apply ctl_pass; [done | exact I | auto with preserved |]. intros _.
  apply ctl_pass; [done | exact I | auto with preserved |]. intros c1.
  destruct (negb _); [|apply join_ends].
  apply ctl_pass; [done | exact I | auto with preserved |]. intros c2.
  apply ctl_pass; [done | exact I | auto with preserved |]. intros [res err].
  apply ctl_pass; [done | by intros ? | auto with preserved |]. intros _. apply join_ends.
Qed.

(** ** The programs *)

Lemma loop_quiet {X} (e : ctlE X) : ctl_loop_op e -> ctl_quiet e.
Proof.
  destruct e as [|f| |st|X e|cb ev v ud|l]; try done; [|by destruct e].
  intros He c. by destruct (He c) as (H1 & _ & H2).
Qed.

Lemma stands_by_adjuster t {A} (p : sa A) :
  uses (on_ctl (@ctl_loop_op)) p -> uses bystander (as_adjuster vss_4 t p).
Proof.
  apply uses_interp. intros X e He. destruct e; try (by cbn).
  - split; [by apply loop_quiet | done].
  - cbn [sa_op]. apply uses_bind; [by cbn|]. intros _. destruct (_ =? _); [|done].
    eapply (uses_interp (fun _ _ => True)); [|by apply uses_all]. by cbn.
Qed.

Lemma stands_by_fd t {A} (p : fd A) : uses bystander (interp (fd_op t) p).
Proof. eapply (uses_interp (fun _ _ => True)); [|by apply uses_all]. by cbn. Qed.

Lemma stands_by_sig t {A} (p : sig A) : uses bystander (interp (sig_op t) p).
Proof. eapply (uses_interp (fun _ _ => True)); [|by apply uses_all]. by cbn. Qed.

Lemma stands_by_ps t {A} (p : ps A) : uses bystander (interp (ps_op exit_on_error vss_4 t) p).
Proof.
  eapply (uses_interp (fun _ _ => True)); [|by apply uses_all]. intros X e _.
  destruct e; try (by cbn). apply stands_by_adjuster, loops_set.
Qed.

Lemma stands_by_handling t {A} (p : handling A) : uses bystander (interp (adj_op exit_on_error vss_4 t) p).
Proof.
  eapply (uses_interp (fun _ _ => True)); [|by apply uses_all]. intros X e _.
  destruct e; apply stands_by_adjuster; [apply loops_get | apply loops_set].
Qed.

Lemma stand_by w :
  Forall (other_ok step_of ctl_owned bystander) (other_threads exit_on_error vss_4 w).
Proof.
  apply (Forall_impl (P := fun t => uses bystander (Pool.cur t) /\ uses bystander (Pool.body t))).
  { intros t [H1 H2]. split; [|done]. split; (eapply keeps_uses; [apply bystander_keeps | done]). }
  apply Forall_others; intros; cbn [Pool.cur Pool.body]; split; try done;
    unfold ctl_prologue, ctl_body, feeder_body, subscriber_program, handler_program, signal_program.
  - apply uses_bind; [apply stands_by_adjuster, on_ctl_lift, loops_iteration | by intros []].
  - apply uses_bind; [apply stands_by_fd | by intros []].
  - apply uses_bind; [apply stands_by_fd | by intros []].
  - apply uses_bind; [apply stands_by_ps | by intros []].
  - apply uses_bind; [by cbn|]. intros _. apply uses_bind; [|by cbn].
    destruct call; (apply uses_bind; [apply stands_by_handling | done]).
  - apply uses_bind; [by cbn|]. intros _. apply uses_bind; [apply stands_by_sig | done].
Qed.

Lemma main_starts :
  main_proves held (as_adjuster vss_4 TMain (adjuster_start exit_on_error)) (fun _ => held).
Proof.
  unfold adjuster_start. apply (proves_interp_bind _ _ _ _ _ _ _ _ (fun _ => held)).
  { apply main_quiet; [apply firm_held|]. apply stands_by_adjuster, on_ctl_lift, loops_set_callback. }
  intros rc. destruct (negb _).
  { apply main_quiet; [apply firm_held|]. unfold sa_when. by destruct exit_on_error. }
  apply (proves_interp_bind _ _ _ _ _ _ _ _ (fun _ => held)); [apply open_holds|].
  intros rc'. apply main_quiet; [apply firm_held|]. unfold sa_when. destruct (negb _); [|done].
  by destruct exit_on_error.
Qed.

Lemma main_performs_one a : main_proves held (perform exit_on_error vss_4 TMain a) (fun _ => held).
Proof.
  destruct a; cbn [perform]; [apply main_starts|..]; (apply main_quiet; [apply firm_held|]); try (by cbn).
  - apply uses_bind; [apply stands_by_sig|]. intros []; [|by cbn]. apply uses_bind; [apply stands_by_sig | done].
  - apply stands_by_fd.
  - apply stands_by_ps.
Qed.

Lemma main_destroys_adjuster :
  main_proves ended (by_me TMain (OpDestroy ObjAdjuster)) (fun _ _ => True).
Proof.
  apply proves_op; [by intros | | done]. intros s x s' [Hn Ho] Hi (_ & _ & s1 & -> & ->). split; [|done].
  split; [exact Hn|]. intros Hz. destruct (Ho Hz) as [_ Hf]. split; [|exact Hf]. intros Hr.
  by destruct Hi as [Hi|Hi]; [destruct (Hi Hr) | destruct (Hz Hi)].
Qed.

Lemma main_holds_on cfg (o : S) k actions :
  main_ok step_of ctl_owned bystander anywhere (process_init cfg o k) (main_thread exit_on_error vss_4 actions).
Proof.
  exists held. split; [apply firm_stable, firm_held|]. split; [left; split; [done | by left]|].
  cbn [Pool.cur main_thread]. unfold main_program, perform_all.
  apply (proves_bind _ _ _ _ _ _ _ (fun _ => held)).
  { induction actions as [|a actions IH]; [by intros s _ H|].
    apply (proves_bind _ _ _ _ _ _ _ (fun _ => held)); [apply main_performs_one | by intros _]. }
  intros _. apply (proves_bind _ _ _ _ _ _ _ (fun _ _ => True)).
  - unfold leave_scope. do 3 (apply (proves_bind _ _ _ _ _ _ _ (fun _ => held));
      [apply main_quiet; [apply firm_held | first [by cbn | apply stands_by_fd]] | intros _]).
    apply (proves_bind _ _ _ _ _ _ _ (fun _ => ended)); [|intros _; apply main_destroys_adjuster].
    apply (proves_interp_bind _ _ _ _ _ _ _ _ (fun _ => ended)); [apply close_ends | by intros _ s _ H].
  - intros _. eapply (proves_bind _ _ _ _ _ _ _ (fun _ _ => True)); [|by intros _ s _ _].
    by apply main_quiet; [apply preserved_pure | cbn].
Qed.

Lemma process_owned cfg (o : S) k actions w (s : process S) ts :
  rtc (Pool.step step_of) (start exit_on_error vss_4 cfg o k actions w) (s, ts) -> ctl_owned s.
Proof.
  intros Hsteps. destruct (main_keeps step_of ctl_owned bystander anywhere _ _ Hsteps) as [Hw _]; [| | exact Hw].
  - split; [done|]. intros _. split; [done|]. by intros H.
  - eexists _, _. split; [reflexivity|]. split; [apply main_holds_on | apply stand_by].
Qed.

(** C10: Whatever the threads of the process interleave and whatever the main thread does in between:
    while the CTL thread is running, the adjuster on whose context it works has not been destroyed;
    the code takes the id 0 for no thread, so this is for a system that has not given the thread
    the id 0. *)
Theorem ctl_thread_ends_first cfg (o : S) k actions w (s : process S) ts :
  rtc (Pool.step step_of) (start exit_on_error vss_4 cfg o k actions w) (s, ts) ->
  pr_ctl_id s <> Some 0 -> pr_phase s TCtl = Running -> pr_alive s ObjAdjuster = true.
Proof. intros Hsteps Hz. by apply (process_owned _ _ _ _ _ _ _ Hsteps). Qed.

(** C9: At every moment of the process that [Run] starts: the only operations on objects that are not
    there are calls of the data feeder's callback by the CTL thread and cancellations by the main
    thread, and, should the system have given it the id 0, the CTL thread's on the adjuster; and once
    one of the objects is gone, the threads of the feeder and of the subscriber have ended, the
    server is down and no request is being handled. *)
Theorem threads_end_before_objects can_if addr port broker server cfg (o : S) k w (s : process S) ts :
  rtc (Pool.step step_of)
    (start exit_on_error vss_4 cfg o k (fst (Run can_if addr port broker vss_4 server)) w) (s, ts) ->
  Forall (fun f => excusable f \/ (f = (TCtl, ObjAdjuster) /\ pr_ctl_id s = Some 0)) (pr_faults s)
  /\ forall obj, pr_alive s obj = false ->
      pr_phase s TFeeder = Finished /\ pr_phase s TSubscriber = Finished
      /\ pr_server s <> Serving /\ forall i, pr_phase s (THandler i) <> Running.
Proof.
  intros Hsteps. destruct (process_tidy _ _ _ _ _ _ _ _ _ _ _ _ _ _ Hsteps) as [Hf Ho].
  split; [|exact Ho]. destruct (process_owned _ _ _ _ _ _ _ Hsteps) as [_ Hc].
  rewrite !Forall_forall in Hf |- *. intros f Hin. destruct (Hf f Hin) as [H| ->]; [by left | right].
  split; [done|]. destruct (decide (pr_ctl_id s = Some 0)) as [|Hz]; [done|].
  by destruct (Hc Hz) as [_ Hn]; destruct Hn.
Qed.

End Threads.
