(* ===== verification/LostShutdown.v ===== *)
(** * A shutdown that is forgotten

    [Shutdown] of the subscriber stores [false] in [running_] and cancels the call that is under
    way.  Between its test of [running_] and the creation of the call context the subscriber can
    be told neither way; it goes on to subscribe, and as long as the broker keeps the stream open
    the main thread waits for it.  [forgotten_shutdown_hangs]: then nothing ends the process. *)
From Stdlib Require Import ZArith Lia String.
From stdpp Require Import base numbers list strings gmap relations functions.
From S2P Require Import Prelude Prog Stable CanDbc Os Grpc SeatController CtlMachine ApiSpec Invariants.
From S2P Require Import SeatAdjuster SeatsService KuksaClient DataBrokerFeeder FeederSpec SeatService Signals.
From S2P Require Import FeederTypes Process ProcessSpec ProcessObjects.

(** ** The subscriber between opening its stream and the end of it *)

Definition ps_mild : forall X, psE X -> Prop := fun X e =>
  match e with P_set_context _ | P_finish | P_try_cancel => False | _ => True end.
Definition ps_opening : forall X, psE X -> Prop := fun X e =>
  match e with P_set_context true => True | _ => False end.
Definition ps_closing : forall X, psE X -> Prop := fun X e =>
  match e with P_finish => True | _ => False end.

Lemma mild_handle n updates : uses ps_mild (handle_response n updates).
Proof.
  induction updates as [|u updates IH]; [done|]. apply uses_bind; [|done].
  unfold handle_update. repeat case_match; by cbn.
Qed.

Lemma mild_read_loop fuel n : uses ps_mild (read_loop fuel n).
Proof.
  induction fuel as [|fuel IH]; [done|]. apply uses_bind; [done|].
  intros [updates|]; [|done]. apply uses_bind; [apply mild_handle | done].
Qed.

Lemma opens_nothing {A} (p : ps A) : uses ps_mild p -> bracketed ps_mild ps_opening ps_closing p.
Proof.
  intros H. apply bracketed_uses. revert H. induction p as [a|X e k IH]; simpl; [done|].
  intros [He Hk]. split; [|auto]. intros Ho. by destruct e.
Qed.

Lemma bracketed_iteration fuel n failures :
  bracketed ps_mild ps_opening ps_closing (subscriber_iteration fuel n failures).
Proof.
  unfold subscriber_iteration. apply bracketed_bind; [by cbn|]. intros running. destruct (negb running); [done|].
  apply bracketed_bind; [by cbn|]. intros conn. destruct (negb conn); [done|].
  cbn [mbind prog_mbind prog_bind trigger bracketed]. split.
  - intros _ _. cbn [inside]. right. split; [done|]. intros _. apply inside_bind_r; [apply mild_read_loop|].
    intros _. by left.
  - intros _. split; [done|]. intros _. apply bracketed_bind; [apply opens_nothing, mild_read_loop|].
    intros _. split; [done|]. intros status. destruct (ok status); [by cbn|].
    cbv zeta. destruct (_ && _); by cbn.
Qed.

Lemma bracketed_subscriber iterations fuel n :
  bracketed ps_mild ps_opening ps_closing (subscriber_Run iterations fuel n).
Proof.
  unfold subscriber_Run. apply bracketed_bind; [by cbn|]. intros _. generalize 0.
  induction iterations as [|iterations IH]; intros failures; cbn [subscriber_loop]; [done|].
  apply bracketed_bind; [apply bracketed_iteration|]. by intros [].
Qed.

Section Hang.
Context {CAN : Cantools} {S : Type}.
Variable vss_4 : bool.

Abbreviation step_of := (proc_step (S := S) true).

(** *** What operations leave alone *)

(** The call context and the life of the process. *)
Definition gentle {X} (e : opE X) : Prop :=
  match e with
  | OpPs (P_set_context _) | OpPs P_try_cancel | OpExit _ | OpSa (Abort _) => False
  | _ => True
  end.

Lemma gentle_step {X} t (e : opE X) (s : process S) x s1 :
  gentle e -> op_step true t e s x s1 -> pr_context s1 = pr_context s /\ pr_exit s1 = pr_exit s.
Proof.
  intros Hg Hst. destruct e as [X e|X e|X e|X e|t'| |t'| | | | | |g|o|c]; try done; cbn [op_step] in Hst;
    try (leaving Hst; by auto).
  - destruct e as [X e| |a|cb p| |rc]; try done; cbn [sa_step] in Hst;
      try (leaving Hst; by auto).
    destruct Hst as (m & _ & Hst). destruct e as [|f| |st|X e|cb ev v ud|l]; cbn [ctl_step] in Hst; try by subst.
    destruct e; cbn [os_step] in Hst; try (leaving Hst; by auto).
    destruct (_ =? _); leaving Hst; by auto.
  - by destruct Hst as (f & _ & ->).
  - destruct e as [ |b| |n| | |p|b| | |z]; try done; cbn [ps_step] in Hst;
      (leaving Hst; by auto).
  - by destruct Hst as (_ & _ & ->).
Qed.

Lemma gentle_or {X} (e : opE X) : gentle e \/ ~ gentle e.
Proof.
  destruct e as [X e| |X e| | | | | | | | | | | |]; try (by left); try (by right; intros []);
    destruct e; try (by left); by right; intros [].
Qed.

Lemma charge_context {X} t (e : opE X) (s s1 : process S) : pr_context (charge t e s s1) = pr_context s1.
Proof. unfold charge. by repeat case_match. Qed.

Lemma charge_exit {X} t (e : opE X) (s s1 : process S) : pr_exit (charge t e s s1) = pr_exit s1.
Proof. unfold charge. by repeat case_match. Qed.

(** Only a thread itself ends. *)
Lemma running_step {X} t t' (e : opE X) (s : process S) x s1 :
  match e with OpEnd => t <> t' | _ => True end -> op_step true t e s x s1 ->
  pr_phase s t' = Running -> pr_phase s1 t' = Running.
Proof.
  intros He Hst Hr.
  assert (forall t p, p = Running \/ t <> t' -> (<[t := p]> (pr_phase s)) t' = Running) as Hset.
  { intros t0 p Hp. destruct (decide (t' = t0)) as [->|Hn].
    - rewrite fn_lookup_insert. by destruct Hp.
    - by rewrite fn_lookup_insert_ne. }
  destruct e as [X e|X e|X e|X e|t0| |t0| | | | | |g|o|c]; cbn [op_step] in Hst;
    try (leaving Hst; by auto); try (leaving Hst; apply Hset; by auto).
  - destruct e as [X e| |a|cb p| |rc]; cbn [sa_step] in Hst; try (leaving Hst; by auto).
    destruct Hst as (m & _ & Hst). destruct e as [|f| |st|X e|cb ev v ud|l]; cbn [ctl_step] in Hst;
      try (leaving Hst; by auto).
    destruct e; cbn [os_step] in Hst; try (leaving Hst; by auto).
    destruct (_ =? _); leaving Hst; [apply Hset|]; by auto.
  - by destruct Hst as (f & _ & ->).
  - destruct e as [ |b| |n| | |p|b| | |z]; cbn [ps_step] in Hst; try (leaving Hst; by auto).
    + destruct b; leaving Hst; by auto.
    + destruct (pr_context s); leaving Hst; by auto.
  - by destruct Hst as (_ & _ & ->).
Qed.

(** *** The roles *)

(** In the stream the subscriber is gentle and goes on. *)
Definition in_stream : forall X, procE X -> Prop := fun X e =>
  match e with By t e => t = TSubscriber /\ gentle e /\ match e with OpEnd => False | _ => True end end.
Definition opening : forall X, procE X -> Prop := fun X e =>
  match e with By _ (OpPs (P_set_context true)) => True | _ => False end.
Definition closing : forall X, procE X -> Prop := fun X e =>
  match e with By t (OpPs P_finish) => t = TSubscriber | _ => False end.

Definition mine : forall X, procE X -> Prop := fun X e => match e with By t _ => t = TSubscriber end.

Lemma opening_dec {X} (e : procE X) : opening X e \/ ~ opening X e.
Proof.
  destruct e as [X t e]. destruct e as [| |X e| | | | | | | | | | | |]; try (by right; intros []).
  destruct e as [ | | | | | | |[]| | |]; try (by left); by right; intros [].
Qed.

(** The other threads are not the subscriber and do not touch its context, the main thread apart:
    it may cancel the call. *)
Definition foreign : forall X, procE X -> Prop := fun X e =>
  match e with By t e => t <> TSubscriber /\ match e with OpPs (P_set_context _) => False | _ => True end end.
Definition harmless : forall X, procE X -> Prop := fun X e =>
  match e with By t e => t <> TSubscriber /\ gentle e end.

Lemma harmless_foreign {X} (e : procE X) : harmless X e -> foreign X e.
Proof.
  destruct e as [X t e]. intros [Ht Hg]. split; [done|]. destruct e as [| |X e| | | | | | | | | | | |]; try done.
  by destruct e.
Qed.

(** *** Programs *)

Definition no_abort : forall X, saE X -> Prop := fun X e => match e with Abort _ => False | _ => True end.

(** Without [SA_EXIT] the adjuster does not end the process. *)
Lemma no_abort_lift {A} (p : ctl A) : uses no_abort (lift false p).
Proof.
  eapply (uses_interp (fun _ _ => True)); [|by apply uses_all].
  intros X e _. destruct e as [|f| |st|X e|cb ev v ud|l]; try by cbn. cbn [dispatch].
  apply uses_bind; [by cbn|]. intros _. destruct (cb =? _); [|done].
  destruct ev; cbn [seatctrl_event_cb sa_when]; [done|]. destruct (negb _); [|done].
  apply uses_bind; [by cbn|]. intros a. destruct (negb _); [by cbn|].
  apply uses_bind; [by destruct (negb _) | by cbn].
Qed.

Lemma uses_adjuster (P : forall X, procE X -> Prop) t {A} (p : sa A) :
  (forall X (e : saE X), no_abort X e -> P X (By t (OpSa e))) ->
  (forall X (e : fdE X), P X (By t (OpFd e))) ->
  uses no_abort p -> uses P (as_adjuster vss_4 t p).
Proof.
  intros Hsa Hfd. apply uses_interp. intros X e He. destruct e; try by (split; [by apply Hsa|]).
  cbn [sa_op]. apply uses_bind; [by split; [apply Hsa|]|]. intros _. destruct (_ =? _); [|done].
  eapply (uses_interp (fun _ _ => True)); [|by apply uses_all]. intros Y e _. by split; [apply Hfd|].
Qed.

Lemma stream_program iterations fuel n :
  bracketed in_stream opening closing
    (interp (ps_op false vss_4 TSubscriber) (subscriber_Run iterations fuel n)).
Proof.
  eapply (bracketed_interp ps_mild ps_opening ps_closing); [| | |apply bracketed_subscriber].
  - intros X e He. destruct e; try done; try (by cbn).
    apply uses_adjuster; [by intros Y [] | done |]. apply uses_bind; [apply no_abort_lift | done].
  - intros X e He. destruct e; try done. by left.
  - intros X e. destruct e as [ |b| |nm| | |p|b| | |z];
      try (right; split; [by intros [] | done]).
    + right. apply uses_adjuster; [by intros Y e _ [] | by intros Y e [] |].
      apply uses_bind; [apply no_abort_lift | done].
    + destruct b; [left; by eexists | right; split; [by intros [] | done]].
Qed.

Lemma harmless_adjuster t {A} (p : sa A) :
  t <> TSubscriber -> uses no_abort p -> uses harmless (as_adjuster vss_4 t p).
Proof. intros Ht. by apply uses_adjuster; [intros X []|]. Qed.

Lemma harmless_fd t {A} (p : fd A) : t <> TSubscriber -> uses harmless (interp (fd_op t) p).
Proof. intros Ht. eapply (uses_interp (fun _ _ => True)); [|by apply uses_all]. by cbn. Qed.

Lemma harmless_sig t {A} (p : sig A) : t <> TSubscriber -> uses harmless (interp (sig_op t) p).
Proof. intros Ht. eapply (uses_interp (fun _ _ => True)); [|by apply uses_all]. by cbn. Qed.

Lemma harmless_until t again : t <> TSubscriber -> uses harmless (until_done t again).
Proof. by destruct again. Qed.

Definition harmless_thread (t : Pool.thread (E := procE)) : Prop :=
  uses harmless (Pool.cur t) /\ uses harmless (Pool.body t).

Lemma harmless_ctl : harmless_thread (Pool.Thread (ctl_prologue false vss_4 TCtl) (ctl_body false vss_4 TCtl)).
Proof.
  split; (apply uses_bind; [apply harmless_adjuster; [done | apply no_abort_lift]|]); [done|].
  intros again. by apply harmless_until.
Qed.

Lemma harmless_feeder fuel :
  harmless_thread (Pool.Thread (feeder_body vss_4 TFeeder fuel) (feeder_body vss_4 TFeeder fuel)).
Proof.
  split; (apply uses_bind; [by apply harmless_fd | intros again; by apply harmless_until]).
Qed.

Lemma harmless_handling t {A} (p : handling A) :
  t <> TSubscriber -> uses harmless (interp (adj_op false vss_4 t) p).
Proof.
  intros Ht. eapply (uses_interp (fun _ _ => True)); [|by apply uses_all].
  intros X e _. destruct e; (apply harmless_adjuster; [done|]);
    (apply uses_bind; [apply no_abort_lift | done]).
Qed.

Lemma harmless_handler i call :
  harmless_thread (Pool.Thread (handler_program false vss_4 (THandler i) call) (mret false)).
Proof.
  split; [|done]. apply uses_bind; [by cbn|]. intros _. apply uses_bind; [|by cbn].
  destruct call; (apply uses_bind; [by apply harmless_handling | done]).
Qed.

Lemma harmless_signal i fuel sg :
  harmless_thread (Pool.Thread (signal_program (TSignal i) fuel sg) (mret false)).
Proof. split; [|done]. apply uses_bind; [by cbn|]. intros _. apply uses_bind; [by apply harmless_sig | done]. Qed.

Lemma foreign_adjuster {A} (p : sa A) : uses foreign (as_adjuster vss_4 TMain p).
Proof.
  eapply (uses_interp (fun _ _ => True)); [|by apply uses_all]. intros X e _. destruct e; try by cbn.
  cbn [sa_op]. apply uses_bind; [by cbn|]. intros _. destruct (_ =? _); [|done].
  eapply (uses_interp (fun _ _ => True)); [|by apply uses_all]. by cbn.
Qed.

Lemma foreign_fd {A} (p : fd A) : uses foreign (interp (fd_op TMain) p).
Proof. eapply (uses_interp (fun _ _ => True)); [|by apply uses_all]. by cbn. Qed.

Lemma foreign_sig {A} (p : sig A) : uses foreign (interp (sig_op TMain) p).
Proof. eapply (uses_interp (fun _ _ => True)); [|by apply uses_all]. by cbn. Qed.

Lemma foreign_perform a : uses foreign (perform false vss_4 TMain a).
Proof.
  destruct a; cbn [perform]; first [apply foreign_adjuster | apply foreign_fd | by cbn | idtac].
  - apply uses_bind; [apply foreign_sig|]. intros []; [|by cbn]. apply uses_bind; [apply foreign_sig | done].
  - cbn. split_and!; try done. intros _. split; [done|]. intros b. by destruct b.
Qed.

Lemma foreign_main actions : uses foreign (main_program false vss_4 TMain actions).
Proof.
  unfold main_program, leave_scope, perform_all. apply uses_bind.
  - induction actions as [|a actions IH]; cbn [foldr]; [done|]. apply uses_bind; [apply foreign_perform | done].
  - intros _. apply uses_bind; [|by cbn]. apply uses_bind; [by cbn|]. intros _.
    apply uses_bind; [apply foreign_fd|]. intros _. apply uses_bind; [by cbn|]. intros _.
    apply uses_bind; [apply foreign_adjuster | by cbn].
Qed.

(** *** The process *)

Definition thread_uses (P : forall X, procE X -> Prop) (t : Pool.thread (E := procE)) : Prop :=
  uses P (Pool.cur t) /\ uses P (Pool.body t).

Lemma thread_uses_step P s t s' t' :
  Pool.thread_step step_of s t s' t' -> thread_uses P t ->
  thread_uses P t' /\ (s' = s \/ exists X (e : procE X) x, P X e /\ step_of X e s x s').
Proof.
  intros Hst [Hc Hb]. destruct Hst as [X e k b s x s' Hr | b s]; cbn [Pool.cur Pool.body uses] in *.
  - destruct Hc as [He Hk]. split; [split; [apply Hk | done]|]. right. by exists X, e, x.
  - split; [by split | by left].
Qed.

(** The subscriber is the fourth thread. *)
Definition SUB : nat := 3.

Definition sub_coherent (s : process S) (t : Pool.thread (E := procE)) : Prop :=
  bracketed in_stream opening closing (Pool.cur t) /\ uses mine (Pool.cur t)
  /\ Pool.body t = mret false
  /\ (pr_context s = Some false ->
       inside in_stream closing (Pool.cur t) /\ pr_phase s TSubscriber = Running).

Record coherent (c : process S * list (Pool.thread (E := procE))) : Prop := Coherent {
  co_main : exists t, snd c !! 0%nat = Some t /\ thread_uses foreign t;
  co_sub : exists t, snd c !! SUB = Some t /\ sub_coherent (fst c) t;
  co_others : forall i t, i <> 0%nat -> i <> SUB -> snd c !! i = Some t -> thread_uses harmless t }.

(** Nothing but the opening operation makes the call one that is not cancelled. *)
Lemma opened_only {X} t (e : opE X) (s : process S) x s1 :
  ~ opening X (By t e) -> op_step true t e s x s1 ->
  pr_context s1 = Some false -> pr_context s = Some false.
Proof.
  intros Ho Hst. destruct (gentle_or e) as [Hg|Hg]; [by destruct (gentle_step t e s x s1 Hg Hst) as [-> _]|].
  destruct e as [X e| |X e| | | | | | | | | | | |c]; try (by destruct Hg); cbn [op_step] in Hst.
  - destruct e; try (by destruct Hg). cbn [sa_step] in Hst. by subst.
  - destruct e as [ | | | | | | |[]| | |]; try (by destruct Hg); try (by destruct Ho); cbn [ps_step] in Hst;
      [by subst|]. destruct (pr_context s) eqn:E; subst s1; cbn; [done | by rewrite E].
  - by subst.
Qed.

Lemma foreign_step {X} (e : procE X) (s : process S) x s' :
  foreign X e -> step_of X e s x s' ->
  (pr_context s' = Some false -> pr_context s = Some false)
  /\ (pr_phase s TSubscriber = Running -> pr_phase s' TSubscriber = Running).
Proof.
  destruct e as [X t e]. intros [Ht He] (_ & _ & s1 & Hst & ->). split.
  - rewrite charge_context. apply (opened_only t e s x s1); [|done].
    destruct e as [| |X e| | | | | | | | | | | |]; try (by intros []). destruct e; by try intros [].
  - rewrite (proj1 (proj2 (charge_fields t e s s1))). eapply running_step; [|done].
    by destruct e.
Qed.

(** The subscriber's own step. *)
Lemma sub_step s t s' t' :
  Pool.thread_step step_of s t s' t' -> sub_coherent s t -> sub_coherent s' t'.
Proof.
  intros Hst (Hb & Hu & Hbody & Hin). destruct Hst as [X e k b s x s' Hr | b s]; cbn [Pool.cur Pool.body] in *.
  - destruct Hb as [Ho Hk]. destruct Hu as [Hm Hu].
    split; [apply Hk|]. split; [apply Hu|]. split; [done|].
    destruct e as [X t e]. cbn in Hm. subst t. destruct Hr as (Hx & He & s1 & Hst & ->).
    rewrite charge_context, (proj1 (proj2 (charge_fields TSubscriber e s s1))). intros Hc.
    destruct (opening_dec (By TSubscriber e)) as [Hop|Hop].
    + split; [by apply Ho|]. eapply running_step; [|exact Hst|]; [by destruct e | by destruct e].
    + destruct (Hin (opened_only _ _ _ _ _ Hop Hst Hc)) as [[Hcl|[(_ & _ & Hne) Hk2]] Hrun].
      * destruct e as [| |X e| | | | | | | | | | | |]; try done. destruct e; try done.
        destruct Hst as [Hfin ->]. rewrite Hc in Hfin. by specialize (Hfin eq_refl).
      * split; [apply Hk2|]. eapply running_step; [|exact Hst|done]. by destruct e.
  - subst b. split; [done|]. split; [done|]. split; [done|]. intros Hc. by destruct (Hin Hc) as [].
Qed.

Lemma coherent_step c c' : Pool.step step_of c c' -> coherent c -> coherent c'.
Proof.
  intros (i & t & s' & t' & Ht & Hst & ->)%Pool.step_lookup [(m & Hm & Hmain) (u & Hu & Hsub) Ho].
  destruct c as [s ts]. cbn [fst snd] in *.
  destruct (decide (i = SUB)) as [->|Hi].
  - rewrite Hu in Ht. injection Ht as <-. split; cbn [fst snd].
    + exists m. by rewrite list_lookup_insert_ne.
    + exists t'. rewrite list_lookup_insert_eq by (by eapply lookup_lt_Some). split; [done|].
      by eapply sub_step.
    + intros j t H0 H1. rewrite list_lookup_insert_ne by done. by apply Ho.
  - assert (thread_uses foreign t) as Hf.
    { destruct (decide (i = 0%nat)) as [->|Hi0]; [by rewrite Hm in Ht; injection Ht as <-|].
      destruct (Ho i t Hi0 Hi Ht) as [H1 H2]. split; (eapply uses_mono; [|done]); apply @harmless_foreign. }
    destruct (thread_uses_step _ _ _ _ _ Hst Hf) as [Hf' Hs']. split; cbn [fst snd].
    + destruct (decide (i = 0%nat)) as [->|Hi0].
      * exists t'. by rewrite list_lookup_insert_eq by (by eapply lookup_lt_Some).
      * exists m. by rewrite list_lookup_insert_ne.
    + exists u. rewrite list_lookup_insert_ne by done. split; [done|].
      destruct Hs' as [->|(X & e & x & He & Hr)]; [done|]. destruct (foreign_step e s x s' He Hr) as [H1 H2].
      destruct Hsub as (Hb & Hus & Hbody & Hin). split_and!; try done. intros Hc.
      destruct (Hin (H1 Hc)). auto.
    + intros j tj H0 H1. destruct (decide (j = i)) as [->|Hj].
      * rewrite list_lookup_insert_eq by (by eapply lookup_lt_Some). intros [= <-].
        by destruct (thread_uses_step _ _ _ _ _ Hst (Ho i t H0 H1 Ht)).
      * rewrite list_lookup_insert_ne by done. by apply Ho.
Qed.

Lemma mine_ps {A} (p : ps A) : uses mine (interp (ps_op false vss_4 TSubscriber) p).
Proof.
  eapply (uses_interp (fun _ _ => True)); [|by apply uses_all]. intros X e _. destruct e; try by cbn.
  eapply (uses_interp (fun _ _ => True)); [|by apply uses_all]. intros Y e _. destruct e; try by cbn.
  cbn [sa_op]. apply uses_bind; [by cbn|]. intros _. destruct (_ =? _); [|done].
  eapply (uses_interp (fun _ _ => True)); [|by apply uses_all]. by cbn.
Qed.

Lemma coherent_start cfg (o : S) k actions w : coherent (start false vss_4 cfg o k actions w).
Proof.
  split; cbn [start fst snd].
  - eexists. split; [done|]. split; [apply foreign_main | done].
  - eexists. split; [done|]. split_and!; cbn [Pool.cur Pool.body]; [| |done..].
    + unfold subscriber_program. apply bracketed_bind; [apply stream_program|]. by intros [].
    + unfold subscriber_program. apply uses_bind; [apply mine_ps|]. by intros [].
  - intros i t H0 H1 Ht.
    assert (Forall (fun t => thread_uses harmless t \/ t = Pool.Thread
      (subscriber_program false vss_4 TSubscriber (fst (w_subscriber w)) (snd (w_subscriber w))) (mret false))
      (other_threads false vss_4 w)) as Hall.
    { apply Forall_others; try (by right); intros; left;
        [apply harmless_ctl | apply harmless_feeder | by cbn | apply harmless_handler | apply harmless_signal]. }
    destruct i as [|[|[|[|[|i]]]]]; try done.
    + injection Ht as <-. apply harmless_ctl.
    + injection Ht as <-. apply harmless_feeder.
    + injection Ht as <-. by cbn.
    + cbn in Ht. clear Hall. apply lookup_app_Some in Ht as [Ht|[_ Ht]];
        rewrite list_lookup_imap in Ht; apply fmap_Some in Ht as (x & _ & ->);
        [apply harmless_handler | apply harmless_signal].
Qed.

(** ** The theorem *)

(** The thread whose end a thread is waiting for. *)
Definition waiting_for (t : Pool.thread (E := procE)) : option tid :=
  match Pool.cur t with
  | Vis e _ => match e with By _ (OpJoin t') => Some t' | By _ _ => None end
  | Ret _ => None
  end.

(** The main thread waits for the subscriber, whose call nobody has cancelled. *)
Definition stranded (c : process S * list (Pool.thread (E := procE))) : Prop :=
  (snd c !! 0%nat) ≫= waiting_for = Some TSubscriber
  /\ pr_context (fst c) = Some false /\ pr_exit (fst c) = None.

Lemma waiting_step s t s' t' :
  Pool.thread_step step_of s t s' t' -> waiting_for t = Some TSubscriber ->
  pr_phase s TSubscriber = Running -> False.
Proof.
  intros Hst Hw Hr. destruct Hst as [X e k b s x s' Hx | b s]; [|done].
  unfold waiting_for in Hw. cbn [Pool.cur] in Hw. destruct e as [X t e]. destruct e; try done.
  injection Hw as ->. destruct Hx as (_ & _ & s1 & [Hf _] & _). by rewrite Hf in Hr.
Qed.

Lemma gentle_proc_step {X} t (e : opE X) (s : process S) x s' :
  gentle e -> step_of X (By t e) s x s' -> pr_context s' = pr_context s /\ pr_exit s' = pr_exit s.
Proof.
  intros Hg (_ & _ & s1 & Hst & ->). rewrite charge_context, charge_exit. by eapply gentle_step.
Qed.

Lemma stranded_step c c' :
  Pool.step step_of c c' -> coherent c -> stranded c -> stranded c'.
Proof.
  intros (i & t & s' & t' & Ht & Hst & ->)%Pool.step_lookup [_ (u & Hu & Hsub) Ho] (Hw & Hc & Hx).
  destruct c as [s ts]. cbn [fst snd] in *. destruct Hsub as (_ & Hum & Hbody & Hin).
  destruct (Hin Hc) as [Hins Hrun].
  destruct (decide (i = 0%nat)) as [->|Hi0].
  { rewrite Ht in Hw. by destruct (waiting_step _ _ _ _ Hst Hw Hrun). }
  unfold stranded. cbn [fst snd]. rewrite list_lookup_insert_ne by done. split; [done|].
  destruct (decide (i = SUB)) as [->|Hi].
  - rewrite Hu in Ht. injection Ht as <-. destruct Hst as [X e k b s x s' Hr | b s]; [|done].
    cbn [Pool.cur] in *. destruct e as [X t e]. destruct Hins as [Hcl|[(_ & Hg & _) _]].
    + destruct e as [| |X e| | | | | | | | | | | |]; try done. destruct e; try done.
      destruct Hr as (_ & _ & s1 & [Hfin _] & _). rewrite Hc in Hfin. by specialize (Hfin eq_refl).
    + destruct (gentle_proc_step _ _ _ _ _ Hg Hr) as [-> ->]. done.
  - destruct (thread_uses_step _ _ _ _ _ Hst (Ho i t Hi0 Hi Ht)) as [_ [->|(X & e & x & He & Hr)]]; [done|].
    destruct e as [X tt e]. destruct He as [_ Hg].
    destruct (gentle_proc_step _ _ _ _ _ Hg Hr) as [-> ->]. done.
Qed.

(** C15: A broker that keeps its streams open, and [SA_EXIT] unset.  From every reachable state of the
    process in which the main thread, on its way out, waits for the subscriber while the call of
    the subscriber is not cancelled, nothing leads on: whatever happens, the call is never
    cancelled, the main thread goes on waiting and the process does not exit. *)
Theorem forgotten_shutdown_hangs can_if addr port broker server cfg (o : S) k w c c' :
  rtc (Pool.step step_of)
    (start false vss_4 cfg o k (fst (Run can_if addr port broker vss_4 server)) w) c ->
  stranded c -> rtc (Pool.step step_of) c c' -> stranded c'.
Proof.
  intros Hc Hs Hc'.
  assert (coherent c) as Hcoh.
  { revert Hc. generalize (coherent_start cfg o k (fst (Run can_if addr port broker vss_4 server)) w).
    intros H0 Hc. revert H0. induction Hc; [done|]. intros H0. apply IHHc; [done..|].
    by eapply coherent_step. }
  clear Hc. induction Hc'; [done|]. apply IHHc'; [by eapply stranded_step | by eapply coherent_step].
Qed.

End Hang.
