(* ===== verification/ProcessView.v ===== *)
(** * What the main thread can be sure of

    The main thread starts the others, tells them to stop and waits for them.  What it knows of
    them at each of these steps is a [view]; the others cannot change what it says
    ([knows]), and every operation of the main thread is performed where it makes sense
    ([need]): it does not start a thread twice, and it waits only for threads that have been
    started and told to stop.  [ProcessProgress] shows that such waits come to an end. *)
From Stdlib Require Import ZArith Lia String.
From stdpp Require Import base numbers list strings gmap relations functions.
From S2P Require Import Prelude Prog Stable CanDbc Os Grpc SeatController CtlMachine ApiSpec Invariants.
From S2P Require Import SeatAdjuster ClosedLoop SeatsService KuksaClient DataBrokerFeeder FeederSpec SeatService.
From S2P Require Import Signals FeederTypes Process ProcessSpec ProcessObjects LostShutdown ProcessThreads.

Section View.
Context {CAN : Cantools} {S : Type}.
Variables exit_on_error vss_4 open_stream : bool.

Abbreviation step_of := (proc_step (S := S) open_stream).
Abbreviation ctx_of s := (m_ctx (pr_ctl s)).

Definition inactive (s : process S) : Prop := stopped (fst (pr_feed s)).
Definition closed (s : process S) : Prop := socket (ctx_of s) = SOCKET_INVALID.

(** The threads that the main thread starts itself. *)
Definition startable (t : tid) : bool :=
  match t with TFeeder | TSubscriber | TServer => true | _ => false end.

(** ** Operations that leave a view alone *)

Definition ctl_mild {X} (e : ctlE X) : Prop :=
  match e with
  | ModCtx f => forall c, thread_id (f c) = thread_id c
  | Os O_pthread_create | Os (O_pthread_join _) => False
  | _ => True
  end.

Definition mild {X} (e : opE X) : Prop :=
  match e with
  | OpSa (Ctl e) => ctl_mild e
  | OpFd e => stays_down _ e
  | OpSpawn _ | OpJoin _ | OpServe | OpStopServing | OpDrain => False
  | _ => True
  end.

(** Besides the phase of the thread itself nothing changes that a view is about. *)
Record keeps_view (t : tid) (s s' : process S) : Prop := Keeps_view {
  kv_server : pr_server s' = pr_server s;
  kv_thread_id : thread_id (ctx_of s') = thread_id (ctx_of s);
  kv_feeder : inactive s -> inactive s';
  kv_phase : forall t', t' <> t -> pr_phase s' t' = pr_phase s t';
  kv_self : pr_phase s' t <> NotStarted }.

Lemma keeps_view_same t (s s' : process S) :
  pr_phase s t <> NotStarted -> pr_server s' = pr_server s -> pr_phase s' = pr_phase s ->
  thread_id (ctx_of s') = thread_id (ctx_of s) -> (inactive s -> inactive s') -> keeps_view t s s'.
Proof. intros Ht Hs Hp Hi Hf. split; try done; by rewrite ?Hp. Qed.

Lemma keeps_view_phase t p (s : process S) : p <> NotStarted -> keeps_view t s (with_phase t p s).
Proof. intros Hp. split; try done; cbn; [by intros; rewrite fn_lookup_insert_ne | by rewrite fn_lookup_insert]. Qed.

Lemma keeps_view_charge {X} t t' (e : opE X) (s0 s s' : process S) :
  keeps_view t s s' -> keeps_view t s (charge t' e s0 s').
Proof.
  intros [H1 H2 H3 H4 H5]. destruct (charge_fields t' e s0 s') as (_ & E1 & E2 & _).
  split; unfold inactive in *; by rewrite ?charge_ctl, ?charge_feed, ?E1, ?E2.
Qed.

Lemma mild_ctl_step {X} t (e : ctlE X) (s : process S) x s1 :
  ctl_mild e -> sa_step t (Ctl e) s x s1 ->
  thread_id (ctx_of s1) = thread_id (ctx_of s)
  /\ (match e with ModCtx f => forall c, socket (f c) = socket c | _ => True end -> socket (ctx_of s1) = socket (ctx_of s))
  /\ exists m, s1 = with_ctl m s.
Proof.
  intros He (m & Hm & Hst).
  assert (s1 = with_ctl m s) as ->.
  { destruct e as [|f| |st|X e|cb ev v ud|l]; try done. destruct e; try done. by destruct Hst as [_ ->]. }
  split_and!; [| | by exists m]; cbn;
    (destruct e as [|f| |st|X e|cb ev v ud|l]; cbn [any_env ctl_mild] in Hm, He;
    [by destruct Hm as [_ ->] | subst m; first [apply He | intros Hf; apply Hf] | by destruct Hm as [_ ->] | by subst m |
     by destruct Hm as (_ & o & ->) | by subst m..]).
Qed.

Lemma fd_stays_down {X} (e : fdE X) (s : process S) x f :
  stays_down X e -> logged_broker _ e (pr_feed s) x f -> inactive s -> inactive (with_feed f s).
Proof. intros He [Hb _] Hs. exact (stays_down_keeps X e He _ _ _ Hs Hb). Qed.

Lemma mild_step {X} t (e : opE X) (s : process S) x s' :
  mild e -> step_of _ (By t e) s x s' -> keeps_view t s s'.
Proof.
  intros He (_ & Hen & s1 & Hst & ->). apply keeps_view_charge.
  destruct e as [X e|X e|X e|X e|t'| |t'| | | | | |g|o|c]; try done; cbn [op_step] in Hst;
    cbn [enabled] in Hen; try (leaving Hst; apply keeps_view_same; try done; by rewrite Hen).
  - destruct e as [X e| |a|cb p| |rc]; try (cbn [sa_step] in Hst; leaving Hst; apply keeps_view_same; try done; by rewrite Hen).
    destruct (mild_ctl_step _ _ _ _ _ He Hst) as (H1 & _ & m & ->).
    apply keeps_view_same; try done; by rewrite Hen.
  - destruct Hst as (f & Hf & ->). apply keeps_view_same; try done; [by rewrite Hen|].
    by eapply fd_stays_down.
  - destruct e as [ |b| |n| | |p|b| | |z]; cbn [ps_step] in Hst;
      try (leaving Hst; apply keeps_view_same; try done; by rewrite Hen).
    + destruct b; leaving Hst; apply keeps_view_same; try done; by rewrite Hen.
    + destruct (pr_context s); leaving Hst; apply keeps_view_same; try done; by rewrite Hen.
  - destruct Hst as (_ & _ & ->). apply keeps_view_same; try done. by rewrite Hen.
  - subst s1. by apply keeps_view_phase.
  - destruct Hst as [_ ->]. by apply keeps_view_phase.
Qed.

(** The other threads leave the socket alone, too. *)
Definition ctl_polite {X} (e : ctlE X) : Prop :=
  ctl_mild e /\ match e with ModCtx f => forall c, socket (f c) = socket c | _ => True end.

Definition polite {X} (e : opE X) : Prop :=
  mild e /\ match e with OpSa (Ctl e) => ctl_polite e | _ => True end.

Lemma polite_socket {X} t (e : opE X) (s : process S) x s' :
  polite e -> step_of _ (By t e) s x s' -> socket (ctx_of s') = socket (ctx_of s).
Proof.
  intros [Hm He] (_ & _ & s1 & Hst & ->). rewrite charge_ctl.
  destruct e as [X e|X e|X e|X e|t'| |t'| | | | | |g|o|c]; try done; cbn [op_step] in Hst; try (by leaving Hst).
  - destruct e as [X e| |a|cb p| |rc]; try (cbn [sa_step] in Hst; by leaving Hst).
    destruct He as [He1 He2]. destruct (mild_ctl_step _ _ _ _ _ He1 Hst) as (_ & H & _). by apply H.
  - by destruct Hst as (f & _ & ->).
  - destruct e as [ |b| |n| | |p|b| | |z]; cbn [ps_step] in Hst; try (by leaving Hst); repeat case_match; by leaving Hst.
  - by destruct Hst as (_ & _ & ->).
Qed.

Definition others : forall X, procE X -> Prop := fun X e =>
  match e with
  | By t e => t <> TMain /\ polite e /\ match e with OpArrive => startable t = false | OpExit _ => False | _ => True end
  end.

(** ** Views *)

Record view := View { v_server : server_state; v_fed : bool; v_started : list tid }.

Definition knows (v : view) (s : process S) : Prop :=
  pr_server s = v_server v /\ (v_fed v = false -> inactive s)
  /\ forall t, startable t = true -> (t ∈ v_started v <-> pr_phase s t <> NotStarted).

Definition thread_known (s : process S) : Prop :=
  thread_id (ctx_of s) = 0 \/ pr_phase s TCtl <> NotStarted.

(** What the others do to the state; facts that it preserves can be relied on. *)
Definition apart (s s' : process S) : Prop := exists t,
  keeps_view t s s' /\ socket (ctx_of s') = socket (ctx_of s)
  /\ (startable t = true -> pr_phase s t <> NotStarted).

Abbreviation reliable := (preserved apart).

Lemma keeps_view_started t t' (s s' : process S) :
  keeps_view t s s' -> pr_phase s t' <> NotStarted -> pr_phase s' t' <> NotStarted.
Proof. intros Hk H. destruct (decide (t' = t)) as [->|Hn]; [apply (kv_self _ _ _ Hk) | by rewrite (kv_phase _ _ _ Hk)]. Qed.

Lemma reliable_started t : reliable (fun s => pr_phase s t <> NotStarted).
Proof. intros s s' (t' & H1 & _). by eapply keeps_view_started. Qed.

Lemma reliable_knows v : reliable (knows v).
Proof.
  intros s s' (t & Hk & _ & Ht) (H1 & H2 & H3). split_and!.
  - by rewrite (kv_server _ _ _ Hk).
  - intros Hf. by apply (kv_feeder _ _ _ Hk), H2.
  - intros t' Ht'. rewrite H3 by done. destruct (decide (t' = t)) as [->|Hn].
    + split; intros _; [by apply (kv_self _ _ _ Hk) | by apply Ht].
    + by rewrite (kv_phase _ _ _ Hk).
Qed.

Lemma reliable_thread_known : reliable thread_known.
Proof.
  intros s s' (t & Hk & _) [H|H]; [left | right]; [by rewrite (kv_thread_id _ _ _ Hk) | by eapply keeps_view_started].
Qed.

Lemma reliable_closed : reliable closed.
Proof. intros s s' (t & _ & H & _) Hc. unfold closed. by rewrite H. Qed.

Lemma reliable_socket c : reliable (fun s => socket c = socket (ctx_of s)).
Proof. intros s s' (t & _ & H & _) Hc. by rewrite H. Qed.

Lemma reliable_thread_id c : reliable (fun s => thread_id c = thread_id (ctx_of s)).
Proof. intros s s' (t & H & _) Hc. by rewrite (kv_thread_id _ _ _ H). Qed.

#[local] Hint Resolve reliable_started reliable_knows reliable_thread_known reliable_closed reliable_socket reliable_thread_id : preserved.

Abbreviation any := (fun _ : process S => True).

Lemma reliable_stable P : reliable P -> stable step_of any others P.
Proof.
  intros HP X [Y t e] s x s' (Ht & Hp & Ha) _ Hs Hr. destruct Hr as (Hx & Hen & Hr).
  assert (step_of _ (By t e) s x s') as Hst by by split_and!.
  eapply HP; [|done]. exists t. split; [eapply mild_step; [apply Hp | exact Hst]|].
  split; [by eapply polite_socket|]. intros Hst'. destruct e; cbn [enabled] in Hen; try (by rewrite Hen). by rewrite Ha in Hst'.
Qed.

(** ** What the operations of the main thread need *)

Definition need : forall X, procE X -> process S -> Prop := fun X e s =>
  match e with
  | By t e =>
      t = TMain /\
      match e with
      | OpSa (Ctl (Os (O_pthread_join _))) => closed s /\ pr_phase s TCtl <> NotStarted
      | OpSa _ | OpFd _ | OpSig _ | OpStopServing | OpDestroy _ | OpExit _ => True
      | OpPs P_context | OpPs P_try_cancel | OpPs (P_set_running _) => True
      | OpSpawn t => startable t = true /\ pr_phase s t = NotStarted
      | OpServe => pr_server s = NoServer
      | OpDrain => pr_server s = Stopped
      | OpJoin TServer => pr_server s = Stopped /\ pr_phase s TServer <> NotStarted
      | OpJoin TFeeder => inactive s /\ pr_phase s TFeeder <> NotStarted
      | OpJoin TSubscriber => True
      | _ => False
      end
  end.

Abbreviation main_proves := (proves step_of any others need).

Definition seen_by (v : view) (s : process S) : Prop := knows v s /\ thread_known s.

Lemma reliable_seen_by v : reliable (seen_by v).
Proof. unfold seen_by. auto with preserved. Qed.
#[local] Hint Resolve reliable_seen_by : preserved.

(** Operations that need nothing and leave the view alone. *)
Definition easy : forall X, procE X -> Prop := fun X e =>
  match e with
  | By t e =>
      t = TMain /\ mild e /\
      match e with
      | OpSa _ | OpFd _ | OpSig _ | OpDestroy _ | OpExit _ => True
      | OpPs P_context | OpPs P_try_cancel | OpPs (P_set_running _) => True
      | _ => False
      end
  end.

Lemma keeps_view_seen v t (s s' : process S) :
  keeps_view t s s' -> startable t = false -> seen_by v s -> seen_by v s'.
Proof.
  intros Hk Ht [(H1 & H2 & H3) H4]. split; [split_and!|].
  - by rewrite (kv_server _ _ _ Hk).
  - intros Hf. by apply (kv_feeder _ _ _ Hk), H2.
  - intros t' Ht'. rewrite H3 by done. rewrite (kv_phase _ _ _ Hk); [done|]. intros ->. congruence.
  - destruct H4 as [H|H]; [left; by rewrite (kv_thread_id _ _ _ Hk) | right; by eapply keeps_view_started].
Qed.

Lemma main_easy v {A} (p : proc A) : uses easy p -> main_proves (seen_by v) p (fun _ => seen_by v).
Proof.
  apply proves_uses; [apply reliable_stable, reliable_seen_by | |].
  - intros X [Y t e] s x s' (-> & Hm & _) _ Hv Hr. split; [done|].
    eapply keeps_view_seen; [by eapply mild_step | done..].
  - intros X [Y t e] s (-> & Hm & He) _ _. split; [done|].
    destruct e as [Z e|Z e|Z e|Z e|t'| |t'| | | | | |g|o|c]; try done.
    destruct e as [Z e| |a|cb p'| |rc]; try done. destruct e as [|f| |st|Z e|cb ev v' ud|l]; try done. by destruct e.
Qed.

(** An operation with an effect of its own. *)
Lemma main_acts v v' {X} (e : opE X) :
  (forall s, seen_by v s -> need _ (By TMain e) s) ->
  (forall s x s1, seen_by v s -> need _ (By TMain e) s -> op_step open_stream TMain e s x s1 -> seen_by v' s1) ->
  main_proves (seen_by v) (by_me TMain e) (fun _ => seen_by v').
Proof.
  intros Hn Hst. apply proves_op; [intros; apply reliable_stable, reliable_seen_by | | auto].
  intros s x s' _ Hv (_ & _ & s1 & Hr & ->). split; [done|].
  destruct (Hst s x s1 Hv (Hn s Hv) Hr) as [(H1 & H2 & H3) H4].
  destruct (charge_fields TMain e s s1) as (_ & E1 & E2 & _).
  unfold seen_by, knows, thread_known, inactive. by rewrite charge_ctl, charge_feed, E1, E2.
Qed.

Definition started (t : tid) (v : view) : view := View (v_server v) (v_fed v) (t :: v_started v).

Lemma main_spawns t v :
  startable t = true -> t ∉ v_started v ->
  main_proves (seen_by v) (by_me TMain (OpSpawn t)) (fun _ => seen_by (started t v)).
Proof.
  intros Ht Hn. apply main_acts.
  - intros s [(_ & _ & H) _]. split_and!; try done. specialize (H t Ht).
    destruct (decide (pr_phase s t = NotStarted)) as [|E]; [done|]. by destruct Hn; apply H.
  - intros s [] s1 [(H1 & H2 & H3) H4] _ [_ ->]. split; [split_and!; try done|].
    + intros t' Ht'. cbn. rewrite elem_of_cons. destruct (decide (t' = t)) as [->|Hne].
      * rewrite fn_lookup_insert. split; [done | by left].
      * rewrite fn_lookup_insert_ne by done. rewrite H3 by done. split; [intros [|]; done | by right].
    + destruct H4 as [H|H]; [by left | right]. cbn.
      destruct (decide (TCtl = t)) as [<-|]; [by rewrite fn_lookup_insert | by rewrite fn_lookup_insert_ne].
Qed.

Definition serving (x : server_state) (v : view) : view := View x (v_fed v) (v_started v).

Lemma main_serves v :
  v_server v = NoServer -> main_proves (seen_by v) (by_me TMain OpServe) (fun _ => seen_by (serving Serving v)).
Proof.
  intros Hv. apply main_acts; [intros s [(H & _) _]; split; [done | by rewrite H]|].
  by intros s [] s1 [(H1 & H2 & H3) H4] _ [_ ->].
Qed.

Lemma main_stops_serving v :
  main_proves (seen_by v) (by_me TMain OpStopServing;; by_me TMain OpDrain) (fun _ => seen_by (serving Stopped v)).
Proof.
  apply (proves_bind _ _ _ _ _ _ _ (fun _ => seen_by (serving Stopped v))).
  - apply main_acts; [by intros s|]. intros s [] s1 [(H1 & H2 & H3) H4] _ Hst. by cbn in Hst; subst s1.
  - intros _. apply main_acts; [intros s [(H & _) _]; by split|]. by intros s [] s1 Hs _ [_ ->].
Qed.

Lemma main_joins t v :
  (forall s, seen_by v s -> need _ (By TMain (OpJoin t)) s) ->
  main_proves (seen_by v) (by_me TMain (OpJoin t)) (fun _ => seen_by v).
Proof. intros H. apply main_acts; [done|]. by intros s [] s1 Hs _ [_ ->]. Qed.

(** *** Opening and closing *)

Abbreviation of_ctl := (of_ctl exit_on_error vss_4).

(** An operation that leaves the view and the socket alone. *)
Lemma view_pass P {X A} (e : ctlE X) (k : X -> ctl A) Q :
  plain e -> ctl_polite e -> reliable P -> (forall x, main_proves P (of_ctl (k x)) Q) ->
  main_proves P (of_ctl (Vis e k)) Q.
Proof.
  intros Hpl He HP Hk. apply (proves_ctl _ _ _ _ _ _ _ _ (fun _ => P)); [done | by intros; apply reliable_stable | | done |].
  - intros s x s' _ Hs Hr. split; [done|].
    assert (polite (OpSa (Ctl e))) as Hpo by (split; [apply He | exact He]).
    eapply HP; [|done]. exists TMain. split; [eapply mild_step; [apply Hpo | exact Hr]|].
    by split; [eapply polite_socket|].
  - intros s _ _. split; [done|]. destruct e as [|f| |st|Z e|cb ev v' ud|l]; try done. destruct e; try done. by destruct He.
Qed.

Lemma view_get P {A} (k : seatctrl_context_t -> ctl A) Q :
  reliable P ->
  (forall c, main_proves (fun s => P s /\ socket c = socket (ctx_of s) /\ thread_id c = thread_id (ctx_of s))
               (of_ctl (k c)) Q) ->
  main_proves P (of_ctl (Vis GetCtx k)) Q.
Proof.
  intros HP Hk. eapply proves_ctl; [done | | | exact Hk | done].
  - intros c. apply reliable_stable. auto with preserved.
  - intros s c s' _ Hs Hr. split; [done|]. assert (polite (OpSa (Ctl GetCtx))) as He by done.
    pose proof (mild_step _ _ _ _ _ (proj1 He) Hr) as Hkv. pose proof (polite_socket _ _ _ _ _ He Hr) as Hso.
    split; [by eapply HP; [exists TMain|]|]. rewrite Hso, (kv_thread_id _ _ _ Hkv).
    by destruct Hr as (_ & _ & s1 & (m & [-> _] & _) & _).
Qed.

(** A member of the context is set, everything else stays. *)
Lemma view_set P P' f {A} (k : unit -> ctl A) Q :
  reliable P' ->
  (forall s, P s -> P' (with_ctl (with_ctx f (pr_ctl s)) s)) ->
  main_proves P' (of_ctl (k tt)) Q -> main_proves P (of_ctl (Vis (ModCtx f) k)) Q.
Proof.
  intros HP' Hset Hk. apply (proves_ctl _ _ _ _ _ _ _ _ (fun _ => P')); [done | by intros; apply reliable_stable | | by intros [] | done].
  intros s [] s' _ Hp (_ & Hen & s1 & (m & -> & ->) & ->). split; [done|].
  set (s1 := with_ctl (with_ctx f (pr_ctl s)) s).
  assert (keeps_view TMain s1 s1) as Hk1 by (by apply keeps_view_same; try done; cbn in *; rewrite Hen).
  eapply (HP' s1); [|by apply Hset]. exists TMain. split; [by apply keeps_view_charge|]. by rewrite charge_ctl.
Qed.

Abbreviation main_ctl P p Q := (main_proves P (of_ctl p) Q).

Ltac pass := apply view_pass; [done | by split | auto with preserved |].

Lemma main_opens v : main_ctl (seen_by v) (seatctrl_open CTX) (fun _ => seen_by v).
Proof.
  unfold seatctrl_open. pass. intros c0.
  destruct (if _ : bool then None else _) as [dev|]; [|by intros s _ H].
  pass. intros c1. destruct (negb _); [by intros s _ H|].
  pass. intros c. destruct (_ || _); [by intros s _ H|].
  pass. intros [fd err]. apply (view_set _ (seen_by v)); [auto with preserved | done |]. destruct (fd <? 0).
  { apply (view_set _ (seen_by v)); [auto with preserved | done | by intros s _ H]. }
  pass. intros c2. pass. intros [[rc err1] ifr]. pass. intros c3. pass. intros [rc1 err2].
  destruct (rc1 <? 0); [by intros s _ H|]. pass. intros c4. pass. intros ?.
  apply (proves_ctl _ _ _ _ _ _ _ _
    (fun r s => knows v s /\ (fst r = 0 -> pr_phase s TCtl <> NotStarted))); [done | | | | done].
  { intros r. apply reliable_stable. auto with preserved. }
  { intros s r s' _ [(H1 & H2 & H3) _] (_ & _ & s1 & (m & _ & Hst) & ->). split; [done|]. cbn [ctl_step os_step] in Hst.
    destruct (charge_fields TMain (OpSa (Ctl (Os O_pthread_create))) s s1) as (_ & E1 & E2 & _).
    unfold knows, inactive. rewrite charge_feed, E1, E2. destruct (Z.eqb_spec (fst r) 0) as [E|E].
    - destruct Hst as [_ ->]. split; [split_and!; [done | done |]|].
      + intros t Ht. cbn. rewrite fn_lookup_insert_ne by (by intros <-). auto.
      + intros _. cbn. by rewrite fn_lookup_insert.
    - subst s1. by split_and!. }
  intros [r id]. apply (view_set _ (fun s => knows v s /\ (r = 0 -> pr_phase s TCtl <> NotStarted)));
    [auto with preserved | done |].
  destruct (Z.eqb_spec r 0) as [->|Hr]; cbn [negb]; [by intros s _ [H1 H2]; split; [|right; auto]|].
  apply (view_set _ (seen_by v)); [auto with preserved | | by intros s _ H]. intros s [H _]. by split; [|left].
Qed.

Lemma main_joins_ctl v rc :
  main_ctl (fun s => seen_by v s /\ closed s) (join_thread rc) (fun _ => seen_by v).
Proof.
  unfold join_thread. apply view_get; [auto with preserved|]. intros c. destruct (Z.eqb_spec (thread_id c) 0) as [E|E].
  { by intros s _ [[H _] _]. }
  set (P := fun s : process S => knows v s /\ closed s /\ pr_phase s TCtl <> NotStarted).
  assert (reliable P) as HP by (unfold P; auto with preserved).
  apply (proves_weaken _ _ _ _ P _ _ (fun _ => seen_by v)); [|done|].
  { intros s _ [[[H1 [H2|H2]] H3] [_ Hid]]; [congruence | by split_and!]. }
  assert (forall rc, main_ctl P (Vis (ModCtx (set_thread_id 0)) (fun _ => Ret rc)) (fun _ : Z => seen_by v)) as Hend.
  { intros rc'. apply (view_set _ (seen_by v)); [auto with preserved | | by intros s _ H].
    intros s (H & _). by split; [|left]. }
  apply view_pass; [done | by split | done |]. intros id. apply view_pass; [done | by split | done |]. intros c'.
  destruct (id =? thread_id c'); [apply Hend|]. apply view_pass; [done | by split | done |]. intros c2.
  apply (proves_ctl _ _ _ _ _ _ _ _ (fun _ => P)); [done | by intros; apply reliable_stable | | by intros res; apply Hend |].
  - intros s x s' _ ((K1 & K2 & K3) & H2 & H3) (_ & _ & s1 & (m & (_ & [o ->]) & [_ ->]) & ->). split; [done|].
    unfold P, knows, closed, inactive. rewrite charge_ctl, charge_feed.
    match goal with |- context [charge ?t ?e ?a ?b] => destruct (charge_fields t e a b) as (_ & E1 & E2 & _) end.
    rewrite E1, E2. by split_and!.
  - intros s _ (H1 & H2 & H3). by split.
Qed.

Lemma main_closes v : main_ctl (seen_by v) (seatctrl_close CTX) (fun _ => seen_by v).
Proof.
  unfold seatctrl_close. pass. intros c. destruct (_ || _); [by intros s _ H|].
  pass. intros _. pass. intros _. apply view_get; [auto with preserved|]. intros c1.
  destruct (Z.eqb_spec (socket c1) SOCKET_INVALID) as [E|E]; cbn [negb].
  { apply (proves_weaken _ _ _ _ (fun s => seen_by v s /\ closed s) _ _ (fun _ => seen_by v)); [|done|apply main_joins_ctl].
    intros s _ [H [Hs _]]. split; [done|]. unfold closed. congruence. }
  apply (proves_weaken _ _ _ _ (seen_by v) _ _ (fun _ => seen_by v)); [by intros s _ [H _] | done |].
  pass. intros c2. pass. intros [res err].
  apply (view_set _ (fun s => seen_by v s /\ closed s)); [auto with preserved | done | apply main_joins_ctl].
Qed.

(** *** Programs of the other components *)

Lemma easy_fd {A} (p : fd A) : uses stays_down p -> uses easy (interp (fd_op TMain) p).
Proof. apply uses_interp. by cbn. Qed.

Lemma easy_sig {A} (p : sig A) : uses easy (interp (sig_op TMain) p).
Proof. eapply (uses_interp (fun _ _ => True)); [|by apply uses_all]. by cbn. Qed.

Lemma loop_polite {X} (e : ctlE X) : ctl_loop_op e -> ctl_polite e.
Proof.
  destruct e as [|f| |st|X e|cb ev v ud|l]; try done; [|by destruct e].
  intros He. split; intros c; by destruct (He c) as (_ & H1 & H2).
Qed.

Lemma easy_adjuster {A} (p : sa A) :
  uses (on_ctl (@ctl_loop_op)) p -> uses easy (as_adjuster vss_4 TMain p).
Proof.
  apply uses_interp. intros X e He. destruct e; try (by cbn).
  - split; [|done]. split; [done|]. split; [by apply (loop_polite e) | done].
  - cbn [sa_op]. apply uses_bind; [by cbn|]. intros _.
    destruct (_ =? _); [|done]. apply easy_fd, stays_feed_value.
Qed.

Lemma main_fd_step {X} (e : fdE X) v (s : process S) x s' :
  stays_down X e -> seen_by v s -> step_of _ (By TMain (OpFd e)) s x s' ->
  seen_by v s' /\ logged_broker X e (pr_feed s) x (pr_feed s').
Proof.
  intros He Hv Hr. split; [by eapply keeps_view_seen; [eapply (mild_step TMain (OpFd e)) |..]|].
  destruct Hr as (_ & _ & s1 & (f & Hf & ->) & ->). by rewrite charge_feed.
Qed.

(** The feeder is inactive when it has been shut down. *)
Lemma main_shuts_feeder v :
  main_proves (seen_by v) (interp (fd_op TMain) Shutdown)
    (fun _ => seen_by (View (v_server v) false (v_started v))).
Proof.
  set (v' := View (v_server v) false (v_started v)).
  assert (forall s, seen_by v s -> inactive s -> seen_by v' s) as Hv' by (intros s [(H1 & H2 & H3) H4] Hi; by split_and!).
  set (stop := fun b : bool => interp (fd_op TMain)
    (f_when b (f_mod (fun f => set_active false (set_stored ∅ f));; trigger F_notify_all))).
  assert (main_proves (seen_by v) (stop true) (fun _ => seen_by v')) as Hstop.
  { split; [done|]. intros s [] s' _ Hv Hr. split; [done|].
    destruct (main_fd_step (F_mod (fun f => set_active false (set_stored ∅ f))) _ _ _ _ ltac:(done) Hv Hr) as [Hs [Hl _]].
    exists (seen_by v'). split; [apply reliable_stable, reliable_seen_by|].
    split; [apply Hv'; [done|]; unfold inactive; by rewrite Hl|].
    change (main_proves (seen_by v') (interp (fd_op TMain) (trigger F_notify_all)) (fun _ => seen_by v')).
    by apply main_easy. }
  change (main_proves (seen_by v) (Vis (By TMain (OpFd F_get)) (fun f => stop (feeder_active_ f))) (fun _ => seen_by v')).
  split; [done|]. intros s f s' _ Hv Hr. split; [done|].
  destruct (main_fd_step F_get _ _ _ _ I Hv Hr) as [Hs [[Hf Hl] _]].
  destruct (feeder_active_ f) eqn:E.
  - exists (seen_by v). split; [apply reliable_stable, reliable_seen_by|]. by split.
  - exists (seen_by v'). split; [apply reliable_stable, reliable_seen_by|]. split; [|by intros s2 _ H].
    apply Hv'; [done|]. unfold inactive, stopped. by rewrite Hl, <- Hf.
Qed.

(** *** The main program *)

(** The view after an action; [None] when the action has no place there. *)
Definition follow (v : view) (a : action) : option view :=
  match a with
  | StartFeeder _ => if decide (TFeeder ∈ v_started v) then None else Some (started TFeeder v)
  | StartSubscriber _ => if decide (TSubscriber ∈ v_started v) then None else Some (started TSubscriber v)
  | StartServer =>
      match v_server v with
      | NoServer => if decide (TServer ∈ v_started v) then None else Some (started TServer (serving Serving v))
      | _ => None
      end
  | ShutdownFeeder => Some (View (v_server v) false (v_started v))
  | ShutdownServer => Some (serving Stopped v)
  | JoinServer =>
      match v_server v with Stopped => if decide (TServer ∈ v_started v) then Some v else None | _ => None end
  | JoinFeeder => if v_fed v then None else if decide (TFeeder ∈ v_started v) then Some v else None
  | _ => Some v
  end.

Lemma main_constructs v :
  main_proves (seen_by v) (as_adjuster vss_4 TMain (adjuster_start exit_on_error)) (fun _ => seen_by v).
Proof.
  unfold adjuster_start. apply (proves_interp_bind _ _ _ _ _ _ _ _ (fun _ => seen_by v)).
  { apply main_easy, easy_adjuster, on_ctl_lift, loops_set_callback. }
  intros rc. destruct (negb _).
  { apply main_easy. unfold sa_when. by destruct exit_on_error. }
  apply (proves_interp_bind _ _ _ _ _ _ _ _ (fun _ => seen_by v)); [apply main_opens|].
  intros rc'. apply main_easy. unfold sa_when. destruct (negb _); [|done]. by destruct exit_on_error.
Qed.

Lemma main_performs_in v a v' :
  follow v a = Some v' ->
  main_proves (seen_by v) (perform exit_on_error vss_4 TMain a) (fun _ => seen_by v').
Proof.
  destruct a; cbn [follow perform]; intros H; simplify_eq; try (by apply main_easy).
  - apply main_constructs.
  - case_decide; [done|]. injection H as <-. apply (proves_bind _ _ _ _ _ _ _ (fun _ => seen_by v)).
    { apply main_easy, easy_adjuster. by cbn. }
    intros _. by apply main_spawns.
  - case_decide; [done|]. injection H as <-. by apply main_spawns.
  - destruct (v_server v) eqn:E; try done. case_decide; [done|]. injection H as <-.
    apply (proves_bind _ _ _ _ _ _ _ (fun _ => seen_by (serving Serving v))); [by apply main_serves|].
    intros _. by apply main_spawns.
  - apply main_easy. apply uses_bind; [apply easy_sig|]. intros []; [|by cbn].
    apply uses_bind; [apply easy_sig | done].
  - apply main_shuts_feeder.
  - apply main_easy. cbn. split_and!; try done. intros _. split_and!; try done. by intros [].
  - apply main_stops_serving.
  - destruct (v_server v) eqn:E; try done. case_decide as Ht; [|done]. injection H as <-. apply main_joins.
    intros s [(H1 & H2 & H3) _]. split; [done|]. rewrite H1. split; [done|]. by apply H3.
  - apply main_joins. by intros s _.
  - destruct (v_fed v) eqn:E; [done|]. case_decide as Ht; [|done]. injection H as <-. apply main_joins.
    intros s [(H1 & H2 & H3) _]. split; [done|]. split; [by apply H2 | by apply H3].
Qed.

Definition follow_all (v : view) (actions : list action) : option view :=
  foldl (fun v a => v ≫= fun v => follow v a) (Some v) actions.

Lemma follow_none actions : foldl (fun v a => v ≫= fun v => follow v a) None actions = None.
Proof. by induction actions. Qed.

Lemma main_performs_actions actions v v' :
  follow_all v actions = Some v' ->
  main_proves (seen_by v) (perform_all exit_on_error vss_4 TMain actions) (fun _ => seen_by v').
Proof.
  revert v. induction actions as [|a actions IH]; intros v; cbn [follow_all perform_all foldl foldr].
  { intros [= ->]. by intros s _ H. }
  change (Some v ≫= fun v => follow v a) with (follow v a). destruct (follow v a) as [v1|] eqn:E.
  - intros H. apply (proves_bind _ _ _ _ _ _ _ (fun _ => seen_by v1)); [by apply main_performs_in | intros _; by apply IH].
  - by rewrite follow_none.
Qed.

Lemma main_goes v :
  main_proves (seen_by v) (leave_scope exit_on_error vss_4 TMain) (fun _ => seen_by v).
Proof.
  unfold leave_scope.
  do 3 (apply (proves_bind _ _ _ _ _ _ _ (fun _ => seen_by v));
    [apply main_easy; first [by cbn | apply easy_fd, stays_shutdown] | intros _]).
  apply (proves_bind _ _ _ _ _ _ _ (fun _ => seen_by v)); [|intros _; by apply main_easy].
  apply (proves_interp_bind _ _ _ _ _ _ _ _ (fun _ => seen_by v)); [apply main_closes | by intros _ s _ H].
Qed.

Definition first_view : view := View NoServer true [].

Lemma main_is_sure cfg (o : S) k actions v :
  follow_all first_view actions = Some v ->
  main_ok step_of any others need (process_init cfg o k) (main_thread exit_on_error vss_4 actions).
Proof.
  intros Hv. exists (seen_by first_view). split; [apply reliable_stable, reliable_seen_by|]. split.
  { split; [|by left]. split_and!; [done | done |]. intros [] Ht; try done; cbn; set_solver. }
  cbn [Pool.cur main_thread]. unfold main_program.
  apply (proves_bind _ _ _ _ _ _ _ (fun _ => seen_by v)); [by apply main_performs_actions|]. intros _.
  apply (proves_bind _ _ _ _ _ _ _ (fun _ => seen_by v)); [apply main_goes|]. intros _.
  by apply (proves_bind _ _ _ _ _ _ _ (fun _ => seen_by v)); [apply main_easy|].
Qed.

Lemma followed can_if addr port broker vss server :
  is_Some (follow_all first_view (fst (Run can_if addr port broker vss server))).
Proof. destruct vss, server; eexists; vm_compute; reflexivity. Qed.

End View.
