(* ===== verification/ProcessExit.v ===== *)
(** * How the process ends

    With [SA_EXIT] unset the exit code tells the ends of the process apart: 0 is reached only by
    the main thread, after it has waited for its threads and destroyed its objects
    ([exit_0_is_orderly]).  Together with [forgotten_shutdown_hangs] this is what may be relied on
    at the end: the process may hang, but it does not leave threads behind and report success. *)
From Stdlib Require Import ZArith Lia String.
From stdpp Require Import base numbers list strings gmap relations functions.
From S2P Require Import Prelude Prog Stable CanDbc Os Grpc SeatController CtlMachine ApiSpec Invariants.
From S2P Require Import SeatAdjuster SeatsService KuksaClient DataBrokerFeeder FeederSpec SeatService Signals.
From S2P Require Import FeederTypes Process ProcessSpec ProcessObjects ProcessThreads LostShutdown.

Section Exit.
Context {CAN : Cantools} {S : Type}.
Variables vss_4 open_stream : bool.

Abbreviation step_of := (proc_step (S := S) open_stream).

Definition gone (os : list object) (s : process S) : Prop :=
  Forall (fun o => pr_alive s o = false) os.

(** The objects of [Run], in the order of their destruction. *)
Definition run_objects : list object := [ObjSubscriber; ObjFeeder; ObjAdjuster].

Definition ends_well (s : process S) : Prop := pr_exit s = Some 0 -> gone run_objects s.

(** An operation that does not end the process with success. *)
Definition goes_on : forall X, procE X -> Prop := fun X e =>
  match e in procE X with
  | By _ (OpExit code) => code <> 0
  | By _ (OpSa (Abort _)) => False
  | _ => True
  end.

(** Objects do not come back. *)
Lemma goes_on_step {X} (e : procE X) (s : process S) x s' :
  goes_on X e -> step_of X e s x s' ->
  pr_exit s' <> Some 0 /\ forall o, pr_alive s o = false -> pr_alive s' o = false.
Proof.
  destruct e as [X t e]. intros Hg (Hx & _ & s1 & Hst & ->). rewrite charge_exit.
  destruct (charge_fields t e s s1) as (-> & _ & _ & _).
  assert (forall s1 : process S, pr_exit s1 = pr_exit s -> pr_alive s1 = pr_alive s ->
            pr_exit s1 <> Some 0 /\ forall o, pr_alive s o = false -> pr_alive s1 o = false) as Hsame.
  { intros s2 E1 E2. by rewrite E1, E2, Hx. }
  destruct e as [X e|X e|X e|X e|t'| |t'| | | | | |g|ob|c]; cbn [op_step] in Hst;
    try (leaving Hst; by apply Hsame).
  - destruct (calm_sa _ _ _ _ _ Hst) as [Ha _]. apply Hsame; [|exact Ha].
    destruct e as [X e| |a|cb p| |rc]; cbn [sa_step] in Hst; try done; try (by leaving Hst).
    destruct Hst as (m & _ & Hst). destruct e; cbn [ctl_step] in Hst; try (by leaving Hst).
    destruct e; cbn [os_step] in Hst; try (by leaving Hst). destruct (_ =? _); by leaving Hst.
  - destruct Hst as (f & _ & ->). by apply Hsame.
  - destruct (calm_ps _ _ _ _ _ Hst) as [Ha _]. apply Hsame; [|exact Ha].
    destruct e as [ |b| |n| | |p|b| | |z]; cbn [ps_step] in Hst; try (by leaving Hst);
      repeat case_match; by leaving Hst.
  - destruct Hst as (_ & _ & ->). by apply Hsame.
  - subst s1. cbn. rewrite Hx. split; [done|]. intros o Ho.
    destruct (decide (o = ob)) as [->|]; [by rewrite fn_lookup_insert | by rewrite fn_lookup_insert_ne].
  - subst s1. cbn. split; [intros [= ->]; by apply Hg | done].
Qed.

Lemma gone_stable os : stable step_of ends_well goes_on (gone os).
Proof.
  intros X e s x s' He _ Hg Hr. destruct (goes_on_step _ _ _ _ He Hr) as [_ Ha].
  eapply Forall_impl; [|exact Hg]. apply Ha.
Qed.

Lemma goes_on_ends_well {X} (e : procE X) (s : process S) x s' :
  goes_on X e -> step_of X e s x s' -> ends_well s'.
Proof. intros He Hr Hx. by destruct (goes_on_step _ _ _ _ He Hr). Qed.

Lemma goes_on_keeps {A} (p : proc A) : uses goes_on p -> keeps step_of ends_well p (fun _ => True).
Proof. apply keeps_uses. intros X e He s x s' _. by apply goes_on_ends_well. Qed.

Lemma goes_on_proves os {A} (p : proc A) :
  uses goes_on p -> proves step_of ends_well goes_on anywhere (gone os) p (fun _ => gone os).
Proof.
  apply proves_uses; [apply gone_stable | | done]. intros X e s x s' He Hs Hg Hr.
  split; [by eapply goes_on_ends_well | by eapply gone_stable].
Qed.

(** ** The programs *)

Lemma goes_on_adjuster t {A} (p : sa A) : uses no_abort p -> uses goes_on (as_adjuster vss_4 t p).
Proof.
  apply uses_interp. intros X e He. destruct e; try done; try by cbn.
  cbn [sa_op]. apply uses_bind; [by cbn|]. intros _. destruct (_ =? _); [|done].
  eapply (uses_interp (fun _ _ => True)); [|by apply uses_all]. by cbn.
Qed.

Lemma no_abort_set p : uses no_abort (impl_SetSeatPosition false p).
Proof. apply uses_bind; [apply no_abort_lift | done]. Qed.

Lemma no_abort_start : uses no_abort (adjuster_start false).
Proof.
  unfold adjuster_start. apply uses_bind; [apply no_abort_lift|]. intros rc.
  destruct (negb _); [done|]. apply uses_bind; [apply no_abort_lift|]. intros rc'. by destruct (negb _).
Qed.

Lemma goes_on_fd t {A} (p : fd A) : uses goes_on (interp (fd_op t) p).
Proof. eapply (uses_interp (fun _ _ => True)); [|by apply uses_all]. by cbn. Qed.

Lemma goes_on_sig t {A} (p : sig A) : uses goes_on (interp (sig_op t) p).
Proof. eapply (uses_interp (fun _ _ => True)); [|by apply uses_all]. by cbn. Qed.

Lemma goes_on_ps t {A} (p : ps A) : uses goes_on (interp (ps_op false vss_4 t) p).
Proof.
  eapply (uses_interp (fun _ _ => True)); [|by apply uses_all]. intros X e _. destruct e; try by cbn.
  apply goes_on_adjuster, no_abort_set.
Qed.

Lemma goes_on_handling t {A} (p : handling A) : uses goes_on (interp (adj_op false vss_4 t) p).
Proof.
  eapply (uses_interp (fun _ _ => True)); [|by apply uses_all]. intros X e _.
  destruct e; apply goes_on_adjuster; (apply uses_bind; [apply no_abort_lift | done]).
Qed.

Lemma goes_on_perform a : uses goes_on (perform false vss_4 TMain a).
Proof.
  destruct a; cbn [perform]; try (by cbn).
  - apply goes_on_adjuster, no_abort_start.
  - apply uses_bind; [apply goes_on_sig|]. intros []; [|by cbn].
    apply uses_bind; [apply goes_on_sig | done].
  - apply goes_on_fd.
  - apply goes_on_ps.
Qed.

Lemma others_go_on w :
  Forall (other_ok step_of ends_well goes_on) (other_threads false vss_4 w).
Proof.
  apply (Forall_impl (P := fun t => uses goes_on (Pool.cur t) /\ uses goes_on (Pool.body t))).
  { intros t [H1 H2]. split; [|done]. split; by apply goes_on_keeps. }
  apply Forall_others; intros; cbn [Pool.cur Pool.body]; split; try done;
    unfold ctl_prologue, ctl_body, feeder_body, subscriber_program, handler_program, signal_program.
  - apply uses_bind; [apply goes_on_adjuster, no_abort_lift | by intros []].
  - apply uses_bind; [apply goes_on_fd | by intros []].
  - apply uses_bind; [apply goes_on_fd | by intros []].
  - apply uses_bind; [apply goes_on_ps | by intros []].
  - apply uses_bind; [by cbn|]. intros _. apply uses_bind; [|by cbn].
    destruct call; (apply uses_bind; [apply goes_on_handling | done]).
  - apply uses_bind; [by cbn|]. intros _. apply uses_bind; [apply goes_on_sig | done].
Qed.

(** ** The main thread *)

Lemma main_destroys_one o os :
  proves step_of ends_well goes_on anywhere (gone os) (by_me TMain (OpDestroy o)) (fun _ => gone (o :: os)).
Proof.
  apply proves_op; [intros; apply gone_stable | | done]. intros s x s' Hs Hg Hr.
  assert (goes_on _ (By TMain (OpDestroy o))) as Ho by exact I.
  split; [by eapply goes_on_ends_well|]. constructor.
  - destruct Hr as (_ & _ & s1 & -> & ->). cbn. by rewrite fn_lookup_insert.
  - by eapply (gone_stable os).
Qed.

(** One step after the other. *)
Lemma main_then os os' {A} (p : proc unit) (k : unit -> proc A) Q :
  proves step_of ends_well goes_on anywhere (gone os) p (fun _ => gone os') ->
  proves step_of ends_well goes_on anywhere (gone os') (k tt) Q ->
  proves step_of ends_well goes_on anywhere (gone os) (p ≫= k) Q.
Proof.
  intros Hp Hk. apply (proves_bind _ _ _ _ _ _ _ (fun _ => gone os')); [exact Hp | by intros []].
Qed.

Lemma main_leaves_scope :
  proves step_of ends_well goes_on anywhere (gone []) (leave_scope false vss_4 TMain)
    (fun _ => gone (rev run_objects)).
Proof.
  unfold leave_scope.
  eapply main_then; [apply main_destroys_one|].
  eapply main_then; [apply goes_on_proves, goes_on_fd|].
  eapply main_then; [apply main_destroys_one|].
  eapply main_then; [|apply main_destroys_one].
  apply goes_on_proves, goes_on_adjuster. apply uses_bind; [apply no_abort_lift | done].
Qed.

Lemma main_exits_well cfg o k actions :
  main_ok step_of ends_well goes_on anywhere (process_init cfg o k) (main_thread false vss_4 actions).
Proof.
  exists (gone []). split; [apply gone_stable|]. split; [constructor|].
  cbn [Pool.cur main_thread]. unfold main_program.
  eapply main_then; [|eapply main_then; [apply main_leaves_scope|]].
  - apply goes_on_proves. unfold perform_all. induction actions as [|a actions IH]; [done|].
    apply uses_bind; [apply goes_on_perform | done].
  - eapply (proves_bind _ _ _ _ _ _ _ (fun _ _ => True)); [|by intros ? ? ? ?].
    apply proves_op; [by intros | | done]. intros s x s' Hs Hg (_ & _ & s1 & -> & ->). split; [|done].
    intros _. unfold gone in *. rewrite Forall_forall in Hg |- *. intros ob Ho. apply Hg. cbn in *. tauto.
Qed.

(** C11: [SA_EXIT] unset.  When the process exits with code 0, the threads of the feeder and of the
    subscriber have ended, and so has the CTL thread unless the system has given it the id 0; the
    gRPC server is down, no request is being handled, and the objects have been destroyed. *)
Theorem exit_0_is_orderly can_if addr port broker server cfg (o : S) k w (s : process S) ts :
  rtc (Pool.step step_of)
    (start false vss_4 cfg o k (fst (Run can_if addr port broker vss_4 server)) w) (s, ts) ->
  pr_exit s = Some 0 ->
  pr_phase s TFeeder = Finished /\ pr_phase s TSubscriber = Finished
  /\ (pr_ctl_id s <> Some 0 -> pr_phase s TCtl <> Running) /\ pr_server s <> Serving
  /\ (forall i, pr_phase s (THandler i) <> Running)
  /\ forall obj, obj <> ObjContext -> pr_alive s obj = false.
Proof.
  intros Hsteps Hx.
  destruct (main_keeps step_of ends_well goes_on anywhere _ _ Hsteps) as [Hw _]; [done| |].
  { eexists _, _. split; [reflexivity|]. split; [apply main_exits_well | apply others_go_on]. }
  pose proof (Hw Hx) as Hg. unfold gone, run_objects in Hg. rewrite Forall_forall in Hg.
  destruct (process_tidy false vss_4 open_stream _ _ _ _ _ _ _ _ _ _ _ Hsteps) as [_ Hset].
  assert (pr_alive s ObjAdjuster = false) as Ha by (apply Hg; cbn; tauto).
  destruct (Hset ObjFeeder) as (H1 & H2 & H3 & H4);
    [apply Hg; cbn; tauto|].
  split_and!; try done.
  - intros Hz Hr. destruct (process_owned _ _ _ _ _ _ _ _ _ _ Hsteps) as [_ Hc].
    rewrite (proj1 (Hc Hz) Hr) in Ha. done.
  - intros [] Ho; try done; apply Hg; cbn; tauto.
Qed.

End Exit.
