(* ===== verification/Teardown.v ===== *)
(** * The end of the process

    Shutting down takes one pass over the threads, and two of its steps look before they act.  An
    executable process shows what the schedules of [ProcessObjects] leave open do happen: the CTL
    thread calls into the feeder that is gone, the call context is cancelled after the subscriber
    has dropped it.  And a shutdown that arrives while the subscriber is on its way into a
    subscription is forgotten: the process does not end any more. *)
From Stdlib Require Import ZArith Lia String.
From stdpp Require Import base numbers list strings gmap relations functions.
From S2P Require Import Prelude Prog Stable CanDbc Os Grpc CanSim VirtualMachine SeatController CtlMachine.
From S2P Require Import ApiSpec Invariants SeatAdjuster KuksaClient DataBrokerFeeder FeederSpec.
From S2P Require Import SeatService Signals FeederTypes Process ProcessSpec ProcessObjects LostShutdown.

(** ** An executable process

    The first [clients] handlers may be called.  The broker is reachable, knows the data points and
    answers every request with success; [broker_says] is what it has to say on the stream of a
    subscription, and when that is nothing [open_stream] tells whether it keeps the stream;
    [link_up] tells whether the subscriber finds the channel connected. *)
Section Executable.
Context {CAN : Cantools} {S : Type} {O : OS S} {OL : OSLaws S}.
Variable open_stream : bool.
Variable clients : nat.
Variable broker_says : process S -> list EntryUpdate.
Variable link_up : process S -> bool.

Definition os_try {X} (t : tid) (e : osE X) : process S -> machine S -> X -> option (process S) :=
  match e in osE X return process S -> machine S -> X -> option (process S) with
  | O_pthread_create => fun s m r =>
      if fst r =? 0 then
        if decide (pr_phase s TCtl = NotStarted)
        then Some (with_ctl_id (Some (snd r)) (with_phase TCtl Running (with_ctl m s))) else None
      else Some (with_ctl m s)
  | O_pthread_self => fun s m id =>
      if bool_decide (t <> TCtl -> pr_ctl_id s <> Some id) then Some (with_ctl m s) else None
  | O_pthread_join id => fun s m rc =>
      if (if bool_decide (pr_ctl_id s = Some id) then bool_decide (pr_phase s TCtl = Finished) && (rc =? 0)
          else negb (rc =? 0))
      then Some (with_ctl m s) else None
  | _ => fun s m _ => Some (with_ctl m s)
  end.

Definition ctl_try {X} (t : tid) (e : ctlE X) : process S -> machine S -> X -> option (process S) :=
  match e in ctlE X return process S -> machine S -> X -> option (process S) with
  | Os e => os_try t e
  | _ => fun s m _ => Some (with_ctl m s)
  end.

Definition sa_try {X} (t : tid) (e : saE X) : process S -> option (X * process S) :=
  match e in saE X return process S -> option (X * process S) with
  | Ctl e => fun s =>
      let '(x, m) := ctl_handle _ e (pr_ctl s) in s' ← ctl_try t e s m x; Some (x, s')
  | GetSelf => fun s => Some (pr_self s, s)
  | PutSelf a => fun s => Some (tt, with_self a s)
  | CallCb _ _ | LogCbNull => fun s => Some (tt, s)
  | Abort rc => fun s => Some (tt, exited rc s)
  end.

Definition fd_try {X} (e : fdE X) : logged -> X * logged :=
  match e in fdE X return logged -> X * logged with
  | F_get => fun l => (fst l, l)
  | F_mod g => fun l => (tt, (g (fst l), snd l))
  | F_swap_stored => fun l => (stored_values_ (fst l), (set_stored ∅ (fst l), snd l))
  | F_wait_connected => fun l => (true, (set_connected true (fst l), snd l))
  | F_get_metadata _ => fun l => ((Status_OK, []), l)
  | F_register request => fun l =>
      ((Status_OK, list_to_map (imap (fun i r => (reg_name r, Z.of_nat i)) request)), l)
  | F_update req => fun l => ((Status_OK, ∅), (fst l, snd l ++ [req]))
  | F_cond_wait => fun l => (false, l)
  | F_notify_all | F_sleep_ms _ => fun l => (tt, l)
  end.

Definition ps_try {X} (e : psE X) : process S -> option (X * process S) :=
  match e in psE X return process S -> option (X * process S) with
  | P_running => fun s => Some (pr_running s, s)
  | P_set_running b => fun s => Some (tt, with_running b s)
  | P_wait_connected => fun s =>
      Some (link_up s, with_feed (set_connected (link_up s) (fst (pr_feed s)), snd (pr_feed s)) s)
  | P_read => fun s =>
      match broker_says s with
      | [] => if open_stream && negb (bool_decide (pr_context s = Some true)) then None else Some (None, s)
      | updates => Some (Some updates, s)
      end
  | P_finish => fun s =>
      if open_stream && negb (bool_decide (pr_context s = Some true)) then None else Some (Status_OK, s)
  | P_set_context true => fun s => Some (tt, with_context (Some false) s)
  | P_set_context false => fun s => Some (tt, with_context None s)
  | P_context => fun s => Some (bool_decide (is_Some (pr_context s)), s)
  | P_try_cancel => fun s =>
      Some (tt, match pr_context s with Some _ => with_context (Some true) s | None => s end)
  | P_subscribe _ | P_sleep_s _ => fun s => Some (tt, s)
  | P_set_seat_position _ => fun _ => None
  end.

(** The threads there may be. *)
Definition expected (t : tid) : bool := match t with THandler i => (i <? clients)%nat | _ => true end.

Definition drained (s : process S) : bool :=
  forallb (fun i => negb (bool_decide (pr_phase s (THandler i) = Running))) (seq 0 clients).

Definition op_try {X} (t : tid) (e : opE X) : process S -> option (X * process S) :=
  match e in opE X return process S -> option (X * process S) with
  | OpSa e => sa_try t e
  | OpFd e => fun s => let '(x, l) := fd_try e (pr_feed s) in Some (x, with_feed l s)
  | OpPs e => ps_try e
  | OpSig e => fun s =>
      match e, k_bytes (pr_kernel s) with
      | S_read, [] => None
      | _, _ => let '(x, k) := kernel_handle _ e (pr_kernel s) in Some (x, with_kernel k s)
      end
  | OpSpawn t' => fun s =>
      if expected t' && bool_decide (pr_phase s t' = NotStarted)
      then Some (tt, with_phase t' Running s) else None
  | OpEnd => fun s => if expected t then Some (tt, with_phase t Finished s) else None
  | OpJoin t' => fun s => if decide (pr_phase s t' = Finished) then Some (tt, s) else None
  | OpServe => fun s =>
      match pr_server s with NoServer => Some (tt, with_server Serving s) | _ => None end
  | OpServerWait => fun s => match pr_server s with Stopped => Some (tt, s) | _ => None end
  | OpArrive => fun s =>
      match pr_server s with
      | Serving => if expected t then Some (tt, with_phase t Running s) else None
      | _ => None
      end
  | OpStopServing => fun s => Some (tt, with_server Stopped s)
  | OpDrain => fun s => if drained s then Some (tt, s) else None
  | OpDeliver signal => fun s =>
      if existsb (Z.eqb signal) (k_handled (pr_kernel s)) then Some (tt, s) else None
  | OpDestroy o => fun s => Some (tt, without o s)
  | OpExit code => fun s => Some (tt, exited code s)
  end.

(** What a thread has to be to perform an operation. *)
Definition ready {X} (e : opE X) : phase := match e with OpArrive => NotStarted | _ => Running end.

Definition proc_try : forall X, procE X -> process S -> option (X * process S) := fun X e =>
  match e in procE X return process S -> option (X * process S) with
  | By t e => fun s =>
      match pr_exit s with
      | Some _ => None
      | None =>
          if decide (pr_phase s t = ready e) then
            '(x, s1) ← op_try t e s; Some (x, charge t e s s1)
          else None
      end
  end.

(** *** It does what a process may do *)

Definition no_stranger (s : process S) : Prop := forall t, expected t = false -> pr_phase s t = NotStarted.

Lemma no_stranger_phase t p s : expected t = true -> no_stranger s -> no_stranger (with_phase t p s).
Proof. intros Ht H i Hi. cbn. rewrite fn_lookup_insert_ne; [by apply H | intros ->; congruence]. Qed.

Lemma drained_quiet s : no_stranger s -> drained s = true -> forall i, pr_phase s (THandler i) <> Running.
Proof.
  intros Hn Hd i. unfold drained in Hd. rewrite forallb_forall in Hd. destruct (decide (i < clients)%nat) as [Hi|Hi].
  - specialize (Hd i). rewrite in_seq in Hd. specialize (Hd ltac:(lia)).
    by apply negb_true_iff, bool_decide_eq_false in Hd.
  - rewrite Hn; [done|]. cbn. by apply Nat.ltb_ge; lia.
Qed.

Lemma os_try_sound {X} t (e : osE X) (s : process S) m x s' :
  no_stranger s -> os_try t e s m x = Some s' -> os_step t e s m x s' /\ no_stranger s'.
Proof.
  intros Hn. destruct e; cbn [os_try os_step]; intros H; simplify_eq; try done.
  - destruct (_ =? _); [|by simplify_eq]. case_decide; [|done]. simplify_eq. split; [done|].
    by apply (no_stranger_phase TCtl Running s).
  - case_bool_decide as E; [|done]. by simplify_eq.
  - destruct (if bool_decide _ then _ else _) eqn:E; [|done]. simplify_eq. split; [|exact Hn]. split; [|done].
    destruct (bool_decide _); [|by apply negb_true_iff, Z.eqb_neq in E].
    by apply andb_true_iff in E as [->%bool_decide_eq_true ->%Z.eqb_eq].
Qed.

Lemma ctl_try_sound {X} t (e : ctlE X) (s : process S) m x s' :
  no_stranger s -> ctl_try t e s m x = Some s' -> ctl_step t e s m x s' /\ no_stranger s'.
Proof.
  intros Hn. destruct e; cbn [ctl_try ctl_step]; intros H; try by simplify_eq. by apply os_try_sound.
Qed.

Lemma sa_try_sound {X} t (e : saE X) (s : process S) x s' :
  no_stranger s -> sa_try t e s = Some (x, s') -> sa_step t e s x s' /\ no_stranger s'.
Proof.
  intros Hn. destruct e as [X e| |a|cb p| |rc]; cbn [sa_try sa_step]; intros H; try by simplify_eq.
  pose proof (exec_any_env X e (pr_ctl s)) as He. destruct (ctl_handle X e (pr_ctl s)) as [y m].
  destruct (ctl_try t e s m y) as [s1|] eqn:E1; [|done]. cbn in H, He. simplify_eq.
  destruct (ctl_try_sound _ _ _ _ _ _ Hn E1). split; [by exists m | done].
Qed.

Lemma fd_try_sound {X} (e : fdE X) (l : logged) :
  logged_broker _ e l (fst (fd_try e l)) (snd (fd_try e l)).
Proof.
  destruct l as [f log]. destruct e; unfold logged_broker; cbn; rewrite ?app_nil_r; split; try done;
    exists (connected f); by destruct f.
Qed.

Lemma ps_try_sound {X} (e : psE X) (s : process S) x s' :
  no_stranger s -> ps_try e s = Some (x, s') -> ps_step open_stream e s x s' /\ no_stranger s'.
Proof.
  intros Hn. destruct e as [ |b| |n| | |p|b| | |z]; cbn [ps_try ps_step]; intros H; try by simplify_eq.
  - destruct (broker_says s); [|by simplify_eq]. destruct open_stream; cbn in H; [|by simplify_eq].
    case_bool_decide; [|done]. cbn in H. by simplify_eq.
  - destruct open_stream; cbn in H; [|by simplify_eq].
    case_bool_decide; [|done]. cbn in H. by simplify_eq.
  - destruct b; by simplify_eq.
  - destruct (pr_context s); by simplify_eq.
Qed.

Lemma op_try_sound {X} t (e : opE X) (s : process S) x s' :
  no_stranger s -> pr_phase s t = ready e -> op_try t e s = Some (x, s') ->
  enabled s t e /\ op_step open_stream t e s x s' /\ no_stranger s'.
Proof.
  intros Hn Ht. destruct e as [X e|X e|X e|X e|t'| |t'| | | | | |g|o|c]; cbn [op_try op_step enabled];
    intros H; (split; [done|]); try by simplify_eq.
  - by apply sa_try_sound.
  - pose proof (fd_try_sound e (pr_feed s)) as He. destruct (fd_try e (pr_feed s)) as [y l].
    simplify_eq. split; [by exists l | done].
  - by apply ps_try_sound.
  - destruct e; try by (destruct (kernel_handle _ _ _); simplify_eq).
    destruct (k_bytes (pr_kernel s)) eqn:Eb; [done|].
    destruct (kernel_handle _ _ _). by simplify_eq.
  - destruct (expected t') eqn:E; [|done]. cbn in H. case_bool_decide; [|done].
    simplify_eq. split; [done | by apply no_stranger_phase].
  - destruct (expected t) eqn:E; [|done]. simplify_eq. split; [done | by apply no_stranger_phase].
  - case_decide; [|done]. by simplify_eq.
  - destruct (pr_server s) eqn:E; by simplify_eq.
  - destruct (pr_server s) eqn:E; by simplify_eq.
  - destruct (pr_server s) eqn:Ev; try done. destruct (expected t) eqn:E; [|done]. simplify_eq.
    split; [done | by apply no_stranger_phase].
  - destruct (drained s) eqn:E; [|done]. simplify_eq. split; [|done]. split; [by apply drained_quiet | done].
  - destruct (existsb _ _) eqn:E; [|done]. simplify_eq. split; [|done]. split; [|done].
    apply existsb_exists in E as (g' & Hin & ->%Z.eqb_eq). done.
Qed.

Lemma no_stranger_charge {X} t (e : opE X) (s s1 : process S) : no_stranger s1 -> no_stranger (charge t e s s1).
Proof. destruct (charge_fields t e s s1) as (_ & Hp & _). intros H i Hi. rewrite Hp. by apply H. Qed.

Lemma proc_try_sound {X} (e : procE X) (s : process S) x s' :
  no_stranger s -> proc_try X e s = Some (x, s') -> proc_step open_stream X e s x s' /\ no_stranger s'.
Proof.
  intros Hn. destruct e as [X t e]. cbn [proc_try proc_step].
  destruct (pr_exit s); [done|]. case_decide as Ht; [|done].
  destruct (op_try t e s) as [[y s1]|] eqn:E1; [|done]. intros H. cbn in H. simplify_eq.
  destruct (op_try_sound _ _ _ _ _ Hn Ht E1) as (He & Hs & H1).
  split; [|by apply no_stranger_charge]. split_and!; [done..|]. by exists s1.
Qed.

End Executable.

(** ** A process on the simulated ECU *)

#[local] Existing Instance dbc_codec.
#[local] Existing Instance dbc_codec_laws.

Abbreviation simulated := (process (@sim_world vm) * list (Pool.thread (E := procE)))%type.
Abbreviation sim_step os := (Pool.step (proc_step (S := @sim_world vm) os)).

Definition sim_config : seatctrl_config_t := Config (Some "vcan0"%string) false false false false 15000 80.

Definition empty_pipe : kernel := Kernel [] 4096 0 0 [] false false false.

(** Nobody calls the gRPC service; SIGTERM comes at some time. *)
Definition quiet_load : workload := Workload 2 (2%nat, 1%nat) [] [(1%nat, SIGTERM)].

Definition sim_actions : list action := fst (Run "vcan0" "localhost" "50051" "localhost:55555" true true).

Definition sim_boot : @sim_world vm := (sim_init_context, Vm 1000000 [("SAE_DELAY"%string, "10"%string)]).

(** What a plan computes is reachable. *)
Lemma plan_reaches open_stream clients says up l (start c : simulated) :
  no_stranger clients (fst start) -> Pool.plan (proc_try open_stream clients says up) l start = Some c ->
  rtc (sim_step open_stream) start c.
Proof.
  intros Hn H. refine (proj1 (Pool.plan_steps _ _ (no_stranger clients) _ l start c Hn H)).
  intros X e s x s'. apply proc_try_sound.
Qed.

Definition sim_start : simulated := start false true sim_config sim_boot empty_pipe sim_actions quiet_load.

Lemma sim_plan open_stream l c :
  Pool.plan (proc_try open_stream 0 (fun _ => []) (fun _ => true)) l sim_start = Some c -> rtc (sim_step open_stream) sim_start c.
Proof. apply plan_reaches. by intros []. Qed.

(** The threads are numbered as in [start]: main, CTL, feeder, subscriber, server, signal. *)
Definition plan_up : list (nat * nat) := [(0, 27); (5, 2)]%nat.

(** The subscriber is told, everything is joined, the feeder is destroyed; the CTL thread reads
    its first frame. *)
Definition plan_callback : list (nat * nat) :=
  plan_up ++ [(3, 5); (0, 9); (4, 2); (0, 1); (3, 5); (0, 1); (2, 2); (0, 4); (1, 12)]%nat.

(** The broker ends the stream while the main thread is between its test and [TryCancel]. *)
Definition plan_context : list (nat * nat) := plan_up ++ [(3, 6); (0, 6); (3, 2); (0, 1)]%nat.

(** The subscriber has taken [early] steps when it is told to stop. *)
Definition plan_forgotten (early : nat) : list (nat * nat) :=
  plan_up ++ [(3, early); (0, 8); (4, 2); (0, 1); (3, 5 - early)]%nat.

Definition ends (open_stream : bool) (l : list (nat * nat)) (P : simulated -> bool) : bool :=
  match Pool.plan (proc_try open_stream 0 (fun _ => []) (fun _ => true)) l sim_start with Some c => P c | None => false end.

Lemma ends_reachable open_stream l P :
  ends open_stream l P = true -> exists c, rtc (sim_step open_stream) sim_start c /\ P c = true.
Proof.
  unfold ends. destruct (Pool.plan _ l _) as [c|] eqn:E; [|done]. intros H. exists c.
  split; [by eapply sim_plan | done].
Qed.

(** The service comes up, reports the first position, and a signal ends it. *)
Definition plan_orderly : list (nat * nat) :=
  [(0, 27); (1, 60); (2, 60); (3, 5); (5, 2); (0, 9); (4, 2); (0, 1); (3, 5); (0, 1); (2, 10); (0, 15);
   (1, 7); (0, 4)]%nat.

(** Shutting down works when nothing comes in between: every thread has ended, every object was
    there as long as it was used, and the process exits with 0. *)
Lemma orderly_shutdown :
  exists c, rtc (sim_step true) sim_start c
    /\ pr_exit (fst c) = Some 0 /\ pr_faults (fst c) = []
    /\ SeatController.motor1_pos (m_ctx (pr_ctl (fst c))) = 42
    /\ map (pr_phase (fst c)) [TCtl; TFeeder; TSubscriber; TServer] = replicate 4 Finished.
Proof.
  destruct (ends_reachable true plan_orderly (fun c =>
    bool_decide (pr_exit (fst c) = Some 0) && bool_decide (pr_faults (fst c) = [])
    && (SeatController.motor1_pos (m_ctx (pr_ctl (fst c))) =? 42)
    && bool_decide (map (pr_phase (fst c)) [TCtl; TFeeder; TSubscriber; TServer] = replicate 4 Finished)))
    as (c & Hc & H); [by vm_compute|].
  exists c. rewrite !andb_true_iff, !bool_decide_eq_true, Z.eqb_eq in H. tauto.
Qed.

(** C24: Both happen: while the adjuster is still there, the CTL thread calls into the data feeder
    that has been destroyed; and with all objects there, [Shutdown] cancels a call whose context
    the subscriber has dropped since [Shutdown] looked. *)
Theorem late_callback_and_late_cancel :
  (exists c, rtc (sim_step true) sim_start c
     /\ pr_faults (fst c) = [(TCtl, ObjFeeder)]
     /\ pr_alive (fst c) ObjFeeder = false /\ pr_alive (fst c) ObjAdjuster = true)
  /\ exists c, rtc (sim_step false) sim_start c
     /\ pr_faults (fst c) = [(TMain, ObjContext)]
     /\ forall o, pr_alive (fst c) o = true.
Proof.
  split.
  - destruct (ends_reachable true plan_callback (fun c =>
      bool_decide (pr_faults (fst c) = [(TCtl, ObjFeeder)])
      && negb (pr_alive (fst c) ObjFeeder) && pr_alive (fst c) ObjAdjuster)) as (c & Hc & H);
      [by vm_compute|].
    exists c. rewrite !andb_true_iff, bool_decide_eq_true, negb_true_iff in H. tauto.
  - destruct (ends_reachable false plan_context (fun c =>
      bool_decide (pr_faults (fst c) = [(TMain, ObjContext)])
      && forallb (pr_alive (fst c)) [ObjAdjuster; ObjFeeder; ObjSubscriber; ObjContext])) as (c & Hc & H);
      [by vm_compute|].
    exists c. rewrite andb_true_iff, bool_decide_eq_true, forallb_forall in H.
    destruct H as [H1 H2]. split_and!; [done..|]. intros o. apply H2. destruct o; cbn; tauto.
Qed.

(** The shutdown is lost when it comes before the subscriber has set [running_], and when it comes
    between its test of [running_] and the new call context. *)
Lemma forgotten_reachable early :
  In early [0; 2; 3]%nat -> exists c, rtc (sim_step true) sim_start c /\ stranded c.
Proof.
  intros He.
  assert (ends true (plan_forgotten early) (fun c =>
    bool_decide ((snd c !! 0%nat) ≫= waiting_for = Some TSubscriber)
    && bool_decide (pr_context (fst c) = Some false) && bool_decide (pr_exit (fst c) = None)) = true) as H.
  { by destruct He as [<-|[<-|[<-|[]]]]; vm_compute. }
  apply ends_reachable in H as (c & Hc & H). exists c.
  rewrite !andb_true_iff, !bool_decide_eq_true in H. split; [done|]. unfold stranded. tauto.
Qed.
