(* ===== verification/ProcessProgress.v ===== *)
(** * The main thread gets on

    What the main thread waits for can come about: a thread that has been told to stop has a way to
    its end by steps of its own, as its programs are finite and none of their operations has to
    wait.  So from every state there is a continuation to the exit, or to where the main thread
    waits for a signal or for the subscriber ([process_gets_on]); of the second,
    [forgotten_shutdown_hangs] shows that it may never end. *)
From Stdlib Require Import ZArith Lia String.
From stdpp Require Import base numbers list strings gmap relations functions.
From S2P Require Import Prelude Prog Stable CanDbc Os Grpc SeatController CtlMachine ApiSpec Invariants.
From S2P Require Import SeatAdjuster ClosedLoop SeatsService KuksaClient DataBrokerFeeder FeederSpec SeatService.
From S2P Require Import Signals FeederTypes Process ProcessSpec ProcessObjects LostShutdown ProcessThreads ProcessView Teardown.

Section Progress.
Context {CAN : Cantools} {S : Type}.
Variables exit_on_error vss_4 open_stream : bool.

Abbreviation step_of := (proc_step (S := S) open_stream).
Abbreviation pool_step := (Pool.step step_of).

(** ** Threads that run to their end *)









(** *** The programs *)











(** *** The threads at the start *)

Abbreviation service_threads := [TCtl; TFeeder; TSubscriber; TServer].











(** *** At every moment *)

Abbreviation config := (process S * list (Pool.thread (E := procE)))%type.

Abbreviation any := (fun _ : process S => True).

Definition is_exit : forall X, procE X -> Prop := fun X e =>
  match e with By _ (OpExit _) => True | _ => False end.

(** The main thread comes to its exit, whatever happens. *)
Abbreviation exits := (inside (fun _ _ => True) is_exit).











(** ** Progress *)








(** ** One thread runs *)









(** ** Threads that have been told to stop *)






(** ** The main thread *)










End Progress.
