(* ===== verification/ProcessScenario.v ===== *)
(** * Lives of the process

    The executable process of [Teardown] on the simulated ECU, with one client and a broker that
    has something to say, under schedules given as plans.  In [a_whole_life] all goes well from
    the start to the exit.  In [exit_leaves_the_motor_running] the process ends in order and with
    code 0 while the motor is on; in [reconnect_forgets_the_position] the broker is told that a
    position that has not changed is not available. *)
From Stdlib Require Import ZArith Lia String.
From stdpp Require Import base numbers list strings gmap relations functions.
From S2P Require Import Prelude Prog Stable CanDbc Os Grpc CanSim VirtualMachine SeatController CtlMachine.
From S2P Require Import ControllerSpec ControlLoopSpec ApiSpec Invariants SeatAdjuster SeatsService Scenario.
From S2P Require Import KuksaClient DataBrokerFeeder FeederSpec SeatService Signals FeederTypes Process.
From S2P Require Import ProcessSpec ProcessObjects LostShutdown Teardown.

#[local] Existing Instance dbc_codec.
#[local] Existing Instance dbc_codec_laws.

(** One client moves the seat to 45 percent. *)
Definition busy_load : workload := Workload 9 (2%nat, 2%nat) [RpcMove (move_to 450)] [(1%nat, SIGTERM)].

(** Once the seat rests there, the broker asks for 40 percent. *)
Definition broker_target (s : process (@sim_world vm)) : list EntryUpdate :=
  if (motor1_pos (m_ctx (pr_ctl s)) =? 45) && bool_decide (goal_of (m_ctx (pr_ctl s)) = None)
  then [Update SEAT_POS_VSS_4 (Some 400)] else [].

Definition busy_start : simulated := start false true sim_config sim_boot empty_pipe sim_actions busy_load.

(** The threads: main, CTL, feeder, subscriber, server, the handler, the signal. *)
Definition plan_request : list (nat * nat) := [(0, 27); (1, 18); (2, 13); (5, 20)]%nat.

(** The request is carried out, the feeder feeds, the subscriber hands on the target of the broker,
    which is carried out and fed; the signal. *)
Definition plan_life : list (nat * nat) :=
  plan_request ++
  [(1, 434); (2, 7); (3, 24); (1, 589); (2, 7); (6, 2); (0, 9); (4, 2); (3, 5); (0, 2); (2, 9); (0, 15);
   (1, 8); (0, 4)]%nat.

(** The signal comes when the seat has moved by one percent. *)
Definition plan_interrupted : list (nat * nat) :=
  [(0, 27); (1, 18); (2, 13); (3, 4); (5, 20); (1, 148); (6, 2); (0, 9); (4, 2); (3, 6); (0, 2); (2, 9);
   (0, 15); (1, 7); (0, 4)]%nat.

(** The target of the broker comes when the CTL thread is about to clear the goal that is reached. *)
Definition plan_lost : list (nat * nat) :=
  plan_request ++
  [(1, 432); (2, 7); (3, 24); (1, 1170); (2, 7); (6, 2); (0, 9); (4, 2); (3, 5); (0, 2); (2, 9); (0, 15);
   (1, 7); (0, 4)]%nat.

(** After the first feeding the subscriber finds the channel disconnected. *)
Definition plan_reconnect : list (nat * nat) := [(0, 27); (1, 18); (2, 13); (3, 3); (2, 19)]%nat.

Definition always_up (s : process (@sim_world vm)) : bool := true.

Definition down_once (s : process (@sim_world vm)) : bool := negb (length (snd (pr_feed s)) =? 1)%nat.

Definition lives (up : process (@sim_world vm) -> bool) (l : list (nat * nat)) (P : simulated -> bool) : bool :=
  match Pool.plan (proc_try true 1 broker_target up) l busy_start with Some c => P c | None => false end.

Lemma lives_reachable up l P :
  lives up l P = true -> exists c, rtc (sim_step true) busy_start c /\ P c = true.
Proof.
  unfold lives. destruct (Pool.plan _ l _) as [c|] eqn:E; [|done]. intros H. exists c.
  split; [|done]. eapply plan_reaches; [|exact E]. by intros [].
Qed.

Definition position (c : simulated) : Z := SeatController.motor1_pos (m_ctx (pr_ctl (fst c))).

(** The simulated motor. *)
Definition motor (c : simulated) : Z := _sim_motor1_status (sae (fst (m_os (pr_ctl (fst c))))).

(** The process has exited with 0, every thread has ended, and no object was used in vain. *)
Record ended (c : simulated) : Prop := Ended {
  en_exit : pr_exit (fst c) = Some 0;
  en_faults : pr_faults (fst c) = [];
  en_threads : map (pr_phase (fst c)) [TCtl; TFeeder; TSubscriber; TServer; THandler 0] = replicate 5 Finished }.

Definition has_ended (c : simulated) : bool :=
  bool_decide (pr_exit (fst c) = Some 0) && bool_decide (pr_faults (fst c) = [])
  && bool_decide (map (pr_phase (fst c)) [TCtl; TFeeder; TSubscriber; TServer; THandler 0] = replicate 5 Finished).

Lemma has_ended_ended c : has_ended c = true -> ended c.
Proof. unfold has_ended. rewrite !andb_true_iff, !bool_decide_eq_true. by intros [[H1 H2] H3]. Qed.

(** What is fed: the initial values with the first position, then one position after the other. *)
Definition fed_life : list (gmap Z Datapoint) :=
  [ {[0 := uint32_value 420; 1 := uint32_value 2; 2 := uint32_array [2; 3]]};
    {[0 := uint32_value 450]}; {[0 := uint32_value 400]} ].

(** There is a schedule in which all goes well from the start to the end: the requests of the
    client and of the broker are carried out one after the other, the broker is told each of the
    three positions at which the seat stands, every thread ends, and the process exits with 0, the
    motor off. *)
Theorem a_whole_life :
  exists c, rtc (sim_step true) busy_start c /\ ended c
    /\ position c = 40 /\ motor c = MotorDirection_OFF /\ snd (pr_feed (fst c)) = fed_life
    /\ map data (written (m_trace (pr_ctl (fst c))))
       = map (fun f => data f) [stop_frame; cmd_frame (dir_value INC) 80; stop_frame;
                                stop_frame; cmd_frame (dir_value DEC) 80; stop_frame].
Proof.
  destruct (lives_reachable always_up plan_life (fun c => has_ended c && (position c =? 40)
    && (motor c =? MotorDirection_OFF) && bool_decide (snd (pr_feed (fst c)) = fed_life)
    && bool_decide (map data (written (m_trace (pr_ctl (fst c))))
         = map (fun f => data f) [stop_frame; cmd_frame (dir_value INC) 80; stop_frame;
                                  stop_frame; cmd_frame (dir_value DEC) 80; stop_frame])))
    as (c & Hc & H); [by vm_compute|].
  exists c. rewrite !andb_true_iff, !bool_decide_eq_true, !Z.eqb_eq in H.
  destruct H as ((((H1 & H2) & H3) & H4) & H5). split_and!; try done. by apply has_ended_ended.
Qed.

(** C25: The process can exit with 0, every thread ended and every object used properly, and leave the
    motor running.  A signal that comes during a movement does: nothing in the shutdown stops the
    motor.  And so does a target of the broker that comes when the CTL thread, at the end of the
    movement before, has sent its stop and is clearing the goal: the seat is then moved beyond the
    target, to 30 instead of 40. *)
Theorem exit_leaves_the_motor_running :
  (exists c, rtc (sim_step true) busy_start c /\ ended c
     /\ position c = 43 /\ motor c = MotorDirection_INC)
  /\ exists c, rtc (sim_step true) busy_start c /\ ended c
     /\ position c = 30 /\ motor c = MotorDirection_DEC.
Proof.
  split.
  - destruct (lives_reachable always_up plan_interrupted (fun c => has_ended c && (position c =? 43)
      && (motor c =? MotorDirection_INC))) as (c & Hc & H); [by vm_compute|].
    exists c. rewrite !andb_true_iff, !Z.eqb_eq in H. destruct H as ((H1 & H2) & H3).
    split_and!; try done. by apply has_ended_ended.
  - destruct (lives_reachable always_up plan_lost (fun c => has_ended c && (position c =? 30)
      && (motor c =? MotorDirection_DEC))) as (c & Hc & H); [by vm_compute|].
    exists c. rewrite !andb_true_iff, !Z.eqb_eq in H. destruct H as ((H1 & H2) & H3).
    split_and!; try done. by apply has_ended_ended.
Qed.

(** After the connection to the broker was lost for a moment, the last thing the broker is told of
    the seat's position is that it is not available: the initial value is fed again although the
    position is known, has been fed before and has not changed, so that nothing will feed it. *)
Theorem reconnect_forgets_the_position :
  exists c, rtc (sim_step true) busy_start c
    /\ position c = 42 /\ connected (fst (pr_feed (fst c))) = true
    /\ stored_values_ (fst (pr_feed (fst c))) = ∅
    /\ map (fun request => request !! 0) (snd (pr_feed (fst c)))
       = [Some (uint32_value 420); Some (failure_value NOT_AVAILABLE)].
Proof.
  destruct (lives_reachable down_once plan_reconnect (fun c => (position c =? 42)
    && connected (fst (pr_feed (fst c))) && bool_decide (stored_values_ (fst (pr_feed (fst c))) = ∅)
    && bool_decide (map (fun request => request !! 0) (snd (pr_feed (fst c)))
         = [Some (uint32_value 420); Some (failure_value NOT_AVAILABLE)]))) as (c & Hc & H); [by vm_compute|].
  exists c. rewrite !andb_true_iff, !bool_decide_eq_true, Z.eqb_eq in H.
  destruct H as (((H1 & H2) & H3) & H4). by split_and!.
Qed.
