(* ===== verification/SeatServiceSpec.v ===== *)
(** * Correctness of the service process *)
From Stdlib Require Import ZArith Lia String.
From stdpp Require Import base numbers list strings gmap.
From S2P Require Import Prelude Prog Grpc KuksaClient SeatController Interleaving SeatAdjuster.
From S2P Require Import SeatsService DataBrokerFeeder SeatService.

(** ** The two views of the position *)

Section Views.
Context {S : Type} {A : Adjuster S} {adj_ok : S -> Prop} {AL : AdjusterLaws S adj_ok}.

(** C38: What is fed to the broker for the adjuster's position is what the gRPC service reports as the
    base position, not available standing for -1; it fits the declared UINT16. *)
Theorem broker_and_grpc_agree reply s :
  adj_ok s ->
  let '(_, reply', _) := serve (CurrentPosition (Current_position 1 1) reply) s in
  let base := base_position (seat_position (reply_seat reply')) in
  datapoint_of (fst (GetSeatPosition s))
  = (if base =? -1 then failure_value NOT_AVAILABLE else uint32_value base)
  /\ base < 2 ^ 16.
Proof.
  intros Hok. pose proof (get_position_range s Hok) as Hr. rewrite serve_current_position. destruct (GetSeatPosition s) as [p s']. cbn [fst] in *.
  cbn [reply_seat seat_position base_position]. unfold datapoint_of, SEAT_POSITION_INVALID.
  destruct Hr as [-> | Hr]; [done|].
  rewrite (proj2 (Z.eqb_neq p (-1))) by lia. cbn [negb].
  rewrite (proj2 (Z.eqb_neq (p * 10) (-1))) by lia.
  replace ((0 <=? p) && (p <=? 100)) with true by lia. split; [done | lia].
Qed.

End Views.

(** ** The subscriber *)

(** The environment of the subscriber: the channel, the stream and the adjuster. *)
Class Stream (S : Type) := {
  st_connected : S -> bool * S;
  st_read : S -> option (list EntryUpdate) * S;
  st_finish : S -> Status * S;
  st_set : Z -> S -> SetResult * S }.

Inductive ps_event := EvSubscribe (path : string) | EvSet (percent : Z) | EvPsSleep (s : Z) | EvCancel.

Record pmachine (S : Type) := PMachine {
  p_running : bool; p_context : bool; p_env : S; p_trace : list ps_event }.

Arguments PMachine {S} _ _ _ _.
Arguments p_running {S} _.
Arguments p_context {S} _.
Arguments p_env {S} _.
Arguments p_trace {S} _.

Section Subscriber.
Context {S : Type} {St : Stream S}.

Definition p_emit (e : ps_event) (env : S) (m : pmachine S) : pmachine S :=
  PMachine (p_running m) (p_context m) env (p_trace m ++ [e]).

Definition p_answer {X} (r : X * S) (m : pmachine S) : X * pmachine S :=
  (fst r, PMachine (p_running m) (p_context m) (snd r) (p_trace m)).

Definition ps_handle : handler psE (pmachine S) := fun X e =>
  match e in psE X return pmachine S -> X * pmachine S with
  | P_running => fun m => (p_running m, m)
  | P_set_running b => fun m => (tt, PMachine b (p_context m) (p_env m) (p_trace m))
  | P_wait_connected => fun m => p_answer (st_connected (p_env m)) m
  | P_subscribe path => fun m => (tt, p_emit (EvSubscribe path) (p_env m) m)
  | P_read => fun m => p_answer (st_read (p_env m)) m
  | P_finish => fun m => p_answer (st_finish (p_env m)) m
  | P_set_seat_position p => fun m =>
      let '(r, env) := st_set p (p_env m) in (r, p_emit (EvSet p) env m)
  | P_set_context b => fun m => (tt, PMachine (p_running m) b (p_env m) (p_trace m))
  | P_context => fun m => (p_context m, m)
  | P_try_cancel => fun m => (tt, p_emit EvCancel (p_env m) m)
  | P_sleep_s s => fun m => (tt, p_emit (EvPsSleep s) (p_env m) m)
  end.

Definition ps_exec {A} (p : ps A) (m : pmachine S) : A * pmachine S := run ps_handle p m.

Lemma ps_exec_bind {A B} (p : ps A) (k : A -> ps B) m :
  ps_exec (p ≫= k) m = let '(a, m') := ps_exec p m in ps_exec (k a) m'.
Proof. apply run_bind. Qed.

Lemma ps_exec_trigger {X B} (e : psE X) (k : X -> ps B) m :
  ps_exec (trigger e ≫= k) m = let '(x, m') := ps_handle X e m in ps_exec (k x) m'.
Proof. done. Qed.

(** The command an update asks for. *)
Definition command_of (seat_pos_name : string) (u : EntryUpdate) : option Z :=
  if bool_decide (entry_path u = seat_pos_name) then
    match actuator_target u with
    | Some t => if t <=? 1000 then Some (to_percent t) else None
    | None => None
    end
  else None.

(** The field is a [uint32]. *)
Definition wf_update (u : EntryUpdate) : Prop :=
  match actuator_target u with Some t => 0 <= t < 2 ^ 32 | None => True end.

Definition frames_flags (m m' : pmachine S) : Prop :=
  p_running m' = p_running m /\ p_context m' = p_context m.

Lemma handle_update_spec n u m :
  wf_update u ->
  let m' := snd (ps_exec (handle_update n u) m) in
  frames_flags m m' /\
  p_trace m' = p_trace m ++ match command_of n u with Some p => [EvSet p] | None => [] end.
Proof.
  unfold wf_update, frames_flags, handle_update, command_of. intros Hu.
  destruct (bool_decide _); [|by rewrite app_nil_r].
  destruct (actuator_target u) as [t|]; [|by rewrite app_nil_r].
  rewrite (proj2 (Z.ltb_ge t 0)) by lia. cbn [orb]. rewrite Z.leb_antisym.
  destruct (Z.ltb_spec 1000 t); cbn [negb]; [by rewrite app_nil_r|].
  rewrite ps_exec_trigger. cbn [ps_handle].
  assert (Z.quot (u32 (t + 5)) 10 = to_percent t) as ->
    by (unfold to_percent, u32; by rewrite Z.mod_small by lia).
  by destruct (st_set (to_percent t) (p_env m)).
Qed.

(** C22: A response makes the adjuster move to exactly the targets its updates name for the seat, in
    their order, rounded to a legal percentage; everything else in it is ignored. *)
Theorem response_commands n us m :
  Forall wf_update us ->
  let m' := snd (ps_exec (handle_response n us) m) in
  p_trace m' = p_trace m ++ map EvSet (omap (command_of n) us)
  /\ Forall (fun p => 0 <= p <= 100) (omap (command_of n) us).
Proof.
  intros Hus. split.
  - revert m. induction Hus as [|u us Hu _ IH]; intros m; [by rewrite app_nil_r|].
    cbn [handle_response foldr]. rewrite ps_exec_bind.
    destruct (handle_update_spec n u m Hu) as [_ Ht].
    destruct (ps_exec (handle_update n u) m) as [[] m1]. cbn [snd] in *.
    specialize (IH m1). cbv zeta in *. unfold handle_response in IH. rewrite IH, Ht, <- app_assoc.
    cbn [omap list_omap]. by destruct (command_of n u).
  - apply Forall_forall. intros p (u & Hin & Hc)%list_elem_of_omap.
    rewrite Forall_forall in Hus. specialize (Hus u Hin).
    unfold command_of, wf_update in *. repeat case_match; simplify_eq.
    apply to_percent_near. unfold legal_base. lia.
Qed.

(** ** Giving up *)

(** The count of failures after a subscription that ended with [st]. *)
Definition failures_after (st : Status) (failures : Z) : Z :=
  if ok st then 0 else if bool_decide (error_code st = NOT_FOUND) then failures + 1 else failures.

Definition gives_up (st : Status) (failures : Z) : bool :=
  bool_decide (error_code st = NOT_FOUND) && (3 <? failures_after st failures).

(** Reading commands only; it neither subscribes nor touches the flags. *)
Definition commands_only (m m' : pmachine S) : Prop :=
  frames_flags m m' /\ exists cmds, p_trace m' = p_trace m ++ map EvSet cmds.

Lemma commands_only_refl m : commands_only m m.
Proof. split; [done|]. exists []. by rewrite app_nil_r. Qed.

Lemma commands_only_trans m1 m2 m3 :
  commands_only m1 m2 -> commands_only m2 m3 -> commands_only m1 m3.
Proof.
  intros [[A1 A2] [c1 A3]] [[B1 B2] [c2 B3]]. split; [split; congruence|].
  exists (c1 ++ c2). by rewrite B3, A3, map_app, app_assoc.
Qed.

Lemma handle_update_commands n u m : commands_only m (snd (ps_exec (handle_update n u) m)).
Proof.
  unfold handle_update. destruct (bool_decide _); [|apply commands_only_refl].
  destruct (actuator_target u) as [t|]; [|apply commands_only_refl].
  destruct (_ || _); [apply commands_only_refl|]. rewrite ps_exec_trigger. cbn [ps_handle].
  destruct (st_set _ _) as [r env]. split; [done|]. by exists [Z.quot (u32 (t + 5)) 10].
Qed.

Lemma handle_response_commands n us m :
  commands_only m (snd (ps_exec (handle_response n us) m)).
Proof.
  revert m. induction us as [|u us IH]; intros m; [apply commands_only_refl|].
  cbn [handle_response foldr]. rewrite ps_exec_bind.
  pose proof (handle_update_commands n u m) as H.
  destruct (ps_exec (handle_update n u) m) as [[] m1]. eapply commands_only_trans; [exact H|].
  apply IH.
Qed.

Lemma read_loop_commands fuel n m : commands_only m (snd (ps_exec (read_loop fuel n) m)).
Proof.
  revert m. induction fuel as [|fuel IH]; intros m; [apply commands_only_refl|].
  cbn [read_loop]. rewrite ps_exec_trigger. cbn [ps_handle p_answer].
  destruct (st_read (p_env m)) as [[us|] env]; cbn [fst snd].
  2: { split; [done|]. exists []. by rewrite app_nil_r. }
  rewrite ps_exec_bind. set (m1 := PMachine _ _ env _).
  pose proof (handle_response_commands n us m1) as H.
  destruct (ps_exec (handle_response n us) m1) as [[] m2].
  eapply commands_only_trans; [|apply IH]. exact H.
Qed.

(** One subscription, from connecting to its end with status [st]. *)
Lemma subscription_spec fuel n failures m :
  p_running m = true -> fst (st_connected (p_env m)) = true ->
  exists cmds env,
    let st := fst (st_finish env) in
    let '(r, m') := ps_exec (subscriber_iteration fuel n failures) m in
    r = (if gives_up st failures then None else Some (failures_after st failures))
    /\ p_running m' = negb (gives_up st failures)
    /\ p_trace m' = p_trace m ++ EvSubscribe n :: map EvSet cmds
         ++ (if ok st || gives_up st failures then [] else [EvPsSleep 5]).
Proof.
  intros Hr Hc. unfold subscriber_iteration. rewrite !ps_exec_trigger. cbn [ps_handle].
  rewrite Hr. cbn [negb]. rewrite ps_exec_trigger. cbn [ps_handle p_answer]. rewrite Hc. cbn [negb].
  rewrite !ps_exec_trigger. cbn [ps_handle p_answer p_emit p_running p_context p_env p_trace].
  rewrite ps_exec_trigger. cbn [ps_handle p_emit p_running p_context p_env p_trace].
  rewrite ps_exec_bind.
  set (m1 := PMachine _ _ _ (_ ++ _)) || set (m1 := p_emit (EvSubscribe n) _ _).
  destruct (read_loop_commands fuel n m1) as [[F1 F2] [cmds Ht]].
  destruct (ps_exec (read_loop fuel n) m1) as [[] m2]. cbn [snd] in *.
  exists cmds, (p_env m2). cbv zeta. rewrite ps_exec_trigger. cbn [ps_handle p_answer].
  subst m1. cbn [p_running p_context p_trace p_emit] in *.
  destruct (st_finish (p_env m2)) as [st env]. cbn [fst snd].
  unfold gives_up, failures_after. destruct (ok st) eqn:Eok.
  - assert (bool_decide (error_code st = NOT_FOUND) = false) as ->.
    { unfold ok in Eok. apply bool_decide_eq_true in Eok. by rewrite Eok. }
    cbn [andb orb negb]. rewrite ps_exec_trigger. cbn [ps_handle p_trace p_running].
    cbn.
    rewrite Ht, F1, Hr, <- app_assoc, app_nil_r. done.
  - destruct (bool_decide (error_code st = NOT_FOUND)); cbn [andb orb].
    + destruct (3 <? failures + 1); cbn [negb]; rewrite !ps_exec_trigger; cbn;
        by rewrite Ht, ?F1, ?Hr, ?app_nil_r, <- !app_assoc.
    + rewrite !ps_exec_trigger. cbn. by rewrite Ht, F1, Hr, <- !app_assoc.
Qed.

Definition subscriptions (tr : list ps_event) : nat :=
  length (omap (fun e => match e with EvSubscribe p => Some p | _ => None end) tr).

Lemma subscriptions_one tr n cmds st failures :
  subscriptions (tr ++ EvSubscribe n :: map EvSet cmds
                 ++ (if ok st || gives_up st failures then [] else [EvPsSleep 5]))
  = Datatypes.S (subscriptions tr).
Proof.
  unfold subscriptions. rewrite omap_app, length_app. cbn [omap list_omap length].
  rewrite omap_app, length_app.
  assert (omap (fun e => match e with EvSubscribe p => Some p | _ => None end) (map EvSet cmds) = [])
    as -> by (by induction cmds).
  destruct (_ || _); simpl; lia.
Qed.

Lemma subscriber_loop_S i fuel n failures :
  subscriber_loop (Datatypes.S i) fuel n failures
  = (r ← subscriber_iteration fuel n failures;
     match r with
     | Some failures => subscriber_loop i fuel n failures
     | None => mret None
     end).
Proof. done. Qed.

(** C35: A path that stays unknown to the broker is given up after exactly four subscriptions: [Run]
    returns, and the subscriber is not running any more. *)
Theorem subscriber_gives_up fuel n k m :
  (forall env, fst (st_connected env) = true) ->
  (forall env, error_code (fst (st_finish env)) = NOT_FOUND) ->
  let '(r, m') := ps_exec (subscriber_Run (4 + k) fuel n) m in
  r = None /\ p_running m' = false
  /\ subscriptions (p_trace m') = (subscriptions (p_trace m) + 4)%nat.
Proof.
  intros Hc Hf. unfold subscriber_Run. rewrite ps_exec_trigger. cbn [ps_handle].
  set (m0 := PMachine true _ _ _).
  assert (forall failures m, p_running m = true -> 0 <= failures <= 3 ->
    exists m', ps_exec (subscriber_iteration fuel n failures) m
               = (if failures =? 3 then None else Some (failures + 1), m')
      /\ p_running m' = negb (failures =? 3)
      /\ subscriptions (p_trace m') = Datatypes.S (subscriptions (p_trace m))) as Hit.
  { clear m m0. intros failures m Hr Hk.
    destruct (subscription_spec fuel n failures m Hr (Hc _)) as (cmds & env & H). cbv zeta in H.
    specialize (Hf env). destruct (ps_exec _ m) as [r m']. exists m'.
    destruct H as (-> & -> & ->). rewrite subscriptions_one.
    unfold gives_up, failures_after, ok. rewrite Hf.
    rewrite (bool_decide_true (NOT_FOUND = NOT_FOUND)), (bool_decide_false (NOT_FOUND = Code_OK))
      by done. cbn [andb].
    replace (3 <? failures + 1) with (failures =? 3) by lia. done. }
  assert (forall d m, (d <= 3)%nat -> p_running m = true ->
    exists m', ps_exec (subscriber_loop (Datatypes.S d + k) fuel n (3 - Z.of_nat d)) m = (None, m')
      /\ p_running m' = false
      /\ subscriptions (p_trace m') = (subscriptions (p_trace m) + Datatypes.S d)%nat) as Hloop.
  { clear m m0. induction d as [|d IH]; intros m Hd Hr;
      rewrite Nat.add_succ_l, subscriber_loop_S, ps_exec_bind.
    - destruct (Hit 3 m Hr ltac:(lia)) as (m1 & E & R1 & T1).
      change (3 - Z.of_nat 0) with 3. rewrite E. exists m1. rewrite T1. split_and!; [done|done|lia].
    - destruct (Hit (3 - Z.of_nat (Datatypes.S d)) m Hr ltac:(lia)) as (m1 & E & R1 & T1).
      assert ((3 - Z.of_nat (Datatypes.S d) =? 3) = false) as Hne
        by (apply Z.eqb_neq; rewrite Nat2Z.inj_succ; clear; lia).
      rewrite Hne in E, R1. rewrite E.
      replace (3 - Z.of_nat (Datatypes.S d) + 1) with (3 - Z.of_nat d) by lia.
      destruct (IH m1 ltac:(lia) R1) as (m' & E' & R' & T'). rewrite E'.
      exists m'. split_and!; [done | done | lia]. }
  destruct (Hloop 3%nat m0 ltac:(lia) eq_refl) as (m' & E & R' & T').
  change (Datatypes.S 3 + k)%nat with (4 + k)%nat in E. change (3 - Z.of_nat 3) with 0 in E.
  rewrite E. split_and!; [done | done | exact T'].
Qed.

(** [Shutdown] before [Run] has started is lost: [Run] sets the flag again and subscribes. *)
Theorem shutdown_before_run_is_lost fuel n m :
  fst (st_connected (p_env m)) = true -> p_context m = false ->
  subscriptions (p_trace (snd (ps_exec (subscriber_Shutdown;; subscriber_Run 1 fuel n) m)))
  = Datatypes.S (subscriptions (p_trace m)).
Proof.
  intros Hc Hctx. rewrite ps_exec_bind. unfold subscriber_Shutdown.
  rewrite !ps_exec_trigger. cbn [ps_handle]. rewrite ps_exec_trigger. cbn [ps_handle p_context].
  rewrite Hctx. cbn [ps_exec run mret prog_ret]. unfold subscriber_Run.
  fold (ps_exec (trigger (P_set_running true);; subscriber_loop 1 fuel n 0)
          (PMachine false (p_context m) (p_env m) (p_trace m))).
  rewrite ps_exec_trigger. cbn [ps_handle subscriber_loop]. rewrite ps_exec_bind.
  cbn [p_context p_env p_trace].
  set (m0 := PMachine true _ _ _).
  destruct (subscription_spec fuel n 0 m0 eq_refl Hc) as (cmds & env & H). cbv zeta in H.
  destruct (ps_exec (subscriber_iteration fuel n 0) m0) as [r m'].
  destruct H as (_ & _ & Ht). destruct r; cbn [ps_exec run mret prog_ret snd];
    rewrite Ht, subscriptions_one; done.
Qed.

End Subscriber.

(** ** The process *)

(** The arguments and variables [main] accepts: one to three arguments, VSS unset, 3 or 4. *)
Definition accepted (args : list string) (vss : option string) : bool :=
  (1 <=? length args)%nat && (length args <=? 3)%nat
  && match vss with
     | None => true
     | Some v => bool_decide (v = "3"%string) || bool_decide (v = "4"%string)
     end.

(** What every complete run of the service is: the feeder and the subscriber work on the first
    configured name, both are shut down before they are joined, the server (when it could be
    built) is started, waited for, shut down and joined, and nothing is left running. *)
Definition orderly (acts : list action) (server : bool) : Prop :=
  exists can broker addr name dps,
    (name, dps) ∈ [(SEAT_POS_VSS_3, metadata_3); (SEAT_POS_VSS_4, metadata_4)]
    /\ head (map DataBrokerFeeder.name dps) = Some name
    /\ acts = [CreateAdjuster can; CreateClient broker; StartFeeder name; StartSubscriber name;
               BuildServer addr]
              ++ (if server then [StartServer; WaitForSignal] else [])
              ++ [ShutdownFeeder; ShutdownSubscriber]
              ++ (if server then [ShutdownServer; JoinServer] else [])
              ++ [JoinSubscriber; JoinFeeder; ShutdownProtobuf].

(** Bad arguments or a bad VSS end the process at once with code 1; every accepted start is an
    orderly run. *)
Theorem main_runs args env server :
  let '(acts, code) := main args env server in
  if accepted args (env "VSS"%string) then code = 0 /\ orderly acts server
  else code = 1 /\ acts = [].
Proof.
  unfold main, accepted.
  destruct args as [|a1 [|a2 [|a3 [|a4 args]]]]; cbn [length Nat.leb andb]; try done.
  all: unfold getEnvVar; destruct (env "VSS"%string) as [v|]; cbn [default from_option id].
  all: try (destruct (bool_decide (v = "3"%string)) eqn:E3;
            [|destruct (bool_decide (v = "4"%string)) eqn:E4]); cbn [orb]; try done.
  all: unfold Run; cbn; (split; [reflexivity|]); unfold orderly; do 3 eexists;
    first [ exists SEAT_POS_VSS_3, metadata_3; split_and!;
              [apply list_elem_of_here | reflexivity | reflexivity]
          | exists SEAT_POS_VSS_4, metadata_4; split_and!;
              [apply list_elem_of_further, list_elem_of_here | reflexivity | reflexivity] ].
Qed.
