(* ===== verification/BrokerLoop.v ===== *)
(** * From the broker to the bus and back

    The seat service between the broker and the simulated ECU: an actuator target goes through
    the position subscriber, the adjuster and the controller to the ECU; the positions the ECU
    reports go through the callback of the data feeder to the values for the broker. *)
From Stdlib Require Import ZArith Lia String.
From stdpp Require Import base numbers list strings gmap.
From S2P Require Import Prelude Prog CanDbc Os Grpc CanSim VirtualMachine SeatController CtlMachine.
From S2P Require Import ControllerSpec ControlLoopSpec ApiSpec SeatAdjuster SeatsService EndToEnd.
From S2P Require Import Scenario KuksaClient DataBrokerFeeder FeederSpec SeatService SeatServiceSpec.

#[local] Existing Instance dbc_codec.
#[local] Existing Instance dbc_codec_laws.
#[local] Existing Instance Scripted.scripted_broker.
#[local] Instance adjuster : Adjuster (service (@sim_world vm)) := SeatAdjusterImpl_adjuster false.

(** The stream of the broker is over; the adjuster is that of the service. *)
#[local] Instance service_stream : Stream (service (@sim_world vm)) := {|
  st_connected s := (true, s);
  st_read s := (None, s);
  st_finish s := (Status_OK, s);
  st_set := SetSeatPosition |}.

(** The adjuster is created, the data feeder subscribes, and three frames arrive. *)
Definition service_fed : service (@sim_world vm) :=
  snd (sa_exec (SeatAdjusterImpl false zero_config "vcan0";;
                impl_SubscribePosition FEEDER_CB;;
                lift false (seatctrl_threadFunc 3)) boot).

(** The positions the data feeder has been called with. *)
Definition reported (s : service (@sim_world vm)) : list Z :=
  omap (fun o => match o with OutCb cb pos => if cb =? FEEDER_CB then Some pos else None | _ => None end)
    (sv_out s).

(** The feeder after these calls. *)
Definition feed_reports (name : string) (positions : list Z) : fd unit :=
  foldr (fun p rest => position_callback name p;; rest) (mret tt) positions.

Definition values_fed (name : string) (positions : list Z) : DatapointValues :=
  stored_values_ (fm (snd (fd_exec (feed_reports name positions)
    (FMachine (new_feeder true) (Scripted.Script [] [] [] ∅) [])))).

(** The service after a response of the broker with an actuator target, and [n] iterations of the
    CTL thread. *)
Definition after_target (n : nat) (name : string) (t : Z) : service (@sim_world vm) :=
  let m := snd (ps_exec (handle_response name [Update name (Some t)])
                  (PMachine true true service_fed [])) in
  snd (sa_exec (service_thread false n) (p_env m)).

Definition after_set (n : nat) (p : Z) : service (@sim_world vm) :=
  snd (sa_exec (service_thread false n) (snd (SetSeatPosition p service_fed))).

Lemma after_target_set n name t :
  0 <= t <= 1000 -> after_target n name t = after_set n (to_percent t).
Proof.
  intros Ht. unfold after_target, after_set. cbn [handle_response foldr].
  unfold handle_update. cbn [entry_path actuator_target]. rewrite bool_decide_true by done.
  replace ((t <? 0) || (1000 <? t)) with false by lia.
  assert (Z.quot (u32 (t + 5)) 10 = to_percent t) as ->
    by (unfold to_percent, u32; by rewrite Z.mod_small by lia).
  rewrite ps_exec_bind, ps_exec_trigger. cbn [ps_handle st_set service_stream p_env].
  by destruct (SetSeatPosition (to_percent t) service_fed).
Qed.

Lemma every_target_is_reported :
  forallb (fun p => bool_decide (last (reported (after_set (frames_for p) p)) = Some p)) (seqZ 0 101)
  = true.
Proof. vm_compute. reflexivity. Qed.

Lemma values_fed_last name positions :
  values_fed name positions !! name = datapoint_of <$> last positions.
Proof.
  unfold values_fed. set (m := FMachine _ _ _).
  assert (forall m, feeder_active_ (fm m) = true ->
    stored_values_ (fm (snd (fd_exec (feed_reports name positions) m))) !! name
    = match last positions with
      | Some p => Some (datapoint_of p)
      | None => stored_values_ (fm m) !! name
      end) as H; [|rewrite H by done; by destruct (last positions)].
  clear m. induction positions as [|p positions IH]; intros m Ha; [done|].
  change (feed_reports name (p :: positions))
    with (position_callback name p;; feed_reports name positions).
  rewrite fd_exec_bind. unfold position_callback, FeedValue.
  rewrite fd_exec_get, Ha. cbn [f_when]. rewrite fd_exec_mod.
  change (fd_exec (trigger F_notify_all) ?m) with (tt, m).
  cbv beta iota. rewrite IH by exact Ha. rewrite last_cons. destruct (last positions); [done|].
  cbn [fm store set_stored stored_values_]. by rewrite lookup_insert_eq.
Qed.

(** C16: An actuator target in 0..1000 that comes in from the broker: the simulated seat moves, and the
    value that is fed back for the seat's position is the target, rounded to a whole percent. *)
Theorem broker_target_comes_back name t :
  0 <= t <= 1000 ->
  values_fed name (reported (after_target (frames_for (to_percent t)) name t)) !! name
  = Some (uint32_value (to_percent t * 10))
  /\ - 5 <= to_percent t * 10 - t <= 5.
Proof.
  intros Ht. assert (legal_base t = true) as Hb by (unfold legal_base; lia).
  destruct (to_percent_near t Hb) as [Hp Hn]. split; [|done].
  rewrite after_target_set by done. rewrite values_fed_last.
  pose proof every_target_is_reported as H. rewrite forallb_forall in H.
  specialize (H (to_percent t) ltac:(apply list_elem_of_In, elem_of_seqZ; lia)).
  apply bool_decide_eq_true in H. rewrite H. cbn [fmap option_fmap option_map].
  unfold datapoint_of. by replace ((0 <=? to_percent t) && (to_percent t <=? 100)) with true by lia.
Qed.
