(* ===== verification/CanHelpers.v ===== *)
(** * The CAN helper classes

    [can_raw_socket.cc] and [can_bcm_interface.cc]: a raw CAN socket and the kernel's broadcast
    manager.  [CanFrame.data] is a vector of any length; copying more than eight bytes into a
    [can_frame] is undefined behaviour and shows as [None]. *)
From Stdlib Require Import ZArith Lia String.
From stdpp Require Import base numbers list strings.
From S2P Require Import Prelude Prog Os.

Record CanFrame := MkCanFrame { cf_id : Z; cf_data : list Z }.

(** The kernel's frame for [f]: the id, the length and the bytes, the rest zero. *)
Definition raw_of (f : CanFrame) : option can_frame :=
  if (length (cf_data f) <=? 8)%nat then
    Some (Os.CanFrame (cf_id f) (u8 (Z.of_nat (length (cf_data f))))
            (cf_data f ++ replicate (8 - length (cf_data f)) 0))
  else None.

(** ** CanRawSocket *)

Abbreviation osp := (prog osE).

(** The constructor: [socket_]. *)
Definition CanRawSocket (name : string) : osp Z :=
  '(fd, _) ← trigger (O_socket PF_CAN SOCK_RAW CAN_RAW);
  if fd <? 0 then mret fd else
  let ifr_name := String.substring 0 (IFNAMSIZ - 1) name in
  '(ifindex, _) ← trigger (O_if_nametoindex (Some ifr_name));
  if ifindex =? 0 then mret fd else
  trigger (O_bind fd (SockaddrCan AF_CAN ifindex) sizeof_sockaddr_can);;
  mret fd.

Definition CanRawSocket_SendFrame (fd : Z) (frame : CanFrame) : osp (option bool) :=
  match raw_of frame with
  | None => mret None
  | Some raw_frame =>
      '(cnt, _) ← trigger (O_write fd raw_frame sizeof_can_frame);
      mret (Some (cnt =? sizeof_can_frame))
  end.

Definition CanRawSocket_destroy (fd : Z) : osp unit :=
  if 0 <=? fd then trigger (O_close fd);; mret tt else mret tt.

(** ** CanBcmInterface *)

Definition TX_SEND : Z := 4.
Definition RX_SETUP : Z := 5.
Definition RX_TIMEOUT : Z := 11.
Definition RX_CHANGED : Z := 12.
Definition SETTIMER : Z := 1.

Record BcmMessageRaw := Bcm {
  opcode : Z; flags : Z; ival1 : Z * Z; bcm_can_id : Z; nframes : Z; bcm_frame : can_frame }.

Inductive BcmEventType := DATA_CHANGED | DATA_TIMEOUT | BCM_ERROR.

Inductive bcmE : Type -> Type :=
| B_os {X} (e : osE X) : bcmE X
| B_connect (fd ifindex : Z) : bcmE Z
| B_write (fd : Z) (msg : BcmMessageRaw) : bcmE Z
| B_read (fd : Z) : bcmE (Z * BcmMessageRaw)
| B_callback (t : BcmEventType) (frame : CanFrame) : bcmE unit
| B_sleep_s (s : Z) : bcmE unit.

Abbreviation bcm := (prog bcmE).

Definition CanBcmInterface (if_name : string) : bcm Z :=
  '(fd, _) ← trigger (B_os (O_socket PF_CAN SOCK_DGRAM CAN_BCM));
  if fd <? 0 then mret fd else
  '(ifindex, _) ← trigger (B_os (O_if_nametoindex (Some if_name)));
  if ifindex =? 0 then mret fd else
  trigger (B_connect fd ifindex);;
  mret fd.

Definition CanBcmInterface_destroy (fd : Z) : bcm unit :=
  if 0 <=? fd then trigger (B_os (O_close fd));; mret tt else mret tt.

Definition CanBcmInterface_SendFrame (fd : Z) (frame : CanFrame) : bcm (option bool) :=
  match raw_of frame with
  | None => mret None
  | Some raw =>
      cnt ← trigger (B_write fd (Bcm TX_SEND 0 (0, 0) (cf_id frame) 1 raw));
      mret (Some (negb (cnt <? 0)))
  end.

(** The timer of a subscription with a timeout in milliseconds. *)
Definition timer_of (timeout_ms : Z) : Z * Z :=
  if 0 <? timeout_ms then
    let usecs := timeout_ms * 1000 in
    (Z.quot usecs 1000000000, Z.rem usecs 1000000000)
  else (0, 0).

Definition SubscribeCyclicChange (fd can_id : Z) (data_mask : list Z) (timeout_ms : Z)
    : bcm (option unit) :=
  match raw_of (MkCanFrame can_id data_mask) with
  | None => mret None
  | Some raw =>
      trigger (B_write fd (Bcm RX_SETUP SETTIMER (timer_of timeout_ms) can_id 1 raw));;
      mret (Some tt)
  end.

(** One turn of [RunForever]. *)
Definition RunForever_turn (fd : Z) : bcm unit :=
  '(nbytes, msg) ← trigger (B_read fd);
  if nbytes <? 0 then
    trigger (B_callback BCM_ERROR (MkCanFrame 0 []));;
    trigger (B_sleep_s 1)
  else
    let frame := MkCanFrame (can_id (bcm_frame msg))
      (if 0 <? can_dlc (bcm_frame msg)
       then take (Z.to_nat (can_dlc (bcm_frame msg))) (data (bcm_frame msg)) else []) in
    if opcode msg =? RX_CHANGED then trigger (B_callback DATA_CHANGED frame)
    else if opcode msg =? RX_TIMEOUT then trigger (B_callback DATA_TIMEOUT frame)
    else mret tt.

(** ** Properties *)

(** A frame that goes through the kernel's structure comes back as it was. *)
Lemma raw_roundtrip f raw :
  raw_of f = Some raw ->
  can_id raw = cf_id f /\ length (data raw) = 8%nat
  /\ take (Z.to_nat (can_dlc raw)) (data raw) = cf_data f.
Proof.
  unfold raw_of. destruct (Nat.leb_spec (length (cf_data f)) 8); [|done]. intros [= <-].
  cbn [can_id can_dlc data]. rewrite u8_small by (unfold is_u8; lia). rewrite Nat2Z.id.
  split_and!; [done | rewrite length_app, length_replicate; lia |].
  by rewrite take_app_length.
Qed.

(** What a subscriber to the broadcast manager is told about a frame [f] sent over the bus. *)
Definition told (f : CanFrame) (t : BcmEventType) (op : Z) : Prop :=
  match raw_of f with
  | Some raw => forall fd (S : Type) (h : handler bcmE S) s,
      fst (h _ (B_read fd) s) = (72, Bcm op 0 (0, 0) (cf_id f) 1 raw) ->
      run h (RunForever_turn fd) s
      = h _ (B_callback t f) (snd (h _ (B_read fd) s))
  | None => True
  end.

(** A received frame is handed to the callback unchanged, under the event its opcode stands for. *)
Theorem bcm_delivers_frames f :
  told f DATA_CHANGED RX_CHANGED /\ told f DATA_TIMEOUT RX_TIMEOUT.
Proof.
  unfold told. destruct (raw_of f) as [raw|] eqn:E; [|done].
  destruct (raw_roundtrip f raw E) as (Hid & Hlen & Hdata).
  assert (MkCanFrame (can_id raw)
            (if 0 <? can_dlc raw then take (Z.to_nat (can_dlc raw)) (data raw) else []) = f) as Hf.
  { rewrite Hid. destruct (Z.ltb_spec 0 (can_dlc raw)) as [Hd|Hd].
    - rewrite Hdata. by destruct f.
    - assert (can_dlc raw = 0 \/ can_dlc raw < 0) as Hz by lia.
      replace (Z.to_nat (can_dlc raw)) with 0%nat in Hdata by lia. simpl in Hdata.
      destruct f. simpl in *. by subst. }
  split; intros fd S h s Hread; unfold RunForever_turn;
    change (trigger (B_read fd) ≫= ?k) with (Vis (B_read fd) (fun x => prog_bind k (Ret x)));
    cbn [run]; destruct (h _ (B_read fd) s) as [r s1]; cbn [fst snd] in *; subst r;
    cbn [prog_bind]; change (72 <? 0) with false; cbv iota;
    cbn [bcm_frame opcode]; rewrite Hf; cbn; by destruct (h _ _ s1).
Qed.

(** Below a second the timer is exact and normalised. *)
Lemma timer_of_subsecond ms :
  0 <= ms < 1000 -> timer_of ms = (0, ms * 1000) /\ 0 <= ms * 1000 < 1000000.
Proof.
  intros H. unfold timer_of. destruct (Z.ltb_spec 0 ms).
  - cbv zeta. rewrite Z.quot_small, Z.rem_small by lia. split; [done | lia].
  - assert (ms = 0) as -> by lia. done.
Qed.

(** From one second on it is not a valid [timeval]: the divisor is that of nanoseconds, so the
    microseconds exceed a second. *)
Theorem timer_of_seconds_invalid ms :
  1000 <= ms < 1000000 -> fst (timer_of ms) = 0 /\ 1000000 <= snd (timer_of ms).
Proof.
  intros H. unfold timer_of. rewrite (proj2 (Z.ltb_lt 0 ms)) by lia. cbv zeta.
  rewrite Z.quot_small, Z.rem_small by lia. cbn [fst snd]. lia.
Qed.
