(* ===== verification/SeatControllerMain.v ===== *)
(** * The stand-alone controller program

    [main.cc] of the seat controller: the sequence of API calls it makes, its positions and the
    waits between them.  Output and the printed return codes are left out. *)
From Stdlib Require Import ZArith Lia String.
From stdpp Require Import base numbers list strings.
From S2P Require Import Prelude Prog CanDbc Os SeatController CtlMachine.

(** The global [config]. *)
Definition initial_config : seatctrl_config_t :=
  Config (Some "vcan0"%string) false true true true DEFAULT_OPERATION_TIMEOUT DEFAULT_RPM.

(** The address of [pos_cb]. *)
Definition POS_CB : Z := 3.

Section Main.
Context {CAN : Cantools}.

(** Lines 107-111: the positions the program moves to. *)
Definition positions : ctl (Z * Z) :=
  p1 ← os (O_getenv "SC_POS1");
  p2 ← os (O_getenv "SC_POS2");
  let pos_1 := match p1 with Some _ => atoi "SC_POS1" | None => 42 end in
  let pos_2 := match p2 with Some _ => atoi "SC_POS2" | None => 100 end in
  mret (pos_1, pos_2).

(** [arg] is [argv[1]]. *)
Definition controller_main (arg : option string) : ctl Z :=
  '(_, config) ← seatctrl_default_config (Some initial_config);
  let config := match config, arg with
    | Some c, Some arg => Some (Config (Some arg) (debug_raw c) (debug_ctl c) (debug_stats c)
                                  (debug_verbose c) (command_timeout c) (motor_rpm c))
    | c, _ => c
    end in
  seatctrl_open CTX;;
  seatctrl_init_ctx CTX config;;
  seatctrl_open CTX;;
  usleep 1000000;;
  seatctrl_set_event_callback CTX POS_CB 0;;
  seatctrl_get_position CTX;;
  usleep 1000000;;
  '(pos_1, pos_2) ← positions;
  seatctrl_set_position CTX pos_1;;
  usleep (2 * 1000000);;
  seatctrl_set_position CTX 42;;
  usleep (10 * 1000000);;
  seatctrl_set_position CTX pos_2;;
  usleep (60 * 1000000);;
  seatctrl_get_position CTX;;
  seatctrl_close CTX;;
  mret 0.

(** The environment variables that should override the positions make them 0 whatever they hold:
    [atoi] is applied to their names. *)
Theorem overrides_are_zero {S : Type} {O : OS S} (m : machine S) :
  let '((pos_1, pos_2), _) := exec positions m in In pos_1 [0; 42] /\ In pos_2 [0; 100].
Proof.
  unfold positions. autorewrite with run.
  destruct (sys (O_getenv "SC_POS1") m) as [[v1|] m1]; autorewrite with run;
    destruct (sys (O_getenv "SC_POS2") m1) as [[v2|] m2]; autorewrite with run;
    split; vm_compute; auto.
Qed.

End Main.
