(* ===== verification/Client.v ===== *)
(** * The command-line client

    [seat_svc_client.cc]: the calls of the two RPCs, the polling loop and [main], as a program
    over the stub of the service, the clock and the two output streams; then the client against
    the service on the simulated ECU.

    [getopt_long] is the C library's: what it returns, in order, is an argument of [main], and so
    are the two functions protobuf generates for [SeatComponent]. *)
From Stdlib Require Import ZArith Lia Ascii String.
From stdpp Require Import base numbers list strings pretty.
From S2P Require Import Prelude Prog Os Grpc SeatsService.

Inductive cliE : Type -> Type :=
| C_CurrentPosition (request : CurrentPositionRequest) : cliE (Status * option Position)
| C_MoveComponent (request : MoveComponentRequest) : cliE Status
| C_sleep_ms (ms : Z) : cliE unit
| C_cout (text : string) : cliE unit
| C_cerr (text : string) : cliE unit.

Abbreviation cli := (prog cliE).

Definition endl : string := String "010"%char EmptyString.
Definition cout (text : string) : cli unit := trigger (C_cout text).
Definition cerr (text : string) : cli unit := trigger (C_cerr text).
Definition cli_when (b : bool) (p : cli unit) : cli unit := if b then p else mret tt.

(** ** Printing *)

Definition grpc_status_code_to_string (status : StatusCode) : string :=
  match status with
  | Code_OK => "OK"
  | CANCELLED => "CANCELLED"
  | UNKNOWN => "UNKNOWN"
  | INVALID_ARGUMENT => "INVALID_ARGUMENT"
  | DEADLINE_EXCEEDED => "DEADLINE_EXCEEDED"
  | NOT_FOUND => "NOT_FOUND"
  | ALREADY_EXISTS => "ALREADY_EXISTS"
  | PERMISSION_DENIED => "PERMISSION_DENIED"
  | RESOURCE_EXHAUSTED => "RESOURCE_EXHAUSTED"
  | FAILED_PRECONDITION => "FAILED_PRECONDITION"
  | ABORTED => "ABORTED"
  | OUT_OF_RANGE => "OUT_OF_RANGE"
  | UNIMPLEMENTED => "UNIMPLEMENTED"
  | INTERNAL => "INTERNAL"
  | UNAVAILABLE => "UNAVAILABLE"
  | DATA_LOSS => "DATA_LOSS"
  | UNAUTHENTICATED => "UNAUTHENTICATED"
  | OTHER_CODE _ => "UNKNOWN"
  end.

(** The double quote of the message. *)
Definition quote : string := String "034"%char EmptyString.

Definition print_grpc_status (status : Status) : cli unit :=
  if ok status then cout ("GRPC: OK" +:+ endl)
  else cerr ("GRPC error: { code:" +:+ pretty (code_value (error_code status)) +:+ " ("
             +:+ grpc_status_code_to_string (error_code status) +:+ ") " +:+ quote
             +:+ error_message status +:+ quote +:+ " }" +:+ endl).

Definition print_postition (position : Position) : cli unit :=
  cout ("Postition: { Base:" +:+ pretty (base_position position) +:+ ", Cushion:"
        +:+ pretty (cushion position) +:+ ", Lumbar:" +:+ pretty (lumbar position)
        +:+ ", SideBolster:" +:+ pretty (side_bolster position) +:+ ", HeadRestraint:"
        +:+ pretty (head_restraint position) +:+ " }" +:+ endl).

Definition print_usage : cli unit :=
  cout ("Usage: ./seat_svc_client OPTIONS POSITION" +:+ endl +:+ endl);;
  cout ("OPTIONS:" +:+ endl);;
  cout ("   -t, --target : GRPC address for SeatService <ip:port>. Default: localhost:50051" +:+ endl);;
  cout ("   -c, --comp   : SeatComponent value [0=BASE, 1=CUSHION, etc..]. Default: 0" +:+ endl);;
  cout ("   -r, --row    : Seat Location Row (1=Front). Default: 1 " +:+ endl);;
  cout ("   -i, --ind    : Seat Location Index in a Row (1=Left). Default: 1 " +:+ endl);;
  cout ("   -g, --get    : Get Current Seat Position" +:+ endl);;
  cout ("   -w, --wait   : Wait to reach target position (via polling)" +:+ endl);;
  cout ("   -h, --help   : Prints this message" +:+ endl +:+ endl);;
  cout ("ARGUMENTS:" +:+ endl);;
  cout ("   POSITION     : Seat Position in range [0..1000]. Default: 500" +:+ endl).

(** ** Seat components *)

Definition CUSHION : Z := 1.
Definition LUMBAR : Z := 2.
Definition SIDE_BOLSTER : Z := 3.
Definition HEAD_RESTRAINT : Z := 4.

Definition get_component_position (seat_comp : Z) (position : Position) : Z :=
  if seat_comp =? BASE then base_position position
  else if seat_comp =? CUSHION then cushion position
  else if seat_comp =? LUMBAR then lumbar position
  else if seat_comp =? SIDE_BOLSTER then side_bolster position
  else if seat_comp =? HEAD_RESTRAINT then head_restraint position
  else -1.

(** ** The RPCs *)

Definition no_position : Position := Pos (-1) (-1) (-1) (-1) (-1).

Section Client.
(** [CLI_DEBUG]. *)
Variable debug : bool.

(** The status and the position, which is invalid unless the reply holds one. *)
Definition CurrentSeatPosition (row index : Z) : cli (Status * Position) :=
  '(status, reply) ← trigger (C_CurrentPosition (Current_position (u32 row) (u32 index)));
  if negb (ok status) then
    cerr ("[CurrentSeatPosition] failed (" +:+ pretty (code_value (error_code status)) +:+ ")" +:+ endl);;
    mret (status, no_position)
  else
    match reply with
    | Some position =>
        cli_when debug (print_postition position);;
        mret (status, position)
    | None => mret (status, no_position)
    end.

Definition MoveSeatPosition (component row index position : Z) : cli Status :=
  status ← trigger (C_MoveComponent (Move_component (Location (u32 row) (u32 index)) component position));
  cli_when (negb (ok status))
    (cerr ("[MoveSeatPosition] failed (" +:+ pretty (code_value (error_code status)) +:+ ")" +:+ endl));;
  mret status.

(** ** main *)

(** What [getopt_long] returns: an option with its argument, or ['?']. *)
Inductive client_opt :=
| Opt_target (optarg : string)
| Opt_row (optarg : string)
| Opt_ind (optarg : string)
| Opt_comp (optarg : string)
| Opt_help
| Opt_get
| Opt_wait
| Opt_unknown.

Record client_options := Options {
  target_str : string; seat_row : Z; seat_col : Z; seat_comp : Z; get_pos : bool; wait_position : bool }.

Definition default_options : client_options := Options "localhost:50051" 1 1 0 false false.

Variable SeatComponent_IsValid : Z -> bool.
Variable SeatComponent_Name : Z -> string.

(** The options, or the code of [exit]. *)
Fixpoint parse_options (opts : list client_opt) (o : client_options) : cli (client_options + Z) :=
  match opts with
  | [] => mret (inl o)
  | opt :: opts =>
      match opt with
      | Opt_target a =>
          parse_options opts
            (Options a (seat_row o) (seat_col o) (seat_comp o) (get_pos o) (wait_position o))
      | Opt_row a =>
          parse_options opts
            (Options (target_str o) (atoi a) (seat_col o) (seat_comp o) (get_pos o) (wait_position o))
      | Opt_ind a =>
          parse_options opts
            (Options (target_str o) (seat_row o) (atoi a) (seat_comp o) (get_pos o) (wait_position o))
      | Opt_comp a =>
          let comp := atoi a in
          if negb (SeatComponent_IsValid comp) then
            cerr ("Invalid SeatComponent value: " +:+ pretty comp +:+ endl);;
            print_usage;;
            mret (inr 1)
          else
            parse_options opts
              (Options (target_str o) (seat_row o) (seat_col o) comp (get_pos o) (wait_position o))
      | Opt_help => print_usage;; mret (inr 0)
      | Opt_get =>
          parse_options opts
            (Options (target_str o) (seat_row o) (seat_col o) (seat_comp o) true (wait_position o))
      | Opt_wait =>
          parse_options opts
            (Options (target_str o) (seat_row o) (seat_col o) (seat_comp o) (get_pos o) true)
      | Opt_unknown => print_usage;; mret (inr 1)
      end
  end.

Inductive wait_result := Reached (current : Z) (retries : Z) | Aborted (retries : Z) | TimedOut (retries : Z).

(** Lines 319-345: the polling loop; [None] when it is still going after [fuel] polls. *)
Fixpoint wait_for_position (fuel : nat) (row col comp pos retries : Z) : cli (option wait_result) :=
  match fuel with
  | O => mret None
  | S fuel =>
      '(result, position) ← CurrentSeatPosition row col;
      if negb (ok result) then
        print_grpc_status result;;
        cout (endl +:+ "*** Waiting aborted." +:+ endl);;
        mret (Some (Aborted retries))
      else
      let current_pos := get_component_position comp position in
      print_postition position;;
      if Z.quot pos 10 =? Z.quot current_pos 10 then
        cout ("***  SeatComponent::" +:+ SeatComponent_Name comp +:+ " reached: "
              +:+ pretty current_pos +:+ endl +:+ endl);;
        mret (Some (Reached current_pos retries))
      else
      let retries := retries + 1 in
      if 15000 <? retries * 100 then
        cout (endl +:+ "*** Waiting aborted (Timeout)." +:+ endl);;
        mret (Some (TimedOut retries))
      else
        trigger (C_sleep_ms 100);;
        wait_for_position fuel row col comp pos retries
  end.

(** [rest] are the arguments from [optind] on. *)
Definition client_main (opts : list client_opt) (rest : list string) : cli Z :=
  parsed ← parse_options opts default_options;
  match parsed with
  | inr code => mret code
  | inl o =>
      let pos := match rest with [] => 500 | a :: _ => atoi a end in
      cli_when (get_pos o)
        (cout endl;;
         cout ("*** Seats.CurrentSeatPosition(" +:+ pretty (seat_row o) +:+ ", " +:+ pretty (seat_col o)
               +:+ ")" +:+ endl);;
         '(get_result, position) ← CurrentSeatPosition (seat_row o) (seat_col o);
         cout "  --> ";;
         print_grpc_status get_result;;
         cli_when (ok get_result) (cout "  --> ";; print_postition position);;
         cout endl);;
      cout ("*** Seats.MoveComponent(SeatComponent::" +:+ SeatComponent_Name (seat_comp o) +:+ ", "
            +:+ pretty (seat_row o) +:+ ", " +:+ pretty (seat_col o) +:+ ", " +:+ pretty pos +:+ ")" +:+ endl);;
      move_result ← MoveSeatPosition (seat_comp o) (seat_row o) (seat_col o) pos;
      print_grpc_status move_result;;
      let shut_down :=
        (cli_when debug (cout ("- ShutdownProtobufLibrary() ..." +:+ endl));;
         mret 0) in
      if ok move_result && wait_position o then
        cout (endl +:+ "*** Waiting for seat target position..." +:+ endl);;
        result ← wait_for_position 151 (seat_row o) (seat_col o) (seat_comp o) pos 0;
        match result with
        | Some (Reached _ _) => mret 0
        | _ => shut_down
        end
      else shut_down
  end.

(** ** The polling loop *)

(** The loop ends after at most 151 polls, whatever the service answers. *)
Lemma wait_terminates {S} (h : handler cliE S) fuel row col comp pos retries (s : S) :
  0 <= retries <= 150 -> (151 - Z.to_nat retries <= fuel)%nat ->
  is_Some (fst (run h (wait_for_position fuel row col comp pos retries) s)).
Proof.
  revert retries s. induction fuel as [|fuel IH]; intros retries s Hr Hf; [lia|].
  cbn [wait_for_position]. rewrite run_bind. destruct (run h (CurrentSeatPosition row col) s) as [[st p] s1].
  destruct (ok st); cbn [negb].
  - rewrite run_bind. destruct (run h _ s1) as [u s2]. destruct (_ =? _).
    + rewrite run_bind. destruct (run h _ s2). by eexists.
    + destruct (Z.ltb_spec 15000 ((retries + 1) * 100)); rewrite run_bind; destruct (run h _ s2).
      * by eexists.
      * apply IH; lia.
  - rewrite run_bind. destruct (run h _ s1). rewrite run_bind. destruct (run h _ _). by eexists.
Qed.

(** A seat that stands exactly where the service put it for [pos]. *)
Definition arrived (pos : Z) : handler cliE unit := fun X e s =>
  (match e in cliE X return X with
   | C_CurrentPosition _ => (Status_OK, Some (Pos (to_percent pos * 10) (-1) (-1) (-1) (-1)))
   | C_MoveComponent _ => Status_OK
   | C_sleep_ms _ | C_cout _ | C_cerr _ => tt
   end, s).

Lemma arrived_current row col pos :
  run (arrived pos) (CurrentSeatPosition row col) tt
  = ((Status_OK, Pos (to_percent pos * 10) (-1) (-1) (-1) (-1)), tt).
Proof. unfold CurrentSeatPosition. by destruct debug. Qed.

Lemma arrived_poll fuel row col pos retries :
  0 <= pos ->
  fst (run (arrived pos) (wait_for_position (S fuel) row col BASE pos retries) tt)
  = if pos / 10 =? to_percent pos then Some (Reached (to_percent pos * 10) retries)
    else if 15000 <? (retries + 1) * 100 then Some (TimedOut (retries + 1))
    else fst (run (arrived pos) (wait_for_position fuel row col BASE pos (retries + 1)) tt).
Proof.
  intros Hp. cbn [wait_for_position]. rewrite run_bind, arrived_current.
  change (ok Status_OK) with true. cbn [negb]. rewrite run_bind. cbn [run print_postition cout trigger arrived].
  unfold get_component_position. rewrite Z.eqb_refl. cbn [base_position].
  rewrite Z.quot_mul, Z.quot_div_nonneg by lia.
  destruct (_ =? _); [done|]. by destruct (15000 <? _).
Qed.

(** The client recognises an arrived seat at once when the last digit of the requested position is
    below five; otherwise the service rounds up, the client compares the tens, and the wait times
    out although the seat is where it was asked to be. *)
Theorem wait_misses_rounded_targets row col pos :
  0 <= pos <= 1000 ->
  fst (run (arrived pos) (wait_for_position 151 row col BASE pos 0) tt)
  = Some (if pos mod 10 <? 5 then Reached (to_percent pos * 10) 0 else TimedOut 151).
Proof.
  intros Hp. assert (Ht : to_percent pos = (pos + 5) / 10) by (apply Z.quot_div_nonneg; lia).
  pose proof (Z.div_mod pos 10 ltac:(lia)). pose proof (Z.mod_pos_bound pos 10 ltac:(lia)).
  pose proof (Z.div_mod (pos + 5) 10 ltac:(lia)). pose proof (Z.mod_pos_bound (pos + 5) 10 ltac:(lia)).
  destruct (Z.ltb_spec (pos mod 10) 5) as [Hlt|Hge].
  - rewrite arrived_poll by lia. by rewrite (proj2 (Z.eqb_eq _ _)) by lia.
  - assert (Hne : (pos / 10 =? to_percent pos) = false) by lia.
    assert (Hall : forall n, (n <= 150)%nat ->
      fst (run (arrived pos) (wait_for_position (S n) row col BASE pos (150 - Z.of_nat n)) tt)
      = Some (TimedOut 151)).
    { induction n as [|n IH]; intros Hn; rewrite arrived_poll, Hne by lia; [done|].
      rewrite (proj2 (Z.ltb_ge _ _)) by lia.
      replace (150 - Z.of_nat (S n) + 1) with (150 - Z.of_nat n) by lia. apply IH. lia. }
    exact (Hall 150%nat ltac:(lia)).
Qed.

End Client.
