(* ===== verification/ClientScenario.v ===== *)
(** * The client against the simulated seat

    The command-line client, the service and the simulated ECU in one process: an RPC is a call
    of the handler, and while the client sleeps the CTL thread takes nine iterations, which is
    what a frame every 10 ms allows it. *)
From Stdlib Require Import ZArith Lia Ascii String.
From stdpp Require Import base numbers list strings pretty.
From S2P Require Import Prelude Prog CanDbc Os Grpc CanSim VirtualMachine SeatController CtlMachine.
From S2P Require Import ControllerSpec ControlLoopSpec ApiSpec SeatAdjuster SeatsService EndToEnd.
From S2P Require Import Scenario Client.

#[local] Existing Instance dbc_codec.
#[local] Existing Instance dbc_codec_laws.
#[local] Instance adjuster : Adjuster (service (@sim_world vm)) := SeatAdjusterImpl_adjuster false.

Definition empty_reply : CurrentPositionReply := Position_reply (MkSeat (Location 0 0) (Pos 0 0 0 0 0)).

Record session := Session { ses_service : service (@sim_world vm); ses_output : list string }.

Definition session_handle : handler cliE session := fun X e =>
  match e in cliE X return session -> X * session with
  | C_CurrentPosition request => fun s =>
      let '(st, reply, srv) := serve (CurrentPosition request empty_reply) (ses_service s) in
      ((st, Some (seat_position (reply_seat reply))), Session srv (ses_output s))
  | C_MoveComponent request => fun s =>
      let '(st, srv) := serve (MoveComponent request) (ses_service s) in (st, Session srv (ses_output s))
  | C_sleep_ms _ => fun s =>
      (tt, Session (snd (sa_exec (service_thread false 9) (ses_service s))) (ses_output s))
  | C_cout text | C_cerr text => fun s => (tt, Session (ses_service s) (ses_output s ++ [text]))
  end.

(** protobuf's functions for [SeatComponent], from its declaration. *)
Definition valid_component (c : Z) : bool := (0 <=? c) && (c <=? 4).
Definition component_name (c : Z) : string :=
  nth (Z.to_nat c) ["BASE"; "CUSHION"; "LUMBAR"; "SIDE_BOLSTER"; "HEAD_RESTRAINT"]%string "".

(** [seat_svc_client --wait <10 p>]. *)
Definition wait_for_percent (p : Z) : Z * session :=
  run session_handle (client_main false valid_component component_name [Opt_wait] [pretty (10 * p)])
    (Session service_up []).

Definition reached_line (p : Z) : string :=
  "***  SeatComponent::BASE reached: " +:+ pretty (10 * p) +:+ endl +:+ endl.

Definition client_succeeds (p : Z) : bool :=
  let '(code, s) := wait_for_percent p in
  (code =? 0) && bool_decide (last (ses_output s) = Some (reached_line p))
  && stands_at p (sv_ctl (ses_service s)).

Lemma client_succeeds_everywhere : forallb client_succeeds (seqZ 0 101) = true.
Proof. vm_compute. reflexivity. Qed.

(** C28: Asked to wait for any whole percentage, the client exits with 0 after announcing that it was
    reached: the simulated seat stands there, its motor is off, and no operation is under way. *)
Theorem client_waits_for_the_seat p :
  0 <= p <= 100 ->
  let '(code, s) := wait_for_percent p in
  let m := sv_ctl (ses_service s) in
  code = 0 /\ last (ses_output s) = Some (reached_line p)
  /\ motor1_pos (m_ctx m) = p /\ is_ctl_running (m_ctx m) = false
  /\ sae_pos_percent (_sim_motor1_pos (sae (fst (m_os m)))) = p
  /\ _sim_motor1_status (sae (fst (m_os m))) = MotorDirection_OFF.
Proof.
  intros Hp. pose proof client_succeeds_everywhere as H. rewrite forallb_forall in H.
  specialize (H p ltac:(apply list_elem_of_In, elem_of_seqZ; lia)). unfold client_succeeds in H.
  destruct (wait_for_percent p) as [code s]. unfold stands_at in H.
  rewrite !andb_true_iff, !Z.eqb_eq, bool_decide_eq_true, negb_true_iff in H.
  cbv zeta. intuition.
Qed.
