(* ===== verification/Examples.v ===== *)
(** * The example programs

    The stand-alone broker feeder ([broker_feeder.cc]) and the CAN test programs ([can_send.cc],
    [can_subscribe.cc]).  The client of the seats service is in [Client]. *)
From Stdlib Require Import ZArith Lia Ascii String.
From stdpp Require Import base numbers list strings gmap.
From S2P Require Import Prelude Prog Os Grpc KuksaClient SeatsService DataBrokerFeeder SeatService.
From S2P Require Import CanHelpers.

(** ** broker_feeder *)

(** [s.find(sub)], from the start. *)
Fixpoint starts_with (sub s : string) : bool :=
  match sub, s with
  | EmptyString, _ => true
  | String a sub, String b s => bool_decide (a = b) && starts_with sub s
  | String _ _, EmptyString => false
  end.

(** The rest of [s] after the first occurrence of [sub]. *)
Fixpoint find_rest (sub s : string) : option string :=
  if starts_with sub s then Some (String.substring (String.length sub) (String.length s) s)
  else match s with
       | EmptyString => None
       | String _ s => find_rest sub s
       end.

Inductive feeder_args := ArgsError | Args (target : string) (use_vss3 : bool).

(** Lines 46-65: one argument. *)
Definition parse_arg (acc : feeder_args) (arg_val : string) : feeder_args :=
  match acc with
  | ArgsError => ArgsError
  | Args target use_vss3 =>
      if bool_decide (arg_val = "--vss3"%string) then Args target true
      else match find_rest "--target" arg_val with
           | Some (String "="%char rest) => Args rest use_vss3
           | Some _ => ArgsError
           | None => ArgsError
           end
  end.

Definition parse_args (args : list string) : feeder_args :=
  fold_left parse_arg args (Args "localhost:55555" false).

(** Lines 95-102: the values fed with a given step; [None] when the loop is still running. *)
Fixpoint feed_steps (fuel : nat) (i step : Z) : option (list Z) :=
  match fuel with
  | O => None
  | S fuel => if i <=? 1000 then cons i <$> feed_steps fuel (i + step) step else Some []
  end.

Lemma feed_steps_zero fuel : feed_steps fuel 0 0 = None.
Proof.
  induction fuel as [|fuel IH]; [done|]. cbn [feed_steps]. change (0 <=? 1000) with true.
  change (0 + 0) with 0. cbv iota. by rewrite IH.
Qed.

(** The loop ends for every positive step; [STEP=0] in the environment makes it endless. *)
Theorem feed_steps_terminates step :
  (0 < step -> forall i fuel, 0 <= i -> 1001 - i <= (Z.of_nat fuel) * step ->
     is_Some (feed_steps (S fuel) i step))
  /\ (step = 0 -> forall fuel, feed_steps fuel 0 step = None).
Proof.
  split; [|intros ->; apply feed_steps_zero].
  intros Hs i fuel. revert i. induction fuel as [|fuel IH]; intros i Hi Hf.
  - cbn [feed_steps]. destruct (Z.leb_spec i 1000); [lia | by eexists].
  - change (is_Some (if i <=? 1000 then cons i <$> feed_steps (S fuel) (i + step) step else Some [])).
    destruct (Z.leb_spec i 1000); [|by eexists].
    destruct (IH (i + step) ltac:(lia) ltac:(nia)) as [l ->]. by eexists.
Qed.

(** [std::stoi]; [None] when it throws. *)
Definition stoi (s : string) : option Z :=
  let s := skip_spaces s in
  let unsigned := match s with
                  | String c rest => if bool_decide (c = "-"%char) || bool_decide (c = "+"%char) then rest else s
                  | EmptyString => s
                  end in
  match unsigned with
  | String c _ =>
      match digit_value c with
      | Some _ =>
          let magnitude := digits 0 unsigned in
          let z := if bool_decide (String.get 0 s = Some "-"%char) then - magnitude else magnitude in
          if (- 2 ^ 31 <=? z) && (z <? 2 ^ 31) then Some z else None
      | None => None
      end
  | EmptyString => None
  end.

Definition example_metadata (dp_name : string) : DatapointConfiguration :=
  [ Dp dp_name UINT16 ON_CHANGE (createDatapoint_uint32 0) "dummy description" ].

(** Lines 84-89: at most ten looks, a second apart. *)
Fixpoint wait_ready (n : nat) : fd unit :=
  match n with
  | O => mret tt
  | S n =>
      ready ← Ready;
      if ready : bool then mret tt else trigger (F_sleep_ms 1000);; wait_ready n
  end.

Definition feed_example (dp_name : string) (timeout : Z) (values : list Z) : fd unit :=
  foldr (fun i rest =>
           FeedValue dp_name (uint32_value (u32 i));;
           trigger (F_sleep_ms timeout);;
           rest) (mret tt) values.

Inductive example_result := Exited (code : Z) | Thrown | StillFeeding.

(** The main thread of the example; [Run] of the feeder runs in another one, which it joins. *)
Definition broker_feeder_main (args : list string) (env : string -> option string) (fuel : nat)
    : fd example_result :=
  match parse_args args with
  | ArgsError => mret (Exited 1)
  | Args target use_vss3 =>
      let dp_name := if use_vss3 then SEAT_POS_VSS_3 else SEAT_POS_VSS_4 in
      wait_ready 10;;
      Ready;;
      match stoi (getEnvVar (env "TIMEOUT"%string) "0"), stoi (getEnvVar (env "STEP"%string) "10") with
      | Some timeout, Some step =>
          match feed_steps fuel 0 step with
          | Some values =>
              feed_example dp_name timeout values;;
              FeedValue dp_name (string_value "bad value");;
              trigger (F_sleep_ms 3000);;
              Shutdown;;
              mret (Exited 0)
          | None => mret StillFeeding
          end
      | _, _ => mret Thrown
      end
  end.

Example example_default :
  feed_steps 102 0 10 = Some (map (fun i => 10 * i) (seqZ 0 101)).
Proof. vm_compute. reflexivity. Qed.

(** ** can_send and can_subscribe *)

(** The position byte of [can_send] in round [i]. *)
Definition can_send_position (i prev : Z) : Z :=
  if i =? 40 then 21 else if i =? 80 then 22 else if i =? 120 then 23 else if i =? 160 then 24
  else if i =? 200 then 26 else if i =? 240 then 28 else if i =? 280 then 30
  else if i =? 320 then 32 else if i =? 360 then 34 else prev.

(** The frames sent, from round [i] on, for [n] rounds. *)
Fixpoint can_send_frames (n : nat) (i pos : Z) : list CanFrame :=
  match n with
  | O => []
  | S n =>
      let pos := can_send_position i pos in
      MkCanFrame 1810 [1; 80; pos; 0; 0; 0; 0; u8 i] :: can_send_frames n (i + 1) pos
  end.

Definition can_send : list CanFrame := can_send_frames 500 0 20.

(** The command [can_subscribe] sends first, and what it subscribes to. *)
Definition can_subscribe_main (can_if_name : string) : bcm unit :=
  fd ← CanBcmInterface can_if_name;
  CanBcmInterface_SendFrame fd (MkCanFrame 1797 [1; 80; 0; 0; 0; 0; 0; 0]);;
  SubscribeCyclicChange fd 1810 [0; 0; 255] 0;;
  mret tt.
