(* ===== verification/Witnesses.v ===== *)
(** * Concrete instances

    Every theorem with hypotheses is applied to a concrete input that meets them: the service
    started on the virtual machine with the CAN simulator ([Scenario]), a scripted broker and a
    scripted stream.  The codec is [dbc_codec]. *)
From Stdlib Require Import ZArith Lia String.
From stdpp Require Import base numbers list strings gmap relations.
From S2P Require Import Prelude Prog CanDbc Os Grpc KuksaClient CanSim VirtualMachine SeatController.
From S2P Require Import CtlMachine ControllerSpec ControlLoopSpec ApiSpec ThreadSpec Invariants Interleaving.
From S2P Require Import SeatAdjuster ClosedLoop SeatsService EndToEnd Scenario DataBrokerFeeder.
From S2P Require Import FeederSpec SeatService SeatServiceSpec CanHelpers Client ClientScenario Examples.
From S2P Require Import CanSimLib Printing Session Races FeederLiveness Signals FeederTypes BrokerLoop.

#[local] Existing Instance dbc_codec.
#[local] Existing Instance dbc_codec_laws.
#[local] Instance adjuster : Adjuster (service (@sim_world vm)) := SeatAdjusterImpl_adjuster false.

(** The controller of the running service, and the same while it moves to 60 percent. *)
Definition ctl_up : machine (@sim_world vm) := sv_ctl service_up.
Definition ctl_moving : machine (@sim_world vm) := snd (exec (seatctrl_set_position CTX 60) ctl_up).

(** A status frame: motor 1 at 57 percent, going up, learned. *)
Definition frame_57 : can_frame := Os.CanFrame 1810 8 [6; 0; 57; 0; 0; 0; 0; 0].

Lemma wf_frame_57 : wf_frame frame_57.
Proof.
  unfold wf_frame, frame_57. cbn. unfold is_u8. split_and!; try lia; try done.
  repeat constructor; lia.
Defined.

(** A machine is [going] by evaluation. *)
Ltac computed_going :=
  split; [vm_compute; reflexivity | vm_compute; reflexivity | | vm_compute; reflexivity];
  split; [vm_compute; reflexivity | vm_compute; reflexivity | done | vm_compute; reflexivity |];
  split; vm_compute; try done; by right.

(** ** The controller *)

Lemma control_loop_refines_witness :
  fst (exec seatctrl_control_loop ctl_moving) = SEAT_CTRL_OK
  /\ goal_of (m_ctx (snd (exec seatctrl_control_loop ctl_moving))) = goal_of (m_ctx ctl_moving).
Proof. pose proof (control_loop_refines ctl_moving) as H. vm_compute in H |- *. tauto. Defined.

Lemma thread_refines_witness :
  loop_on (m_ctx ctl_moving) = true
  /\ let '(on, m') := exec (seatctrl_thread_loop 2) ctl_moving in
     let cfg := config (m_ctx ctl_moving) in
     exists frames,
       sup_run (command_timeout cfg) (u8 (motor_rpm cfg)) (heard 2 ctl_moving) (abs ctl_moving)
       = (frames, abs m', on).
Proof.
  assert (loop_on (m_ctx ctl_moving) = true) as H by (vm_compute; reflexivity). split; [exact H|].
  pose proof (thread_refines 2 ctl_moving H) as R. cbv zeta in R |- *.
  destruct (exec (seatctrl_thread_loop 2) ctl_moving) as [on m'].
  destruct R as (frames & R & _). exists frames. exact R.
Defined.

Lemma set_position_contract_witness :
  fst (exec (seatctrl_set_position CTX 60) ctl_up) = SEAT_CTRL_OK
  /\ written (m_trace ctl_moving) = [stop_frame; cmd_frame 2 80].
Proof. pose proof (set_position_contract CTX 60 ctl_up) as H. vm_compute in H |- *. tauto. Defined.

Lemma stop_movement_spec_witness :
  goal_of (m_ctx (snd (exec seatctrl_stop_movement ctl_moving))) = None.
Proof.
  pose proof (stop_movement_spec ctl_moving) as H.
  destruct (exec seatctrl_stop_movement ctl_moving) as [rc m']. destruct H as (_ & H & _). exact H.
Defined.

Lemma moving_goal_witness :
  goal_of (ctx_moving 1100 42 60 (m_ctx ctl_up)) = Some (Goal 60 INC 1100).
Proof.
  assert (socket (m_ctx ctl_up) <> SOCKET_INVALID) as Hs by (vm_compute; discriminate).
  destruct (moving_goal 1100 42 60 (m_ctx ctl_up) ltac:(lia) Hs ltac:(lia) ltac:(lia)) as [H _].
  exact H.
Defined.

Lemma position_follows_frames_witness :
  fst (exec (handle_secu_stat frame_57;; seatctrl_get_position CTX) ctl_up) = 57.
Proof.
  pose proof (position_follows_frames frame_57 ctl_up wf_frame_57 ltac:(vm_compute; reflexivity)
    ltac:(vm_compute; reflexivity) ltac:(vm_compute; reflexivity)) as H.
  rewrite H. reflexivity.
Defined.

Lemma close_ends_thread_witness :
  fst (exec (seatctrl_thread_loop 5) (snd (exec (seatctrl_close CTX) ctl_up))) = false.
Proof.
  pose proof (close_ends_thread CTX 4 ctl_up ltac:(vm_compute; reflexivity)) as H.
  destruct (exec (seatctrl_close CTX) ctl_up) as [rc m']. cbn [snd].
  destruct H as (_ & _ & _ & _ & ->). reflexivity.
Defined.

(** A machine whose interface cannot be bound: sockets open, everything else fails. *)
Definition no_bind : OS Z := fun X e =>
  match e in osE X return Z -> X * Z with
  | O_socket _ _ _ => fun n => ((n, 0), n + 1)
  | O_ioctl _ _ ifr => fun n => ((-1, ENODEV, ifr), n)
  | O_if_nametoindex _ => fun n => ((0, ENODEV), n)
  | O_bind _ _ _ => fun n => ((-1, ENODEV), n)
  | O_setsockopt _ _ _ _ _ => fun n => ((-1, ENODEV), n)
  | O_read _ buf _ => fun n => ((-1, ENODEV, buf), n)
  | O_write _ _ _ => fun n => ((-1, ENODEV), n)
  | O_close _ => fun n => ((0, 0), n)
  | O_clock_gettime => fun n => ((0, 0), n)
  | O_usleep _ => fun n => (tt, n)
  | O_pthread_create => fun n => ((0, 1), n)
  | O_pthread_self => fun n => (0, n)
  | O_pthread_join _ => fun n => (0, n)
  | O_getenv _ => fun n => (None, n)
  end.

Definition fresh : machine Z :=
  Machine (ctx_init (config (m_ctx ctl_up))) statics_init 5 [].

Lemma failed_open_blocks_reopen_witness :
  fst (exec (O := no_bind) (seatctrl_open CTX)
         (snd (exec (O := no_bind) (seatctrl_open CTX) fresh))) = SEAT_CTRL_ERR.
Proof.
  pose proof (failed_open_blocks_reopen (O := no_bind) CTX fresh) as H. cbv zeta in H.
  specialize (H ltac:(vm_compute; reflexivity) ltac:(vm_compute; eauto) ltac:(vm_compute; reflexivity)
    ltac:(vm_compute; discriminate)).
  assert (fst (exec (O := no_bind) (seatctrl_open CTX) fresh) = SEAT_CTRL_ERR_CAN_BIND) as Hrc
    by (vm_compute; reflexivity).
  destruct (exec (seatctrl_open CTX) fresh) as [rc m']. cbn [fst snd] in *. rewrite H; [done|].
  by rewrite Hrc.
Defined.

(** The CTL thread starts beside a client that will ask for the position. *)
Lemma bus_safety_witness :
  ctx_ok (set_running true (ctx_init (config (m_ctx ctl_up)))).
Proof.
  eapply (bus_safety (S := unit) (config (m_ctx ctl_up)) tt 1 [[ApiGetPosition]]
            (with_ctx (set_running true)
               (Machine (ctx_init (config (m_ctx ctl_up))) statics_init tt [])));
    [vm_compute; split; discriminate |].
  apply rtc_once. apply (Pool.step_pool any_env _ [] ctl_thread). 
  apply (Pool.step_op any_env _ _ _ _ _ tt). reflexivity.
Defined.

(** A client that asks for 150 percent is about to be refused. *)
Lemma motion_needs_a_request_witness :
  goal_of (set_running true (ctx_init (config (m_ctx ctl_up)))) = None.
Proof.
  pose proof (motion_needs_a_request (S := unit) (config (m_ctx ctl_up)) tt 1 [[ApiSetPosition 150]]
            (with_ctx (set_running true)
               (Machine (ctx_init (config (m_ctx ctl_up))) statics_init tt []))) as H.
  edestruct H as [_ Hnone].
  - apply rtc_once. apply (Pool.step_pool any_env _ [] ctl_thread).
    apply (Pool.step_op any_env _ _ _ _ _ tt). reflexivity.
  - apply Hnone. vm_compute. intros pos [<-|[]]. by right.
Defined.

Lemma concurrent_requests_mix_witness :
  exists m ts, rtc (Pool.step any_env) (racing 80 20) (m, ts)
    /\ exists since, goal_of (m_ctx m) = Some (Goal 80 DEC since).
Proof.
  destruct (concurrent_requests_mix 80 20 ltac:(lia) ltac:(lia)) as (m & ts & _ & _ & H1 & _ & _ & H2 & _).
  by exists m, ts.
Defined.

(** ** Printing and loading *)

Lemma print_can_raw_in_bounds_witness :
  print_can_raw frame_57 true
  = Some ("        [CAN]: RX: 0x712 [8] 06 00 39 00 00 00 00 00 " +:+ newline)%string.
Proof. rewrite (print_can_raw_in_bounds frame_57 true wf_frame_57). vm_compute. reflexivity. Defined.

Lemma initialised_once_witness :
  hook_table (fst (_initialize (fun _ => None) (fun _ => false) 0 true (fun _ => true) unloaded)) = hooked.
Proof.
  pose proof (initialised_once (fun _ => None) (fun _ => false) 0 true (fun _ => true) unloaded eq_refl) as H.
  destruct (_initialize _ _ _ _ _ unloaded) as [l1 exited]. destruct H as [He H].
  destruct (H He) as (_ & Ht & _). exact Ht.
Defined.

(** ** The service *)

(** The running service with no time at all for an operation. *)
Definition service_hasty : service (@sim_world vm) :=
  Service (with_ctx (set_config (Config (Some "vcan0"%string) false false false false 0 80)) ctl_up)
    (AdjusterState 0 false) [].

Lemma service_hasty_going : going 1023 0 (sv_ctl service_hasty).
Proof. computed_going. Defined.

Lemma move_request_completes_witness :
  let s2 := snd (sa_exec (service_thread false 501) (snd (serve (Move (move_to 600)) service_hasty))) in
  goal_of (m_ctx (sv_ctl s2)) = None
  /\ (write_status (m_trace (sv_ctl s2)) = SEAT_CTRL_OK -> last (sent (m_trace (sv_ctl s2))) = Some stop_frame).
Proof.
  pose proof (move_request_completes 1023 0 500 (move_to 600) service_hasty
    eq_refl eq_refl service_hasty_going ltac:(discriminate) ltac:(vm_compute; reflexivity)
    ltac:(vm_compute; discriminate) ltac:(lia)) as H. cbv zeta in H |- *. unfold adjuster.
  destruct (sa_exec (service_thread false _) _) as [on s2]. destruct H as (_ & H1 & H2 & _). by split.
Defined.

Lemma simulated_move_arrives_witness :
  legal_base 604 = true
  /\ sae_pos_percent (_sim_motor1_pos (sae (fst (m_os (sv_ctl (settled (frames_for 60) 604)))))) = 60.
Proof.
  split; [reflexivity|].
  pose proof (simulated_move_arrives 604 (Position_reply (MkSeat (Location 1 1) (Pos 0 0 0 0 0)))
    eq_refl) as H. cbv zeta in H. change (to_percent 604) with 60 in H.
  destruct (serve _ _) as [[st r] s]. destruct H as (_ & _ & H & _). exact H.
Defined.

(** The service before it is opened keeps the invariant of the adjuster. *)
Definition service_init : service (@sim_world vm) :=
  Service (Machine (ctx_init (config (m_ctx ctl_up))) statics_init
             (sim_init_context, Vm 1000000 []) []) (AdjusterState 0 false) [].

Lemma service_init_safe : adjuster_safe service_init.
Proof. apply safe_init. vm_compute. split; discriminate. Defined.

Lemma MoveComponent_contract_witness :
  error_code (fst (serve (MoveComponent (Move_component (Location 1 1) BASE 1001)) service_init))
  = INVALID_ARGUMENT
  /\ adjuster_safe (snd (serve (MoveComponent (Move_component (Location 1 1) BASE 1001)) service_init)).
Proof.
  pose proof (MoveComponent_contract (A := adjuster) (AL := SeatAdjusterImpl_laws false)
    (Move_component (Location 1 1) BASE 1001) service_init service_init_safe) as H. cbv zeta in H.
  split; [reflexivity|]. destruct (serve _ _) as [st s']. destruct H as [H _]. exact H.
Defined.

Definition blank_reply : CurrentPositionReply :=
  Position_reply (MkSeat (Location 0 0) (Pos 0 0 0 0 0)).

Lemma CurrentPosition_contract_witness :
  snd (serve (CurrentPosition (Current_position 1 1) blank_reply) service_init) = service_init.
Proof.
  pose proof (CurrentPosition_contract (A := adjuster) (AL := SeatAdjusterImpl_laws false)
    (Current_position 1 1) blank_reply service_init service_init_safe) as H.
  destruct (serve _ _) as [[st r] s']. destruct H as [H _]. exact H.
Defined.

Lemma SetSeatPosition_results_witness :
  adjuster_safe (snd (SetSeatPosition 101 service_init)).
Proof.
  pose proof (SetSeatPosition_results false 101 service_init service_init_safe) as H.
  unfold adjuster. destruct (SetSeatPosition 101 service_init) as [r s'].
  destruct H as (_ & _ & H & _). exact H.
Defined.

Lemma construction_witness :
  motor1_pos (m_ctx (sv_ctl (snd (sa_exec (SeatAdjusterImpl false zero_config "vcan0") boot)))) = 255.
Proof.
  pose proof (construction false zero_config "vcan0" boot) as H. cbv zeta in H.
  destruct H as (_ & _ & _ & _ & _ & H & _). exact H.
Defined.

(** The running service with a subscriber. *)
Definition service_subscribed : service (@sim_world vm) := SubscribePosition 9 service_up.

Lemma subscriber_sees_position_witness :
  fst (GetSeatPosition (snd (sa_exec (lift false (handle_secu_stat frame_57)) service_subscribed))) = 57.
Proof.
  pose proof (subscriber_sees_position false frame_57 service_subscribed wf_frame_57
    ltac:(vm_compute; reflexivity) ltac:(vm_compute; reflexivity) ltac:(vm_compute; reflexivity)
    ltac:(vm_compute; reflexivity) ltac:(vm_compute; reflexivity) ltac:(vm_compute; discriminate))
    as H. cbv zeta in H. destruct H as [H _]. exact H.
Defined.

Lemma broker_and_grpc_agree_witness :
  let '(_, reply', _) := serve (CurrentPosition (Current_position 1 1) blank_reply) service_init in
  base_position (seat_position (reply_seat reply')) < 2 ^ 16.
Proof.
  pose proof (broker_and_grpc_agree (A := adjuster) (AL := SeatAdjusterImpl_laws false)
    blank_reply service_init service_init_safe) as H.
  destruct (serve _ _) as [[st r] s']. destruct H as [_ H]. exact H.
Defined.

(** ** The frames and the client *)

(** The simulated ECU understands a command of the service to move up at 80 rpm. *)
Lemma controller_and_ecu_agree_witness :
  exists f, written (m_trace (snd (exec (seatctrl_send_cmd1 (dir_value INC) 80) ctl_up)))
            = written (m_trace ctl_up) ++ [f]
    /\ _sim_motor1_status (sae_command f 7 (sae (fst (m_os ctl_up)))) = MotorDirection_INC.
Proof.
  destruct (controller_and_ecu_agree ctl_up false (sae (fst (m_os ctl_up))) stat_zero INC 80 7
    ltac:(vm_compute; discriminate)) as [_ (f & Hf & _ & Ho)].
  exists f. split; [exact Hf|]. destruct Ho as (_ & _ & Ho & _). rewrite Ho. reflexivity.
Defined.

Lemma dapr_port_replaces_witness :
  changeToDaprPortIfSet (Some "3500"%string) "broker:55555" = "broker:3500"%string.
Proof.
  apply (dapr_port_replaces "broker" "55555" "3500"); [reflexivity | discriminate |].
  vm_compute. reflexivity.
Defined.

Lemma dapr_port_drops_host_witness :
  changeToDaprPortIfSet (Some "3500"%string) "broker" = "3500"%string.
Proof. apply (dapr_port_drops_host "broker" "3500"); [reflexivity | discriminate]. Defined.

(** ** The feeder *)

Import Scripted.

(** Connected, with the ids of both names; the broker refuses the first update, and a newer value
    arrives meanwhile. *)
Definition feeding : fmachine script :=
  FMachine (Feeder {[ "a"%string := uint32_value 11 ]} {[ "a"%string := 1; "b"%string := 2 ]} ∅ true true true)
    (Script [] [] [(down, ∅)] {[ "b"%string := uint32_value 21 ]}) [].

Lemma feed_delivers_or_keeps_witness :
  let m' := snd (fd_exec (feedStoredValues Scripted.config true) feeding) in
  connected (fm m') = false
  /\ exists req, fm_trace m' = [EvUpdate req] /\ is_Some (req !! 1).
Proof.
  pose proof (feed_delivers_or_keeps Scripted.config true feeding "a"%string (uint32_value 11)
    ltac:(vm_compute; reflexivity)) as H. cbv zeta in H |- *. destruct H as ((req & Ht & Hr) & _ & H).
  destruct (H ltac:(vm_compute; reflexivity)) as (_ & Hc & _). split; [exact Hc|]. exists req. split; [exact Ht|].
  destruct (Hr 1 eq_refl) as [(n' & _ & Hs & _) _]. exact Hs.
Defined.

(** The broker knows one of the two data points. *)
Lemma registration_gives_ids_witness :
  let m := FMachine (new_feeder true)
    (Script [(Status_OK, [MkMetadata "a" 1 UINT16])] [(Status_OK, {[ "a"%string := 1; "b"%string := 2 ]})] [] ∅) [] in
  let names := map name Scripted.config in
  fst (fd_exec (registerDatapoints Scripted.config) m) = true
  /\ fm_trace (snd (fd_exec (registerDatapoints Scripted.config) m))
     = [EvMetadata names; EvRegister (map registration Scripted.config)].
Proof.
  intros m names. pose proof (registration_gives_ids Scripted.config m ltac:(discriminate)) as H. cbv zeta in H.
  assert (forallb (dp_registered (asked_metadata Scripted.config m)) Scripted.config = false) as Hc
    by (vm_compute; reflexivity).
  assert (ok (fst (fst (br_register (map registration Scripted.config)
    (snd (br_get_metadata (map name Scripted.config) (fm_broker m)))))) = true) as Ho by reflexivity.
  revert Ho H. destruct (fst (br_register _ _)) as [st ids]. destruct (fd_exec _ m) as [r m'].
  cbn [fst snd]. intros Ho [_ H]. destruct H as (H1 & H2 & _); [|exact (conj (eq_trans H2 Ho) H1)].
  intros Hv. apply covered_check in Hv. congruence.
Defined.

Lemma inactive_feeder_rests_witness :
  let m := FMachine (set_active false (new_feeder true)) (Script [] [] [] ∅) [] in
  fd_exec (run_iteration Scripted.config 7) m = (false, m).
Proof.
  intros m. destruct (inactive_feeder_rests Scripted.config 7 true "a" (uint32_value 1) m eq_refl)
    as (_ & H & _). exact H.
Defined.

Lemma feeder_stop_is_final_witness :
  feeder_active_ (set_active false (new_feeder true)) = false.
Proof.
  eapply (feeder_stop_is_final Scripted.config [3%nat] [[CallShutdown]]
            (set_active false (new_feeder true))); [reflexivity | apply rtc_refl].
Defined.

(** The adjuster reports 57 percent while the feeder registers and sends. *)
Definition feeding_start : logged * list (Pool.thread (E := fdE)) :=
  ((new_feeder true, []), [run_thread (seat_metadata true) 3; reporting_thread true true [57]]).

(** The broker registers, and gives the ids 1, 2 and 3. *)
Definition registering_handle : handler fdE logged := fun X e s =>
  let '(f, log) := s in
  match e in fdE X return X * logged with
  | F_get => (f, (f, log))
  | F_mod g => (tt, (g f, log))
  | F_swap_stored => (stored_values_ f, (set_stored ∅ f, log))
  | F_wait_connected => (true, (set_connected true f, log))
  | F_get_metadata _ => ((Status_OK, []), (f, log))
  | F_register req => ((Status_OK, list_to_map (imap (fun i r => (reg_name r, Z.of_nat i + 1)) req)), (f, log))
  | F_update req => ((Status_OK, ∅), (f, log ++ [req]))
  | F_cond_wait => (true, (f, log))
  | F_notify_all => (tt, (f, log))
  | F_sleep_ms _ => (tt, (f, log))
  end.

Lemma registering_sound X (e : fdE X) s :
  logged_broker X e s (fst (registering_handle X e s)) (snd (registering_handle X e s)).
Proof.
  destruct s as [[v i m a r c] log].
  destruct e; split; cbn; rewrite ?app_nil_r; try done; exists c; reflexivity.
Defined.

Lemma fed_values_have_their_type_witness :
  exists ids f log ts, Pool.learns logged_broker (@ids_told) feeding_start ids ((f, log), ts)
    /\ length log = 1%nat /\ Forall (request_conforms (seat_metadata true) ids) log.
Proof.
  assert (match Pool.sched registering_handle (replicate 3 1%nat ++ replicate 14 0%nat) feeding_start with
          | Some c => (length (snd (fst c)) =? 1)%nat | None => false end = true) as H by (vm_compute; reflexivity).
  destruct (Pool.sched registering_handle _ feeding_start) as [[[f log] ts]|] eqn:E; [|discriminate].
  apply (Pool.sched_steps logged_broker) in E; [|intros X e s'; apply registering_sound].
  destruct (Pool.steps_learn _ (@ids_told) _ _ E) as [ids Hr].
  exists ids, f, log, ts. split_and!; [exact Hr | by apply Nat.eqb_eq |].
  exact (proj2 (fed_values_have_their_type true true [3%nat] [(true, [57])] ids f log ts Hr)).
Defined.

(** A broker whose calls succeed as its script says, and after that always.  It knows nothing before a
    registration, and when an update fails it has been restarted and gives other ids. *)
Definition id_of (restarts : nat) (n : string) : Z := Zpos (encode n) + Z.of_nat restarts.

Lemma id_of_inj restarts n1 n2 : id_of restarts n1 = id_of restarts n2 -> n1 = n2.
Proof. unfold id_of. intros H. apply (encode_inj n1 n2). lia. Defined.

Definition flaky : Type := list bool * nat * list ((string -> Z) * gmap Z Datapoint).

Definition tried {X} (good bad : X) (b : flaky) : X * flaky :=
  match b with
  | ([], k, l) => (good, b)
  | (r :: rs, k, l) => (if r : bool then good else bad, (rs, k, l))
  end.

#[local] Instance flaky_broker : Broker flaky := {|
  br_wait_connected := tried true false;
  br_get_metadata names := tried (Status_OK, []) (down, []);
  br_register req b :=
    tried (Status_OK, foldr (fun r ids => <[reg_name r := id_of (snd (fst b)) (reg_name r)]> ids) ∅ req) (down, ∅) b;
  br_update req b :=
    match b with
    | ([], k, l) => ((Status_OK, ∅), ([], k, l ++ [(id_of k, req)]))
    | (true :: rs, k, l) => ((Status_OK, ∅), (rs, k, l ++ [(id_of k, req)]))
    | (false :: rs, k, l) => ((down, ∅), (rs, S k, l))
    end;
  br_cond_wait b := (true, b);
  br_during b vs := vs |}.

#[local] Instance flaky_recovers : RecoveringBroker flaky Scripted.config "a".
Proof.
  refine (Build_RecoveringBroker _ _ _ _ (fun b => length (filter (fun r => r = false) (fst (fst b))))
    (fun b => id_of (snd (fst b))) snd _ _ _ _ _ _ _).
  - intros [[rs k] l] n1 n2. apply id_of_inj.
  - intros [[[|[] rs] k] l]; cbn; split_and!; try done; exact (le_n _).
  - intros names [[[|[] rs] k] l]; cbn; split_and!; try done; exact (le_n _).
  - intros [[[|[] rs] k] l]; cbn; split_and!; try done; try (exact (le_n _));
      first [ repeat (apply map_Forall_insert_2; [done|]); apply map_Forall_empty
            | intros _ dp [<-|[<-|[]]]; cbn; eauto ].
  - intros req [[[|[] rs] k] l]; cbn; rewrite ?app_nil_r; split_and!; try done; exact (le_n _).
  - intros [[rs k] l]. cbn. done.
  - done.
Defined.


(** The broker has registered the seat's data points; no position has come since. *)
Definition seat_ids : gmap string Z := {[ SEAT_POS_VSS_4 := 1 ]}.

Definition before_feeding : fmachine script :=
  FMachine (new_feeder false) (Script [(Status_OK, [])] [(Status_OK, seat_ids)] [] ∅) [].

Definition after_registering : bool * fmachine script :=
  fd_exec (registerDatapoints (seat_metadata true)) (reconnected before_feeding).

Lemma reconnect_feeds_not_available_witness :
  exists req rest, fm_trace (snd (fd_exec (run_iteration (seat_metadata true) 1) before_feeding))
      = fm_trace (snd after_registering) ++ EvUpdate req :: rest
    /\ req !! 1 = Some (failure_value NOT_AVAILABLE).
Proof.
  pose proof (reconnect_feeds_not_available true 0 before_feeding 1 eq_refl eq_refl) as H.
  change (fd_exec (registerDatapoints (seat_metadata true)) (reconnected before_feeding)) with after_registering in H.
  assert (fst after_registering = true) as Hr by reflexivity.
  assert (feeder_active_ (fm (snd after_registering)) = true) as Ha by reflexivity.
  assert (connected (fm (snd after_registering)) = true) as Hc by reflexivity.
  assert (stored_values_ (fm (snd after_registering)) = ∅) as Hs by reflexivity.
  assert (id_map_ (fm (snd after_registering)) = seat_ids) as Hi by reflexivity.
  destruct after_registering as [registered m2]. cbn [fst snd] in *. apply (H Hr Ha Hc).
  - rewrite Hs. reflexivity.
  - rewrite Hi. reflexivity.
  - intros n. rewrite Hi. unfold seat_ids. intros [Hn _]%lookup_singleton_Some. exact (eq_sym Hn).
Defined.

(** Three signals, the second and third in a full pipe, two interrupted writes. *)
Lemma first_signal_ends_the_wait_witness :
  fst (run kernel_handle wait_for_signal
    (deliver_signals 3 [SIGTERM; SIGINT; SIGINT]
       (snd (run kernel_handle setup_signal_handler (Kernel [] 1 0 2 [] false false false)))))
  = Received 15.
Proof.
  pose proof (first_signal_ends_the_wait 3 SIGTERM [SIGINT; SIGINT] (Kernel [] 1 0 2 [] false false false)
    ltac:(cbn; lia) eq_refl eq_refl eq_refl ltac:(cbn; lia)) as H. cbv zeta in H.
  destruct (run kernel_handle setup_signal_handler _) as [ready k1]. cbn [snd].
  destruct (run kernel_handle wait_for_signal _) as [woken k3]. destruct H as (_ & -> & _). reflexivity.
Defined.

(** ** The subscriber *)

(** A stream to a broker that does not know the path. *)
#[local] Instance no_path : Stream unit := {|
  st_connected s := (true, s);
  st_read s := (None, s);
  st_finish s := (MkStatus NOT_FOUND "" "", s);
  st_set _ s := (SeatAdjuster.OK, s) |}.

Lemma subscriber_gives_up_witness :
  fst (ps_exec (subscriber_Run 9 2 SEAT_POS_VSS_4) (PMachine false false tt [])) = None.
Proof.
  pose proof (subscriber_gives_up 2 SEAT_POS_VSS_4 5 (PMachine false false tt [])
    (fun _ => eq_refl) (fun _ => eq_refl)) as H. change (4 + 5)%nat with 9%nat in H.
  destruct (ps_exec _ _) as [r m']. destruct H as [H _]. exact H.
Defined.

Lemma shutdown_before_run_is_lost_witness :
  subscriptions (p_trace (snd (ps_exec (subscriber_Shutdown;; subscriber_Run 1 2 SEAT_POS_VSS_4)
    (PMachine false false tt [])))) = 1%nat.
Proof. apply (shutdown_before_run_is_lost 2 SEAT_POS_VSS_4 (PMachine false false tt [])); reflexivity. Defined.

Lemma response_commands_witness :
  p_trace (snd (ps_exec (handle_response SEAT_POS_VSS_4
    [Update SEAT_POS_VSS_4 (Some 604); Update "Other" (Some 1); Update SEAT_POS_VSS_4 (Some 1001)])
    (PMachine true true tt []))) = [EvSet 60].
Proof.
  destruct (response_commands SEAT_POS_VSS_4
    [Update SEAT_POS_VSS_4 (Some 604); Update "Other" (Some 1); Update SEAT_POS_VSS_4 (Some 1001)]
    (PMachine true true tt [])
    ltac:(repeat constructor; unfold wf_update; cbn; discriminate || reflexivity)) as [H _].
  rewrite H. reflexivity.
Defined.

(** ** CAN helpers and examples *)

Lemma timer_of_seconds_invalid_witness : fst (timer_of 2500) = 0 /\ 1000000 <= snd (timer_of 2500).
Proof. apply (timer_of_seconds_invalid 2500). lia. Defined.

Lemma wait_misses_rounded_targets_witness :
  fst (run (arrived 605) (wait_for_position false (fun _ => "BASE"%string) 151 1 1 BASE 605 0) tt)
  = Some (TimedOut 151).
Proof. apply (wait_misses_rounded_targets false (fun _ => "BASE"%string) 1 1 605). lia. Defined.

Lemma wait_terminates_witness :
  is_Some (fst (run (arrived 605)
    (wait_for_position false (fun _ => "BASE"%string) 151 1 1 BASE 605 0) tt)).
Proof. apply (wait_terminates false _ (arrived 605) 151 1 1 BASE 605 0 tt); lia. Defined.

Lemma client_waits_for_the_seat_witness :
  fst (wait_for_percent 60) = 0.
Proof.
  pose proof (client_waits_for_the_seat 60 ltac:(lia)) as H.
  destruct (wait_for_percent 60) as [code s]. cbv zeta in H. exact (proj1 H).
Defined.

Lemma broker_target_comes_back_witness :
  values_fed SEAT_POS_VSS_4 (reported (after_target (frames_for 60) SEAT_POS_VSS_4 604)) !! SEAT_POS_VSS_4
  = Some (uint32_value 600).
Proof.
  destruct (broker_target_comes_back SEAT_POS_VSS_4 604 ltac:(lia)) as [H _].
  change (to_percent 604) with 60 in H. exact H.
Defined.

(** ** Sessions *)

Lemma ctl_up_session : in_session ctl_up.
Proof. split; vm_compute; congruence. Defined.

(** Two requests, one refused, a stop, and the loop in between. *)
Definition some_turns : list turn := [Locate; Request 60; Iterate; Request 101; Iterate; Stop; Iterate].

Lemma session_refines_witness :
  fst (exec (session some_turns true) ctl_up) = [42; SEAT_CTRL_OK; SEAT_CTRL_ERR_INVALID; SEAT_CTRL_OK]
  /\ exists frames s,
    sup_session 15000 80 (taken some_turns true ctl_up) (abs ctl_up)
    = (frames, s, [42; SEAT_CTRL_OK; SEAT_CTRL_ERR_INVALID; SEAT_CTRL_OK]).
Proof.
  assert (fst (exec (session some_turns true) ctl_up)
          = [42; SEAT_CTRL_OK; SEAT_CTRL_ERR_INVALID; SEAT_CTRL_OK]) as He by (vm_compute; reflexivity).
  split; [exact He|]. pose proof (session_refines some_turns true ctl_up ctl_up_session) as H.
  destruct (exec (session some_turns true) ctl_up) as [answers m'] eqn:E. destruct H as (frames & H & _).
  cbn [fst] in He. rewrite He in H. exists frames, (abs m'). exact H.
Defined.


Lemma request_at_the_end_is_lost_witness :
  exists m ts, rtc (Pool.step any_env) (successive 60) (m, ts) /\ goal_of (m_ctx m) = None
    /\ last (written (m_trace m)) = Some (cmd_frame 2 80).
Proof.
  destruct (request_at_the_end_is_lost 60) as (m & ts & H1 & _ & _ & H4 & H5 & _); [lia | lia |].
  exists m, ts. split_and!; [exact H1 | exact H5 | exact H4].
Defined.
