(* ===== verification/ProcessWitnesses.v ===== *)
(** * Concrete instances for the whole process

    The process of [Teardown] on the simulated ECU, brought by plans into states that meet the
    hypotheses, and a feeder and a subscriber on one broker client. *)
From Stdlib Require Import ZArith Lia String.
From stdpp Require Import base numbers list strings gmap relations.
From S2P Require Import Prelude Prog CanDbc Os Grpc KuksaClient CanSim VirtualMachine SeatController.
From S2P Require Import CtlMachine ApiSpec Invariants Interleaving SeatAdjuster SeatsService DataBrokerFeeder.
From S2P Require Import FeederSpec SeatService Signals FeederTypes BrokerCalls Process ProcessSpec.
From S2P Require Import ControlLoopSpec ProcessRequests ProcessObjects ProcessThreads LostShutdown ProcessView ProcessExit.
From S2P Require Import Teardown ProcessProgress ProcessScenario.

#[local] Existing Instance dbc_codec.
#[local] Existing Instance dbc_codec_laws.

(** ** The process *)

Lemma sim_reaches l open_stream :
  ends open_stream l (fun _ => true) = true -> exists s ts, rtc (sim_step open_stream) sim_start (s, ts).
Proof. intros H. destruct (ends_reachable _ _ _ H) as ([s ts] & Hc & _). by exists s, ts. Defined.

Lemma process_safe_witness :
  1 <= motor_rpm sim_config <= 254
  /\ exists ids s ts, Pool.learns (proc_step true) (@ids_in) busy_start ids (s, ts)
     /\ snd (pr_feed s) = fed_life
     /\ Forall event_ok (m_trace (pr_ctl s))
     /\ Forall (request_conforms (seat_metadata true) ids) (snd (pr_feed s)).
Proof.
  split; [vm_compute; split; discriminate|].
  destruct (lives_reachable always_up plan_life (fun c => bool_decide (snd (pr_feed (fst c)) = fed_life)))
    as ([s ts] & Hc & H); [vm_compute; reflexivity|].
  apply bool_decide_eq_true in H. destruct (Pool.steps_learn _ (@ids_in) _ _ Hc) as [ids Hr].
  exists ids, s, ts. split; [exact Hr|]. split; [exact H|].
  destruct (process_safe false true true sim_config sim_boot empty_pipe sim_actions busy_load ids s ts)
    as (_ & H2 & _ & H4); [vm_compute; split; discriminate | exact Hr | split; [exact H2 | exact H4]].
Defined.

(** The client's [Move] has been carried over to the controller. *)
Lemma process_moves_on_request_witness :
  exists targets s ts,
    Pool.learns (proc_step true) (@targets_in (seat_pos_name true)) busy_start targets (s, ts)
    /\ option_map g_target (goal_of (m_ctx (pr_ctl s))) = Some 45
    /\ requested [RpcMove (Scenario.move_to 450)] targets 45.
Proof.
  destruct (lives_reachable always_up plan_request (fun c =>
    bool_decide (option_map g_target (goal_of (m_ctx (pr_ctl (fst c)))) = Some 45))) as ([s ts] & Hc & H);
    [vm_compute; reflexivity|].
  apply bool_decide_eq_true in H. destruct (Pool.steps_learn _ (@targets_in (seat_pos_name true)) _ _ Hc) as [targets Hr].
  exists targets, s, ts. split_and!; [exact Hr | exact H |].
  destruct (process_moves_on_request false true true sim_config sim_boot empty_pipe sim_actions busy_load
    targets s ts Hr) as [Hg _].
  cbn [fst] in H. destruct (goal_of (m_ctx (pr_ctl s))) as [g|]; [|discriminate].
  injection H as <-. exact (proj1 (Hg g eq_refl)).
Defined.

(** At the end of the life of the process three requests have been sent. *)
Lemma fed_values_come_from_the_bus_witness :
  1 <= motor_rpm sim_config <= 254
  /\ exists news s ts,
     Pool.learns (proc_step true) (@lessons) busy_start news (s, ts)
     /\ snd (pr_feed s) = fed_life
     /\ Forall (map_Forall (fun id v => exists n, In (Given n id) news
          /\ sourced true (fun p => In (Reported p) news) n v)) (snd (pr_feed s)).
Proof.
  split; [vm_compute; split; discriminate|].
  destruct (lives_reachable always_up plan_life (fun c => bool_decide (snd (pr_feed (fst c)) = fed_life)))
    as ([s ts] & Hc & H); [vm_compute; reflexivity|].
  apply bool_decide_eq_true in H. destruct (Pool.steps_learn _ (@lessons) _ _ Hc) as [news Hr].
  exists news, s, ts. split_and!; [exact Hr | exact H |].
  destruct (fed_values_come_from_the_bus false true true sim_config sim_boot empty_pipe sim_actions busy_load
    news s ts) as [_ Hl]; [vm_compute; split; discriminate | exact Hr | exact Hl].
Defined.

Lemma exit_0_is_orderly_witness :
  exists c, rtc (sim_step true) sim_start c /\ pr_exit (fst c) = Some 0
    /\ pr_phase (fst c) TFeeder = Finished /\ pr_alive (fst c) ObjAdjuster = false.
Proof.
  destruct (ends_reachable true plan_orderly (fun c => bool_decide (pr_exit (fst c) = Some 0)))
    as ([s ts] & Hc & H); [vm_compute; reflexivity|].
  apply bool_decide_eq_true in H. exists (s, ts).
  destruct (exit_0_is_orderly true true "vcan0" "localhost" "50051" "localhost:55555" true
    sim_config sim_boot empty_pipe quiet_load s ts Hc H) as (H1 & _ & _ & _ & _ & H2).
  split_and!; [exact Hc | exact H | exact H1 | apply H2; discriminate].
Defined.

(** The system has given the CTL thread the id 7. *)
Lemma ctl_thread_ends_first_witness :
  exists s ts, rtc (sim_step true) sim_start (s, ts)
    /\ pr_ctl_id s = Some 7 /\ pr_phase s TCtl = Running /\ pr_alive s ObjAdjuster = true.
Proof.
  destruct (ends_reachable true plan_up (fun c =>
    bool_decide (pr_phase (fst c) TCtl = Running) && bool_decide (pr_ctl_id (fst c) = Some 7)))
    as ([s ts] & Hr & H); [vm_compute; reflexivity|].
  apply andb_true_iff in H as [H1 H2]. apply bool_decide_eq_true in H1, H2. cbn [fst] in H1, H2.
  exists s, ts. split_and!; [exact Hr | exact H2 | exact H1 |].
  apply (ctl_thread_ends_first false true true sim_config sim_boot empty_pipe sim_actions quiet_load s ts Hr);
    [rewrite H2; discriminate | exact H1].
Defined.


(** The feeder is gone, so its thread has ended. *)
Lemma threads_end_before_objects_witness :
  exists c, rtc (sim_step true) sim_start c /\ pr_alive (fst c) ObjFeeder = false
    /\ pr_phase (fst c) TFeeder = Finished
    /\ Forall (fun f => excusable f \/ (f = (TCtl, ObjAdjuster) /\ pr_ctl_id (fst c) = Some 0)) (pr_faults (fst c)).
Proof.
  destruct (ends_reachable true plan_callback (fun c => negb (pr_alive (fst c) ObjFeeder))) as ([s ts] & Hc & Ha);
    [vm_compute; reflexivity|].
  apply negb_true_iff in Ha.
  destruct (threads_end_before_objects false true true "vcan0" "localhost" "50051" "localhost:55555" true
    sim_config sim_boot empty_pipe quiet_load s ts Hc) as [H1 H2].
  exists (s, ts). split_and!; [exact Hc | exact Ha | exact (proj1 (H2 ObjFeeder Ha)) | exact H1].
Defined.

Lemma forgotten_shutdown_hangs_witness :
  exists c, rtc (sim_step true) sim_start c /\ stranded c
    /\ forall c', rtc (sim_step true) c c' -> pr_exit (fst c') = None.
Proof.
  destruct (forgotten_reachable 3) as (c & Hc & Hs); [cbn; tauto|].
  exists c. split_and!; [exact Hc | exact Hs |]. intros c' Hc'.
  destruct (forgotten_shutdown_hangs true "vcan0" "localhost" "50051" "localhost:55555" true
    sim_config sim_boot empty_pipe quiet_load c c' Hc Hs Hc') as (_ & _ & H). exact H.
Defined.

(** ** The calls of the broker client *)

(** Every call is answered with success. *)
Definition call_handle : handler callE caller := fun X e =>
  match e in callE X return caller -> X * caller with
  | Kuksa e =>
      match e in kuksaE X return caller -> X * caller with
      | K_get => fun s => (ca_client s, s)
      | K_mod f => fun s => (tt, Caller (f (ca_client s)) (ca_context s) (ca_sent s))
      | Stub e => fun s =>
          (match e in stubE X return X with
           | Channel_WaitForConnected => true
           | Channel_GetState _ => 2
           | Collector_RegisterDatapoints _ _ => (Status_OK, ∅)
           | Collector_UpdateDatapoints _ _ => (Status_OK, ∅)
           | VAL_Subscribe _ _ => tt
           | Broker_GetMetadata _ _ => (Status_OK, [])
           end, Caller (ca_client s) (ca_context s) (ca_sent s ++ context_of e))
      end
  | C_get => fun s => (ca_context s, s)
  | C_put c => fun s => (tt, Caller (ca_client s) c (ca_sent s))
  | Feeder_ e => fun s =>
      (match e in fdE X return X with
       | F_get => new_feeder true
       | F_mod _ => tt
       | F_swap_stored => ∅
       | F_wait_connected => true
       | F_get_metadata _ => (Status_OK, [])
       | F_register _ => (Status_OK, ∅)
       | F_update _ => (Status_OK, ∅)
       | F_cond_wait => true
       | F_notify_all => tt
       | F_sleep_ms _ => tt
       end, s)
  | Subscriber e => fun s =>
      (match e in psE X return X with
       | P_running => true
       | P_set_running _ => tt
       | P_wait_connected => true
       | P_subscribe _ => tt
       | P_read => None
       | P_finish => Status_OK
       | P_set_seat_position _ => SeatAdjuster.OK
       | P_set_context _ => tt
       | P_context => true
       | P_try_cancel => tt
       | P_sleep_s _ => tt
       end, s)
  end.

Lemma call_handle_any X (e : callE X) s : any_call X e s (fst (call_handle X e s)) (snd (call_handle X e s)).
Proof. destruct e as [X e|X e|X e| |c]; [destruct e|..]; by cbn. Defined.

Definition callers_up : caller * list (Pool.thread (E := callE)) :=
  (Caller (new_KuksaClient None (Some "seats"%string) "localhost:55555") None [],
   map (calling_feeder (seat_metadata true)) [2%nat]
   ++ map (calling_subscriber (seat_pos_name true)) [(1, 1)%nat]).

Lemma calls_carry_app_id_witness :
  exists s ts, rtc (Pool.step any_call) callers_up (s, ts)
    /\ Forall (eq [("dapr-app-id"%string, "seats"%string)]) (ca_sent s) /\ length (ca_sent s) = 3%nat.
Proof.
  assert (match Pool.sched call_handle (replicate 18 0%nat ++ replicate 12 1%nat) callers_up with
          | Some c => (length (ca_sent (fst c)) =? 3)%nat | None => false end = true) as H by (vm_compute; reflexivity).
  destruct (Pool.sched call_handle _ callers_up) as [[s ts]|] eqn:E; [|discriminate].
  apply (Pool.sched_steps any_call) in E.
  - exists s, ts. split_and!; [exact E | | by apply Nat.eqb_eq].
    exact (calls_carry_app_id None (Some "seats"%string) "localhost:55555" (seat_metadata true) (seat_pos_name true)
      [2%nat] [(1, 1)%nat] s ts E).
  - intros X e s'. apply call_handle_any.
Defined.
